(** * LibreTV HLS rewriting proxy: a shallow embedding of [api/proxy/[...path].js]

    The development follows the source file top to bottom: the JavaScript
    string primitives the proxy relies on, the URL helpers
    ([getTargetUrlFromPath], [getBaseUrl], [resolveUrl], [rewriteUrlToProxy]),
    the fetcher, the media-playlist rewriter, the master-playlist resolver
    and the request handler.  JavaScript strings are sequences of UTF-16 code
    units, modelled as [list Z]. *)

From Stdlib Require Import ZArith Lia List String Ascii Bool.
From stdpp Require Import base list option gmap.
Import ListNotations.
Local Open Scope Z_scope.

(** ** JavaScript strings *)

Abbreviation jsstring := (list Z).

(** A string literal of the source, as its code units. *)
Definition js (s : string) : jsstring :=
  map (fun a => Z.of_N (N_of_ascii a)) (list_ascii_of_string s).

Definition is_code_unit (c : Z) : bool := (0 <=? c) && (c <? 65536).
Definition is_lead_surrogate (c : Z) : bool := (55296 <=? c) && (c <=? 56319).
Definition is_trail_surrogate (c : Z) : bool := (56320 <=? c) && (c <=? 57343).

(** Every element is a 16-bit code unit. *)
Definition code_units (s : jsstring) : Prop := Forall (fun c => 0 <= c < 65536) s.

(** No unpaired surrogate: what [response.text()] and every other UTF-8
    decoder produces. *)
Fixpoint well_formed_utf16 (s : jsstring) : bool :=
  match s with
  | [] => true
  | c :: rest =>
      if is_lead_surrogate c then
        match rest with
        | d :: rest' => is_trail_surrogate d && well_formed_utf16 rest'
        | [] => false
        end
      else if is_trail_surrogate c then false
      else is_code_unit c && well_formed_utf16 rest
  end.

(** Exceptions the modelled code can raise. *)
Inductive exn : Type :=
  | URIError                       (* encodeURIComponent / decodeURIComponent *)
  | TypeError                      (* new URL(...) on an unparsable input *)
  | RecursionLimitError            (* "Max recursion depth (...) exceeded ..." *)
  | FetchError (url : jsstring)    (* "Failed to fetch target URL ..." *)
  | OutOfFuel.                     (* artefact of the fuelled recursions; never returned, see
                                      [decodeURIComponent_throws] and [handler_errors] *)

Inductive result (A : Type) : Type :=
  | Ok (a : A)
  | Throw (e : exn).
Arguments Ok {A} a.
Arguments Throw {A} e.

Definition rbind {A B} (r : result A) (k : A -> result B) : result B :=
  match r with
  | Ok a => k a
  | Throw e => Throw e
  end.

Definition rmap {A B} (f : A -> B) (r : result A) : result B :=
  rbind r (fun a => Ok (f a)).

Notation "'try!' x ':=' r 'in' k" := (rbind r (fun x => k))
  (at level 10, x name, r at level 100, k at level 200).

(** *** String.prototype helpers *)

Fixpoint startsWith (s p : jsstring) {struct p} : bool :=
  match p with
  | [] => true
  | a :: p' =>
      match s with
      | [] => false
      | b :: s' => (a =? b) && startsWith s' p'
      end
  end.

Definition endsWith (s p : jsstring) : bool :=
  startsWith (rev s) (rev p).

Fixpoint includes (s p : jsstring) : bool :=
  startsWith s p ||
  match s with
  | [] => false
  | _ :: s' => includes s' p
  end.

(** WhiteSpace and LineTerminator code units removed by [String.prototype.trim]. *)
Definition is_js_whitespace (c : Z) : bool :=
  (c =? 9) || (c =? 10) || (c =? 11) || (c =? 12) || (c =? 13) || (c =? 32) ||
  (c =? 160) || (c =? 5760) || ((8192 <=? c) && (c <=? 8202)) ||
  (c =? 8232) || (c =? 8233) || (c =? 8239) || (c =? 8287) || (c =? 12288) ||
  (c =? 65279).

Fixpoint trimStart (s : jsstring) : jsstring :=
  match s with
  | c :: rest => if is_js_whitespace c then trimStart rest else s
  | [] => []
  end.

Definition trim (s : jsstring) : jsstring :=
  rev (trimStart (rev (trimStart s))).

(** [s.split(sep)] for a one-code-unit separator: never the empty array. *)
Fixpoint split (sep : Z) (s : jsstring) : list jsstring :=
  match s with
  | [] => [[]]
  | c :: rest =>
      if c =? sep then [] :: split sep rest
      else match split sep rest with
           | cur :: more => (c :: cur) :: more
           | [] => [[c]]
           end
  end.

(** [parts.join(sep)]. *)
Fixpoint join (sep : jsstring) (parts : list jsstring) : jsstring :=
  match parts with
  | [] => []
  | [p] => p
  | p :: more => p ++ sep ++ join sep more
  end.

(** ** The pattern [/^https?:\/\//i]

    Without the [u] flag, case-insensitive matching canonicalises by code
    unit and never maps a non-ASCII code unit to an ASCII one, so only the
    two ASCII cases of each letter match. *)

Definition ci (c : Z) (upper : Z) : bool := (c =? upper) || (c =? upper + 32).

Definition matches_http (s : jsstring) : bool :=
  match s with
  | h :: t1 :: t2 :: p :: rest =>
      ci h 72 && ci t1 84 && ci t2 84 && ci p 80 &&
      (startsWith rest (js "://") ||
       match rest with
       | s' :: rest' => ci s' 83 && startsWith rest' (js "://")
       | [] => false
       end)
  | _ => false
  end.

(** ** encodeURIComponent / decodeURIComponent (ECMAScript Encode and Decode) *)

Definition is_ascii_alpha (c : Z) : bool :=
  ((65 <=? c) && (c <=? 90)) || ((97 <=? c) && (c <=? 122)).
Definition is_ascii_digit (c : Z) : bool := (48 <=? c) && (c <=? 57).

(** uriUnescaped: alphanumerics and [- _ . ! ~ * ' ( )]. *)
Definition uriUnescaped (c : Z) : bool :=
  is_ascii_alpha c || is_ascii_digit c ||
  (c =? 45) || (c =? 95) || (c =? 46) || (c =? 33) || (c =? 126) ||
  (c =? 42) || (c =? 39) || (c =? 40) || (c =? 41).

(** The characters of an encoded component: unescaped ones and ["%"]. *)
Definition is_escaped_char (c : Z) : bool := uriUnescaped c || (c =? 37).

(** The UTF-8 transformation of a code point. *)
Definition utf8_octets (cp : Z) : list Z :=
  if cp <? 128 then [cp]
  else if cp <? 2048 then [192 + cp / 64; 128 + cp mod 64]
  else if cp <? 65536 then
    [224 + cp / 4096; 128 + (cp / 64) mod 64; 128 + cp mod 64]
  else
    [240 + cp / 262144; 128 + (cp / 4096) mod 64; 128 + (cp / 64) mod 64;
     128 + cp mod 64].

Definition hex_digit (d : Z) : Z := if d <? 10 then 48 + d else 55 + d.

(** ["%" + hex.padStart(2, "0")], upper case. *)
Definition percent_octet (b : Z) : jsstring :=
  [37; hex_digit (b / 16); hex_digit (b mod 16)].

Definition percent_octets (bs : list Z) : jsstring :=
  concat (map percent_octet bs).

Definition UTF16SurrogatePairToCodePoint (lead trail : Z) : Z :=
  (lead - 55296) * 1024 + (trail - 56320) + 65536.

(** Encode(string, uriUnescaped). *)
Fixpoint encodeURIComponent (s : jsstring) : result jsstring :=
  match s with
  | [] => Ok []
  | c :: rest =>
      if uriUnescaped c then rmap (cons c) (encodeURIComponent rest)
      else if is_lead_surrogate c then
        match rest with
        | d :: rest' =>
            if is_trail_surrogate d then
              rmap (app (percent_octets (utf8_octets (UTF16SurrogatePairToCodePoint c d))))
                   (encodeURIComponent rest')
            else Throw URIError
        | [] => Throw URIError
        end
      else if is_trail_surrogate c then Throw URIError
      else rmap (app (percent_octets (utf8_octets c))) (encodeURIComponent rest)
  end.

Definition hex_value (c : Z) : option Z :=
  if is_ascii_digit c then Some (c - 48)
  else if (65 <=? c) && (c <=? 70) then Some (c - 55)
  else if (97 <=? c) && (c <=? 102) then Some (c - 87)
  else None.

Definition ParseHexOctet (h1 h2 : Z) : option Z :=
  match hex_value h1, hex_value h2 with
  | Some a, Some b => Some (16 * a + b)
  | _, _ => None
  end.

(** Number of leading 1 bits of an octet. *)
Definition leading_ones (b : Z) : Z :=
  if b <? 128 then 0
  else if b <? 192 then 1
  else if b <? 224 then 2
  else if b <? 240 then 3
  else if b <? 248 then 4
  else 5.

(** Reads [n] further ["%XX"] escapes; [None] where Decode throws. *)
Fixpoint continuation_octets (n : nat) (s : jsstring) : option (list Z * jsstring) :=
  match n with
  | O => Some ([], s)
  | S n' =>
      match s with
      | c :: h1 :: h2 :: rest =>
          if c =? 37 then
            match ParseHexOctet h1 h2 with
            | Some b =>
                match continuation_octets n' rest with
                | Some (bs, rest') => Some (b :: bs, rest')
                | None => None
                end
            | None => None
            end
          else None
      | _ => None
      end
  end.

Definition is_continuation (b : Z) : bool := (128 <=? b) && (b <? 192).

(** The code point of a well-formed UTF-8 octet sequence; [None] for an
    overlong form, a surrogate, a value above U+10FFFF or a bad trail octet. *)
Definition utf8_code_point (octets : list Z) : option Z :=
  match octets with
  | [b0; b1] =>
      let v := (b0 - 192) * 64 + (b1 - 128) in
      if is_continuation b1 && (128 <=? v) then Some v else None
  | [b0; b1; b2] =>
      let v := (b0 - 224) * 4096 + (b1 - 128) * 64 + (b2 - 128) in
      if is_continuation b1 && is_continuation b2 && (2048 <=? v) &&
         negb ((55296 <=? v) && (v <=? 57343))
      then Some v else None
  | [b0; b1; b2; b3] =>
      let v := (b0 - 240) * 262144 + (b1 - 128) * 4096 + (b2 - 128) * 64 + (b3 - 128) in
      if is_continuation b1 && is_continuation b2 && is_continuation b3 &&
         (65536 <=? v) && (v <=? 1114111)
      then Some v else None
  | _ => None
  end.

Definition UTF16EncodeCodePoint (v : Z) : jsstring :=
  if v <=? 65535 then [v]
  else [(v - 65536) / 1024 + 55296; (v - 65536) mod 1024 + 56320].

(** Decode(string, empty set): the loop over [k], with the remaining
    suffix [s] in place of the index.  Each iteration consumes at least one
    code unit, so [length s] iterations always suffice. *)
Fixpoint Decode (fuel : nat) (s : jsstring) : result jsstring :=
  match s with
  | [] => Ok []
  | c :: rest =>
      match fuel with
      | O => Throw OutOfFuel
      | S fuel' =>
          if c =? 37 then
            match rest with
            | h1 :: h2 :: rest2 =>
                match ParseHexOctet h1 h2 with
                | None => Throw URIError
                | Some b =>
                    let n := leading_ones b in
                    if n =? 0 then rmap (cons b) (Decode fuel' rest2)
                    else if (n =? 1) || (4 <? n) then Throw URIError
                    else
                      match continuation_octets (Z.to_nat (n - 1)) rest2 with
                      | None => Throw URIError
                      | Some (bs, rest3) =>
                          match utf8_code_point (b :: bs) with
                          | None => Throw URIError
                          | Some v => rmap (app (UTF16EncodeCodePoint v)) (Decode fuel' rest3)
                          end
                      end
                end
            | _ => Throw URIError
            end
          else rmap (cons c) (Decode fuel' rest)
      end
  end.

Definition decodeURIComponent (s : jsstring) : result jsstring :=
  Decode (length s) s.

(** ** URL helpers of the proxy *)

(** [getTargetUrlFromPath(encodedPath)]; [None] is JavaScript's [null]. *)
Definition getTargetUrlFromPath (encodedPath : jsstring) : option jsstring :=
  match encodedPath with
  | [] => None
  | _ =>
      match decodeURIComponent encodedPath with
      | Ok decodedUrl =>
          if negb (matches_http decodedUrl) then
            if matches_http encodedPath then Some encodedPath
            else None
          else Some decodedUrl
      | Throw _ => None
      end
  end.

Definition proxy_prefix : jsstring := js "/api/proxy/".

(** [rewriteUrlToProxy(targetUrl)]. *)
Definition rewriteUrlToProxy (targetUrl : jsstring) : result jsstring :=
  match targetUrl with
  | [] => Ok []
  | _ => try! enc := encodeURIComponent targetUrl in Ok (proxy_prefix ++ enc)
  end.

(** ** The URL class ([import { URL } from 'url'])

    A transcription of the URL Standard's basic URL parser, serializer and
    origin, which is what Node's [URL] implements.  The parser runs over code
    points; each state below is the standard's state of the same name,
    written as a function of the input that remains.  Host parsing (IDNA,
    IPv4 and IPv6 literals) is the one part taken as an interface:
    [host_parse isOpaque input] returns the serialized host, or [None] where
    the standard's host parser returns failure. *)

Class HostParser := host_parse : bool -> list Z -> option jsstring.

(** Code points: the integers up to U+10FFFF. *)
Definition code_point_list (s : list Z) : Prop := Forall (fun c => 0 <= c <= 1114111) s.

(** An ASCII string. *)
Definition ascii_string (s : jsstring) : Prop := Forall (fun c => 0 <= c < 128) s.

(** How a serialized special host reads in an authority: it is not empty,
    has none of the delimiters [/ \ ? # @], and has a colon only between
    square brackets (an IPv6 address). *)
Definition host_delimited (h : jsstring) : Prop :=
  h <> [] /\
  Forall (fun c => c <> 47 /\ c <> 92 /\ c <> 63 /\ c <> 35 /\ c <> 64) h /\
  (Forall (fun c => c <> 58 /\ c <> 91) h \/
   exists body, h = [91] ++ body ++ [93] /\ Forall (fun c => c <> 93) body).

(** What the proofs use of the host parser: it returns printable ASCII (a
    domain after domain-to-ASCII, a serialized IPv4 or IPv6 address, or a
    percent-encoded opaque host), and the host of a special url is
    delimited and parses to itself. *)
Class HostParserLaws `{HostParser} : Prop := {
  host_parse_visible :
    forall (isOpaque : bool) (input : list Z) (h : jsstring),
      code_point_list input -> host_parse isOpaque input = Some h ->
      Forall (fun c => 32 < c < 127) h;
  host_parse_delimited :
    forall (input : list Z) (h : jsstring),
      code_point_list input -> host_parse false input = Some h -> host_delimited h;
  host_parse_idempotent :
    forall (input : list Z) (h : jsstring),
      code_point_list input -> host_parse false input = Some h ->
      host_parse false h = Some h
}.

Inductive url_path : Type :=
  | OpaquePath (p : jsstring)
  | ListPath (segments : list jsstring).

Record URLRecord : Type := mkURL {
  url_scheme : jsstring;
  url_username : jsstring;
  url_password : jsstring;
  url_host : option jsstring;
  url_port : option Z;
  url_path_of : url_path;
  url_query : option jsstring;
  url_fragment : option jsstring
}.

Definition set_path (u : URLRecord) (p : url_path) : URLRecord :=
  mkURL (url_scheme u) (url_username u) (url_password u) (url_host u) (url_port u)
        p (url_query u) (url_fragment u).
Definition set_query (u : URLRecord) (q : option jsstring) : URLRecord :=
  mkURL (url_scheme u) (url_username u) (url_password u) (url_host u) (url_port u)
        (url_path_of u) q (url_fragment u).
Definition set_fragment (u : URLRecord) (f : option jsstring) : URLRecord :=
  mkURL (url_scheme u) (url_username u) (url_password u) (url_host u) (url_port u)
        (url_path_of u) (url_query u) f.
Definition set_host (u : URLRecord) (h : option jsstring) : URLRecord :=
  mkURL (url_scheme u) (url_username u) (url_password u) h (url_port u)
        (url_path_of u) (url_query u) (url_fragment u).
Definition set_port (u : URLRecord) (p : option Z) : URLRecord :=
  mkURL (url_scheme u) (url_username u) (url_password u) (url_host u) p
        (url_path_of u) (url_query u) (url_fragment u).
Definition set_credentials (u : URLRecord) (user pass : jsstring) : URLRecord :=
  mkURL (url_scheme u) user pass (url_host u) (url_port u)
        (url_path_of u) (url_query u) (url_fragment u).

(** Every component of the record is an ASCII string, and the port is not
    negative. *)
Record url_ascii (u : URLRecord) : Prop := {
  scheme_ascii : ascii_string (url_scheme u);
  username_ascii : ascii_string (url_username u);
  password_ascii : ascii_string (url_password u);
  host_ascii : forall h, url_host u = Some h -> ascii_string h;
  port_nonneg : forall p, url_port u = Some p -> 0 <= p;
  path_ascii :
    match url_path_of u with
    | OpaquePath p => ascii_string p
    | ListPath segments => Forall ascii_string segments
    end;
  query_ascii : forall q, url_query u = Some q -> ascii_string q;
  fragment_ascii : forall f, url_fragment u = Some f -> ascii_string f
}.

(** Same scheme, credentials, host and port. *)
Definition same_authority (u v : URLRecord) : Prop :=
  url_scheme u = url_scheme v /\ url_username u = url_username v /\
  url_password u = url_password v /\ url_host u = url_host v /\
  url_port u = url_port v.

(** A fresh record with the given scheme. *)
Definition url_with_scheme (scheme : jsstring) : URLRecord :=
  mkURL scheme [] [] None None (ListPath []) None None.

Definition str_eqb (a b : jsstring) : bool := bool_decide (a = b).

Definition default_port (scheme : jsstring) : option Z :=
  if str_eqb scheme (js "ftp") then Some 21
  else if str_eqb scheme (js "http") then Some 80
  else if str_eqb scheme (js "https") then Some 443
  else if str_eqb scheme (js "ws") then Some 80
  else if str_eqb scheme (js "wss") then Some 443
  else None.

Definition is_special_scheme (scheme : jsstring) : bool :=
  str_eqb scheme (js "file") || bool_decide (is_Some (default_port scheme)).

Definition is_special (u : URLRecord) : bool := is_special_scheme (url_scheme u).

Definition has_opaque_path (u : URLRecord) : bool :=
  match url_path_of u with OpaquePath _ => true | ListPath _ => false end.

(** After the port state the scheme, credentials and host are those it
    started with. *)
Definition keeps_host (u u' : URLRecord) : Prop :=
  url_scheme u' = url_scheme u /\ url_username u' = url_username u /\
  url_password u' = url_password u /\ url_host u' = url_host u /\
  (has_opaque_path u = false -> has_opaque_path u' = false).

(** From the host state on: the scheme is kept and the result has a host. *)
Definition gains_host (u u' : URLRecord) : Prop :=
  url_scheme u' = url_scheme u /\ is_Some (url_host u') /\
  (has_opaque_path u = false -> has_opaque_path u' = false).

Definition path_segments (u : URLRecord) : list jsstring :=
  match url_path_of u with OpaquePath _ => [] | ListPath l => l end.

(** The scheme is http or https. *)
Definition is_http_scheme (scheme : jsstring) : bool :=
  str_eqb scheme (js "http") || str_eqb scheme (js "https").

(** *** Input preparation *)

(** Conversion to a USVString, as code points: a surrogate pair is one code
    point, a lone surrogate becomes U+FFFD. *)
Fixpoint code_points (s : jsstring) : list Z :=
  match s with
  | [] => []
  | c :: rest =>
      if is_lead_surrogate c then
        match rest with
        | d :: rest' =>
            if is_trail_surrogate d
            then UTF16SurrogatePairToCodePoint c d :: code_points rest'
            else 65533 :: code_points rest
        | [] => [65533]
        end
      else if is_trail_surrogate c then 65533 :: code_points rest
      else c :: code_points rest
  end.

Definition is_c0_control_or_space (c : Z) : bool := (0 <=? c) && (c <=? 32).
Definition is_ascii_tab_or_newline (c : Z) : bool := (c =? 9) || (c =? 10) || (c =? 13).

Fixpoint strip_leading (s : list Z) : list Z :=
  match s with
  | c :: rest => if is_c0_control_or_space c then strip_leading rest else s
  | [] => []
  end.

(** Leading and trailing C0 control or space removed, then every ASCII tab
    or newline. *)
Definition url_input (input : jsstring) : list Z :=
  filter (fun c => is_ascii_tab_or_newline c = false)
         (rev (strip_leading (rev (strip_leading (code_points input))))).

Definition is_slash (c : Z) : bool := (c =? 47) || (c =? 92).

(** A reference that begins with two slashes or backslashes: against a
    special base it names its own host. *)
Definition is_network_path (s : list Z) : bool :=
  match s with
  | c1 :: c2 :: _ => is_slash c1 && is_slash c2
  | _ => false
  end.

(** *** Percent-encode sets *)

Definition c0_control_set (c : Z) : bool := (c <=? 31) || (126 <? c).
Definition fragment_set (c : Z) : bool :=
  c0_control_set c || (c =? 32) || (c =? 34) || (c =? 60) || (c =? 62) || (c =? 96).
Definition query_set (c : Z) : bool :=
  c0_control_set c || (c =? 32) || (c =? 34) || (c =? 35) || (c =? 60) || (c =? 62).
Definition special_query_set (c : Z) : bool := query_set c || (c =? 39).
Definition path_set (c : Z) : bool :=
  query_set c || (c =? 63) || (c =? 94) || (c =? 96) || (c =? 123) || (c =? 125).
Definition userinfo_set (c : Z) : bool :=
  path_set c || (c =? 47) || (c =? 58) || (c =? 59) || (c =? 61) || (c =? 64) ||
  ((91 <=? c) && (c <=? 93)) || (c =? 124).

(** A code point the path state appends to the buffer as it is. *)
Definition is_path_plain (c : Z) : bool :=
  negb ((c =? 47) || (c =? 92) || (c =? 63) || (c =? 35) || path_set c).

(** UTF-8 percent-encode a code point using a percent-encode set. *)
Definition utf8_percent_encode (in_set : Z -> bool) (c : Z) : jsstring :=
  if in_set c then percent_octets (utf8_octets c) else [c].

Definition percent_encode_all (in_set : Z -> bool) (s : list Z) : jsstring :=
  concat (map (utf8_percent_encode in_set) s).

Definition ascii_lower (c : Z) : Z :=
  if (65 <=? c) && (c <=? 90) then c + 32 else c.

(** *** Path segments *)

Definition is_single_dot (seg : jsstring) : bool :=
  let l := map ascii_lower seg in
  str_eqb l (js ".") || str_eqb l (js "%2e").

Definition is_double_dot (seg : jsstring) : bool :=
  let l := map ascii_lower seg in
  str_eqb l (js "..") || str_eqb l (js ".%2e") || str_eqb l (js "%2e.") ||
  str_eqb l (js "%2e%2e").

Definition is_windows_drive_letter (s : list Z) : bool :=
  match s with
  | [a; b] => is_ascii_alpha a && ((b =? 58) || (b =? 124))
  | _ => false
  end.

Definition is_normalized_windows_drive_letter (s : list Z) : bool :=
  match s with
  | [a; b] => is_ascii_alpha a && (b =? 58)
  | _ => false
  end.

Definition starts_with_windows_drive_letter (s : list Z) : bool :=
  match s with
  | a :: b :: rest =>
      is_windows_drive_letter [a; b] &&
      match rest with
      | [] => true
      | c :: _ => (c =? 47) || (c =? 92) || (c =? 63) || (c =? 35)
      end
  | _ => false
  end.

(** Shorten a url's path. *)
Definition shorten_path (scheme : jsstring) (path : list jsstring) : list jsstring :=
  match path with
  | [seg] =>
      if str_eqb scheme (js "file") && is_normalized_windows_drive_letter seg
      then path else []
  | _ => removelast path
  end.

(** *** The states, from the last to the first *)

Definition fragment_state (u : URLRecord) (input : list Z) : URLRecord :=
  set_fragment u (Some (percent_encode_all fragment_set input)).

Fixpoint query_state (u : URLRecord) (buffer : jsstring) (input : list Z) : URLRecord :=
  match input with
  | [] => set_query u (Some buffer)
  | c :: rest =>
      if c =? 35 then fragment_state (set_query u (Some buffer)) rest
      else
        query_state u
          (buffer ++ utf8_percent_encode
                       (if is_special u then special_query_set else query_set) c)
          rest
  end.

(** What the path state does with [buffer] when it meets a delimiter;
    [slash] tells whether the delimiter is ["/"] (or ["\"] in a special url). *)
Definition close_segment (scheme : jsstring) (path : list jsstring) (buffer : jsstring)
    (slash : bool) : list jsstring :=
  if is_double_dot buffer then
    let p := shorten_path scheme path in
    if slash then p else p ++ [[]]
  else if is_single_dot buffer then
    if slash then path else path ++ [[]]
  else
    let seg :=
      match buffer with
      | a :: _ :: rest =>
          if str_eqb scheme (js "file") && bool_decide (path = []) &&
             is_windows_drive_letter buffer
          then a :: 58 :: rest else buffer
      | _ => buffer
      end in
    path ++ [seg].

Fixpoint path_state (u : URLRecord) (path : list jsstring) (buffer : jsstring)
    (input : list Z) : URLRecord :=
  match input with
  | [] => set_path u (ListPath (close_segment (url_scheme u) path buffer false))
  | c :: rest =>
      if (c =? 47) || (is_special u && (c =? 92)) then
        path_state u (close_segment (url_scheme u) path buffer true) [] rest
      else if c =? 63 then
        query_state (set_path u (ListPath (close_segment (url_scheme u) path buffer false)))
                    [] rest
      else if c =? 35 then
        fragment_state (set_path u (ListPath (close_segment (url_scheme u) path buffer false)))
                       rest
      else path_state u path (buffer ++ utf8_percent_encode path_set c) rest
  end.

Definition path_start_state (u : URLRecord) (input : list Z) : URLRecord :=
  if is_special u then
    match input with
    | c :: rest =>
        if (c =? 47) || (c =? 92) then path_state u (path_segments u) [] rest
        else path_state u (path_segments u) [] input
    | [] => path_state u (path_segments u) [] []
    end
  else
    match input with
    | [] => u
    | c :: rest =>
        if c =? 63 then query_state u [] rest
        else if c =? 35 then fragment_state u rest
        else if c =? 47 then path_state u (path_segments u) [] rest
        else path_state u (path_segments u) [] input
    end.

Definition decimal_value (digits : list Z) : Z :=
  fold_left (fun acc d => 10 * acc + (d - 48)) digits 0.

Definition is_authority_end (u : URLRecord) (c : Z) : bool :=
  (c =? 47) || (c =? 63) || (c =? 35) || (is_special u && (c =? 92)).

Definition close_port (u : URLRecord) (buffer : list Z) (input : list Z)
    : option URLRecord :=
  match buffer with
  | [] => Some (path_start_state u input)
  | _ =>
      let port := decimal_value buffer in
      if 65535 <? port then None
      else
        Some (path_start_state
                (set_port u (if bool_decide (default_port (url_scheme u) = Some port)
                             then None else Some port))
                input)
  end.

Fixpoint port_state (u : URLRecord) (buffer : list Z) (input : list Z)
    : option URLRecord :=
  match input with
  | [] => close_port u buffer []
  | c :: rest =>
      if is_ascii_digit c then port_state u (buffer ++ [c]) rest
      else if is_authority_end u c then close_port u buffer input
      else None
  end.

Section Parser.
Context `{HostParser}.

(** The host state (and hostname state; there is no state override). *)
Fixpoint host_state (u : URLRecord) (buffer : list Z) (insideBrackets : bool)
    (input : list Z) : option URLRecord :=
  match input with
  | [] =>
      if is_special u && bool_decide (buffer = []) then None
      else
        match host_parse (negb (is_special u)) buffer with
        | None => None
        | Some h => Some (path_start_state (set_host u (Some h)) [])
        end
  | c :: rest =>
      if (c =? 58) && negb insideBrackets then
        match buffer with
        | [] => None
        | _ =>
            match host_parse (negb (is_special u)) buffer with
            | None => None
            | Some h => port_state (set_host u (Some h)) [] rest
            end
        end
      else if is_authority_end u c then
        if is_special u && bool_decide (buffer = []) then None
        else
          match host_parse (negb (is_special u)) buffer with
          | None => None
          | Some h => Some (path_start_state (set_host u (Some h)) input)
          end
      else
        host_state u (buffer ++ [c])
          (if c =? 91 then true else if c =? 93 then false else insideBrackets)
          rest
  end.

(** The authority state's loop over the buffer when it meets ["@"]. *)
Fixpoint add_credentials (buffer : list Z) (passwordTokenSeen : bool)
    (user pass : jsstring) : bool * jsstring * jsstring :=
  match buffer with
  | [] => (passwordTokenSeen, user, pass)
  | c :: rest =>
      if (c =? 58) && negb passwordTokenSeen then add_credentials rest true user pass
      else if passwordTokenSeen
      then add_credentials rest true user (pass ++ utf8_percent_encode userinfo_set c)
      else add_credentials rest false (user ++ utf8_percent_encode userinfo_set c) pass
  end.

Fixpoint authority_state (u : URLRecord) (buffer : list Z)
    (atSignSeen passwordTokenSeen : bool) (input : list Z) : option URLRecord :=
  match input with
  | [] =>
      if atSignSeen && bool_decide (buffer = []) then None
      else host_state u [] false buffer
  | c :: rest =>
      if c =? 64 then
        let buffer' := if atSignSeen then js "%40" ++ buffer else buffer in
        let '(seen, user, pass) :=
          add_credentials buffer' passwordTokenSeen (url_username u) (url_password u) in
        authority_state (set_credentials u user pass) [] true seen rest
      else if is_authority_end u c then
        if atSignSeen && bool_decide (buffer = []) then None
        else host_state u [] false (buffer ++ input)
      else authority_state u (buffer ++ [c]) atSignSeen passwordTokenSeen rest
  end.

Fixpoint special_authority_ignore_slashes_state (u : URLRecord) (input : list Z)
    : option URLRecord :=
  match input with
  | c :: rest =>
      if (c =? 47) || (c =? 92) then special_authority_ignore_slashes_state u rest
      else authority_state u [] false false input
  | [] => authority_state u [] false false []
  end.

Definition special_authority_slashes_state (u : URLRecord) (input : list Z)
    : option URLRecord :=
  if startsWith input (js "//")
  then special_authority_ignore_slashes_state u (drop 2 input)
  else special_authority_ignore_slashes_state u input.

Definition copy_authority (u base : URLRecord) : URLRecord :=
  mkURL (url_scheme u) (url_username base) (url_password base) (url_host base)
        (url_port base) (url_path_of u) (url_query u) (url_fragment u).

Definition relative_slash_state (u base : URLRecord) (input : list Z)
    : option URLRecord :=
  match input with
  | c :: rest =>
      if is_special u && ((c =? 47) || (c =? 92))
      then special_authority_ignore_slashes_state u rest
      else if c =? 47 then authority_state u [] false false rest
      else
        let u' := copy_authority u base in
        Some (path_state u' (path_segments u') [] input)
  | [] =>
      let u' := copy_authority u base in
      Some (path_state u' (path_segments u') [] [])
  end.

Definition relative_state (base : URLRecord) (input : list Z) : option URLRecord :=
  let u := url_with_scheme (url_scheme base) in
  match input with
  | c :: rest =>
      if (c =? 47) || (is_special u && (c =? 92)) then relative_slash_state u base rest
      else
        let u' := set_query (set_path (copy_authority u base) (url_path_of base))
                            (url_query base) in
        if c =? 63 then Some (query_state u' [] rest)
        else if c =? 35 then Some (fragment_state u' rest)
        else
          Some (path_state (set_query u' None)
                  (shorten_path (url_scheme u') (path_segments u')) [] input)
  | [] =>
      Some (set_query (set_path (copy_authority u base) (url_path_of base))
                      (url_query base))
  end.

Definition special_relative_or_authority_state (u base : URLRecord) (input : list Z)
    : option URLRecord :=
  if startsWith input (js "//")
  then special_authority_ignore_slashes_state u (drop 2 input)
  else relative_state base input.

Definition path_or_authority_state (u : URLRecord) (input : list Z)
    : option URLRecord :=
  if startsWith input (js "/")
  then authority_state u [] false false (drop 1 input)
  else Some (path_state u (path_segments u) [] input).

Fixpoint opaque_path_state (u : URLRecord) (path : jsstring) (input : list Z)
    : URLRecord :=
  match input with
  | [] => set_path u (OpaquePath path)
  | c :: rest =>
      if c =? 63 then query_state (set_path u (OpaquePath path)) [] rest
      else if c =? 35 then fragment_state (set_path u (OpaquePath path)) rest
      else opaque_path_state u (path ++ utf8_percent_encode c0_control_set c) rest
  end.

Definition base_is_file (base : option URLRecord) : option URLRecord :=
  match base with
  | Some b => if str_eqb (url_scheme b) (js "file") then Some b else None
  | None => None
  end.

Fixpoint file_host_state (u : URLRecord) (buffer : list Z) (input : list Z)
    : option URLRecord :=
  let finish :=
    if is_windows_drive_letter buffer
    then Some (path_state u (path_segments u) buffer input)
    else
      match buffer with
      | [] => Some (path_start_state (set_host u (Some [])) input)
      | _ =>
          match host_parse false buffer with
          | None => None
          | Some h =>
              let h' := if str_eqb h (js "localhost") then [] else h in
              Some (path_start_state (set_host u (Some h')) input)
          end
      end in
  match input with
  | [] => finish
  | c :: rest =>
      if (c =? 47) || (c =? 92) || (c =? 63) || (c =? 35) then finish
      else file_host_state u (buffer ++ [c]) rest
  end.

Definition file_slash_state (u : URLRecord) (base : option URLRecord)
    (input : list Z) : option URLRecord :=
  let other :=
    match base_is_file base with
    | Some b =>
        let u' := set_host u (url_host b) in
        let u'' :=
          match path_segments b with
          | first :: _ =>
              if negb (starts_with_windows_drive_letter input) &&
                 is_normalized_windows_drive_letter first
              then set_path u' (ListPath (path_segments u' ++ [first]))
              else u'
          | [] => u'
          end in
        Some (path_state u'' (path_segments u'') [] input)
    | None => Some (path_state u (path_segments u) [] input)
    end in
  match input with
  | c :: rest =>
      if (c =? 47) || (c =? 92) then file_host_state u [] rest else other
  | [] => other
  end.

Definition file_state (base : option URLRecord) (input : list Z)
    : option URLRecord :=
  let u := set_host (url_with_scheme (js "file")) (Some []) in
  let plain := Some (path_state u (path_segments u) [] input) in
  match input with
  | c :: rest =>
      if (c =? 47) || (c =? 92) then file_slash_state u base rest
      else
        match base_is_file base with
        | Some b =>
            let u' := set_query (set_path (set_host u (url_host b)) (url_path_of b))
                                (url_query b) in
            if c =? 63 then Some (query_state u' [] rest)
            else if c =? 35 then Some (fragment_state u' rest)
            else
              let path :=
                if starts_with_windows_drive_letter input then []
                else shorten_path (url_scheme u') (path_segments u') in
              Some (path_state (set_query u' None) path [] input)
        | None => plain
        end
  | [] =>
      match base_is_file base with
      | Some b =>
          Some (set_query (set_path (set_host u (url_host b)) (url_path_of b))
                          (url_query b))
      | None => plain
      end
  end.

Definition no_scheme_state (base : option URLRecord) (input : list Z)
    : option URLRecord :=
  match base with
  | None => None
  | Some b =>
      if has_opaque_path b then
        if startsWith input (js "#") then
          Some (fragment_state
                  (set_query (set_path (url_with_scheme (url_scheme b)) (url_path_of b))
                             (url_query b))
                  (drop 1 input))
        else None
      else if str_eqb (url_scheme b) (js "file") then file_state base input
      else relative_state b input
  end.

Definition is_scheme_char (c : Z) : bool :=
  is_ascii_alpha c || is_ascii_digit c || (c =? 43) || (c =? 45) || (c =? 46).

Fixpoint scheme_state (buffer : jsstring) (input : list Z)
    : option (jsstring * list Z) :=
  match input with
  | c :: rest =>
      if is_scheme_char c then scheme_state (buffer ++ [ascii_lower c]) rest
      else if c =? 58 then Some (buffer, rest)
      else None
  | [] => None
  end.

(** The scheme start and scheme states: the lower-cased scheme and what
    follows its [":"], or [None] where the parser restarts in the no scheme
    state. *)
Definition scheme_start_state (input : list Z) : option (jsstring * list Z) :=
  match input with
  | c :: rest =>
      if is_ascii_alpha c then scheme_state [ascii_lower c] rest else None
  | [] => None
  end.

(** The reference has no scheme of its own, or the scheme http or https. *)
Definition reference_stays_http (ref : jsstring) : bool :=
  match scheme_start_state (url_input ref) with
  | Some (scheme, _) => is_http_scheme scheme
  | None => true
  end.

(** The basic URL parser, without state override. *)
Definition basic_URL_parse (input : jsstring) (base : option URLRecord)
    : option URLRecord :=
  let s := url_input input in
  match scheme_start_state s with
  | Some (scheme, rest) =>
      let u := url_with_scheme scheme in
      if str_eqb scheme (js "file") then file_state base rest
      else if is_special u then
        match base with
        | Some b =>
            if str_eqb (url_scheme b) scheme
            then special_relative_or_authority_state u b rest
            else special_authority_slashes_state u rest
        | None => special_authority_slashes_state u rest
        end
      else
        if startsWith rest (js "/") then path_or_authority_state u (drop 1 rest)
        else Some (opaque_path_state u [] rest)
  | None => no_scheme_state base s
  end.

(** [new URL(url)] and [new URL(url, base)]. *)
Definition new_URL (url : jsstring) (base : option jsstring) : result URLRecord :=
  match base with
  | None =>
      match basic_URL_parse url None with
      | Some u => Ok u
      | None => Throw TypeError
      end
  | Some b =>
      match basic_URL_parse b None with
      | None => Throw TypeError
      | Some parsedBase =>
          match basic_URL_parse url (Some parsedBase) with
          | Some u => Ok u
          | None => Throw TypeError
          end
      end
  end.

(** *** Serializers and getters *)

Fixpoint decimal_digits_aux (fuel : nat) (n : Z) (acc : jsstring) : jsstring :=
  match fuel with
  | O => acc
  | S fuel' =>
      if n <? 10 then (48 + n) :: acc
      else decimal_digits_aux fuel' (n / 10) ((48 + n mod 10) :: acc)
  end.

(** A port number in decimal. *)
Definition decimal_digits (n : Z) : jsstring := decimal_digits_aux 6 n [].

Definition serialize_path (u : URLRecord) : jsstring :=
  match url_path_of u with
  | OpaquePath p => p
  | ListPath segs => concat (map (fun seg => 47 :: seg) segs)
  end.

Definition serialize_authority (u : URLRecord) (h : jsstring) : jsstring :=
  h ++ match url_port u with
       | Some p => 58 :: decimal_digits p
       | None => []
       end.

Definition includes_credentials (u : URLRecord) : bool :=
  negb (bool_decide (url_username u = [])) || negb (bool_decide (url_password u = [])).

(** The URL serializer: [href] and [toString()]. *)
Definition href (u : URLRecord) : jsstring :=
  url_scheme u ++ [58] ++
  match url_host u with
  | Some h =>
      js "//" ++
      (if includes_credentials u
       then url_username u ++
            (match url_password u with [] => [] | p => 58 :: p end) ++ [64]
       else []) ++
      serialize_authority u h
  | None =>
      match url_path_of u with
      | ListPath ([] :: _ :: _) => js "/."
      | _ => []
      end
  end ++
  serialize_path u ++
  match url_query u with Some q => 63 :: q | None => [] end ++
  match url_fragment u with Some f => 35 :: f | None => [] end.

Definition pathname (u : URLRecord) : jsstring := serialize_path u.

Definition tuple_origin (u : URLRecord) : jsstring :=
  url_scheme u ++ js "://" ++ serialize_authority u (default [] (url_host u)).

Definition has_tuple_origin (scheme : jsstring) : bool :=
  bool_decide (is_Some (default_port scheme)).

(** The serialized origin: a tuple origin for ftp, http, https, ws and wss,
    the origin of the embedded URL for blob, ["null"] otherwise. *)
Definition origin (u : URLRecord) : jsstring :=
  if has_tuple_origin (url_scheme u) then tuple_origin u
  else if str_eqb (url_scheme u) (js "blob") then
    match basic_URL_parse (serialize_path u) None with
    | Some p =>
        if str_eqb (url_scheme p) (js "http") || str_eqb (url_scheme p) (js "https")
        then tuple_origin p else js "null"
    | None => js "null"
    end
  else js "null".

End Parser.

(** The host of the record is an output of the host parser for special
    urls, and its port, if any, fits 16 bits and is not the default port of
    the scheme. *)
Definition parsed_authority `{HostParser} (u : URLRecord) : Prop :=
  (exists input h,
      code_point_list input /\ host_parse false input = Some h /\ url_host u = Some h) /\
  (forall p, url_port u = Some p ->
             0 <= p <= 65535 /\ default_port (url_scheme u) <> Some p).

(** An instance for concrete examples: a host written with ASCII letters,
    digits, ["-"] and ["."] whose last label starts with a letter and which
    has no ["xn--"] label is a domain that the standard's host parser only
    lower-cases (the empty host is accepted for a non-special url only). *)
Definition is_plain_host_char (c : Z) : bool :=
  is_ascii_alpha c || is_ascii_digit c || (c =? 45) || (c =? 46).

Definition plain_host_parse (isOpaque : bool) (input : list Z) : option jsstring :=
  let host := map ascii_lower input in
  if forallb is_plain_host_char input && negb (includes host (js "xn--")) &&
     (if isOpaque then bool_decide (host = input)
      else match last (split 46 host) with
           | Some (c :: _) => is_ascii_alpha c
           | _ => false
           end)
  then Some host else None.

Definition plain_hosts : HostParser := plain_host_parse.

(** ** getBaseUrl and resolveUrl *)

Fixpoint indexOf_from (i : Z) (s p : jsstring) : Z :=
  if startsWith s p then i
  else match s with
       | [] => -1
       | _ :: rest => indexOf_from (i + 1) rest p
       end.

(** [s.indexOf(p)]. *)
Definition indexOf (s p : jsstring) : Z := indexOf_from 0 s p.

Fixpoint lastIndexOf_from (i last : Z) (s : jsstring) (c : Z) : Z :=
  match s with
  | [] => last
  | d :: rest => lastIndexOf_from (i + 1) (if d =? c then i else last) rest c
  end.

(** [s.lastIndexOf(c)] for a one-code-unit [c]. *)
Definition lastIndexOf (s : jsstring) (c : Z) : Z := lastIndexOf_from 0 (-1) s c.

(** [s.substring(0, n)]. *)
Definition substring0 (s : jsstring) (n : Z) : jsstring := take (Z.to_nat n) s.

Section Proxy.
Context `{HostParser}.

Definition getBaseUrl (urlStr : jsstring) : jsstring :=
  match urlStr with
  | [] => []
  | _ =>
      match new_URL urlStr None with
      | Ok parsedUrl =>
          if bool_decide (pathname parsedUrl = []) ||
             str_eqb (pathname parsedUrl) (js "/")
          then origin parsedUrl ++ js "/"
          else
            let pathParts := split 47 (pathname parsedUrl) in
            origin parsedUrl ++ join (js "/") (removelast pathParts) ++ js "/"
      | Throw _ =>
          let lastSlashIndex := lastIndexOf urlStr 47 in
          if indexOf urlStr (js "://") + 2 <? lastSlashIndex
          then substring0 urlStr (lastSlashIndex + 1)
          else urlStr ++ js "/"
      end
  end.

Definition resolveUrl (baseUrl relativeUrl : jsstring) : jsstring :=
  if bool_decide (baseUrl = []) || bool_decide (relativeUrl = []) then relativeUrl
  else if matches_http relativeUrl then relativeUrl
  else
    match new_URL relativeUrl (Some baseUrl) with
    | Ok u => href u
    | Throw _ =>
        if startsWith relativeUrl (js "/") then
          match new_URL baseUrl None with
          | Ok urlObj => origin urlObj ++ relativeUrl
          | Throw _ => relativeUrl
          end
        else
          let baseEndsWithSlash := endsWith baseUrl (js "/") in
          let relStartsWithSlash := startsWith relativeUrl (js "/") in
          if baseEndsWithSlash && relStartsWithSlash
          then baseUrl ++ drop 1 relativeUrl
          else if negb baseEndsWithSlash && negb relStartsWithSlash
          then substring0 baseUrl (lastIndexOf baseUrl 47 + 1) ++ relativeUrl
          else baseUrl ++ relativeUrl
    end.

(** ** The content fetcher *)

Definition default_user_agent : jsstring :=
  js "Mozilla/5.0 (Windows NT 10.0; Win64; x64) AppleWebKit/537.36 (KHTML, like Gecko) Chrome/120.0.0.0 Safari/537.36".

Definition default_accept_language : jsstring := js "zh-CN,zh;q=0.9,en;q=0.8".

(** [getRandomUserAgent(agents)]; [r] stands for the draw of [Math.random()]. *)
Definition getRandomUserAgent (r : nat) (agents : list jsstring) : jsstring :=
  match agents with
  | [] => default_user_agent
  | _ => default default_user_agent (agents !! (r `mod` length agents)%nat)
  end.

(** The headers of an outbound [fetch(targetUrl, { headers, redirect })]. *)
Record OutboundRequest : Type := mkRequest {
  req_url : jsstring;
  req_user_agent : jsstring;
  req_accept : jsstring;
  req_accept_language : jsstring;
  req_referer : jsstring
}.

Record UpstreamResponse : Type := mkResponse {
  resp_ok : bool;
  resp_text : option jsstring;          (* [None]: reading the body fails *)
  resp_content_type : option jsstring;  (* [headers.get('content-type')] *)
  resp_headers : list (jsstring * jsstring)
}.

Inductive fetch_outcome : Type :=
  | Responded (r : UpstreamResponse)
  | TransportFailure.

(** The outside world: what the network answers to the [n]-th outbound
    request, and the [n]-th draw of [Math.random()]. *)
Record World : Type := mkWorld {
  upstream : nat -> OutboundRequest -> fetch_outcome;
  random_draw : nat -> nat
}.

(** Effectful code: the log of outbound requests issued so far is threaded
    through, and a computation ends with a value or an exception. *)
Definition M (A : Type) : Type :=
  list OutboundRequest -> result A * list OutboundRequest.

Definition mret {A} (a : A) : M A := fun log => (Ok a, log).
Definition mthrow {A} (e : exn) : M A := fun log => (Throw e, log).
Definition mlift {A} (r : result A) : M A := fun log => (r, log).
Definition mbind' {A B} (m : M A) (k : A -> M B) : M B :=
  fun log =>
    match m log with
    | (Ok a, log') => k a log'
    | (Throw e, log') => (Throw e, log')
    end.

(** [requestHeaders[key] || fallback]. *)
Definition header_or (requestHeaders : gmap jsstring jsstring) (key fallback : jsstring)
    : jsstring :=
  match requestHeaders !! key with
  | Some (c :: v) => c :: v
  | _ => fallback
  end.

Definition fetchContentWithType (w : World) (targetUrl : jsstring)
    (requestHeaders : gmap jsstring jsstring) (userAgents : list jsstring)
    : M (jsstring * jsstring * list (jsstring * jsstring)) :=
  fun log =>
    let n := length log in
    let userAgent := getRandomUserAgent (random_draw w n) userAgents in
    let acceptLanguage :=
      header_or requestHeaders (js "accept-language") default_accept_language in
    let referer :=
      match requestHeaders !! js "referer" with
      | Some (c :: v) => Ok (c :: v)
      | _ => rmap origin (new_URL targetUrl None)
      end in
    match referer with
    | Throw e => (Throw e, log)
    | Ok referer =>
        let request := mkRequest targetUrl userAgent (js "*/*") acceptLanguage referer in
        let log' := log ++ [request] in
        match upstream w n request with
        | TransportFailure => (Throw (FetchError targetUrl), log')
        | Responded response =>
            if negb (resp_ok response) then (Throw (FetchError targetUrl), log')
            else
              match resp_text response with
              | None => (Throw (FetchError targetUrl), log')
              | Some content =>
                  (Ok (content, default [] (resp_content_type response),
                       resp_headers response), log')
              end
        end
    end.

(** A request built from the empty header object [{}]: the fixed locale,
    and the target's own origin as referer. *)
Definition sent_with_defaults (r : OutboundRequest) : Prop :=
  req_accept_language r = default_accept_language /\
  exists u, new_URL (req_url r) None = Ok u /\ req_referer r = origin u.

(** A request that forwards the client's [accept-language] and [referer]
    where the client sent them. *)
Definition forwards_client_headers (requestHeaders : gmap jsstring jsstring)
    (r : OutboundRequest) : Prop :=
  req_accept_language r
    = header_or requestHeaders (js "accept-language") default_accept_language /\
  match requestHeaders !! js "referer" with
  | Some (c :: v) => req_referer r = c :: v
  | _ => exists u, new_URL (req_url r) None = Ok u /\ req_referer r = origin u
  end.

Definition isM3u8Content (content contentType : jsstring) : bool :=
  (negb (bool_decide (contentType = [])) &&
   (includes contentType (js "application/vnd.apple.mpegurl") ||
    includes contentType (js "application/x-mpegurl") ||
    includes contentType (js "audio/mpegurl")))
  || (negb (bool_decide (content = [])) && startsWith (trim content) (js "#EXTM3U")).

(** ** The media playlist rewriter *)

Fixpoint span_until_quote (s : jsstring) : jsstring * jsstring :=
  match s with
  | [] => ([], [])
  | c :: rest =>
      if c =? 34 then ([], s)
      else let '(a, b) := span_until_quote rest in (c :: a, b)
  end.

(** [line.replace(re, (match, uri) => replacer(uri))] for the pattern
    URI=, a double quote, one or more characters other than a double quote
    (the capture), a double quote: the leftmost match is replaced by URI=
    and the replacer's result between double quotes. *)
Fixpoint replace_URI (replacer : jsstring -> result jsstring) (line : jsstring)
    : result jsstring :=
  match line with
  | [] => Ok []
  | c :: rest =>
      if startsWith line (js "URI=" ++ [34]) then
        let '(uri, tail) := span_until_quote (drop 5 line) in
        if negb (bool_decide (uri = [])) && startsWith tail [34] then
          try! r := replacer uri in
          Ok (js "URI=" ++ [34] ++ r ++ [34] ++ drop 1 tail)
        else rmap (cons c) (replace_URI replacer rest)
      else rmap (cons c) (replace_URI replacer rest)
  end.

Definition processKeyLine (line baseUrl : jsstring) : result jsstring :=
  replace_URI (fun uri => rewriteUrlToProxy (resolveUrl baseUrl uri)) line.

Definition processMapLine (line baseUrl : jsstring) : result jsstring :=
  replace_URI (fun uri => rewriteUrlToProxy (resolveUrl baseUrl uri)) line.

(** The [for] loop of [processMediaPlaylist], over the lines that remain;
    the result is the [output] array. *)
Fixpoint media_lines (baseUrl : jsstring) (lines : list jsstring)
    : result (list jsstring) :=
  match lines with
  | [] => Ok []
  | raw :: rest =>
      let line := trim raw in
      if bool_decide (line = []) && bool_decide (rest = []) then Ok [line]
      else if bool_decide (line = []) then media_lines baseUrl rest
      else if startsWith line (js "#EXT-X-KEY") then
        try! l := processKeyLine line baseUrl in
        rmap (cons l) (media_lines baseUrl rest)
      else if startsWith line (js "#EXT-X-MAP") then
        try! l := processMapLine line baseUrl in
        rmap (cons l) (media_lines baseUrl rest)
      else if startsWith line (js "#EXTINF") then
        rmap (cons line) (media_lines baseUrl rest)
      else if negb (startsWith line (js "#")) then
        try! l := rewriteUrlToProxy (resolveUrl baseUrl line) in
        rmap (cons l) (media_lines baseUrl rest)
      else rmap (cons line) (media_lines baseUrl rest)
  end.

Definition processMediaPlaylist (url content : jsstring) : result jsstring :=
  let baseUrl := getBaseUrl url in
  let lines := split 10 content in
  rmap (join [10]) (media_lines baseUrl lines).

(** What the rewriter emits for a reference [ref] of the playlist: the mount
    prefix and the percent-encoding of the resolved reference.  Decoding
    gives the resolved reference back, and the resolved reference matches
    the pattern when the reference has no scheme other than http or
    https. *)
Definition rewritten_reference (baseUrl ref out : jsstring) : Prop :=
  exists seg,
    out = proxy_prefix ++ seg /\
    encodeURIComponent (resolveUrl baseUrl ref) = Ok seg /\
    decodeURIComponent seg = Ok (resolveUrl baseUrl ref) /\
    (reference_stays_http ref = true -> matches_http (resolveUrl baseUrl ref) = true).

(** The first URI attribute of a line: the leftmost place where the line
    reads URI=, a double quote, one or more characters other than a double
    quote (the value), a double quote.  The result is what stands before
    the attribute, the value, and what stands after the closing quote. *)
Fixpoint first_quoted_URI (line : jsstring) : option (jsstring * jsstring * jsstring) :=
  match line with
  | [] => None
  | c :: rest =>
      let later :=
        match first_quoted_URI rest with
        | Some (pre, uri, post) => Some (c :: pre, uri, post)
        | None => None
        end in
      if startsWith line (js "URI=" ++ [34]) then
        let '(uri, tail) := span_until_quote (drop 5 line) in
        if negb (bool_decide (uri = [])) && startsWith tail [34]
        then Some ([], uri, drop 1 tail)
        else later
      else later
  end.

(** What the rewriter emits for a directive.  A key or map line that has a
    URI attribute is emitted with the value of its first URI attribute
    replaced by the rewritten form of that value, and is otherwise
    unchanged; every other directive is emitted as it is. *)
Definition rewritten_directive (baseUrl line out : jsstring) : Prop :=
  match (if startsWith line (js "#EXT-X-KEY") || startsWith line (js "#EXT-X-MAP")
         then first_quoted_URI line else None) with
  | Some (pre, uri, post) =>
      exists value,
        rewritten_reference baseUrl uri value /\
        out = pre ++ js "URI=" ++ [34] ++ value ++ [34] ++ post
  | None => out = line
  end.


(** ** The master playlist resolver *)

(** The Number values that occur as bandwidths: integers and [+Infinity]. *)
Inductive Number : Type :=
  | Finite (z : Z)
  | Infinity.

(** [a >= b]. *)
Definition number_geb (a b : Number) : bool :=
  match a, b with
  | Infinity, _ => true
  | Finite _, Infinity => false
  | Finite x, Finite y => y <=? x
  end.

(** The Number nearest to a non-negative integer (round to nearest, ties
    to even, in binary64). *)
Definition nearest_double (n : Z) : Number :=
  if n <? 2 ^ 53 then Finite n
  else
    let e := Z.log2 n - 52 in
    let q := n / 2 ^ e in
    let r := n mod 2 ^ e in
    let half := 2 ^ (e - 1) in
    let m := if (half <? r) || ((r =? half) && Z.odd q) then q + 1 else q in
    if 2 ^ 1024 <=? m * 2 ^ e then Infinity else Finite (m * 2 ^ e).

(** [parseInt(digits, 10)] on a non-empty string of decimal digits. *)
Definition parseInt10 (digits : jsstring) : Number :=
  nearest_double (decimal_value digits).

Fixpoint span_digits (s : jsstring) : jsstring :=
  match s with
  | c :: rest => if is_ascii_digit c then c :: span_digits rest else []
  | [] => []
  end.

(** [line.match(/BANDWIDTH=(\d+)/)]: the captured digits of the first match. *)
Fixpoint match_BANDWIDTH (line : jsstring) : option jsstring :=
  match line with
  | [] => None
  | _ :: rest =>
      if startsWith line (js "BANDWIDTH=") then
        match span_digits (drop 10 line) with
        | [] => match_BANDWIDTH rest
        | digits => Some digits
        end
      else match_BANDWIDTH rest
  end.

Definition currentBandwidth_of (line : jsstring) : Number :=
  match match_BANDWIDTH line with
  | Some digits => parseInt10 digits
  | None => Finite 0
  end.

(** The inner [for (j = i + 1; ...)] loop: the first trimmed line that is
    neither empty nor a comment, with the lines after it. *)
Fixpoint find_variant_uri (lines : list jsstring) : option (jsstring * list jsstring) :=
  match lines with
  | [] => None
  | raw :: rest =>
      let line := trim raw in
      if negb (bool_decide (line = [])) && negb (startsWith line (js "#"))
      then Some (line, rest)
      else find_variant_uri rest
  end.

(** The outer [for (i = 0; ...)] loop of [processMasterPlaylist]; [lines]
    holds the lines from index [i] on, and continuing with the lines after
    the variant's URI is the assignment [i = j].  The loop advances by at
    least one line per iteration. *)
Fixpoint scan_stream_inf (fuel : nat) (baseUrl : jsstring) (lines : list jsstring)
    (highestBandwidth : Number) (bestVariantUrl : jsstring) : Number * jsstring :=
  match fuel, lines with
  | S fuel', line :: rest =>
      if startsWith line (js "#EXT-X-STREAM-INF") then
        let currentBandwidth := currentBandwidth_of line in
        match find_variant_uri rest with
        | Some (variantUriLine, after) =>
            if number_geb currentBandwidth highestBandwidth
            then scan_stream_inf fuel' baseUrl after currentBandwidth
                   (resolveUrl baseUrl variantUriLine)
            else scan_stream_inf fuel' baseUrl after highestBandwidth bestVariantUrl
        | None => scan_stream_inf fuel' baseUrl rest highestBandwidth bestVariantUrl
        end
      else scan_stream_inf fuel' baseUrl rest highestBandwidth bestVariantUrl
  | _, _ => (highestBandwidth, bestVariantUrl)
  end.

(** The fallback loop: the first sub-playlist URI. *)
Fixpoint first_m3u8_uri (baseUrl : jsstring) (lines : list jsstring) : jsstring :=
  match lines with
  | [] => []
  | raw :: rest =>
      let line := trim raw in
      if negb (bool_decide (line = [])) && negb (startsWith line (js "#")) &&
         (endsWith line (js ".m3u8") || includes line (js ".m3u8?"))
      then resolveUrl baseUrl line
      else first_m3u8_uri baseUrl rest
  end.

(** Variant selection of [processMasterPlaylist]: [highestBandwidth] and
    [bestVariantUrl] after both loops. *)
Definition select_variant (url content : jsstring) : Number * jsstring :=
  let baseUrl := getBaseUrl url in
  let lines := split 10 content in
  let '(highestBandwidth, bestVariantUrl) :=
    scan_stream_inf (length lines) baseUrl lines (Finite (-1)) [] in
  match bestVariantUrl with
  | [] => (highestBandwidth, first_m3u8_uri baseUrl lines)
  | _ => (highestBandwidth, bestVariantUrl)
  end.

(** The pairs that the scan reads, in one pass from the top: a tag line
    opens a pair, and the first later line that is neither empty nor a
    comment closes it as the pair's URI; the lines in between, tag lines
    included, are passed over.  A tag line with no such line after it makes
    no pair. *)
Fixpoint stream_inf_blocks_from (open_block : option Number) (lines : list jsstring)
    : list (Number * jsstring) :=
  match lines with
  | [] => []
  | raw :: rest =>
      match open_block with
      | Some bandwidth =>
          let line := trim raw in
          if negb (bool_decide (line = [])) && negb (startsWith line (js "#"))
          then (bandwidth, line) :: stream_inf_blocks_from None rest
          else stream_inf_blocks_from (Some bandwidth) rest
      | None =>
          if startsWith raw (js "#EXT-X-STREAM-INF")
          then stream_inf_blocks_from (Some (currentBandwidth_of raw)) rest
          else stream_inf_blocks_from None rest
      end
  end.

Definition stream_inf_blocks (content : jsstring) : list (Number * jsstring) :=
  stream_inf_blocks_from None (split 10 content).

(** *** The attribute list of a tag line

    A tag line is the tag, a colon, and a list of attributes [NAME=value]
    separated by commas; a value may be a quoted string, in which a comma
    does not separate. *)

(** The text before the first [sep], and the text after it (empty when
    there is no [sep]). *)
Fixpoint before_first (sep : Z) (s : jsstring) : jsstring :=
  match s with
  | [] => []
  | c :: rest => if c =? sep then [] else c :: before_first sep rest
  end.

Fixpoint after_first (sep : Z) (s : jsstring) : jsstring :=
  match s with
  | [] => []
  | c :: rest => if c =? sep then rest else after_first sep rest
  end.

(** The attributes of an attribute list: its parts between the commas that
    stand outside double quotes. *)
Fixpoint split_attributes (quoted : bool) (s : jsstring) : list jsstring :=
  match s with
  | [] => [[]]
  | c :: rest =>
      if (c =? 44) && negb quoted then [] :: split_attributes false rest
      else
        match split_attributes (if c =? 34 then negb quoted else quoted) rest with
        | current :: more => (c :: current) :: more
        | [] => [[c]]
        end
  end.

(** The attributes of a tag line, each as it is written. *)
Definition tag_attributes (line : jsstring) : list jsstring :=
  split_attributes false (after_first 58 line).

(** The value of the attribute named BANDWIDTH: of the first attribute
    whose text before [=] is exactly BANDWIDTH, the text after [=]. *)
Fixpoint BANDWIDTH_attribute (attributes : list jsstring) : option jsstring :=
  match attributes with
  | [] => None
  | attribute :: rest =>
      if str_eqb (before_first 61 attribute) (js "BANDWIDTH")
      then Some (after_first 61 attribute)
      else BANDWIDTH_attribute rest
  end.

(** The bandwidth that a tag line declares: the decimal integer that its
    BANDWIDTH attribute gives, as a Number, and [0] when the line has no
    BANDWIDTH attribute. *)
Definition declared_bandwidth (line : jsstring) : Number :=
  match BANDWIDTH_attribute (tag_attributes line) with
  | Some value => parseInt10 value
  | None => Finite 0
  end.

(** A non-empty string of decimal digits. *)
Definition is_decimal (s : jsstring) : bool :=
  negb (bool_decide (s = [])) && forallb is_ascii_digit s.

(** [s] holds the text BANDWIDTH= followed by a decimal digit. *)
Fixpoint has_BANDWIDTH_digits (s : jsstring) : bool :=
  (startsWith s (js "BANDWIDTH=") &&
   match drop 10 s with
   | c :: _ => is_ascii_digit c
   | [] => false
   end) ||
  match s with
  | [] => false
  | _ :: rest => has_BANDWIDTH_digits rest
  end.

(** The attributes read plainly: the value of the BANDWIDTH attribute is a
    decimal integer, and no attribute before it (no attribute at all, when
    there is none named BANDWIDTH) holds the text BANDWIDTH= followed by a
    digit, as [AVERAGE-BANDWIDTH=100] does. *)
Fixpoint bandwidth_read_plainly (attributes : list jsstring) : bool :=
  match attributes with
  | [] => true
  | attribute :: rest =>
      if str_eqb (before_first 61 attribute) (js "BANDWIDTH")
      then is_decimal (after_first 61 attribute)
      else negb (has_BANDWIDTH_digits attribute) && bandwidth_read_plainly rest
  end.

Definition plain_bandwidth_line (line : jsstring) : bool :=
  negb (has_BANDWIDTH_digits (before_first 58 line)) &&
  bandwidth_read_plainly (tag_attributes line).

(** Every [#EXT-X-STREAM-INF] line of the playlist is written plainly. *)
Definition plain_bandwidths (content : jsstring) : bool :=
  forallb (fun raw => negb (startsWith raw (js "#EXT-X-STREAM-INF")) || plain_bandwidth_line raw)
          (split 10 content).

(** The variants as the specification words them: every
    [#EXT-X-STREAM-INF] line, with the value of its BANDWIDTH attribute
    ([0] if absent) and the first following line that is neither empty nor
    a comment as its URI. *)
Fixpoint stream_inf_variants_of (lines : list jsstring) : list (Number * jsstring) :=
  match lines with
  | [] => []
  | raw :: rest =>
      if startsWith raw (js "#EXT-X-STREAM-INF") then
        match find_variant_uri rest with
        | Some (uri, _) => (declared_bandwidth raw, uri) :: stream_inf_variants_of rest
        | None => stream_inf_variants_of rest
        end
      else stream_inf_variants_of rest
  end.

Definition stream_inf_variants (content : jsstring) : list (Number * jsstring) :=
  stream_inf_variants_of (split 10 content).

(** No [#EXT-X-STREAM-INF] line stands after another one and before the
    line that would be its URI; [open_block] tells whether a tag line is
    waiting for its URI. *)
Fixpoint tags_paired_from (open_block : bool) (lines : list jsstring) : bool :=
  match lines with
  | [] => true
  | raw :: rest =>
      if open_block then
        let line := trim raw in
        if negb (bool_decide (line = [])) && negb (startsWith line (js "#"))
        then tags_paired_from false rest
        else negb (startsWith raw (js "#EXT-X-STREAM-INF")) && tags_paired_from true rest
      else tags_paired_from (startsWith raw (js "#EXT-X-STREAM-INF")) rest
  end.

Definition tags_paired (content : jsstring) : bool :=
  tags_paired_from false (split 10 content).

(** One step of "track the best variant so far". *)
Definition keep_best (baseUrl : jsstring) (acc : Number * jsstring)
    (block : Number * jsstring) : Number * jsstring :=
  if number_geb block.1 acc.1 then (block.1, resolveUrl baseUrl block.2) else acc.

Record Env : Type := mkEnv { USER_AGENTS : list jsstring }.

(** [processMasterPlaylist], with the recursive call to [processM3u8Content]
    as a parameter. *)
Definition processMasterPlaylist_with
    (processM3u8Content : jsstring -> jsstring -> Z -> Z -> Env -> M jsstring)
    (w : World) (url content : jsstring) (recursionDepth maxRecursion : Z) (env : Env)
    : M jsstring :=
  if maxRecursion <? recursionDepth then mthrow RecursionLimitError
  else
    let bestVariantUrl := (select_variant url content).2 in
    match bestVariantUrl with
    | [] => mlift (processMediaPlaylist url content)
    | _ =>
        mbind' (fetchContentWithType w bestVariantUrl ∅ (USER_AGENTS env))
          (fun '(variantContent, variantContentType, _) =>
             if negb (isM3u8Content variantContent variantContentType)
             then mlift (processMediaPlaylist bestVariantUrl variantContent)
             else processM3u8Content bestVariantUrl variantContent
                    (recursionDepth + 1) maxRecursion env)
    end.

(** The requests a resolution adds to the log: at most [bound], each built
    from the empty header object. *)
Definition adds_requests (log log' : list OutboundRequest) (bound : nat) : Prop :=
  exists new, log' = log ++ new /\ Forall sent_with_defaults new /\
    (length new <= bound)%nat.

(** [processM3u8Content]; one unit of [fuel] per nested call. *)
Fixpoint processM3u8Content_fuel (fuel : nat) (w : World) (targetUrl content : jsstring)
    (recursionDepth maxRecursion : Z) (env : Env) : M jsstring :=
  match fuel with
  | O => mthrow OutOfFuel
  | S fuel' =>
      if includes content (js "#EXT-X-STREAM-INF") || includes content (js "#EXT-X-MEDIA:")
      then processMasterPlaylist_with (processM3u8Content_fuel fuel' w)
             w targetUrl content recursionDepth maxRecursion env
      else mlift (processMediaPlaylist targetUrl content)
  end.

(** Nested calls run at depths [recursionDepth], ..., [maxRecursion + 1]. *)
Definition enough_fuel (recursionDepth maxRecursion : Z) : nat :=
  S (Z.to_nat (maxRecursion + 1 - recursionDepth)).

Definition processM3u8Content (w : World) (targetUrl content : jsstring)
    (recursionDepth maxRecursion : Z) (env : Env) : M jsstring :=
  processM3u8Content_fuel (enough_fuel recursionDepth maxRecursion) w
    targetUrl content recursionDepth maxRecursion env.

Definition processMasterPlaylist (w : World) (url content : jsstring)
    (recursionDepth maxRecursion : Z) (env : Env) : M jsstring :=
  processMasterPlaylist_with (processM3u8Content w)
    w url content recursionDepth maxRecursion env.

(** The dispatch as a whole: the [isM3u8Content] test of the handler, then
    the master/media test of [processM3u8Content]. *)
Inductive PlaylistKind : Type :=
  | NotPlaylist
  | MediaPlaylist
  | MasterPlaylist.

Definition classify (content contentType : jsstring) : PlaylistKind :=
  if isM3u8Content content contentType then
    if includes content (js "#EXT-X-STREAM-INF") || includes content (js "#EXT-X-MEDIA:")
    then MasterPlaylist else MediaPlaylist
  else NotPlaylist.

(** ** The request handler *)

(** What the handler reads from the environment.  [MAX_RECURSION] is the
    integer that [parseInt] reads (5 by default); a value that [parseInt]
    cannot read gives [NaN], for which the test
    [recursionDepth > maxRecursion] is never true: that case is not part of
    this model. *)
Record Config : Type := mkConfig {
  CACHE_TTL : Z;
  MAX_RECURSION : Z;
  CONFIG_USER_AGENTS : list jsstring
}.

(** The inbound request: the method, [req.query.path] (the segments of the
    catch-all route, the empty array when absent) and [req.headers]. *)
Record Request : Type := mkReq {
  req_method : jsstring;
  req_query_path : list jsstring;
  req_headers : gmap jsstring jsstring
}.

(** The response sent, by status line and body. *)
Inductive Reply : Type :=
  | Preflight                         (* 204, Access-Control-Max-Age *)
  | BadRequest                        (* 400, "Invalid proxy request path." *)
  | PlaylistReply (body : jsstring)   (* 200, application/vnd.apple.mpegurl *)
  | PassThrough (content : jsstring) (headers : list (jsstring * jsstring))  (* 200 *)
  | ServerError (e : exn).            (* 500, "Proxy processing error: ..." *)

(** Upstream headers kept for a non-playlist response (header names are
    ASCII, so [toLowerCase] is [ascii_lower]). *)
Definition forwarded_header (h : jsstring * jsstring) : bool :=
  let key := map ascii_lower h.1 in
  negb (startsWith key (js "access-control-")) && negb (str_eqb key (js "cache-control")).

Definition handler (w : World) (cfg : Config) (req : Request)
    : Reply * list OutboundRequest :=
  if str_eqb (req_method req) (js "OPTIONS") then (Preflight, [])
  else
    let encodedUrlPath := join (js "/") (req_query_path req) in
    match getTargetUrlFromPath encodedUrlPath with
    | None => (BadRequest, [])
    | Some targetUrl =>
        let env := mkEnv (CONFIG_USER_AGENTS cfg) in
        let run :=
          mbind' (fetchContentWithType w targetUrl (req_headers req)
                    (CONFIG_USER_AGENTS cfg))
            (fun '(content, contentType, responseHeaders) =>
               if isM3u8Content content contentType then
                 mbind' (processM3u8Content w targetUrl content 0 (MAX_RECURSION cfg) env)
                   (fun processedM3u8 => mret (PlaylistReply processedM3u8))
               else mret (PassThrough content (filter forwarded_header responseHeaders)))
        in
        match run [] with
        | (Ok reply, log) => (reply, log)
        | (Throw e, log) => (ServerError e, log)
        end
    end.

End Proxy.

(** ** Example data *)

(** A network in which every request is answered by the same master
    playlist, whose only variant is [next.m3u8]. *)
Definition endless_master : jsstring :=
  join [10] [js "#EXTM3U"; js "#EXT-X-STREAM-INF:BANDWIDTH=1"; js "next.m3u8"].

Definition endless_world : World :=
  mkWorld (fun _ _ => Responded (mkResponse true (Some endless_master) None []))
          (fun _ => O).

Definition example_request : Request :=
  mkReq (js "GET") [js "https%3A%2F%2Fa.com%2Fm.m3u8"]
        {[ js "referer" := js "https://ref.example/"; js "accept-language" := js "fr" ]}.

(** A master playlist with three variants, and one with a tie. *)
Definition three_variants : jsstring :=
  join [10] [js "#EXTM3U";
             js "#EXT-X-STREAM-INF:BANDWIDTH=300000"; js "low.m3u8";
             js "#EXT-X-STREAM-INF:BANDWIDTH=800000,RESOLUTION=1280x720"; js "high.m3u8";
             js "#EXT-X-STREAM-INF:BANDWIDTH=500000"; js "mid.m3u8"].

Definition tied_variants : jsstring :=
  join [10] [js "#EXTM3U";
             js "#EXT-X-STREAM-INF:BANDWIDTH=500000"; js "first.m3u8";
             js "#EXT-X-STREAM-INF:BANDWIDTH=500000"; js "second.m3u8"].


(** A media playlist with a key line, a segment and a trailing newline. *)
Definition example_media_playlist : jsstring :=
  join [10] [js "#EXTM3U";
             js "#EXT-X-KEY:METHOD=AES-128,URI=" ++ [34] ++ js "key.bin" ++ [34];
             js "#EXTINF:10,";
             js "seg0.ts";
             []].

(** A master playlist whose first tag line gives the average bandwidth
    before the bandwidth. *)
Definition average_first_variants : jsstring :=
  join [10] [js "#EXTM3U";
             js "#EXT-X-STREAM-INF:AVERAGE-BANDWIDTH=100,BANDWIDTH=900"; js "v1.m3u8";
             js "#EXT-X-STREAM-INF:BANDWIDTH=500"; js "v2.m3u8"].

(** ** Further parts of the proxy *)

(** Whether [fetchContentWithType] fails on what the network answered: no
    response, a status outside 200-299, or a body that cannot be read. *)
Definition fetch_failed (answer : fetch_outcome) : bool :=
  match answer with
  | TransportFailure => true
  | Responded response =>
      negb (resp_ok response) || negb (bool_decide (is_Some (resp_text response)))
  end.

(** The trimmed lines for which the loop of [processMediaPlaylist] pushes a
    line: those that are not empty, and the last one when it is empty. *)
Fixpoint kept_lines (lines : list jsstring) : list jsstring :=
  match lines with
  | [] => []
  | raw :: rest =>
      let line := trim raw in
      if bool_decide (line = []) && bool_decide (rest = []) then [line]
      else if bool_decide (line = []) then kept_lines rest
      else line :: kept_lines rest
  end.

Section KeptLines.
Context `{HostParser}.

(** What the loop pushes for a kept line. *)
Definition rewritten_kept_line (baseUrl line out : jsstring) : Prop :=
  if startsWith line (js "#") then rewritten_directive baseUrl line out
  else (line = [] /\ out = []) \/ (line <> [] /\ rewritten_reference baseUrl line out).

End KeptLines.

(** The test of the fallback loop of [processMasterPlaylist] on a line:
    trimmed, it is not empty, is no comment, and ends with [.m3u8] or holds
    [.m3u8?]. *)
Definition names_sub_playlist (raw : jsstring) : bool :=
  let line := trim raw in
  negb (bool_decide (line = [])) && negb (startsWith line (js "#")) &&
  (endsWith line (js ".m3u8") || includes line (js ".m3u8?")).

(** What a computation run from [log] has done, request by request: it has
    only added requests; each added request asks for any content type and
    carries the user agent drawn for it; and a request whose fetch failed is
    the last one, its failure being the computation's result. *)
Definition issues_well {A : Type} (w : World) (agents : list jsstring)
    (log : list OutboundRequest) (out : result A * list OutboundRequest) : Prop :=
  exists new,
    out.2 = log ++ new /\
    forall (i : nat) (request : OutboundRequest),
      new !! i = Some request ->
      req_accept request = (js "*/*") /\
      req_user_agent request = getRandomUserAgent (random_draw w (length log + i)%nat) agents /\
      (fetch_failed (upstream w (length log + i)%nat request) = true ->
       out.1 = Throw (FetchError (req_url request)) /\ length new = S i).

Section ErrorCauses.
Context `{HostParser}.

(** The last request of [log] was for [url], and its answer was ok with
    the body [content]. *)
Definition last_answer (w : World) (log : list OutboundRequest)
    (url content : jsstring) : Prop :=
  exists request response,
    last log = Some request /\ req_url request = url /\
    upstream w (length log - 1)%nat request = Responded response /\
    resp_ok response = true /\ resp_text response = Some content.

(** What has made the handling of a request for [targetUrl] end with the
    error [e], [log] being the requests sent: rewriting the last answered
    body has thrown; the target, or the variant selected from the last
    answered body, does not parse; the chain of playlists has reached the
    depth bound; the answer to the last request has failed. *)
Definition error_cause (w : World) (targetUrl : jsstring) (maxRecursion : Z)
    (log : list OutboundRequest) (e : exn) : Prop :=
  match e with
  | URIError =>
      exists url content,
        last_answer w log url content /\
        processMediaPlaylist url content = Throw URIError
  | TypeError =>
      (log = [] /\ new_URL targetUrl None = Throw TypeError) \/
      exists url content,
        last_answer w log url content /\
        new_URL (select_variant url content).2 None = Throw TypeError
  | RecursionLimitError => length log = S (Z.to_nat (maxRecursion + 1))
  | FetchError url =>
      exists request,
        last log = Some request /\ req_url request = url /\
        fetch_failed (upstream w (length log - 1)%nat request) = true
  | OutOfFuel => False
  end.

End ErrorCauses.

(** *** The Netlify function ([netlify/functions/proxy.js]) *)

(** [s.replace(p, '')] for a string pattern [p]: the first occurrence of
    [p] is removed. *)
Fixpoint remove_first (p s : jsstring) : jsstring :=
  if startsWith s p then drop (length p) s
  else match s with
       | [] => []
       | c :: rest => c :: remove_first p rest
       end.

(** [rewriteUrlToProxy_Netlify(targetUrl)]. *)
Definition rewriteUrlToProxy_Netlify (targetUrl : jsstring) : result jsstring :=
  match targetUrl with
  | [] => Ok []
  | _ =>
      try! enc := encodeURIComponent targetUrl in
      Ok (js "/.netlify/functions/proxy/" ++ enc)
  end.

(** The handler's extraction of [encodedUrlPath] from [event.path]. *)
Definition netlify_encodedUrlPath (path : jsstring) : jsstring :=
  let encodedUrlPath := remove_first (js "/.netlify/functions/proxy") path in
  let encodedUrlPath :=
    if startsWith path (js "/proxy/") then remove_first (js "/proxy/") path
    else encodedUrlPath in
  if startsWith encodedUrlPath (js "/") then drop 1 encodedUrlPath else encodedUrlPath.

(** *** More example data *)

(** A network that answers the first request with a master playlist and
    every later one with a media playlist. *)
Definition two_level_world : World :=
  mkWorld (fun n _ =>
             Responded (mkResponse true
                          (Some (match n with
                                 | O => three_variants
                                 | S _ => example_media_playlist
                                 end))
                          (Some (js "application/vnd.apple.mpegurl")) []))
          (fun _ => O).

(** A network whose first answer is the master playlist and whose later
    answers are a 404 with an empty body. *)
Definition variant_fails_world : World :=
  mkWorld (fun n _ =>
             match n with
             | O => Responded (mkResponse true (Some three_variants)
                                 (Some (js "application/vnd.apple.mpegurl")) [])
             | S _ => Responded (mkResponse false (Some []) None [])
             end)
          (fun _ => O).

(** A network that answers every request with a media segment. *)
Definition segment_world : World :=
  mkWorld (fun _ _ =>
             Responded (mkResponse true (Some (js "segment")) (Some (js "video/mp2t"))
                          [(js "Content-Type", js "video/mp2t");
                           (js "Access-Control-Allow-Origin", js "*");
                           (js "Cache-Control", js "no-cache")]))
          (fun _ => O).

(** * Properties *)

(** ** Percent-encoding round trip *)

Ltac zbool_step :=
  match goal with
  | |- context [?a <? ?b] => destruct (Z.ltb_spec a b)
  | |- context [?a <=? ?b] => destruct (Z.leb_spec a b)
  | |- context [?a =? ?b] => destruct (Z.eqb_spec a b)
  end; cbn [andb orb negb]; try lia.
Ltac zbool := cbn [andb orb negb]; repeat zbool_step; try reflexivity; try lia.

Lemma hex_value_digit d : 0 <= d < 16 -> hex_value (hex_digit d) = Some d.
Proof.
  intros Hd. unfold hex_value, hex_digit, is_ascii_digit.
  destruct (Z.ltb_spec d 10); zbool; f_equal; lia.
Qed.

Lemma ParseHexOctet_percent b :
  0 <= b < 256 -> ParseHexOctet (hex_digit (b / 16)) (hex_digit (b mod 16)) = Some b.
Proof.
  intros Hb. unfold ParseHexOctet.
  rewrite !hex_value_digit by (Z.div_mod_to_equations; lia).
  f_equal. Z.div_mod_to_equations; lia.
Qed.

Lemma Decode_ascii_escape fuel b rest :
  0 <= b < 128 ->
  Decode (S fuel) (percent_octet b ++ rest) = rmap (cons b) (Decode fuel rest).
Proof.
  intros Hb. unfold percent_octet. cbn [app Decode].
  rewrite Z.eqb_refl, ParseHexOctet_percent by lia.
  unfold leading_ones. destruct (Z.ltb_spec b 128); [|lia]. reflexivity.
Qed.

Lemma Decode_two fuel cp rest :
  128 <= cp < 2048 ->
  Decode (S fuel) (percent_octets (utf8_octets cp) ++ rest)
  = rmap (app (UTF16EncodeCodePoint cp)) (Decode fuel rest).
Proof.
  intros Hcp. unfold utf8_octets.
  destruct (Z.ltb_spec cp 128); [lia|]. destruct (Z.ltb_spec cp 2048); [|lia].
  set (b0 := 192 + cp / 64). set (b1 := 128 + cp mod 64).
  assert (Hb0 : 194 <= b0 < 224) by (subst b0; Z.div_mod_to_equations; lia).
  assert (Hb1 : 128 <= b1 < 192) by (subst b1; Z.div_mod_to_equations; lia).
  assert (Hv : (b0 - 192) * 64 + (b1 - 128) = cp) by (subst b0 b1; Z.div_mod_to_equations; lia).
  unfold percent_octets, percent_octet. cbn [map concat app Decode].
  rewrite Z.eqb_refl, ParseHexOctet_percent by lia.
  replace (leading_ones b0) with 2 by (unfold leading_ones; zbool).
  change (2 =? 0) with false. change ((2 =? 1) || (4 <? 2)) with false.
  change (Z.to_nat (2 - 1)) with 1%nat. cbv iota. cbn [continuation_octets].
  rewrite !Z.eqb_refl, ParseHexOctet_percent by lia.
  unfold utf8_code_point, is_continuation. rewrite Hv.
  destruct (Z.leb_spec 128 b1); [|lia]. destruct (Z.ltb_spec b1 192); [|lia].
  destruct (Z.leb_spec 128 cp); [|lia]. cbn [andb].
  reflexivity.
Qed.

Lemma Decode_three fuel cp rest :
  2048 <= cp < 65536 -> ~ (55296 <= cp <= 57343) ->
  Decode (S fuel) (percent_octets (utf8_octets cp) ++ rest)
  = rmap (app (UTF16EncodeCodePoint cp)) (Decode fuel rest).
Proof.
  intros Hcp Hs. unfold utf8_octets.
  destruct (Z.ltb_spec cp 128); [lia|]. destruct (Z.ltb_spec cp 2048); [lia|].
  destruct (Z.ltb_spec cp 65536); [|lia].
  set (b0 := 224 + cp / 4096). set (b1 := 128 + (cp / 64) mod 64).
  set (b2 := 128 + cp mod 64).
  assert (Hb0 : 224 <= b0 < 240) by (subst b0; Z.div_mod_to_equations; lia).
  assert (Hb1 : 128 <= b1 < 192) by (subst b1; Z.div_mod_to_equations; lia).
  assert (Hb2 : 128 <= b2 < 192) by (subst b2; Z.div_mod_to_equations; lia).
  assert (Hv : (b0 - 224) * 4096 + (b1 - 128) * 64 + (b2 - 128) = cp)
    by (subst b0 b1 b2; Z.div_mod_to_equations; lia).
  unfold percent_octets, percent_octet. cbn [map concat app Decode].
  rewrite Z.eqb_refl, ParseHexOctet_percent by lia.
  replace (leading_ones b0) with 3 by (unfold leading_ones; zbool).
  change (3 =? 0) with false. change ((3 =? 1) || (4 <? 3)) with false.
  change (Z.to_nat (3 - 1)) with 2%nat. cbv iota. cbn [continuation_octets].
  rewrite !Z.eqb_refl, !ParseHexOctet_percent by lia.
  unfold utf8_code_point, is_continuation. rewrite Hv.
  destruct (Z.leb_spec 128 b1); [|lia]. destruct (Z.ltb_spec b1 192); [|lia].
  destruct (Z.leb_spec 128 b2); [|lia]. destruct (Z.ltb_spec b2 192); [|lia].
  destruct (Z.leb_spec 2048 cp); [|lia].
  replace ((55296 <=? cp) && (cp <=? 57343)) with false by (symmetry; zbool).
  reflexivity.
Qed.

Lemma Decode_four fuel cp rest :
  65536 <= cp <= 1114111 ->
  Decode (S fuel) (percent_octets (utf8_octets cp) ++ rest)
  = rmap (app (UTF16EncodeCodePoint cp)) (Decode fuel rest).
Proof.
  intros Hcp. unfold utf8_octets.
  destruct (Z.ltb_spec cp 128); [lia|]. destruct (Z.ltb_spec cp 2048); [lia|].
  destruct (Z.ltb_spec cp 65536); [lia|].
  set (b0 := 240 + cp / 262144). set (b1 := 128 + (cp / 4096) mod 64).
  set (b2 := 128 + (cp / 64) mod 64). set (b3 := 128 + cp mod 64).
  assert (Hb0 : 240 <= b0 < 245) by (subst b0; Z.div_mod_to_equations; lia).
  assert (Hb1 : 128 <= b1 < 192) by (subst b1; Z.div_mod_to_equations; lia).
  assert (Hb2 : 128 <= b2 < 192) by (subst b2; Z.div_mod_to_equations; lia).
  assert (Hb3 : 128 <= b3 < 192) by (subst b3; Z.div_mod_to_equations; lia).
  assert (Hv : (b0 - 240) * 262144 + (b1 - 128) * 4096 + (b2 - 128) * 64 + (b3 - 128) = cp)
    by (subst b0 b1 b2 b3; Z.div_mod_to_equations; lia).
  unfold percent_octets, percent_octet. cbn [map concat app Decode].
  rewrite Z.eqb_refl, ParseHexOctet_percent by lia.
  replace (leading_ones b0) with 4 by (unfold leading_ones; zbool).
  change (4 =? 0) with false. change ((4 =? 1) || (4 <? 4)) with false.
  change (Z.to_nat (4 - 1)) with 3%nat. cbv iota. cbn [continuation_octets].
  rewrite !Z.eqb_refl, !ParseHexOctet_percent by lia.
  unfold utf8_code_point, is_continuation. rewrite Hv.
  destruct (Z.leb_spec 128 b1); [|lia]. destruct (Z.ltb_spec b1 192); [|lia].
  destruct (Z.leb_spec 128 b2); [|lia]. destruct (Z.ltb_spec b2 192); [|lia].
  destruct (Z.leb_spec 128 b3); [|lia]. destruct (Z.ltb_spec b3 192); [|lia].
  destruct (Z.leb_spec 65536 cp); [|lia]. destruct (Z.leb_spec cp 1114111); [|lia].
  reflexivity.
Qed.

(** One Decode iteration undoes the escape sequence of one code point. *)
Lemma Decode_code_point fuel cp rest :
  0 <= cp <= 1114111 -> ~ (55296 <= cp <= 57343) ->
  Decode (S fuel) (percent_octets (utf8_octets cp) ++ rest)
  = rmap (app (UTF16EncodeCodePoint cp)) (Decode fuel rest).
Proof.
  intros Hcp Hs.
  destruct (Z.lt_ge_cases cp 128).
  - unfold utf8_octets. destruct (Z.ltb_spec cp 128); [|lia].
    unfold percent_octets. cbn [map concat]. rewrite app_nil_r.
    rewrite Decode_ascii_escape by lia.
    unfold UTF16EncodeCodePoint. destruct (Z.leb_spec cp 65535); [|lia]. reflexivity.
  - destruct (Z.lt_ge_cases cp 2048); [apply Decode_two; lia|].
    destruct (Z.lt_ge_cases cp 65536); [apply Decode_three; lia|].
    apply Decode_four; lia.
Qed.

Lemma length_percent_octets_pos cp : (1 <= length (percent_octets (utf8_octets cp)))%nat.
Proof.
  unfold utf8_octets.
  destruct (cp <? 128); [|destruct (cp <? 2048); [|destruct (cp <? 65536)]];
    cbn; lia.
Qed.

Lemma uriUnescaped_not_percent c : uriUnescaped c = true -> (c =? 37) = false.
Proof.
  intros H. destruct (Z.eqb_spec c 37) as [->|]; [discriminate H|reflexivity].
Qed.

Lemma surrogate_pair_roundtrip c d :
  is_lead_surrogate c = true -> is_trail_surrogate d = true ->
  let cp := UTF16SurrogatePairToCodePoint c d in
  65536 <= cp <= 1114111 /\ UTF16EncodeCodePoint cp = [c; d].
Proof.
  unfold is_lead_surrogate, is_trail_surrogate, UTF16SurrogatePairToCodePoint,
    UTF16EncodeCodePoint.
  intros Hc Hd. apply andb_prop in Hc as [H1 H2]. apply andb_prop in Hd as [H3 H4].
  apply Z.leb_le in H1, H2, H3, H4. cbv zeta.
  split; [lia|].
  destruct (Z.leb_spec ((c - 55296) * 1024 + (d - 56320) + 65536) 65535); [lia|].
  f_equal; [|f_equal]; Z.div_mod_to_equations; lia.
Qed.

Lemma hex_digit_unescaped d : 0 <= d < 16 -> uriUnescaped (hex_digit d) = true.
Proof.
  intros Hd. unfold hex_digit, uriUnescaped, is_ascii_alpha, is_ascii_digit.
  destruct (Z.ltb_spec d 10); zbool.
Qed.

Lemma percent_octets_chars bs :
  Forall (fun b => 0 <= b < 256) bs ->
  Forall (fun c => is_escaped_char c = true) (percent_octets bs).
Proof.
  induction 1 as [|b bs Hb _ IH]; [constructor|].
  unfold percent_octets. cbn [map concat]. unfold percent_octet at 1.
  cbn [app].
  apply Forall_cons; split; [reflexivity|].
  apply Forall_cons; split.
  { unfold is_escaped_char. rewrite hex_digit_unescaped; [reflexivity|].
    Z.div_mod_to_equations; lia. }
  apply Forall_cons; split.
  { unfold is_escaped_char. rewrite hex_digit_unescaped; [reflexivity|].
    Z.div_mod_to_equations; lia. }
  exact IH.
Qed.

Lemma utf8_octets_range cp :
  0 <= cp <= 1114111 -> Forall (fun b => 0 <= b < 256) (utf8_octets cp).
Proof.
  intros Hcp. unfold utf8_octets.
  destruct (Z.ltb_spec cp 128); [|destruct (Z.ltb_spec cp 2048); [|destruct (Z.ltb_spec cp 65536)]];
    repeat (apply Forall_cons; split; [Z.div_mod_to_equations; lia|]); apply Forall_nil; exact I.
Qed.

Lemma encode_decode_aux n : forall s,
  (length s <= n)%nat -> well_formed_utf16 s = true ->
  exists e, encodeURIComponent s = Ok e /\
    Forall (fun c => is_escaped_char c = true) e /\
    forall fuel, (length e <= fuel)%nat -> Decode fuel e = Ok s.
Proof.
  induction n as [|n IH]; intros s Hlen Hwf.
  - destruct s; [|simpl in Hlen; lia]. exists []. split; [reflexivity|].
    split; [constructor|]. intros fuel _. destruct fuel; reflexivity.
  - destruct s as [|c rest].
    { exists []. split; [reflexivity|]. split; [constructor|].
      intros fuel _. destruct fuel; reflexivity. }
    cbn [encodeURIComponent]. cbn [well_formed_utf16] in Hwf.
    destruct (uriUnescaped c) eqn:Hun.
    + assert (Hrest : well_formed_utf16 rest = true).
      { destruct (is_lead_surrogate c) eqn:Hl.
        - exfalso. unfold uriUnescaped, is_ascii_alpha, is_ascii_digit in Hun.
          unfold is_lead_surrogate in Hl. apply andb_prop in Hl as [Hl1 Hl2].
          apply Z.leb_le in Hl1, Hl2. revert Hun. zbool; discriminate.
        - destruct (is_trail_surrogate c); [discriminate|].
          apply andb_prop in Hwf as [_ ?]. assumption. }
      destruct (IH rest) as (e & He & Hch & Hd); [simpl in Hlen; lia|assumption|].
      exists (c :: e). rewrite He. split; [reflexivity|]. split.
      { apply Forall_cons; split; [|assumption]. unfold is_escaped_char.
        rewrite Hun. reflexivity. }
      intros [|fuel] Hf; [simpl in Hf; lia|].
      cbn [Decode]. rewrite (uriUnescaped_not_percent _ Hun).
      rewrite Hd by (simpl in Hf; lia). reflexivity.
    + destruct (is_lead_surrogate c) eqn:Hl.
      * destruct rest as [|d rest']; [discriminate|].
        apply andb_prop in Hwf as [Ht Hrest]. rewrite Ht.
        destruct (IH rest') as (e & He & Hch & Hd); [simpl in Hlen; lia|assumption|].
        destruct (surrogate_pair_roundtrip c d Hl Ht) as [Hcp Hpair].
        eexists. rewrite He. split; [reflexivity|]. split.
        { apply Forall_app; split; [|assumption].
          apply percent_octets_chars, utf8_octets_range. lia. }
        intros [|fuel] Hf.
        { pose proof (length_percent_octets_pos (UTF16SurrogatePairToCodePoint c d)).
          rewrite length_app in Hf. lia. }
        rewrite Decode_code_point by lia.
        rewrite Hd, Hpair; [reflexivity|].
        pose proof (length_percent_octets_pos (UTF16SurrogatePairToCodePoint c d)).
        rewrite length_app in Hf. lia.
      * destruct (is_trail_surrogate c) eqn:Ht; [discriminate|].
        apply andb_prop in Hwf as [Hcu Hrest].
        destruct (IH rest) as (e & He & Hch & Hd); [simpl in Hlen; lia|assumption|].
        unfold is_code_unit in Hcu. apply andb_prop in Hcu as [Hc1 Hc2].
        apply Z.leb_le in Hc1. apply Z.ltb_lt in Hc2.
        assert (Hns : ~ (55296 <= c <= 57343)).
        { unfold is_lead_surrogate in Hl. unfold is_trail_surrogate in Ht.
          revert Hl Ht. zbool; intros; try discriminate; lia. }
        eexists. rewrite He. split; [reflexivity|]. split.
        { apply Forall_app; split; [|assumption].
          apply percent_octets_chars, utf8_octets_range. lia. }
        intros [|fuel] Hf.
        { pose proof (length_percent_octets_pos c). rewrite length_app in Hf. lia. }
        rewrite Decode_code_point by lia.
        rewrite Hd.
        -- unfold UTF16EncodeCodePoint. destruct (Z.leb_spec c 65535); [|lia]. reflexivity.
        -- pose proof (length_percent_octets_pos c). rewrite length_app in Hf. lia.
Qed.

(** [decodeURIComponent] undoes [encodeURIComponent] on every well-formed
    string, and the encoded form is made of unescaped characters and ["%"]. *)
Lemma encode_decode s :
  well_formed_utf16 s = true ->
  exists e, encodeURIComponent s = Ok e /\
    Forall (fun c => is_escaped_char c = true) e /\
    decodeURIComponent e = Ok s.
Proof.
  intros Hwf. destruct (encode_decode_aux (length s) s (le_n _) Hwf) as (e & He & Hch & Hd).
  exists e. split; [assumption|]. split; [assumption|]. apply Hd. lia.
Qed.

Lemma matches_http_nonempty s : matches_http s = true -> s <> [].
Proof. intros H ->. discriminate H. Qed.

(** C1. For every absolute http(s) URL [u] (a well-formed string matching
    the pattern), [rewriteUrlToProxy u] is the mount prefix followed by one
    path segment, and [getTargetUrlFromPath] applied to that segment returns
    [u] itself. *)
Theorem C1_proxy_path_round_trip (u : jsstring) :
  well_formed_utf16 u = true ->
  matches_http u = true ->
  exists segment,
    rewriteUrlToProxy u = Ok (proxy_prefix ++ segment) /\
    Forall (fun c => c <> 47) segment /\
    getTargetUrlFromPath segment = Some u.
Proof.
  intros Hwf Hm.
  destruct (encode_decode u Hwf) as (e & He & Hch & Hd).
  pose proof (matches_http_nonempty u Hm) as Hne.
  exists e. split; [|split].
  - unfold rewriteUrlToProxy. destruct u; [congruence|]. rewrite He. reflexivity.
  - eapply Forall_impl; [exact Hch|]. intros c Hc ->. discriminate Hc.
  - unfold getTargetUrlFromPath. destruct e as [|c e'].
    + cbv in Hd. congruence.
    + rewrite Hd, Hm. reflexivity.
Qed.

Lemma C1_proxy_path_round_trip_witness :
  exists segment,
    rewriteUrlToProxy (js "https://host/a b/" ++ [233; 20013; 55357; 56832] ++ js ".m3u8?x=1&y=%")
      = Ok (proxy_prefix ++ segment) /\
    Forall (fun c => c <> 47) segment /\
    getTargetUrlFromPath segment
      = Some (js "https://host/a b/" ++ [233; 20013; 55357; 56832] ++ js ".m3u8?x=1&y=%").
Proof.
  apply (C1_proxy_path_round_trip
           (js "https://host/a b/" ++ [233; 20013; 55357; 56832] ++ js ".m3u8?x=1&y=%"));
    vm_compute; reflexivity.
Defined.

(** ** getTargetUrlFromPath *)

Lemma Decode_plain_prefix p : forall fuel s d,
  Forall (fun c => c <> 37) p ->
  Decode fuel (p ++ s) = Ok d -> exists d', d = p ++ d'.
Proof.
  induction p as [|c p IH]; intros fuel s d Hp Hd.
  - exists d. reflexivity.
  - apply Forall_cons in Hp as [Hc Hp].
    destruct fuel as [|fuel]; cbn [app Decode] in Hd; [discriminate|].
    destruct (Z.eqb_spec c 37); [contradiction|].
    destruct (Decode fuel (p ++ s)) as [d0|] eqn:Hd0; cbn [rmap rbind] in Hd;
      [|discriminate].
    injection Hd as <-. destruct (IH _ _ _ Hp Hd0) as [d' ->].
    exists d'. reflexivity.
Qed.

Lemma ci_not_percent c upper : 64 < upper -> ci c upper = true -> c <> 37.
Proof. unfold ci. intros Hu H ->. revert H. zbool; discriminate. Qed.

Lemma startsWith_app s p : startsWith s p = true -> exists rest, s = p ++ rest.
Proof.
  revert s. induction p as [|a p IH]; intros s H.
  - exists s. reflexivity.
  - destruct s as [|b s]; [discriminate|]. cbn [startsWith] in H.
    apply andb_prop in H as [Hab H]. apply Z.eqb_eq in Hab as ->.
    destruct (IH _ H) as [rest ->]. exists rest. reflexivity.
Qed.

Lemma startsWith_prefix p rest : startsWith (p ++ rest) p = true.
Proof. induction p as [|a p IH]; [reflexivity|]. cbn. rewrite Z.eqb_refl. exact IH. Qed.

(** A match of the pattern only looks at a prefix free of ["%"]. *)
Lemma matches_http_prefix s :
  matches_http s = true ->
  exists p rest, s = p ++ rest /\ Forall (fun c => c <> 37) p /\
    forall rest', matches_http (p ++ rest') = true.
Proof.
  destruct s as [|h [|t1 [|t2 [|p rest]]]]; try discriminate.
  cbn [matches_http]. change (js "://") with [58; 47; 47]. intros H.
  apply andb_prop in H as [H Hrest]. apply andb_prop in H as [H Hp].
  apply andb_prop in H as [H Ht2]. apply andb_prop in H as [Hh Ht1].
  assert (Hh' := ci_not_percent h 72 ltac:(lia) Hh).
  assert (Ht1' := ci_not_percent t1 84 ltac:(lia) Ht1).
  assert (Ht2' := ci_not_percent t2 84 ltac:(lia) Ht2).
  assert (Hp' := ci_not_percent p 80 ltac:(lia) Hp).
  apply orb_prop in Hrest as [Hrest|Hrest].
  - apply startsWith_app in Hrest as [r ->].
    exists [h; t1; t2; p; 58; 47; 47], r. split; [reflexivity|]. split.
    + repeat (apply Forall_cons; split; [assumption || lia|]). constructor.
    + intros r'. cbn [app matches_http]. change (js "://") with [58; 47; 47].
      rewrite Hh, Ht1, Ht2, Hp. reflexivity.
  - destruct rest as [|s' rest']; [discriminate|].
    apply andb_prop in Hrest as [Hs Hrest].
    assert (Hs' := ci_not_percent s' 83 ltac:(lia) Hs).
    apply startsWith_app in Hrest as [r ->].
    exists [h; t1; t2; p; s'; 58; 47; 47], r. split; [reflexivity|]. split.
    + repeat (apply Forall_cons; split; [assumption || lia|]). constructor.
    + intros r'. cbn [app matches_http]. change (js "://") with [58; 47; 47].
      rewrite Hh, Ht1, Ht2, Hp, Hs. cbn [andb].
      apply orb_true_iff. right. reflexivity.
Qed.

(** The raw-path branch of [getTargetUrlFromPath] is never taken: a raw
    segment that matches the pattern still matches after decoding. *)
Lemma decoded_matches_when_raw_matches s d :
  decodeURIComponent s = Ok d -> matches_http s = true -> matches_http d = true.
Proof.
  intros Hd Hm. destruct (matches_http_prefix s Hm) as (p & rest & -> & Hp & Hall).
  destruct (Decode_plain_prefix _ _ _ _ Hp Hd) as [d' ->]. apply Hall.
Qed.

(** C6 (as the code has it). [getTargetUrlFromPath] returns the decoded
    segment when decoding succeeds and the decoded form matches the pattern,
    and null in every other case: in particular whenever decoding fails,
    whether or not the raw segment matches. *)
Theorem C6_getTargetUrlFromPath_decoded_or_null (s : jsstring) :
  getTargetUrlFromPath s =
  match decodeURIComponent s with
  | Ok d => if matches_http d then Some d else None
  | Throw _ => None
  end.
Proof.
  unfold getTargetUrlFromPath. destruct s as [|c s]; [reflexivity|].
  destruct (decodeURIComponent (c :: s)) as [d|e] eqn:Hd; [|reflexivity].
  destruct (matches_http d) eqn:Hmd; [reflexivity|]. cbn [negb].
  destruct (matches_http (c :: s)) eqn:Hms; [|reflexivity].
  rewrite (decoded_matches_when_raw_matches _ _ Hd Hms) in Hmd. discriminate.
Qed.

(** C6, counterexample: decoding the segment [http://a/%] fails, the raw
    segment matches the pattern, and the result is null, not the segment. *)
Lemma C6_raw_fallback_counterexample :
  js "http://a/%" <> [] /\
  decodeURIComponent (js "http://a/%") = Throw URIError /\
  matches_http (js "http://a/%") = true /\
  getTargetUrlFromPath (js "http://a/%") = None.
Proof. repeat split; try reflexivity. discriminate. Qed.

(** ** Playlist classification *)

(** C7 (as the code has it). A body containing [#EXT-X-STREAM-INF] is
    classified as a master playlist exactly when it passes the
    [isM3u8Content] test; otherwise it is not a playlist.  It is never a
    media playlist. *)
Theorem C7_stream_inf_master_when_test_passes (content contentType : jsstring) :
  includes content (js "#EXT-X-STREAM-INF") = true ->
  classify content contentType =
  if isM3u8Content content contentType then MasterPlaylist else NotPlaylist.
Proof. intros Hinc. unfold classify. rewrite Hinc. reflexivity. Qed.

Lemma C7_stream_inf_master_when_test_passes_witness :
  classify (js "#EXTM3U" ++ [10] ++ js "#EXT-X-STREAM-INF:BANDWIDTH=1" ++ [10] ++ js "v.m3u8")
           (js "text/plain") =
  if isM3u8Content
       (js "#EXTM3U" ++ [10] ++ js "#EXT-X-STREAM-INF:BANDWIDTH=1" ++ [10] ++ js "v.m3u8")
       (js "text/plain")
  then MasterPlaylist else NotPlaylist.
Proof.
  apply (C7_stream_inf_master_when_test_passes
           (js "#EXTM3U" ++ [10] ++ js "#EXT-X-STREAM-INF:BANDWIDTH=1" ++ [10] ++ js "v.m3u8")
           (js "text/plain")).
  vm_compute. reflexivity.
Defined.

(** C7, counterexample: an HTML body that mentions [#EXT-X-STREAM-INF],
    served as [text/html], is not a playlist. *)
Lemma C7_html_body_counterexample :
  includes (js "<html>#EXT-X-STREAM-INF</html>") (js "#EXT-X-STREAM-INF") = true /\
  classify (js "<html>#EXT-X-STREAM-INF</html>") (js "text/html") = NotPlaylist.
Proof. split; vm_compute; reflexivity. Qed.

(** ** Outbound requests *)

Section Requests.
Context `{HostParser}.

(** What one call of [fetchContentWithType] does to the request log. *)
Lemma fetchContentWithType_log w targetUrl requestHeaders userAgents log r log' :
  fetchContentWithType w targetUrl requestHeaders userAgents log = (r, log') ->
  (log' = log /\ r = Throw TypeError) \/
  (exists request,
      log' = log ++ [request] /\ req_url request = targetUrl /\
      forwards_client_headers requestHeaders request).
Proof.
  unfold fetchContentWithType. intros Hf.
  remember (match requestHeaders !! js "referer" with
            | Some (c :: v) => Ok (c :: v)
            | _ => rmap origin (new_URL targetUrl None)
            end) as referer eqn:Href.
  destruct referer as [referer|e].
  - right.
    exists (mkRequest targetUrl
              (getRandomUserAgent (random_draw w (length log)) userAgents)
              (js "*/*")
              (header_or requestHeaders (js "accept-language") default_accept_language)
              referer).
    split; [|split; [reflexivity|]].
    + destruct (upstream w _ _) as [resp|]; [|congruence].
      destruct (resp_ok resp); cbn [negb] in Hf; [|congruence].
      destruct (resp_text resp); congruence.
    + unfold forwards_client_headers. cbn [req_accept_language req_referer req_url].
      split; [reflexivity|].
      destruct (requestHeaders !! js "referer") as [[|c v]|]; [| congruence |];
        (destruct (new_URL targetUrl None) as [u|]; cbn [rmap rbind] in Href;
         [|discriminate]; exists u; split; [reflexivity|congruence]).
  - left. injection Hf as <- <-.
    destruct (requestHeaders !! js "referer") as [[|c v]|]; [|discriminate|];
      (unfold new_URL in Href; destruct (basic_URL_parse targetUrl None);
       cbn [rmap rbind] in Href; [discriminate|]; split; congruence).
Qed.


(** A successful fetch has issued its request. *)
Lemma fetchContentWithType_ok w targetUrl requestHeaders userAgents log a log' :
  fetchContentWithType w targetUrl requestHeaders userAgents log = (Ok a, log') ->
  exists request, log' = log ++ [request] /\ req_url request = targetUrl /\
    forwards_client_headers requestHeaders request.
Proof.
  intros Hf. apply fetchContentWithType_log in Hf as [[_ ?]|?]; [discriminate|assumption].
Qed.

Lemma forwards_empty_headers request :
  forwards_client_headers ∅ request -> sent_with_defaults request.
Proof.
  unfold forwards_client_headers, sent_with_defaults, header_or.
  rewrite !lookup_empty. tauto.
Qed.
End Requests.

(** ** The resolver's recursion *)

Section Resolver.
Context `{HostParser}.

Lemma adds_none log bound : adds_requests log log bound.
Proof.
  exists []. rewrite app_nil_r. split; [reflexivity|]. split; [constructor|].
  cbn. lia.
Qed.

Lemma processMasterPlaylist_with_log rec w url content depth max env log r log' :
  (forall u c log1 r1 log1',
      rec u c (depth + 1) max env log1 = (r1, log1') ->
      adds_requests log1 log1' (Z.to_nat (max + 1 - (depth + 1)))) ->
  processMasterPlaylist_with rec w url content depth max env log = (r, log') ->
  adds_requests log log' (Z.to_nat (max + 1 - depth)).
Proof.
  intros Hrec. unfold processMasterPlaylist_with.
  destruct (Z.ltb_spec max depth) as [Hlt|Hge].
  { unfold mthrow. intros [= <- <-]. apply adds_none. }
  destruct (select_variant url content).2 as [|c best].
  { unfold mlift. intros [= <- <-]. apply adds_none. }
  unfold mbind'.
  destruct (fetchContentWithType w (c :: best) ∅ (USER_AGENTS env) log)
    as [[[[vc vct] vh]|e] log1] eqn:Hf.
  - apply fetchContentWithType_ok in Hf as (request & -> & _ & Hreq).
    apply forwards_empty_headers in Hreq.
    destruct (isM3u8Content vc vct); cbn [negb].
    + intros Hr. apply Hrec in Hr as (new & -> & Hnew & Hlen).
      exists (request :: new). rewrite <- app_assoc. split; [reflexivity|].
      split; [apply Forall_cons; split; assumption|]. cbn [length]. lia.
    + unfold mlift. intros [= <- <-]. exists [request]. split; [reflexivity|].
      split; [apply Forall_cons; split; [assumption|constructor]|]. cbn [length]. lia.
  - intros [= <- <-].
    apply fetchContentWithType_log in Hf as [[-> _]|(request & -> & _ & Hreq)].
    + apply adds_none.
    + apply forwards_empty_headers in Hreq. exists [request]. split; [reflexivity|].
      split; [apply Forall_cons; split; [assumption|constructor]|]. cbn [length]. lia.
Qed.

(** Whatever the fuel, a resolution started at [depth] issues at most
    [maxRecursion + 1 - depth] requests, each built from the empty header
    object. *)
Lemma processM3u8Content_fuel_log fuel : forall w url content depth max env log r log',
  processM3u8Content_fuel fuel w url content depth max env log = (r, log') ->
  adds_requests log log' (Z.to_nat (max + 1 - depth)).
Proof.
  induction fuel as [|fuel IH]; intros w url content depth max env log r log'.
  - cbn. unfold mthrow. intros [= <- <-]. apply adds_none.
  - cbn [processM3u8Content_fuel].
    destruct (includes content (js "#EXT-X-STREAM-INF") ||
              includes content (js "#EXT-X-MEDIA:")).
    + apply processMasterPlaylist_with_log. intros u c log1 r1 log1'. apply IH.
    + unfold mlift. intros [= <- <-]. apply adds_none.
Qed.

Lemma processMasterPlaylist_with_ext rec1 rec2 w url content depth max env log :
  (forall u c log1, rec1 u c (depth + 1) max env log1 = rec2 u c (depth + 1) max env log1) ->
  processMasterPlaylist_with rec1 w url content depth max env log
  = processMasterPlaylist_with rec2 w url content depth max env log.
Proof.
  intros Hext. unfold processMasterPlaylist_with.
  destruct (max <? depth); [reflexivity|].
  destruct (select_variant url content).2; [reflexivity|].
  unfold mbind'. destruct (fetchContentWithType _ _ _ _ _) as [[[[vc vct] vh]|e] log1];
    [|reflexivity].
  destruct (negb (isM3u8Content vc vct)); [reflexivity|]. apply Hext.
Qed.

Lemma processM3u8Content_fuel_irrelevant k : forall fuel1 fuel2 w url content depth max env log,
  (Z.to_nat (max + 1 - depth) <= k)%nat -> (k < fuel1)%nat -> (k < fuel2)%nat ->
  processM3u8Content_fuel fuel1 w url content depth max env log
  = processM3u8Content_fuel fuel2 w url content depth max env log.
Proof.
  induction k as [|k IH]; intros fuel1 fuel2 w url content depth max env log Hk H1 H2;
    (destruct fuel1 as [|fuel1]; [lia|]); (destruct fuel2 as [|fuel2]; [lia|]);
    cbn [processM3u8Content_fuel];
    (destruct (includes content (js "#EXT-X-STREAM-INF") ||
               includes content (js "#EXT-X-MEDIA:")); [|reflexivity]).
  - unfold processMasterPlaylist_with.
    destruct (Z.ltb_spec max depth); [reflexivity|lia].
  - destruct (Z.ltb_spec max depth) as [Hlt|Hge].
    + unfold processMasterPlaylist_with.
      destruct (Z.ltb_spec max depth); [reflexivity|lia].
    + apply processMasterPlaylist_with_ext. intros u c log1. apply IH; lia.
Qed.

(** More fuel than [enough_fuel] changes nothing. *)
Lemma processM3u8Content_fuel_enough fuel w url content depth max env log :
  (enough_fuel depth max <= fuel)%nat ->
  processM3u8Content_fuel fuel w url content depth max env log
  = processM3u8Content w url content depth max env log.
Proof.
  intros Hfuel. unfold processM3u8Content.
  apply (processM3u8Content_fuel_irrelevant (Z.to_nat (max + 1 - depth)));
    unfold enough_fuel in *; lia.
Qed.

(** C4. Called with a depth above the bound, the master-playlist resolver
    fails with the recursion-limit error and leaves the request log as it
    was: no fetch is issued, whatever the url and the body. *)
Theorem C4_recursion_limit_before_fetch w url content depth max env log :
  max < depth ->
  processMasterPlaylist w url content depth max env log
  = (Throw RecursionLimitError, log).
Proof.
  intros Hlt. unfold processMasterPlaylist, processMasterPlaylist_with.
  destruct (Z.ltb_spec max depth); [reflexivity|lia].
Qed.

(** The requests of one inbound request: the first forwards the client's
    headers, the others are built from the empty header object, and there
    are at most [1 + max 0 (MAX_RECURSION + 1)] of them. *)
Lemma handler_log w cfg req :
  match (handler w cfg req).2 with
  | [] => True
  | first :: variants =>
      forwards_client_headers (req_headers req) first /\
      Forall sent_with_defaults variants /\
      (length variants <= Z.to_nat (MAX_RECURSION cfg + 1))%nat
  end.
Proof.
  unfold handler.
  destruct (str_eqb (req_method req) (js "OPTIONS")); [exact I|].
  destruct (getTargetUrlFromPath _) as [targetUrl|]; [|exact I].
  unfold mbind' at 1.
  destruct (fetchContentWithType w targetUrl (req_headers req) (CONFIG_USER_AGENTS cfg) [])
    as [[[[content contentType] headers]|e] log1] eqn:Hf.
  - apply fetchContentWithType_ok in Hf as (request & -> & _ & Hreq).
    cbn [app]. destruct (isM3u8Content content contentType).
    + unfold mbind', processM3u8Content.
      destruct (processM3u8Content_fuel _ _ _ _ _ _ _ _) as [[body|e] log2] eqn:Hp;
        apply processM3u8Content_fuel_log in Hp as (new & -> & Hnew & Hlen);
        cbn; (split; [assumption|]); (split; [assumption|]);
        replace (MAX_RECURSION cfg + 1) with (MAX_RECURSION cfg + 1 - 0) by lia;
        assumption.
    + cbn. split; [assumption|]. split; [constructor|lia].
  - apply fetchContentWithType_log in Hf as [[-> _]|(request & -> & _ & Hreq)].
    + exact I.
    + cbn. split; [assumption|]. split; [constructor|lia].
Qed.
End Resolver.

(** ** The fuel is never exhausted *)

Lemma continuation_octets_length n : forall s bs rest,
  continuation_octets n s = Some (bs, rest) -> (length rest <= length s)%nat.
Proof.
  induction n as [|n IH]; intros s bs rest; cbn [continuation_octets].
  - intros [= _ <-]. lia.
  - destruct s as [|c [|h1 [|h2 s']]]; try discriminate.
    destruct (c =? 37); [|discriminate].
    destruct (ParseHexOctet h1 h2); [|discriminate].
    destruct (continuation_octets n s') as [[bs' rest']|] eqn:Hc; [|discriminate].
    intros [= _ <-]. apply IH in Hc. cbn [length]. lia.
Qed.

Lemma rmap_throws {A B} (f : A -> B) (r : result A) (e : exn) :
  rmap f r = Throw e -> r = Throw e.
Proof. destruct r; [discriminate|]. intros [= ->]. reflexivity. Qed.

Lemma Decode_throws fuel : forall s e,
  (length s <= fuel)%nat -> Decode fuel s = Throw e -> e = URIError.
Proof.
  induction fuel as [|fuel IH]; intros s e Hlen; destruct s as [|c rest];
    cbn [Decode]; try discriminate.
  { cbn in Hlen. lia. }
  cbn [length] in Hlen.
  destruct (c =? 37).
  - destruct rest as [|h1 [|h2 rest2]]; try (intros [= <-]; reflexivity).
    cbn [length] in Hlen.
    destruct (ParseHexOctet h1 h2) as [b|]; [|intros [= <-]; reflexivity].
    destruct (leading_ones b =? 0).
    { intros He%rmap_throws. apply IH in He; [assumption|lia]. }
    destruct ((leading_ones b =? 1) || (4 <? leading_ones b));
      [intros [= <-]; reflexivity|].
    destruct (continuation_octets _ rest2) as [[bs rest3]|] eqn:Hc;
      [|intros [= <-]; reflexivity].
    apply continuation_octets_length in Hc.
    destruct (utf8_code_point (b :: bs)); [|intros [= <-]; reflexivity].
    intros He%rmap_throws. apply IH in He; [assumption|lia].
  - intros He%rmap_throws. apply IH in He; [assumption|lia].
Qed.

(** [decodeURIComponent] ends with a string or a URIError. *)
Lemma decodeURIComponent_throws s e : decodeURIComponent s = Throw e -> e = URIError.
Proof. apply Decode_throws. lia. Qed.

Lemma encodeURIComponent_throws s : forall e, encodeURIComponent s = Throw e -> e = URIError.
Proof.
  induction s as [s IH] using (induction_ltof1 _ (@length Z)). unfold ltof in IH.
  intros e. destruct s as [|c rest]; cbn [encodeURIComponent]; [discriminate|].
  destruct (uriUnescaped c).
  { intros He%rmap_throws. apply IH in He; [assumption|cbn; lia]. }
  destruct (is_lead_surrogate c).
  - destruct rest as [|d rest']; [intros [= <-]; reflexivity|].
    destruct (is_trail_surrogate d); [|intros [= <-]; reflexivity].
    intros He%rmap_throws. apply IH in He; [assumption|cbn; lia].
  - destruct (is_trail_surrogate c); [intros [= <-]; reflexivity|].
    intros He%rmap_throws. apply IH in He; [assumption|cbn; lia].
Qed.

Lemma rewriteUrlToProxy_throws s e : rewriteUrlToProxy s = Throw e -> e = URIError.
Proof.
  unfold rewriteUrlToProxy. destruct s; [discriminate|].
  destruct (encodeURIComponent _) eqn:He; [discriminate|].
  cbn. intros [= <-]. eapply encodeURIComponent_throws, He.
Qed.

Lemma replace_URI_throws replacer line e :
  (forall uri e', replacer uri = Throw e' -> e' = URIError) ->
  replace_URI replacer line = Throw e -> e = URIError.
Proof.
  intros Hrep. revert e. induction line as [|c rest IH]; intros e;
    cbn [replace_URI]; [discriminate|].
  destruct (startsWith _ _).
  - destruct (span_until_quote _) as [uri tail].
    destruct (negb _ && startsWith tail [34]).
    + destruct (replacer uri) eqn:Hr; cbn; [discriminate|].
      intros [= <-]. eapply Hrep, Hr.
    + intros He%rmap_throws. apply IH, He.
  - intros He%rmap_throws. apply IH, He.
Qed.

Section NoOutOfFuel.
Context `{HostParser}.

Lemma media_lines_throws baseUrl lines e :
  media_lines baseUrl lines = Throw e -> e = URIError.
Proof.
  revert e. induction lines as [|raw rest IH]; intros e; cbn [media_lines];
    [discriminate|].
  destruct (bool_decide (trim raw = []) && bool_decide (rest = [])); [discriminate|].
  destruct (bool_decide (trim raw = [])); [apply IH|].
  destruct (startsWith (trim raw) (js "#EXT-X-KEY")).
  { destruct (processKeyLine _ _) eqn:Hk; cbn [rbind].
    - intros He%rmap_throws. apply IH, He.
    - intros [= <-]. eapply replace_URI_throws, Hk.
      intros uri e'. apply rewriteUrlToProxy_throws. }
  destruct (startsWith (trim raw) (js "#EXT-X-MAP")).
  { destruct (processMapLine _ _) eqn:Hk; cbn [rbind].
    - intros He%rmap_throws. apply IH, He.
    - intros [= <-]. eapply replace_URI_throws, Hk.
      intros uri e'. apply rewriteUrlToProxy_throws. }
  destruct (startsWith (trim raw) (js "#EXTINF")).
  { intros He%rmap_throws. apply IH, He. }
  destruct (negb (startsWith (trim raw) (js "#"))).
  - destruct (rewriteUrlToProxy _) eqn:Hk; cbn [rbind].
    + intros He%rmap_throws. apply IH, He.
    + intros [= <-]. eapply rewriteUrlToProxy_throws, Hk.
  - intros He%rmap_throws. apply IH, He.
Qed.

(** [processMediaPlaylist] ends with a body or a URIError (an unpaired
    surrogate in a reference). *)
Lemma processMediaPlaylist_throws url content e :
  processMediaPlaylist url content = Throw e -> e = URIError.
Proof.
  unfold processMediaPlaylist. intros He%rmap_throws.
  eapply media_lines_throws, He.
Qed.

Lemma fetchContentWithType_throws w targetUrl requestHeaders userAgents log e log' :
  fetchContentWithType w targetUrl requestHeaders userAgents log = (Throw e, log') ->
  e = TypeError \/ e = FetchError targetUrl.
Proof.
  unfold fetchContentWithType.
  destruct (match requestHeaders !! js "referer" with
            | Some (c :: v) => Ok (c :: v)
            | _ => rmap origin (new_URL targetUrl None)
            end) as [referer|e0] eqn:Href.
  - destruct (upstream w _ _) as [resp|]; [|intros [= <- _]; right; reflexivity].
    destruct (resp_ok resp); cbn [negb]; [|intros [= <- _]; right; reflexivity].
    destruct (resp_text resp); [discriminate|intros [= <- _]; right; reflexivity].
  - intros [= <- _]. left.
    destruct (requestHeaders !! js "referer") as [[|c v]|]; [|discriminate|];
      (unfold new_URL in Href; destruct (basic_URL_parse targetUrl None);
       cbn [rmap rbind] in Href; congruence).
Qed.

Lemma processM3u8Content_fuel_never_exhausted k :
  forall fuel w url content depth max env log e log',
  (Z.to_nat (max + 1 - depth) <= k)%nat -> (k < fuel)%nat ->
  processM3u8Content_fuel fuel w url content depth max env log = (Throw e, log') ->
  e <> OutOfFuel.
Proof.
  induction k as [|k IH]; intros fuel w url content depth max env log e log' Hk Hfuel;
    (destruct fuel as [|fuel]; [lia|]); cbn [processM3u8Content_fuel];
    (destruct (includes content (js "#EXT-X-STREAM-INF") ||
               includes content (js "#EXT-X-MEDIA:"));
     [|unfold mlift; intros [= He _]; apply processMediaPlaylist_throws in He;
       congruence]);
    unfold processMasterPlaylist_with;
    (destruct (Z.ltb_spec max depth); [unfold mthrow; intros [= <- _]; discriminate|]);
    [lia|].
  destruct (select_variant url content).2 as [|c best].
  { unfold mlift. intros [= He _]. apply processMediaPlaylist_throws in He. congruence. }
  unfold mbind'.
  destruct (fetchContentWithType _ _ _ _ _) as [[[[vc vct] vh]|e0] log1] eqn:Hf.
  - destruct (negb (isM3u8Content vc vct)).
    + unfold mlift. intros [= He _]. apply processMediaPlaylist_throws in He. congruence.
    + apply IH; lia.
  - intros [= <- _]. apply fetchContentWithType_throws in Hf as [->| ->]; discriminate.
Qed.

(** [processM3u8Content] never ends for lack of fuel: the depth bound ends
    the recursion first. *)
Lemma processM3u8Content_terminates w url content depth max env log e log' :
  processM3u8Content w url content depth max env log = (Throw e, log') ->
  e <> OutOfFuel.
Proof.
  unfold processM3u8Content.
  apply (processM3u8Content_fuel_never_exhausted (Z.to_nat (max + 1 - depth)));
    unfold enough_fuel; lia.
Qed.
End NoOutOfFuel.

(** ** The recursion bound and the request headers *)

Lemma C4_recursion_limit_before_fetch_witness :
  @processMasterPlaylist plain_hosts endless_world (js "https://a.com/m.m3u8")
    endless_master 6 5 (mkEnv []) []
  = (Throw RecursionLimitError, []).
Proof.
  apply (@C4_recursion_limit_before_fetch plain_hosts endless_world
           (js "https://a.com/m.m3u8") endless_master 6 5 (mkEnv []) []).
  lia.
Defined.

(** C2 (as the code has it). One inbound request issues at most
    [MAX_RECURSION + 2] outbound fetches when [MAX_RECURSION] is not
    negative (and at most one otherwise): the initial fetch, and one per
    resolution step at the depths [0], ..., [MAX_RECURSION]. *)
Theorem C2_outbound_fetch_bound `{HostParser} (w : World) (cfg : Config) (req : Request) :
  Z.of_nat (length (handler w cfg req).2) <= Z.max 1 (MAX_RECURSION cfg + 2).
Proof.
  pose proof (handler_log w cfg req) as Hlog.
  destruct (handler w cfg req).2 as [|first variants]; cbn [length]; [lia|].
  destruct Hlog as (_ & _ & Hlen). lia.
Qed.

(** C2, counterexample: with [MAX_RECURSION = 1] and a network that always
    answers with a master playlist, one inbound request issues three
    fetches, one more than [MAX_RECURSION + 1]. *)
Lemma C2_three_fetches_counterexample :
  MAX_RECURSION (mkConfig 86400 1 []) + 1 = 2 /\
  length (@handler plain_hosts endless_world (mkConfig 86400 1 []) example_request).2
  = 3%nat.
Proof. split; vm_compute; reflexivity. Qed.


(** The log of the example: the client's headers on the first request, the
    defaults on the two variant requests. *)
Example handler_log_example :
  map (fun r => (req_url r, req_accept_language r, req_referer r))
      (@handler plain_hosts endless_world (mkConfig 86400 1 []) example_request).2
  = [ (js "https://a.com/m.m3u8", js "fr", js "https://ref.example/");
      (js "https://a.com/next.m3u8", default_accept_language, js "https://a.com");
      (js "https://a.com/next.m3u8", default_accept_language, js "https://a.com") ].
Proof. vm_compute. reflexivity. Qed.

(** ** Variant selection *)

Lemma number_geb_refl a : number_geb a a = true.
Proof. destruct a; cbn; [apply Z.leb_refl|reflexivity]. Qed.

Lemma number_geb_total a b : number_geb a b = false -> number_geb b a = true.
Proof.
  destruct a, b; cbn; try congruence. intros Hab. apply Z.leb_gt in Hab.
  apply Z.leb_le. lia.
Qed.

Lemma number_geb_trans a b c :
  number_geb a b = true -> number_geb b c = true -> number_geb a c = true.
Proof.
  destruct a, b, c; cbn; try congruence. intros Hab Hbc.
  apply Z.leb_le in Hab, Hbc. apply Z.leb_le. lia.
Qed.

Lemma decimal_value_nonneg_aux digits : forall acc,
  0 <= acc -> Forall (fun d => 48 <= d) digits ->
  0 <= fold_left (fun acc d => 10 * acc + (d - 48)) digits acc.
Proof.
  induction digits as [|d digits IH]; intros acc Hacc Hd; cbn [fold_left]; [assumption|].
  apply Forall_cons in Hd as [Hd Hds]. apply IH; [lia|assumption].
Qed.

Lemma span_digits_are_digits s : Forall (fun d => 48 <= d) (span_digits s).
Proof.
  induction s as [|c s IH]; cbn [span_digits]; [constructor|].
  destruct (is_ascii_digit c) eqn:Hc; [|constructor].
  apply Forall_cons. split; [|assumption].
  unfold is_ascii_digit in Hc. apply andb_prop in Hc as [Hc _]. apply Z.leb_le in Hc. lia.
Qed.

Lemma match_BANDWIDTH_digits line digits :
  match_BANDWIDTH line = Some digits -> Forall (fun d => 48 <= d) digits.
Proof.
  induction line as [|c line IH]; cbn [match_BANDWIDTH]; [discriminate|].
  destruct (startsWith _ _); [|exact IH].
  destruct (span_digits _) as [|d ds] eqn:Hs; [exact IH|].
  intros [= <-]. rewrite <- Hs. apply span_digits_are_digits.
Qed.

Lemma nearest_double_nonneg n : 0 <= n -> number_geb (nearest_double n) (Finite (-1)) = true.
Proof.
  intros Hn. unfold nearest_double. destruct (n <? 2 ^ 53).
  { cbn. apply Z.leb_le. lia. }
  cbv zeta. destruct (2 ^ 1024 <=? _); [reflexivity|].
  cbn [number_geb]. apply Z.leb_le.
  set (e := Z.log2 n - 52). set (q := n / 2 ^ e).
  assert (0 <= 2 ^ e) by (apply Z.pow_nonneg; lia).
  assert (0 <= q) by (subst q; apply Z_div_nonneg_nonneg; lia).
  destruct (_ || _); nia.
Qed.

(** An extracted bandwidth is never below the initial [-1]. *)
Lemma currentBandwidth_of_nonneg line :
  number_geb (currentBandwidth_of line) (Finite (-1)) = true.
Proof.
  unfold currentBandwidth_of. destruct (match_BANDWIDTH line) as [digits|] eqn:Hm;
    [|reflexivity].
  apply nearest_double_nonneg. unfold decimal_value.
  apply decimal_value_nonneg_aux; [lia|]. eapply match_BANDWIDTH_digits, Hm.
Qed.

Section Selection.
Context `{HostParser}.

Lemma find_variant_uri_none lines :
  find_variant_uri lines = None -> forall o, stream_inf_blocks_from o lines = [].
Proof.
  induction lines as [|raw rest IH]; intros Hf o; [reflexivity|].
  cbn [find_variant_uri] in Hf. cbn [stream_inf_blocks_from].
  destruct (negb (bool_decide (trim raw = [])) && negb (startsWith (trim raw) (js "#")));
    [discriminate|].
  destruct o; [apply IH, Hf|].
  destruct (startsWith raw _); apply IH, Hf.
Qed.

Lemma find_variant_uri_some lines uri after :
  find_variant_uri lines = Some (uri, after) ->
  (length after < length lines)%nat /\ uri <> [] /\
  forall bandwidth,
    stream_inf_blocks_from (Some bandwidth) lines
    = (bandwidth, uri) :: stream_inf_blocks_from None after.
Proof.
  induction lines as [|raw rest IH]; [discriminate|].
  cbn [find_variant_uri stream_inf_blocks_from length].
  destruct (negb (bool_decide (trim raw = []))) eqn:Hne; cbn [andb].
  - destruct (negb (startsWith (trim raw) (js "#"))).
    + intros [= <- <-]. split; [lia|]. split; [|reflexivity].
      apply negb_true_iff, bool_decide_eq_false in Hne. assumption.
    + intros Hf. destruct (IH Hf) as (Hlen & Hu & Hb). split; [lia|]. split; assumption.
  - intros Hf. destruct (IH Hf) as (Hlen & Hu & Hb). split; [lia|]. split; assumption.
Qed.

(** The loop of [processMasterPlaylist] tracks the best block so far over
    the blocks of the playlist. *)
Lemma scan_stream_inf_fold baseUrl fuel : forall lines highestBandwidth bestVariantUrl,
  (length lines <= fuel)%nat ->
  scan_stream_inf fuel baseUrl lines highestBandwidth bestVariantUrl
  = fold_left (keep_best baseUrl) (stream_inf_blocks_from None lines)
              (highestBandwidth, bestVariantUrl).
Proof.
  induction fuel as [|fuel IH]; intros lines hb best Hlen.
  { destruct lines; [reflexivity|cbn in Hlen; lia]. }
  destruct lines as [|line rest]; [reflexivity|].
  cbn [scan_stream_inf stream_inf_blocks_from]. cbn [length] in Hlen.
  destruct (startsWith line (js "#EXT-X-STREAM-INF")); [|apply IH; lia].
  destruct (find_variant_uri rest) as [[uri after]|] eqn:Hf.
  - destruct (find_variant_uri_some _ _ _ Hf) as (Hafter & _ & ->).
    cbn [fold_left]. unfold keep_best at 2. cbn [fst snd].
    destruct (number_geb (currentBandwidth_of line) hb); apply IH; lia.
  - rewrite (find_variant_uri_none _ Hf (Some _)).
    rewrite IH by lia. rewrite (find_variant_uri_none _ Hf None). reflexivity.
Qed.

(** Folding [keep_best] leaves the accumulator alone when every block is
    below it, and otherwise ends on the last block of maximal bandwidth. *)
Lemma keep_best_fold baseUrl blocks : forall hb best,
  (fold_left (keep_best baseUrl) blocks (hb, best) = (hb, best) /\
   Forall (fun b => number_geb b.1 hb = false) blocks) \/
  (exists i bandwidth uri,
      blocks !! i = Some (bandwidth, uri) /\
      fold_left (keep_best baseUrl) blocks (hb, best)
        = (bandwidth, resolveUrl baseUrl uri) /\
      number_geb bandwidth hb = true /\
      (forall j b u, blocks !! j = Some (b, u) -> number_geb bandwidth b = true) /\
      (forall j b u, (i < j)%nat -> blocks !! j = Some (b, u) ->
                     number_geb b bandwidth = false)).
Proof.
  induction blocks as [|[b0 u0] bs IH] using rev_ind; intros hb best.
  { left. split; [reflexivity|constructor]. }
  rewrite fold_left_app. cbn [fold_left].
  destruct (IH hb best) as [[-> Hall]|(i & bw & uri & Hi & -> & Hbw & Hmax & Hlast)];
    unfold keep_best; cbn [fst snd].
  - destruct (number_geb b0 hb) eqn:Hb0.
    + right. exists (length bs), b0, u0.
      split; [apply list_lookup_middle; reflexivity|]. split; [reflexivity|].
      split; [assumption|]. split.
      * intros j b u Hj. apply lookup_app_Some in Hj as [Hj|[_ Hj]].
        -- eapply number_geb_trans; [exact Hb0|]. apply number_geb_total.
           rewrite Forall_lookup in Hall. exact (Hall _ _ Hj).
        -- apply list_lookup_singleton_Some in Hj as [_ [= <- <-]].
           apply number_geb_refl.
      * intros j b u Hlt Hj. apply lookup_lt_Some in Hj.
        rewrite length_app in Hj. cbn in Hj. lia.
    + left. split; [reflexivity|]. apply Forall_app. split; [assumption|].
      apply Forall_cons. split; [assumption|constructor].
  - pose proof (lookup_lt_Some _ _ _ Hi) as Hilt.
    destruct (number_geb b0 bw) eqn:Hb0.
    + right. exists (length bs), b0, u0.
      split; [apply list_lookup_middle; reflexivity|]. split; [reflexivity|].
      split; [eapply number_geb_trans; eassumption|]. split.
      * intros j b u Hj. apply lookup_app_Some in Hj as [Hj|[_ Hj]].
        -- eapply number_geb_trans; [exact Hb0|]. exact (Hmax _ _ _ Hj).
        -- apply list_lookup_singleton_Some in Hj as [_ [= <- <-]].
           apply number_geb_refl.
      * intros j b u Hlt Hj. apply lookup_lt_Some in Hj.
        rewrite length_app in Hj. cbn in Hj. lia.
    + right. exists i, bw, uri.
      split; [apply lookup_app_l_Some; assumption|]. split; [reflexivity|].
      split; [assumption|]. split.
      * intros j b u Hj. apply lookup_app_Some in Hj as [Hj|[_ Hj]].
        -- exact (Hmax _ _ _ Hj).
        -- apply list_lookup_singleton_Some in Hj as [_ [= <- <-]].
           apply number_geb_total, Hb0.
      * intros j b u Hlt Hj. apply lookup_app_Some in Hj as [Hj|[_ Hj]].
        -- exact (Hlast _ _ _ Hlt Hj).
        -- apply list_lookup_singleton_Some in Hj as [_ [= <- <-]]. exact Hb0.
Qed.

Lemma href_nonempty (u : URLRecord) : href u <> [].
Proof. unfold href. destruct (url_scheme u); discriminate. Qed.

(** [resolveUrl] returns a non-empty string for a non-empty reference. *)
Lemma resolveUrl_nonempty baseUrl relativeUrl :
  relativeUrl <> [] -> resolveUrl baseUrl relativeUrl <> [].
Proof.
  intros Hrel. unfold resolveUrl.
  destruct (bool_decide (baseUrl = [])) eqn:Hb; [assumption|].
  apply bool_decide_eq_false in Hb.
  destruct (bool_decide (relativeUrl = [])); [assumption|]. cbn [orb].
  destruct (matches_http relativeUrl); [assumption|].
  destruct (new_URL relativeUrl (Some baseUrl)); [apply href_nonempty|].
  assert (Happ : forall a b : jsstring, b <> [] -> a ++ b <> []).
  { intros a b Hb' Hab. apply app_eq_nil in Hab as [_ ?]. contradiction. }
  destruct (startsWith relativeUrl (js "/")).
  - destruct (new_URL baseUrl None); [apply Happ|]; assumption.
  - cbv zeta. destruct (endsWith baseUrl (js "/")); cbn [andb negb];
      apply Happ; assumption.
Qed.

Lemma stream_inf_blocks_from_sound lines : forall o,
  (forall bandwidth, o = Some bandwidth -> number_geb bandwidth (Finite (-1)) = true) ->
  Forall (fun b => number_geb b.1 (Finite (-1)) = true /\ b.2 <> [])
         (stream_inf_blocks_from o lines).
Proof.
  induction lines as [|raw rest IH]; intros o Ho; [constructor|].
  cbn [stream_inf_blocks_from]. destruct o as [bandwidth|].
  - destruct (negb (bool_decide (trim raw = []))) eqn:Hne; cbn [andb].
    + destruct (negb (startsWith (trim raw) (js "#"))).
      * apply Forall_cons. split.
        -- cbn. split; [apply Ho; reflexivity|].
           apply negb_true_iff, bool_decide_eq_false in Hne. assumption.
        -- apply IH. discriminate.
      * apply IH, Ho.
    + apply IH, Ho.
  - destruct (startsWith raw _); apply IH.
    + intros bandwidth [= <-]. apply currentBandwidth_of_nonneg.
    + discriminate.
Qed.

(** Among the pairs that the scan reads, the selection is the last one of
    maximal bandwidth. *)
Lemma select_variant_last_maximal_block (url content : jsstring) :
  stream_inf_blocks content <> [] ->
  exists i bandwidth uri,
    stream_inf_blocks content !! i = Some (bandwidth, uri) /\
    select_variant url content = (bandwidth, resolveUrl (getBaseUrl url) uri) /\
    (forall j b u, stream_inf_blocks content !! j = Some (b, u) ->
                   number_geb bandwidth b = true) /\
    (forall j b u, (i < j)%nat -> stream_inf_blocks content !! j = Some (b, u) ->
                   number_geb b bandwidth = false).
Proof.
  unfold stream_inf_blocks, select_variant. intros Hne.
  rewrite scan_stream_inf_fold by lia.
  pose proof (stream_inf_blocks_from_sound (split 10 content) None ltac:(discriminate))
    as Hsound.
  destruct (keep_best_fold (getBaseUrl url) (stream_inf_blocks_from None (split 10 content))
              (Finite (-1)) [])
    as [[_ Hall]|(i & bw & uri & Hi & -> & Hbw & Hmax & Hlast)].
  - exfalso. destruct (stream_inf_blocks_from None (split 10 content)) as [|b bs];
      [congruence|].
    apply Forall_cons in Hall as [Hb _]. apply Forall_cons in Hsound as [[Hb' _] _].
    congruence.
  - exists i, bw, uri. split; [assumption|]. split; [|split; assumption].
    rewrite Forall_lookup in Hsound. destruct (Hsound _ _ Hi) as [_ Huri].
    cbn in Huri. pose proof (resolveUrl_nonempty (getBaseUrl url) uri Huri) as Hr.
    destruct (resolveUrl (getBaseUrl url) uri); [congruence|reflexivity].
Qed.


(** *** The code's reading of BANDWIDTH against the attribute list *)














End Selection.

(** ** The URL parser: what each state preserves *)

Lemma same_authority_refl u : same_authority u u.
Proof. repeat split. Qed.

Lemma same_authority_trans u v w :
  same_authority u v -> same_authority v w -> same_authority u w.
Proof. unfold same_authority. intuition congruence. Qed.

Lemma fragment_state_keeps u input :
  same_authority (fragment_state u input) u /\
  url_path_of (fragment_state u input) = url_path_of u /\
  url_query (fragment_state u input) = url_query u.
Proof. repeat split. Qed.

Lemma query_state_keeps u : forall input buffer,
  same_authority (query_state u buffer input) u /\
  url_path_of (query_state u buffer input) = url_path_of u.
Proof.
  induction input as [|c rest IH]; intros buffer; cbn [query_state].
  - repeat split.
  - destruct (c =? 35); [repeat split|apply IH].
Qed.

Lemma path_state_keeps u : forall input path buffer,
  same_authority (path_state u path buffer input) u /\
  has_opaque_path (path_state u path buffer input) = false.
Proof.
  induction input as [|c rest IH]; intros path buffer; cbn [path_state].
  - repeat split.
  - destruct ((c =? 47) || is_special u && (c =? 92)); [apply IH|].
    destruct (c =? 63).
    { destruct (query_state_keeps (set_path u (ListPath
                  (close_segment (url_scheme u) path buffer false))) rest [])
        as [Ha Hp].
      split; [exact Ha|]. unfold has_opaque_path. rewrite Hp. reflexivity. }
    destruct (c =? 35); [repeat split|apply IH].
Qed.

Lemma path_start_state_keeps u input :
  same_authority (path_start_state u input) u /\
  (has_opaque_path u = false -> has_opaque_path (path_start_state u input) = false).
Proof.
  unfold path_start_state. destruct (is_special u).
  - destruct input as [|c rest]; [|destruct ((c =? 47) || (c =? 92))];
      (split; [|intros _]; apply path_state_keeps).
  - destruct input as [|c rest]; [split; [apply same_authority_refl|tauto]|].
    destruct (c =? 63).
    { destruct (query_state_keeps u rest []) as [Ha Hp]. split; [exact Ha|].
      unfold has_opaque_path. rewrite Hp. tauto. }
    destruct (c =? 35); [split; [repeat split|tauto]|].
    destruct (c =? 47); (split; [|intros _]; apply path_state_keeps).
Qed.

Lemma close_port_keeps u buffer input u' :
  close_port u buffer input = Some u' -> keeps_host u u'.
Proof.
  unfold close_port. destruct buffer as [|d ds].
  - intros [= <-]. destruct (path_start_state_keeps u input) as [(?&?&?&?&?) ?].
    repeat split; assumption.
  - destruct (65535 <? _); [discriminate|]. intros [= <-].
    match goal with |- keeps_host _ (path_start_state ?v _) =>
      destruct (path_start_state_keeps v input) as [(?&?&?&?&?) ?] end.
    repeat split; assumption.
Qed.

Lemma port_state_keeps u : forall input buffer u',
  port_state u buffer input = Some u' -> keeps_host u u'.
Proof.
  induction input as [|c rest IH]; intros buffer u'; cbn [port_state].
  - apply close_port_keeps.
  - destruct (is_ascii_digit c); [apply IH|].
    destruct (is_authority_end u c); [apply close_port_keeps|discriminate].
Qed.

Section ParserInvariants.
Context `{HostParser}.

Lemma keeps_host_gains u v u' :
  url_scheme v = url_scheme u -> is_Some (url_host v) ->
  (has_opaque_path u = false -> has_opaque_path v = false) ->
  keeps_host v u' -> gains_host u u'.
Proof.
  intros Hs Hh Hp (Hs' & _ & _ & Hh' & Hp'). split; [congruence|].
  split; [rewrite Hh'; assumption|tauto].
Qed.

Lemma path_start_after_host u h input :
  gains_host u (path_start_state (set_host u (Some h)) input).
Proof.
  destruct (path_start_state_keeps (set_host u (Some h)) input) as [(Hs&_&_&Hh&_) Hp].
  split; [exact Hs|]. split; [rewrite Hh; eexists; reflexivity|exact Hp].
Qed.

Lemma host_state_gains u : forall input buffer inside u',
  host_state u buffer inside input = Some u' -> gains_host u u'.
Proof.
  induction input as [|c rest IH]; intros buffer inside u'; cbn [host_state].
  - destruct (is_special u && bool_decide (buffer = [])); [discriminate|].
    destruct (host_parse _ buffer) as [h|]; [|discriminate].
    intros [= <-]. apply path_start_after_host.
  - destruct ((c =? 58) && negb inside).
    { destruct buffer as [|b bs]; [discriminate|].
      destruct (host_parse _ (b :: bs)) as [h|]; [|discriminate].
      intros Hp%port_state_keeps.
      eapply keeps_host_gains; [| | |exact Hp]; [reflexivity|eexists; reflexivity|tauto]. }
    destruct (is_authority_end u c).
    { destruct (is_special u && bool_decide (buffer = [])); [discriminate|].
      destruct (host_parse _ buffer) as [h|]; [|discriminate].
      intros [= <-]. apply path_start_after_host. }
    apply IH.
Qed.

Lemma gains_host_set_credentials u user pass u' :
  gains_host (set_credentials u user pass) u' -> gains_host u u'.
Proof. exact (fun H => H). Qed.

Lemma authority_state_gains : forall input u buffer atSignSeen passwordTokenSeen u',
  authority_state u buffer atSignSeen passwordTokenSeen input = Some u' ->
  gains_host u u'.
Proof.
  induction input as [|c rest IH]; intros u buffer seen pseen u'; cbn [authority_state].
  - destruct (seen && bool_decide (buffer = [])); [discriminate|]. apply host_state_gains.
  - destruct (c =? 64).
    { destruct (add_credentials _ _ _ _) as [[seen' user] pass].
      intros Ha%IH. exact Ha. }
    destruct (is_authority_end u c); [|apply IH].
    destruct (seen && bool_decide (buffer = [])); [discriminate|]. apply host_state_gains.
Qed.

Lemma special_authority_ignore_slashes_state_gains u : forall input u',
  special_authority_ignore_slashes_state u input = Some u' -> gains_host u u'.
Proof.
  induction input as [|c rest IH]; intros u';
    cbn [special_authority_ignore_slashes_state].
  - apply authority_state_gains.
  - destruct ((c =? 47) || (c =? 92)); [apply IH|apply authority_state_gains].
Qed.

Lemma special_authority_slashes_state_gains u input u' :
  special_authority_slashes_state u input = Some u' -> gains_host u u'.
Proof.
  unfold special_authority_slashes_state.
  destruct (startsWith input (js "//")); apply special_authority_ignore_slashes_state_gains.
Qed.

(** The relative states: the base's scheme, and a host when the base has one. *)
Lemma relative_slash_state_gains base input u' :
  is_Some (url_host base) ->
  relative_slash_state (url_with_scheme (url_scheme base)) base input = Some u' ->
  url_scheme u' = url_scheme base /\ is_Some (url_host u') /\ has_opaque_path u' = false.
Proof.
  intros Hhost. unfold relative_slash_state.
  set (u := url_with_scheme (url_scheme base)).
  assert (Hcopy : forall rest,
    url_scheme (path_state (copy_authority u base) (path_segments (copy_authority u base)) [] rest)
      = url_scheme base /\
    is_Some (url_host (path_state (copy_authority u base)
                         (path_segments (copy_authority u base)) [] rest)) /\
    has_opaque_path (path_state (copy_authority u base)
                       (path_segments (copy_authority u base)) [] rest) = false).
  { intros rest.
    destruct (path_state_keeps (copy_authority u base) rest
                (path_segments (copy_authority u base)) []) as [(Hs&_&_&Hh&_) Hp].
    split; [exact Hs|]. split; [rewrite Hh; exact Hhost|exact Hp]. }
  assert (Hgain : forall v, gains_host u v ->
    url_scheme v = url_scheme base /\ is_Some (url_host v) /\ has_opaque_path v = false).
  { intros v (Hs & Hh & Hp). split; [exact Hs|]. split; [exact Hh|]. apply Hp. reflexivity. }
  destruct input as [|c rest]; [intros [= <-]; exact (Hcopy [])|].
  destruct (is_special u && ((c =? 47) || (c =? 92))).
  { intros Hu%special_authority_ignore_slashes_state_gains. apply Hgain, Hu. }
  destruct (c =? 47).
  { intros Hu%authority_state_gains. apply Hgain, Hu. }
  intros [= <-]. exact (Hcopy (c :: rest)).
Qed.

Lemma relative_state_gains base input u' :
  is_Some (url_host base) -> has_opaque_path base = false ->
  relative_state base input = Some u' ->
  url_scheme u' = url_scheme base /\ is_Some (url_host u') /\ has_opaque_path u' = false.
Proof.
  intros Hhost Hlist. unfold relative_state.
  set (u := url_with_scheme (url_scheme base)).
  set (v := set_query (set_path (copy_authority u base) (url_path_of base)) (url_query base)).
  assert (Hv : url_scheme v = url_scheme base /\ is_Some (url_host v) /\
               has_opaque_path v = false).
  { split; [reflexivity|]. split; [exact Hhost|exact Hlist]. }
  destruct input as [|c rest]; [intros [= <-]; exact Hv|].
  destruct ((c =? 47) || is_special u && (c =? 92)).
  { apply relative_slash_state_gains, Hhost. }
  destruct (c =? 63).
  { intros [= <-]. destruct (query_state_keeps v rest []) as [(Hs&_&_&Hh&_) Hp].
    split; [exact Hs|]. split; [rewrite Hh; exact Hhost|].
    unfold has_opaque_path. rewrite Hp. exact Hlist. }
  destruct (c =? 35); [intros [= <-]; exact Hv|].
  intros Heq. apply (inj Some) in Heq. subst u'.
  match goal with |- context [path_state ?a ?b ?c ?d] =>
    destruct (path_state_keeps a d b c) as [(Hs&_&_&Hh&_) Hp] end.
  split; [exact Hs|]. split; [rewrite Hh; exact Hhost|exact Hp].
Qed.
End ParserInvariants.

Section ParserShape.
Context `{HostParser}.

Lemma query_state_scheme u buffer input :
  url_scheme (query_state u buffer input) = url_scheme u.
Proof. apply query_state_keeps. Qed.

Lemma path_state_scheme u path buffer input :
  url_scheme (path_state u path buffer input) = url_scheme u.
Proof. apply path_state_keeps. Qed.

Lemma path_start_state_scheme u input :
  url_scheme (path_start_state u input) = url_scheme u.
Proof. apply path_start_state_keeps. Qed.

Lemma opaque_path_state_scheme u : forall input path,
  url_scheme (opaque_path_state u path input) = url_scheme u.
Proof.
  induction input as [|c rest IH]; intros path; cbn [opaque_path_state]; [reflexivity|].
  destruct (c =? 63); [rewrite ?query_state_scheme, ?path_state_scheme, ?path_start_state_scheme; reflexivity|].
  destruct (c =? 35); [reflexivity|apply IH].
Qed.

Lemma file_host_state_scheme u : forall input buffer u',
  file_host_state u buffer input = Some u' -> url_scheme u' = url_scheme u.
Proof.
  assert (Hfinish : forall buffer input u',
    (if is_windows_drive_letter buffer
     then Some (path_state u (path_segments u) buffer input)
     else match buffer with
          | [] => Some (path_start_state (set_host u (Some [])) input)
          | _ :: _ =>
              match host_parse false buffer with
              | Some h =>
                  Some (path_start_state
                          (set_host u (Some (if str_eqb h (js "localhost") then [] else h)))
                          input)
              | None => None
              end
          end) = Some u' -> url_scheme u' = url_scheme u).
  { intros buffer input u'. destruct (is_windows_drive_letter buffer).
    - intros Heq. apply (inj Some) in Heq. subst u'. rewrite ?query_state_scheme, ?path_state_scheme, ?path_start_state_scheme; reflexivity.
    - destruct buffer as [|b bs].
      + intros Heq. apply (inj Some) in Heq. subst u'. rewrite ?query_state_scheme, ?path_state_scheme, ?path_start_state_scheme; reflexivity.
      + destruct (host_parse false (b :: bs)); [|discriminate].
        intros Heq. apply (inj Some) in Heq. subst u'. rewrite ?query_state_scheme, ?path_state_scheme, ?path_start_state_scheme; reflexivity. }
  induction input as [|c rest IH]; intros buffer u'; cbn [file_host_state].
  - apply Hfinish.
  - destruct ((c =? 47) || (c =? 92) || (c =? 63) || (c =? 35)); [apply Hfinish|apply IH].
Qed.

Lemma file_slash_state_scheme u base input u' :
  file_slash_state u base input = Some u' -> url_scheme u' = url_scheme u.
Proof.
  unfold file_slash_state.
  assert (Hother : forall v,
    match base_is_file base with
    | Some b =>
        Some (path_state
                match path_segments b with
                | [] => set_host u (url_host b)
                | first :: _ =>
                    if negb (starts_with_windows_drive_letter input) &&
                       is_normalized_windows_drive_letter first
                    then set_path (set_host u (url_host b))
                           (ListPath (path_segments (set_host u (url_host b)) ++ [first]))
                    else set_host u (url_host b)
                end
                (path_segments
                   match path_segments b with
                   | [] => set_host u (url_host b)
                   | first :: _ =>
                       if negb (starts_with_windows_drive_letter input) &&
                          is_normalized_windows_drive_letter first
                       then set_path (set_host u (url_host b))
                              (ListPath (path_segments (set_host u (url_host b)) ++ [first]))
                       else set_host u (url_host b)
                   end) [] input)
    | None => Some (path_state u (path_segments u) [] input)
    end = Some v -> url_scheme v = url_scheme u).
  { intros v. destruct (base_is_file base) as [b|].
    - intros Heq. apply (inj Some) in Heq. subst v.
      rewrite path_state_scheme.
      destruct (path_segments b); [reflexivity|].
      destruct (_ && _); reflexivity.
    - intros Heq. apply (inj Some) in Heq. subst v. rewrite ?query_state_scheme, ?path_state_scheme, ?path_start_state_scheme; reflexivity. }
  destruct input as [|c rest]; [apply Hother|].
  destruct ((c =? 47) || (c =? 92)); [apply file_host_state_scheme|apply Hother].
Qed.

Lemma file_state_scheme base input u' :
  file_state base input = Some u' -> url_scheme u' = js "file".
Proof.
  unfold file_state.
  set (u := set_host (url_with_scheme (js "file")) (Some [])).
  destruct input as [|c rest].
  - destruct (base_is_file base); intros [= <-]; reflexivity.
  - destruct ((c =? 47) || (c =? 92)).
    { intros Hu%file_slash_state_scheme. exact Hu. }
    destruct (base_is_file base) as [b|].
    + destruct (c =? 63).
      { intros Heq. apply (inj Some) in Heq. subst u'. rewrite ?query_state_scheme, ?path_state_scheme, ?path_start_state_scheme; reflexivity. }
      destruct (c =? 35); [intros [= <-]; reflexivity|].
      intros Heq. apply (inj Some) in Heq. subst u'. rewrite ?query_state_scheme, ?path_state_scheme, ?path_start_state_scheme; reflexivity.
    + intros Heq. apply (inj Some) in Heq. subst u'. rewrite ?query_state_scheme, ?path_state_scheme, ?path_start_state_scheme; reflexivity.
Qed.

Lemma is_http_scheme_special scheme :
  is_http_scheme scheme = true ->
  is_special_scheme scheme = true /\ str_eqb scheme (js "file") = false /\
  has_tuple_origin scheme = true.
Proof.
  unfold is_http_scheme, str_eqb. intros Hs. apply orb_prop in Hs as [Hs|Hs];
    apply bool_decide_eq_true in Hs; subst scheme; repeat split; reflexivity.
Qed.

(** An http(s) record that the parser produces without a base has a host
    and a list of path segments. *)
Lemma parse_http_shape input rec :
  basic_URL_parse input None = Some rec ->
  is_http_scheme (url_scheme rec) = true ->
  is_Some (url_host rec) /\ has_opaque_path rec = false.
Proof.
  unfold basic_URL_parse. intros Hp Hhttp.
  destruct (is_http_scheme_special _ Hhttp) as (Hspecial & Hfile & _).
  destruct (scheme_start_state (url_input input)) as [[scheme rest]|]; [|discriminate].
  destruct (str_eqb scheme (js "file")) eqn:Hf.
  { apply file_state_scheme in Hp. rewrite Hp in Hfile. discriminate. }
  destruct (is_special (url_with_scheme scheme)) eqn:Hsp.
  - apply special_authority_slashes_state_gains in Hp as (_ & Hh & Hl).
    split; [exact Hh|]. apply Hl. reflexivity.
  - exfalso. assert (url_scheme rec = scheme) as Hs.
    { destruct (startsWith rest (js "/")).
      - unfold path_or_authority_state in Hp. destruct (startsWith _ (js "/")).
        + apply authority_state_gains in Hp as (Hs & _). exact Hs.
        + apply (inj Some) in Hp. subst rec. rewrite ?query_state_scheme, ?path_state_scheme, ?path_start_state_scheme; reflexivity.
      - apply (inj Some) in Hp. subst rec. apply opaque_path_state_scheme. }
    unfold is_special in Hsp. cbn in Hsp. congruence.
Qed.

(** Against a base with a host and a list path, a reference without a
    scheme that is not a network path keeps the base's scheme, credentials,
    host and port, and always parses. *)
Lemma relative_state_same_authority base input :
  has_opaque_path base = false ->
  is_network_path input = false ->
  exists u, relative_state base input = Some u /\ same_authority u base /\
            has_opaque_path u = false.
Proof.
  intros Hlist Hnet. unfold relative_state.
  set (u := url_with_scheme (url_scheme base)).
  set (v := set_query (set_path (copy_authority u base) (url_path_of base)) (url_query base)).
  assert (Hv : same_authority v base /\ has_opaque_path v = false).
  { split; [repeat split|exact Hlist]. }
  assert (Hcopy : forall rest,
    exists w, Some (path_state (copy_authority u base)
                      (path_segments (copy_authority u base)) [] rest) = Some w /\
              same_authority w base /\ has_opaque_path w = false).
  { intros rest. eexists. split; [reflexivity|].
    destruct (path_state_keeps (copy_authority u base) rest
                (path_segments (copy_authority u base)) []) as [Ha Hp].
    split; [|exact Hp]. eapply same_authority_trans; [exact Ha|]. repeat split. }
  destruct input as [|c rest]; [exists v; split; [reflexivity|exact Hv]|].
  destruct ((c =? 47) || is_special u && (c =? 92)) eqn:Hc.
  - assert (Hslash : is_slash c = true).
    { unfold is_slash. destruct (c =? 47); [reflexivity|]. cbn [orb] in Hc.
      apply andb_prop in Hc as [_ ->]. reflexivity. }
    unfold relative_slash_state. destruct rest as [|c' rest']; [exact (Hcopy [])|].
    cbn [is_network_path] in Hnet. rewrite Hslash in Hnet. cbn [andb] in Hnet.
    unfold is_slash in Hnet. rewrite Hnet. rewrite andb_false_r.
    apply orb_false_elim in Hnet as [-> _]. exact (Hcopy (c' :: rest')).
  - destruct (c =? 63).
    { eexists. split; [reflexivity|]. destruct (query_state_keeps v rest []) as [Ha Hp].
      split; [eapply same_authority_trans; [exact Ha|apply Hv]|].
      unfold has_opaque_path. rewrite Hp. apply Hv. }
    destruct (c =? 35); [exists (fragment_state v rest); split; [reflexivity|exact Hv]|].
    eexists. split; [reflexivity|].
    match goal with |- context [path_state ?a ?p ?q ?i] =>
      destruct (path_state_keeps a i p q) as [Ha Hp] end.
    split; [|exact Hp]. eapply same_authority_trans; [exact Ha|]. repeat split.
Qed.
End ParserShape.

(** ** resolveUrl and the base's origin *)

Section Origin.
Context `{HostParser}.

Lemma tuple_origin_same_authority u v :
  same_authority u v -> tuple_origin u = tuple_origin v.
Proof.
  intros (Hs & _ & _ & Hh & Hp). unfold tuple_origin, serialize_authority.
  rewrite Hs, Hh, Hp. reflexivity.
Qed.

Lemma includes_credentials_same_authority u v :
  same_authority u v -> includes_credentials u = includes_credentials v.
Proof.
  intros (_ & Hu & Hp & _). unfold includes_credentials. rewrite Hu, Hp. reflexivity.
Qed.

(** Without credentials the serialization starts with the tuple origin. *)
Lemma href_tuple_origin u :
  is_Some (url_host u) -> includes_credentials u = false ->
  exists tail, href u = tuple_origin u ++ tail.
Proof.
  intros [h Hh] Hc. unfold href, tuple_origin. rewrite Hh, Hc. cbn [default].
  eexists. change (js "://") with ([58] ++ js "//").
  rewrite <- !app_assoc. cbn [app]. reflexivity.
Qed.

Lemma origin_http u :
  is_http_scheme (url_scheme u) = true -> origin u = tuple_origin u.
Proof.
  intros Hs. unfold origin. destruct (is_http_scheme_special _ Hs) as (_ & _ & ->).
  reflexivity.
Qed.

(** The record [new URL(r, b)] makes of a reference without a scheme that is
    not a network path: it parses, and keeps the base's authority. *)
Lemma new_URL_relative b r base :
  basic_URL_parse b None = Some base ->
  is_http_scheme (url_scheme base) = true ->
  scheme_start_state (url_input r) = None ->
  is_network_path (url_input r) = false ->
  exists u, new_URL r (Some b) = Ok u /\ same_authority u base /\
            has_opaque_path u = false.
Proof.
  intros Hb Hhttp Hscheme Hnet.
  destruct (parse_http_shape _ _ Hb Hhttp) as [Hhost Hlist].
  destruct (is_http_scheme_special _ Hhttp) as (_ & Hfile & _).
  destruct (relative_state_same_authority base (url_input r) Hlist Hnet)
    as (u & Hu & Hsame & Hul).
  exists u. split; [|split; assumption].
  unfold new_URL. rewrite Hb. unfold basic_URL_parse. rewrite Hscheme.
  unfold no_scheme_state. rewrite Hlist, Hfile, Hu. reflexivity.
Qed.

(** C5 (as the code has it). For a base that parses as an http(s) URL
    without credentials, and a non-empty reference that has no scheme and
    does not begin with two slashes or backslashes (as the URL parser reads
    it), [resolveUrl] returns a string that starts with the base's origin. *)
Theorem C5_resolveUrl_starts_with_origin (b r : jsstring) (base : URLRecord) :
  basic_URL_parse b None = Some base ->
  is_http_scheme (url_scheme base) = true ->
  includes_credentials base = false ->
  r <> [] ->
  matches_http r = false ->
  scheme_start_state (url_input r) = None ->
  is_network_path (url_input r) = false ->
  startsWith (resolveUrl b r) (origin base) = true.
Proof.
  intros Hb Hhttp Hcred Hr Hm Hscheme Hnet.
  destruct (new_URL_relative b r base Hb Hhttp Hscheme Hnet) as (u & Hu & Hsame & _).
  destruct (parse_http_shape _ _ Hb Hhttp) as [Hhost _].
  unfold resolveUrl.
  assert (Hbne : bool_decide (b = []) = false).
  { apply bool_decide_eq_false. intros ->. discriminate Hb. }
  rewrite Hbne. rewrite (bool_decide_eq_false_2 _ Hr). cbn [orb]. rewrite Hm, Hu.
  rewrite (origin_http _ Hhttp), <- (tuple_origin_same_authority _ _ Hsame).
  destruct (href_tuple_origin u) as [tail ->].
  - destruct Hsame as (_ & _ & _ & -> & _). exact Hhost.
  - rewrite (includes_credentials_same_authority _ _ Hsame). exact Hcred.
  - apply startsWith_prefix.
Qed.
End Origin.

Lemma C5_resolveUrl_starts_with_origin_witness :
  exists base,
    @basic_URL_parse plain_hosts (js "https://host.example:8443/live/") None = Some base /\
    startsWith (@resolveUrl plain_hosts (js "https://host.example:8443/live/")
                  (js "../keys/key.bin?id=1"))
               (@origin plain_hosts base) = true.
Proof.
  eexists. split; [vm_compute; reflexivity|].
  apply (@C5_resolveUrl_starts_with_origin plain_hosts
           (js "https://host.example:8443/live/") (js "../keys/key.bin?id=1"));
    vm_compute; first [reflexivity | discriminate].
Defined.

(** C5, counterexample: against the base [https://a.com/], the reference
    [//evil.com/x] does not match the pattern and resolves to
    [https://evil.com/x], which does not start with the base's origin
    [https://a.com]. *)
Lemma C5_network_path_counterexample :
  endsWith (js "https://a.com/") (js "/") = true /\
  matches_http (js "//evil.com/x") = false /\
  @resolveUrl plain_hosts (js "https://a.com/") (js "//evil.com/x")
    = js "https://evil.com/x" /\
  rmap (@origin plain_hosts) (@new_URL plain_hosts (js "https://a.com/") None)
    = Ok (js "https://a.com") /\
  startsWith (js "https://evil.com/x") (js "https://a.com") = false.
Proof. repeat split; vm_compute; reflexivity. Qed.

(** The other two conditions are needed as well: a reference with a scheme
    of its own, and a base with credentials. *)
Example resolveUrl_foreign_scheme :
  @resolveUrl plain_hosts (js "https://a.com/") (js "ftp://x.org/y") = js "ftp://x.org/y".
Proof. vm_compute. reflexivity. Qed.

Example resolveUrl_base_with_credentials :
  @resolveUrl plain_hosts (js "https://user@a.com/") (js "x") = js "https://user@a.com/x" /\
  rmap (@origin plain_hosts) (@new_URL plain_hosts (js "https://user@a.com/") None)
    = Ok (js "https://a.com").
Proof. split; vm_compute; reflexivity. Qed.



(** Why the tag lines have to be written plainly: the pattern is not
    anchored, so in [AVERAGE-BANDWIDTH=100,BANDWIDTH=900] it reads 100.
    Every tag line of this playlist is paired with its URI line, the first
    variant declares the highest bandwidth, 900, and the variant of
    bandwidth 500 is selected. *)
Example C3_average_bandwidth_example :
  tags_paired average_first_variants = true /\
  plain_bandwidths average_first_variants = false /\
  stream_inf_variants average_first_variants
  = [(Finite 900, js "v1.m3u8"); (Finite 500, js "v2.m3u8")] /\
  @select_variant plain_hosts (js "https://host/path/master.m3u8") average_first_variants
  = (Finite 500, js "https://host/path/v2.m3u8").
Proof. repeat split; vm_compute; reflexivity. Qed.

(** The two selections the specification gives as examples. *)
Example select_variant_three :
  @select_variant plain_hosts (js "https://host/path/master.m3u8") three_variants
  = (Finite 800000, js "https://host/path/high.m3u8").
Proof. vm_compute. reflexivity. Qed.

Example select_variant_tie :
  @select_variant plain_hosts (js "https://host/path/master.m3u8") tied_variants
  = (Finite 500000, js "https://host/path/second.m3u8").
Proof. vm_compute. reflexivity. Qed.

(** Bandwidths are compared as Numbers: above [2^53] two different digit
    strings can denote the same Number, and then they tie. *)
Example parseInt10_rounds :
  parseInt10 (js "9007199254740993") = Finite 9007199254740992 /\
  parseInt10 (js "9007199254740992") = Finite 9007199254740992.
Proof. split; vm_compute; reflexivity. Qed.

(** ** Strings that the URL parser and trim leave alone *)

Lemma escaped_char_facts c :
  is_escaped_char c = true ->
  32 < c < 127 /\ is_js_whitespace c = false /\ is_path_plain c = true /\ c <> 10.
Proof.
  unfold is_escaped_char, uriUnescaped, is_ascii_alpha, is_ascii_digit. intros Hc.
  assert (Hr : 32 < c < 127) by (revert Hc; zbool; discriminate).
  split; [exact Hr|]. split; [|split; [|lia]].
  - unfold is_js_whitespace. zbool.
  - unfold is_path_plain, path_set, query_set, c0_control_set. revert Hc. zbool; discriminate.
Qed.

Lemma code_points_plain s :
  Forall (fun c => c < 55296) s -> code_points s = s.
Proof.
  induction 1 as [|c s Hc _ IH]; [reflexivity|]. cbn [code_points].
  unfold is_lead_surrogate, is_trail_surrogate.
  destruct (Z.leb_spec 55296 c); [lia|]. destruct (Z.leb_spec 56320 c); [lia|].
  cbn [andb]. rewrite IH. reflexivity.
Qed.

Lemma strip_leading_visible s :
  Forall (fun c => 32 < c) s -> strip_leading s = s.
Proof.
  destruct 1 as [|c s Hc _]; [reflexivity|]. cbn [strip_leading].
  unfold is_c0_control_or_space. destruct (Z.leb_spec c 32); [lia|].
  rewrite andb_false_r. reflexivity.
Qed.

Lemma filter_tab_newline_visible (s : list Z) :
  Forall (fun c => 32 < c) s ->
  filter (fun c => is_ascii_tab_or_newline c = false) s = s.
Proof.
  induction 1 as [|c s Hc _ IH]; [reflexivity|].
  rewrite filter_cons_True; [rewrite IH; reflexivity|].
  unfold is_ascii_tab_or_newline. zbool.
Qed.

(** The URL parser reads a string of visible, non-surrogate characters as it
    is. *)
Lemma url_input_visible s :
  Forall (fun c => 32 < c < 55296) s -> url_input s = s.
Proof.
  intros Hs. unfold url_input.
  assert (Hlow : Forall (fun c => c < 55296) s) by (eapply Forall_impl; [exact Hs|]; cbn; lia).
  assert (Hvis : Forall (fun c => 32 < c) s) by (eapply Forall_impl; [exact Hs|]; cbn; lia).
  rewrite (code_points_plain _ Hlow), (strip_leading_visible _ Hvis).
  rewrite strip_leading_visible by (apply Forall_rev; exact Hvis).
  rewrite rev_involutive. apply filter_tab_newline_visible, Hvis.
Qed.

Lemma trimStart_visible s :
  Forall (fun c => is_js_whitespace c = false) s -> trimStart s = s.
Proof. destruct 1 as [|c s Hc _]; [reflexivity|]. cbn [trimStart]. rewrite Hc. reflexivity. Qed.

Lemma trim_visible s :
  Forall (fun c => is_js_whitespace c = false) s -> trim s = s.
Proof.
  intros Hs. unfold trim. rewrite (trimStart_visible _ Hs).
  rewrite trimStart_visible by (apply Forall_rev; exact Hs). apply rev_involutive.
Qed.

(** The path state appends plain characters to its buffer. *)
Lemma path_state_plain u : forall chars path buffer rest,
  Forall (fun c => is_path_plain c = true) chars ->
  path_state u path buffer (chars ++ rest) = path_state u path (buffer ++ chars) rest.
Proof.
  induction chars as [|c chars IH]; intros path buffer rest Hc.
  { rewrite app_nil_r. reflexivity. }
  apply Forall_cons in Hc as [Hc Hcs]. cbn [app path_state].
  unfold is_path_plain in Hc. apply negb_true_iff in Hc.
  apply orb_false_elim in Hc as [Hc Hset]. apply orb_false_elim in Hc as [Hc H35].
  apply orb_false_elim in Hc as [Hc H63]. apply orb_false_elim in Hc as [H47 H92].
  rewrite H47, H92, H63, H35, andb_false_r. cbn [orb].
  unfold utf8_percent_encode. rewrite Hset.
  rewrite IH by exact Hcs. rewrite <- app_assoc. reflexivity.
Qed.

(** ** The URL class returns ASCII strings

    Every component of a parsed record, and so [href], [origin] and
    [pathname], is an ASCII string, as long as the host parser returns
    one: whatever is not printable ASCII is percent-encoded. *)

Lemma code_units_app a b : code_units a -> code_units b -> code_units (a ++ b).
Proof. apply Forall_app_2. Qed.

Lemma ascii_app a b : ascii_string a -> ascii_string b -> ascii_string (a ++ b).
Proof. apply Forall_app_2. Qed.

Lemma ascii_code_units s : ascii_string s -> code_units s.
Proof. intros Hs. eapply Forall_impl; [exact Hs|]. intros c Hc. cbn beta in Hc. lia. Qed.

(** A check by computation, for closed strings. *)
Lemma code_units_forallb s : forallb is_code_unit s = true -> code_units s.
Proof.
  induction s as [|c s IH]; [constructor|]. cbn [forallb].
  intros [Hc Hs]%andb_prop. apply Forall_cons; split; [|apply IH, Hs].
  unfold is_code_unit in Hc. lia.
Qed.

Lemma code_points_range s : code_units s -> code_point_list (code_points s).
Proof.
  induction s as [s IH] using (induction_ltof1 _ (@length Z)). unfold ltof in IH.
  intros Hs. destruct s as [|c rest]; [constructor|].
  apply Forall_cons in Hs as [Hc Hrest]. cbn [code_points].
  destruct (is_lead_surrogate c) eqn:Hlead.
  - destruct rest as [|d rest']; [apply Forall_cons; split; [lia|constructor]|].
    destruct (is_trail_surrogate d) eqn:Htrail.
    + apply Forall_cons in Hrest as [Hd Hrest'].
      apply Forall_cons; split; [|apply IH; [cbn; lia|exact Hrest']].
      unfold UTF16SurrogatePairToCodePoint, is_lead_surrogate, is_trail_surrogate in *. lia.
    + apply Forall_cons; split; [lia|]. apply IH; [cbn; lia|exact Hrest].
  - destruct (is_trail_surrogate c);
      (apply Forall_cons; split; [lia|apply IH; [cbn; lia|exact Hrest]]).
Qed.

Lemma strip_leading_Forall (P : Z -> Prop) s : Forall P s -> Forall P (strip_leading s).
Proof.
  induction 1 as [|c s Hc Hs IH]; [constructor|]. cbn [strip_leading].
  destruct (is_c0_control_or_space c); [exact IH|]. apply Forall_cons; split; assumption.
Qed.

Lemma filter_Forall (P : Z -> Prop) (keep : Z -> bool) s :
  Forall P s -> Forall P (filter (fun c => keep c = false) s).
Proof.
  induction 1 as [|c s Hc Hs IH]; [constructor|]. rewrite filter_cons.
  destruct (decide (keep c = false)); [apply Forall_cons; split; assumption|exact IH].
Qed.

Lemma url_input_range s : code_units s -> code_point_list (url_input s).
Proof.
  intros Hs. unfold url_input, code_point_list.
  apply filter_Forall, Forall_rev, strip_leading_Forall, Forall_rev, strip_leading_Forall.
  apply code_points_range, Hs.
Qed.

Lemma percent_octets_ascii bs :
  Forall (fun b => 0 <= b < 256) bs -> ascii_string (percent_octets bs).
Proof.
  intros Hb. eapply Forall_impl; [apply percent_octets_chars, Hb|].
  intros c Hc. apply escaped_char_facts in Hc. lia.
Qed.

Lemma utf8_percent_encode_ascii in_set c :
  (forall c, in_set c = false -> 31 < c <= 126) ->
  0 <= c <= 1114111 -> ascii_string (utf8_percent_encode in_set c).
Proof.
  intros Hset Hc. unfold utf8_percent_encode. destruct (in_set c) eqn:Hin.
  - apply percent_octets_ascii, utf8_octets_range, Hc.
  - apply Hset in Hin. apply Forall_cons; split; [lia|constructor].
Qed.

Lemma percent_encode_all_ascii in_set s :
  (forall c, in_set c = false -> 31 < c <= 126) ->
  code_point_list s -> ascii_string (percent_encode_all in_set s).
Proof.
  intros Hset Hs. unfold percent_encode_all. apply Forall_concat, Forall_map.
  eapply Forall_impl; [exact Hs|]. intros c Hc.
  apply utf8_percent_encode_ascii; assumption.
Qed.

(** Every percent-encode set contains what is not printable ASCII. *)
Lemma c0_control_set_covers c : c0_control_set c = false -> 31 < c <= 126.
Proof. unfold c0_control_set. zbool; discriminate. Qed.

Lemma fragment_set_covers c : fragment_set c = false -> 31 < c <= 126.
Proof.
  unfold fragment_set. intros Hc. apply c0_control_set_covers.
  do 5 (apply orb_false_elim in Hc as [Hc _]). exact Hc.
Qed.

Lemma query_set_covers c : query_set c = false -> 31 < c <= 126.
Proof.
  unfold query_set. intros Hc. apply c0_control_set_covers.
  do 5 (apply orb_false_elim in Hc as [Hc _]). exact Hc.
Qed.

Lemma special_query_set_covers c : special_query_set c = false -> 31 < c <= 126.
Proof.
  unfold special_query_set. intros Hc. apply query_set_covers.
  apply orb_false_elim in Hc as [Hc _]. exact Hc.
Qed.

Lemma path_set_covers c : path_set c = false -> 31 < c <= 126.
Proof.
  unfold path_set. intros Hc. apply query_set_covers.
  do 5 (apply orb_false_elim in Hc as [Hc _]). exact Hc.
Qed.

Lemma userinfo_set_covers c : userinfo_set c = false -> 31 < c <= 126.
Proof.
  unfold userinfo_set. intros Hc. apply path_set_covers.
  do 7 (apply orb_false_elim in Hc as [Hc _]). exact Hc.
Qed.

(** [Some a = Some b] in the goal: replace [b] by [a], leaving [a] as it is. *)
Ltac some_eq :=
  let E := fresh in intros E; apply (inj Some) in E; subst.

(** *** The record's setters *)

Ltac units_fields :=
  constructor;
  cbn [url_scheme url_username url_password url_host url_port url_path_of url_query
       url_fragment set_path set_query set_fragment set_host set_port set_credentials];
  try assumption.

Lemma set_fragment_ascii u f :
  url_ascii u -> ascii_string f -> url_ascii (set_fragment u (Some f)).
Proof. intros [] Hf. units_fields. intros ? [= <-]. exact Hf. Qed.

Lemma set_query_ascii u q :
  url_ascii u -> (forall q', q = Some q' -> ascii_string q') ->
  url_ascii (set_query u q).
Proof. intros [] Hq. units_fields. Qed.

Lemma set_path_ascii u p :
  url_ascii u ->
  match p with OpaquePath p => ascii_string p | ListPath l => Forall ascii_string l end ->
  url_ascii (set_path u p).
Proof. intros [] Hp. units_fields. Qed.

Lemma set_host_ascii u h :
  url_ascii u -> ascii_string h -> url_ascii (set_host u (Some h)).
Proof. intros [] Hh. units_fields. intros ? [= <-]. exact Hh. Qed.

Lemma set_port_ascii u p :
  url_ascii u -> (forall p', p = Some p' -> 0 <= p') -> url_ascii (set_port u p).
Proof. intros [] Hp. units_fields. Qed.

Lemma set_credentials_ascii u user pass :
  url_ascii u -> ascii_string user -> ascii_string pass ->
  url_ascii (set_credentials u user pass).
Proof. intros [] Hu Hp. units_fields. Qed.

Lemma url_with_scheme_ascii scheme :
  ascii_string scheme -> url_ascii (url_with_scheme scheme).
Proof.
  intros Hs. unfold url_with_scheme. units_fields; try constructor; discriminate.
Qed.

Lemma path_segments_ascii u : url_ascii u -> Forall ascii_string (path_segments u).
Proof.
  intros [_ _ _ _ _ Hp _ _]. unfold path_segments.
  destruct (url_path_of u); [constructor|exact Hp].
Qed.

(** *** The states *)

Lemma fragment_state_ascii u input :
  url_ascii u -> code_point_list input -> url_ascii (fragment_state u input).
Proof.
  intros Hu Hin. apply set_fragment_ascii; [exact Hu|].
  apply percent_encode_all_ascii; [apply fragment_set_covers|exact Hin].
Qed.

Lemma query_state_ascii u : forall input buffer,
  url_ascii u -> ascii_string buffer -> code_point_list input ->
  url_ascii (query_state u buffer input).
Proof.
  induction input as [|c rest IH]; intros buffer Hu Hb Hin; cbn [query_state].
  - apply set_query_ascii; [exact Hu|]. intros ? [= <-]. exact Hb.
  - apply Forall_cons in Hin as [Hc Hrest]. destruct (c =? 35).
    + apply fragment_state_ascii; [|exact Hrest].
      apply set_query_ascii; [exact Hu|]. intros ? [= <-]. exact Hb.
    + apply IH; [exact Hu| |exact Hrest]. apply ascii_app; [exact Hb|].
      destruct (is_special u);
        (apply utf8_percent_encode_ascii;
         [first [apply special_query_set_covers|apply query_set_covers]|exact Hc]).
Qed.

Lemma removelast_Forall {A} (P : A -> Prop) (l : list A) :
  Forall P l -> Forall P (removelast l).
Proof.
  induction 1 as [|a l Ha Hl IH]; [constructor|]. cbn [removelast].
  destruct l; [constructor|]. apply Forall_cons; split; assumption.
Qed.

Lemma shorten_path_ascii scheme path :
  Forall ascii_string path -> Forall ascii_string (shorten_path scheme path).
Proof.
  intros Hp. unfold shorten_path. destruct path as [|seg [|seg' path]].
  - constructor.
  - destruct (_ && _); [exact Hp|constructor].
  - apply removelast_Forall, Hp.
Qed.

Lemma close_segment_ascii scheme path buffer slash :
  Forall ascii_string path -> ascii_string buffer ->
  Forall ascii_string (close_segment scheme path buffer slash).
Proof.
  intros Hp Hb. unfold close_segment.
  assert (Hempty : Forall ascii_string [@nil Z]) by (repeat constructor).
  destruct (is_double_dot buffer).
  { destruct slash; [|apply Forall_app_2; [|exact Hempty]]; apply shorten_path_ascii, Hp. }
  destruct (is_single_dot buffer).
  { destruct slash; [exact Hp|apply Forall_app_2; [exact Hp|exact Hempty]]. }
  apply Forall_app_2; [exact Hp|]. apply Forall_cons; split; [|constructor].
  destruct buffer as [|a [|b rest]]; try exact Hb.
  destruct (_ && _); [|exact Hb].
  apply Forall_cons in Hb as [Ha Hb]. apply Forall_cons in Hb as [_ Hrest].
  apply Forall_cons; split; [exact Ha|]. apply Forall_cons; split; [lia|exact Hrest].
Qed.

Lemma path_state_ascii u : forall input path buffer,
  url_ascii u -> Forall ascii_string path -> ascii_string buffer ->
  code_point_list input -> url_ascii (path_state u path buffer input).
Proof.
  induction input as [|c rest IH]; intros path buffer Hu Hp Hb Hin; cbn [path_state].
  - apply set_path_ascii; [exact Hu|]. apply close_segment_ascii; assumption.
  - apply Forall_cons in Hin as [Hc Hrest].
    destruct ((c =? 47) || is_special u && (c =? 92)).
    { apply IH; [exact Hu| |constructor|exact Hrest].
      apply close_segment_ascii; assumption. }
    destruct (c =? 63).
    { apply query_state_ascii; [|constructor|exact Hrest].
      apply set_path_ascii; [exact Hu|]. apply close_segment_ascii; assumption. }
    destruct (c =? 35).
    { apply fragment_state_ascii; [|exact Hrest].
      apply set_path_ascii; [exact Hu|]. apply close_segment_ascii; assumption. }
    apply IH; [exact Hu|exact Hp| |exact Hrest].
    apply ascii_app; [exact Hb|].
    apply utf8_percent_encode_ascii; [apply path_set_covers|exact Hc].
Qed.

Lemma path_start_state_ascii u input :
  url_ascii u -> code_point_list input -> url_ascii (path_start_state u input).
Proof.
  intros Hu Hin. pose proof (path_segments_ascii u Hu) as Hsegs.
  assert (Hnil : ascii_string []) by constructor.
  unfold path_start_state. destruct (is_special u).
  - destruct input as [|c rest]; [apply path_state_ascii; assumption|].
    pose proof Hin as Hin'. apply Forall_cons in Hin' as [Hc Hrest].
    destruct ((c =? 47) || (c =? 92)); apply path_state_ascii; assumption.
  - destruct input as [|c rest]; [exact Hu|].
    pose proof Hin as Hin'. apply Forall_cons in Hin' as [Hc Hrest].
    destruct (c =? 63); [apply query_state_ascii; assumption|].
    destruct (c =? 35); [apply fragment_state_ascii; assumption|].
    destruct (c =? 47); apply path_state_ascii; assumption.
Qed.

Lemma close_port_ascii u buffer input u' :
  url_ascii u -> Forall (fun d => 48 <= d) buffer -> code_point_list input ->
  close_port u buffer input = Some u' -> url_ascii u'.
Proof.
  intros Hu Hb Hin. unfold close_port. destruct buffer as [|d ds].
  - intros [= <-]. apply path_start_state_ascii; assumption.
  - destruct (65535 <? _); [discriminate|]. intros [= <-].
    apply path_start_state_ascii; [|exact Hin]. apply set_port_ascii; [exact Hu|].
    intros p. destruct (bool_decide _); [discriminate|]. intros [= <-].
    unfold decimal_value. apply decimal_value_nonneg_aux; [lia|exact Hb].
Qed.

Lemma port_state_ascii u : forall input buffer u',
  url_ascii u -> Forall (fun d => 48 <= d) buffer -> code_point_list input ->
  port_state u buffer input = Some u' -> url_ascii u'.
Proof.
  induction input as [|c rest IH]; intros buffer u' Hu Hb Hin; cbn [port_state].
  - apply close_port_ascii; assumption.
  - pose proof Hin as Hin'. apply Forall_cons in Hin' as [Hc Hrest].
    destruct (is_ascii_digit c) eqn:Hd.
    + apply IH; [exact Hu| |exact Hrest]. apply Forall_app_2; [exact Hb|].
      apply Forall_cons; split; [|constructor]. unfold is_ascii_digit in Hd. lia.
    + destruct (is_authority_end u c); [|discriminate].
      apply close_port_ascii; assumption.
Qed.

Section ParserStrings.
Context `{HostParser} `{!HostParserLaws}.

Lemma host_parse_is_ascii isOpaque input h :
  code_point_list input -> host_parse isOpaque input = Some h -> ascii_string h.
Proof.
  intros Hin Hh. eapply Forall_impl; [apply (host_parse_visible _ _ _ Hin Hh)|].
  intros c Hc. cbn beta in Hc. lia.
Qed.

Lemma host_state_ascii u : forall input buffer insideBrackets u',
  url_ascii u -> code_point_list buffer -> code_point_list input ->
  host_state u buffer insideBrackets input = Some u' -> url_ascii u'.
Proof.
  induction input as [|c rest IH]; intros buffer inside u' Hu Hb Hin; cbn [host_state].
  - destruct (_ && _); [discriminate|].
    destruct (host_parse _ buffer) as [h|] eqn:Hh; [|discriminate]. some_eq.
    apply path_start_state_ascii; [|constructor].
    apply set_host_ascii; [exact Hu|]. apply (host_parse_is_ascii _ _ _ Hb Hh).
  - pose proof Hin as Hin'. apply Forall_cons in Hin' as [Hc Hrest].
    destruct ((c =? 58) && negb inside).
    { destruct buffer as [|b bs]; [discriminate|].
      destruct (host_parse _ (b :: bs)) as [h|] eqn:Hh; [|discriminate].
      apply port_state_ascii; [|constructor|exact Hrest].
      apply set_host_ascii; [exact Hu|]. apply (host_parse_is_ascii _ _ _ Hb Hh). }
    destruct (is_authority_end u c).
    { destruct (_ && _); [discriminate|].
      destruct (host_parse _ buffer) as [h|] eqn:Hh; [|discriminate]. some_eq.
      apply path_start_state_ascii; [|exact Hin].
      apply set_host_ascii; [exact Hu|]. apply (host_parse_is_ascii _ _ _ Hb Hh). }
    apply IH; [exact Hu| |exact Hrest].
    apply Forall_app_2; [exact Hb|]. apply Forall_cons; split; [exact Hc|constructor].
Qed.

Lemma add_credentials_ascii : forall buffer seen user pass seen' user' pass',
  code_point_list buffer -> ascii_string user -> ascii_string pass ->
  add_credentials buffer seen user pass = (seen', user', pass') ->
  ascii_string user' /\ ascii_string pass'.
Proof.
  induction buffer as [|c rest IH]; intros seen user pass seen' user' pass' Hb Hu Hp;
    cbn [add_credentials].
  - intros [= _ <- <-]. split; assumption.
  - apply Forall_cons in Hb as [Hc Hrest].
    assert (Henc : ascii_string (utf8_percent_encode userinfo_set c))
      by (apply utf8_percent_encode_ascii; [apply userinfo_set_covers|exact Hc]).
    destruct ((c =? 58) && negb seen); [apply IH; assumption|].
    destruct seen; apply IH; try assumption; apply ascii_app; assumption.
Qed.

Lemma authority_state_ascii input : forall u buffer atSignSeen passwordTokenSeen u',
  url_ascii u -> code_point_list buffer -> code_point_list input ->
  authority_state u buffer atSignSeen passwordTokenSeen input = Some u' ->
  url_ascii u'.
Proof.
  induction input as [|c rest IH]; intros u buffer atSign seen u' Hu Hb Hin;
    cbn [authority_state].
  - destruct (_ && _); [discriminate|].
    apply host_state_ascii; [exact Hu|constructor|exact Hb].
  - pose proof Hin as Hin'. apply Forall_cons in Hin' as [Hc Hrest].
    destruct (c =? 64).
    { cbv zeta.
      assert (Hbuf : code_point_list (if atSign then js "%40" ++ buffer else buffer)).
      { destruct atSign; [|exact Hb]. apply Forall_app_2; [|exact Hb].
        vm_compute (js _). repeat (apply Forall_cons; split; [lia|]). constructor. }
      destruct (add_credentials _ seen (url_username u) (url_password u))
        as [[seen' user] pass] eqn:Hadd.
      destruct (add_credentials_ascii _ _ _ _ _ _ _ Hbuf (username_ascii u Hu)
                  (password_ascii u Hu) Hadd) as [Huser Hpass].
      apply IH; [|constructor|exact Hrest].
      apply set_credentials_ascii; assumption. }
    destruct (is_authority_end u c).
    { destruct (_ && _); [discriminate|].
      apply host_state_ascii; [exact Hu|constructor|].
      apply Forall_app_2; assumption. }
    apply IH; [exact Hu| |exact Hrest].
    apply Forall_app_2; [exact Hb|]. apply Forall_cons; split; [exact Hc|constructor].
Qed.
Lemma special_authority_ignore_slashes_state_ascii u : forall input u',
  url_ascii u -> code_point_list input ->
  special_authority_ignore_slashes_state u input = Some u' -> url_ascii u'.
Proof.
  induction input as [|c rest IH]; intros u' Hu Hin;
    cbn [special_authority_ignore_slashes_state].
  - apply authority_state_ascii; [exact Hu|constructor|constructor].
  - pose proof Hin as Hin'. apply Forall_cons in Hin' as [Hc Hrest].
    destruct ((c =? 47) || (c =? 92)); [apply IH; assumption|].
    apply authority_state_ascii; [exact Hu|constructor|exact Hin].
Qed.

Lemma special_authority_slashes_state_ascii u input u' :
  url_ascii u -> code_point_list input ->
  special_authority_slashes_state u input = Some u' -> url_ascii u'.
Proof.
  intros Hu Hin. unfold special_authority_slashes_state.
  destruct (startsWith input (js "//"));
    apply special_authority_ignore_slashes_state_ascii;
    [exact Hu|apply Forall_drop, Hin|exact Hu|exact Hin].
Qed.

Lemma copy_authority_ascii u base :
  url_ascii u -> url_ascii base -> url_ascii (copy_authority u base).
Proof. intros [] []. unfold copy_authority. units_fields. Qed.

Lemma relative_slash_state_ascii u base input u' :
  url_ascii u -> url_ascii base -> code_point_list input ->
  relative_slash_state u base input = Some u' -> url_ascii u'.
Proof.
  intros Hu Hbase Hin. unfold relative_slash_state.
  pose proof (copy_authority_ascii u base Hu Hbase) as Hcopy.
  pose proof (path_segments_ascii _ Hcopy) as Hsegs.
  destruct input as [|c rest].
  - some_eq. apply path_state_ascii; [exact Hcopy|exact Hsegs|constructor|constructor].
  - pose proof Hin as Hin'. apply Forall_cons in Hin' as [Hc Hrest].
    destruct (is_special u && ((c =? 47) || (c =? 92))).
    { apply special_authority_ignore_slashes_state_ascii; assumption. }
    destruct (c =? 47).
    { apply authority_state_ascii; [exact Hu|constructor|exact Hrest]. }
    some_eq. apply path_state_ascii; [exact Hcopy|exact Hsegs|constructor|exact Hin].
Qed.

Lemma inherited_ascii u base :
  url_ascii u -> url_ascii base ->
  url_ascii (set_query (set_path (copy_authority u base) (url_path_of base))
                            (url_query base)).
Proof.
  intros Hu Hbase. apply set_query_ascii; [|apply (query_ascii base Hbase)].
  apply set_path_ascii; [|apply (path_ascii base Hbase)].
  apply copy_authority_ascii; assumption.
Qed.

Lemma relative_state_ascii base input u' :
  url_ascii base -> code_point_list input ->
  relative_state base input = Some u' -> url_ascii u'.
Proof.
  intros Hbase Hin. unfold relative_state.
  pose proof (url_with_scheme_ascii _ (scheme_ascii base Hbase)) as Hu.
  pose proof (inherited_ascii _ base Hu Hbase) as Hinh.
  destruct input as [|c rest]; [some_eq; exact Hinh|].
  pose proof Hin as Hin'. apply Forall_cons in Hin' as [Hc Hrest].
  destruct ((c =? 47) || _).
  { apply relative_slash_state_ascii; assumption. }
  destruct (c =? 63).
  { some_eq. apply query_state_ascii; [exact Hinh|constructor|exact Hrest]. }
  destruct (c =? 35).
  { some_eq. apply fragment_state_ascii; assumption. }
  some_eq. apply path_state_ascii; [| |constructor|exact Hin].
  - apply set_query_ascii; [exact Hinh|discriminate].
  - apply shorten_path_ascii, path_segments_ascii, Hinh.
Qed.

Lemma special_relative_or_authority_state_ascii u base input u' :
  url_ascii u -> url_ascii base -> code_point_list input ->
  special_relative_or_authority_state u base input = Some u' -> url_ascii u'.
Proof.
  intros Hu Hbase Hin. unfold special_relative_or_authority_state.
  destruct (startsWith input (js "//")).
  - apply special_authority_ignore_slashes_state_ascii; [exact Hu|apply Forall_drop, Hin].
  - apply relative_state_ascii; assumption.
Qed.

Lemma path_or_authority_state_ascii u input u' :
  url_ascii u -> code_point_list input ->
  path_or_authority_state u input = Some u' -> url_ascii u'.
Proof.
  intros Hu Hin. unfold path_or_authority_state.
  destruct (startsWith input (js "/")).
  - apply authority_state_ascii; [exact Hu|constructor|apply Forall_drop, Hin].
  - some_eq.
    apply path_state_ascii; [exact Hu|apply path_segments_ascii, Hu|constructor|exact Hin].
Qed.

Lemma opaque_path_state_ascii u : forall input path,
  url_ascii u -> ascii_string path -> code_point_list input ->
  url_ascii (opaque_path_state u path input).
Proof.
  induction input as [|c rest IH]; intros path Hu Hp Hin; cbn [opaque_path_state].
  - apply set_path_ascii; assumption.
  - apply Forall_cons in Hin as [Hc Hrest].
    destruct (c =? 63).
    { apply query_state_ascii; [|constructor|exact Hrest]. apply set_path_ascii; assumption. }
    destruct (c =? 35).
    { apply fragment_state_ascii; [|exact Hrest]. apply set_path_ascii; assumption. }
    apply IH; [exact Hu| |exact Hrest]. apply ascii_app; [exact Hp|].
    apply utf8_percent_encode_ascii; [apply c0_control_set_covers|exact Hc].
Qed.

Lemma windows_drive_letter_ascii buffer :
  is_windows_drive_letter buffer = true -> ascii_string buffer.
Proof.
  destruct buffer as [|a [|b [|c rest]]]; try discriminate.
  unfold is_windows_drive_letter, is_ascii_alpha. intros Hd.
  apply Forall_cons; split; [lia|]. apply Forall_cons; split; [lia|constructor].
Qed.

Lemma file_host_state_ascii u : forall input buffer u',
  url_ascii u -> code_point_list buffer -> code_point_list input ->
  file_host_state u buffer input = Some u' -> url_ascii u'.
Proof.
  assert (Hfinish : forall input buffer u',
    url_ascii u -> code_point_list buffer -> code_point_list input ->
    (if is_windows_drive_letter buffer
     then Some (path_state u (path_segments u) buffer input)
     else
       match buffer with
       | [] => Some (path_start_state (set_host u (Some [])) input)
       | _ =>
           match host_parse false buffer with
           | None => None
           | Some h =>
               let h' := if str_eqb h (js "localhost") then [] else h in
               Some (path_start_state (set_host u (Some h')) input)
           end
       end) = Some u' -> url_ascii u').
  { intros input buffer u' Hu Hb Hin.
    destruct (is_windows_drive_letter buffer) eqn:Hdrive.
    { some_eq. apply path_state_ascii; [exact Hu|apply path_segments_ascii, Hu| |exact Hin].
      apply windows_drive_letter_ascii, Hdrive. }
    destruct buffer as [|b bs].
    { some_eq. apply path_start_state_ascii; [|exact Hin].
      apply set_host_ascii; [exact Hu|constructor]. }
    destruct (host_parse false (b :: bs)) as [h|] eqn:Hh; [|discriminate].
    cbv zeta. some_eq. apply path_start_state_ascii; [|exact Hin].
    apply set_host_ascii; [exact Hu|].
    destruct (str_eqb h (js "localhost")); [constructor|].
    apply (host_parse_is_ascii _ _ _ Hb Hh). }
  induction input as [|c rest IH]; intros buffer u' Hu Hb Hin; cbn [file_host_state].
  - apply Hfinish; assumption.
  - pose proof Hin as Hin'. apply Forall_cons in Hin' as [Hc Hrest].
    destruct ((c =? 47) || (c =? 92) || (c =? 63) || (c =? 35)).
    + apply Hfinish; assumption.
    + apply IH; [exact Hu| |exact Hrest].
      apply Forall_app_2; [exact Hb|]. apply Forall_cons; split; [exact Hc|constructor].
Qed.

Lemma base_is_file_ascii base b :
  (forall b, base = Some b -> url_ascii b) ->
  base_is_file base = Some b -> url_ascii b.
Proof.
  intros Hbase. unfold base_is_file. destruct base as [b'|]; [|discriminate].
  destruct (str_eqb _ _); [|discriminate]. some_eq. apply Hbase. reflexivity.
Qed.

Lemma set_host_option_ascii u b :
  url_ascii u -> url_ascii b -> url_ascii (set_host u (url_host b)).
Proof. intros [] []. units_fields. Qed.

Lemma file_slash_state_ascii u base input u' :
  url_ascii u -> (forall b, base = Some b -> url_ascii b) ->
  code_point_list input ->
  file_slash_state u base input = Some u' -> url_ascii u'.
Proof.
  intros Hu Hbase Hin. unfold file_slash_state.
  assert (Hother : forall u',
    match base_is_file base with
    | Some b =>
        let u' := set_host u (url_host b) in
        let u'' :=
          match path_segments b with
          | first :: _ =>
              if negb (starts_with_windows_drive_letter input) &&
                 is_normalized_windows_drive_letter first
              then set_path u' (ListPath (path_segments u' ++ [first]))
              else u'
          | [] => u'
          end in
        Some (path_state u'' (path_segments u'') [] input)
    | None => Some (path_state u (path_segments u) [] input)
    end = Some u' -> url_ascii u').
  { intros v. destruct (base_is_file base) as [b|] eqn:Hfile.
    - pose proof (base_is_file_ascii base b Hbase Hfile) as Hb.
      pose proof (set_host_option_ascii u b Hu Hb) as Hu1.
      cbv zeta. some_eq.
      assert (Hu2 : url_ascii
                (match path_segments b with
                 | first :: _ =>
                     if negb (starts_with_windows_drive_letter input) &&
                        is_normalized_windows_drive_letter first
                     then set_path (set_host u (url_host b))
                            (ListPath (path_segments (set_host u (url_host b)) ++ [first]))
                     else set_host u (url_host b)
                 | [] => set_host u (url_host b)
                 end)).
      { pose proof (path_segments_ascii b Hb) as Hsegs.
        destruct (path_segments b) as [|first more]; [exact Hu1|].
        destruct (_ && _); [|exact Hu1].
        apply set_path_ascii; [exact Hu1|].
        apply Forall_app_2; [apply path_segments_ascii, Hu1|].
        apply Forall_cons in Hsegs as [Hfirst _].
        apply Forall_cons; split; [exact Hfirst|constructor]. }
      apply path_state_ascii; [exact Hu2|apply path_segments_ascii, Hu2|constructor|exact Hin].
    - some_eq.
      apply path_state_ascii; [exact Hu|apply path_segments_ascii, Hu|constructor|exact Hin]. }
  destruct input as [|c rest]; [apply Hother|].
  pose proof Hin as Hin'. apply Forall_cons in Hin' as [Hc Hrest].
  destruct ((c =? 47) || (c =? 92)); [|apply Hother].
  apply file_host_state_ascii; [exact Hu|constructor|exact Hrest].
Qed.

Lemma file_state_ascii base input u' :
  (forall b, base = Some b -> url_ascii b) -> code_point_list input ->
  file_state base input = Some u' -> url_ascii u'.
Proof.
  intros Hbase Hin. unfold file_state.
  assert (Hu : url_ascii (set_host (url_with_scheme (js "file")) (Some []))).
  { apply set_host_ascii; [|constructor]. apply url_with_scheme_ascii.
    vm_compute (js _). repeat (apply Forall_cons; split; [lia|]). constructor. }
  set (u := set_host (url_with_scheme (js "file")) (Some [])) in *.
  assert (Hplain : forall u',
            Some (path_state u (path_segments u) [] input) = Some u' -> url_ascii u').
  { intros v; some_eq.
    apply path_state_ascii; [exact Hu|apply path_segments_ascii, Hu|constructor|exact Hin]. }
  assert (Hinh : forall b, base_is_file base = Some b ->
            url_ascii (set_query (set_path (set_host u (url_host b)) (url_path_of b))
                                      (url_query b))).
  { intros b Hfile. pose proof (base_is_file_ascii base b Hbase Hfile) as Hb.
    apply set_query_ascii; [|apply (query_ascii b Hb)].
    apply set_path_ascii; [|apply (path_ascii b Hb)].
    apply set_host_option_ascii; assumption. }
  cbv zeta. destruct input as [|c rest].
  { destruct (base_is_file base) as [b|] eqn:Hfile; [|apply Hplain].
    some_eq. apply Hinh. reflexivity. }
  pose proof Hin as Hin'. apply Forall_cons in Hin' as [Hc Hrest].
  destruct ((c =? 47) || (c =? 92)).
  { apply file_slash_state_ascii; assumption. }
  destruct (base_is_file base) as [b|] eqn:Hfile; [|apply Hplain].
  specialize (Hinh b eq_refl).
  destruct (c =? 63).
  { some_eq. apply query_state_ascii; [exact Hinh|constructor|exact Hrest]. }
  destruct (c =? 35).
  { some_eq. apply fragment_state_ascii; assumption. }
  some_eq. apply path_state_ascii; [| |constructor|exact Hin].
  - apply set_query_ascii; [exact Hinh|discriminate].
  - destruct (starts_with_windows_drive_letter (c :: rest)); [constructor|].
    apply shorten_path_ascii, path_segments_ascii, Hinh.
Qed.

Lemma no_scheme_state_ascii base input u' :
  (forall b, base = Some b -> url_ascii b) -> code_point_list input ->
  no_scheme_state base input = Some u' -> url_ascii u'.
Proof.
  intros Hbase Hin. unfold no_scheme_state. destruct base as [b|]; [|discriminate].
  pose proof (Hbase b eq_refl) as Hb.
  destruct (has_opaque_path b).
  { destruct (startsWith input (js "#")); [|discriminate]. some_eq.
    apply fragment_state_ascii; [|apply Forall_drop, Hin].
    apply set_query_ascii; [|apply (query_ascii b Hb)].
    apply set_path_ascii; [|apply (path_ascii b Hb)].
    apply url_with_scheme_ascii, (scheme_ascii b Hb). }
  destruct (str_eqb (url_scheme b) (js "file")).
  - apply file_state_ascii; assumption.
  - apply relative_state_ascii; assumption.
Qed.

Lemma ascii_lower_ascii c :
  0 <= c <= 1114111 -> is_scheme_char c = true \/ is_ascii_alpha c = true ->
  0 <= ascii_lower c < 128.
Proof.
  unfold is_scheme_char, is_ascii_alpha, is_ascii_digit, ascii_lower. intros Hc Hs.
  destruct ((65 <=? c) && (c <=? 90)) eqn:Hup; lia.
Qed.

Lemma scheme_state_ascii : forall input buffer scheme rest,
  ascii_string buffer -> code_point_list input ->
  scheme_state buffer input = Some (scheme, rest) ->
  ascii_string scheme /\ code_point_list rest.
Proof.
  induction input as [|c input IH]; intros buffer scheme rest Hb Hin; cbn [scheme_state];
    [discriminate|].
  apply Forall_cons in Hin as [Hc Hrest].
  destruct (is_scheme_char c) eqn:Hs.
  - apply IH; [|exact Hrest]. apply ascii_app; [exact Hb|].
    apply Forall_cons; split; [|constructor]. apply ascii_lower_ascii; [exact Hc|left; exact Hs].
  - destruct (c =? 58); [|discriminate]. intros [= <- <-]. split; assumption.
Qed.

Lemma scheme_start_state_ascii input scheme rest :
  code_point_list input ->
  scheme_start_state input = Some (scheme, rest) ->
  ascii_string scheme /\ code_point_list rest.
Proof.
  intros Hin. unfold scheme_start_state. destruct input as [|c input]; [discriminate|].
  apply Forall_cons in Hin as [Hc Hrest].
  destruct (is_ascii_alpha c) eqn:Ha; [|discriminate].
  apply scheme_state_ascii; [|exact Hrest].
  apply Forall_cons; split; [|constructor]. apply ascii_lower_ascii; [exact Hc|right; exact Ha].
Qed.

(** The parser returns a record of strings. *)
Lemma basic_URL_parse_ascii input base u :
  code_units input -> (forall b, base = Some b -> url_ascii b) ->
  basic_URL_parse input base = Some u -> url_ascii u.
Proof.
  intros Hinput Hbase. unfold basic_URL_parse. cbv zeta.
  pose proof (url_input_range input Hinput) as Hin.
  destruct (scheme_start_state (url_input input)) as [[scheme rest]|] eqn:Hscheme.
  2:{ apply no_scheme_state_ascii; assumption. }
  apply scheme_start_state_ascii in Hscheme as [Hs Hrest]; [|exact Hin].
  pose proof (url_with_scheme_ascii scheme Hs) as Hu.
  destruct (str_eqb scheme (js "file")).
  { apply file_state_ascii; assumption. }
  destruct (is_special (url_with_scheme scheme)).
  - destruct base as [b|];
      [|apply special_authority_slashes_state_ascii; assumption].
    destruct (str_eqb (url_scheme b) scheme).
    + apply special_relative_or_authority_state_ascii; [exact Hu| |exact Hrest].
      apply Hbase. reflexivity.
    + apply special_authority_slashes_state_ascii; assumption.
  - destruct (startsWith rest (js "/")).
    + apply path_or_authority_state_ascii; [exact Hu|apply Forall_drop, Hrest].
    + some_eq. apply opaque_path_state_ascii; [exact Hu|constructor|exact Hrest].
Qed.

Lemma new_URL_ascii url u :
  code_units url -> new_URL url None = Ok u -> url_ascii u.
Proof.
  intros Hurl. unfold new_URL.
  destruct (basic_URL_parse url None) as [u'|] eqn:Hp; [|discriminate].
  intros [= <-]. eapply basic_URL_parse_ascii; [exact Hurl| |exact Hp]. discriminate.
Qed.

Lemma new_URL_relative_ascii url base u :
  code_units url -> code_units base -> new_URL url (Some base) = Ok u -> url_ascii u.
Proof.
  intros Hurl Hbase. unfold new_URL.
  destruct (basic_URL_parse base None) as [b|] eqn:Hb; [|discriminate].
  destruct (basic_URL_parse url (Some b)) as [u'|] eqn:Hp; [|discriminate].
  intros [= <-]. eapply basic_URL_parse_ascii; [exact Hurl| |exact Hp].
  intros b' [= <-]. eapply basic_URL_parse_ascii; [exact Hbase| |exact Hb]. discriminate.
Qed.
End ParserStrings.

(** *** The serializers *)

Lemma decimal_digits_aux_ascii fuel : forall n acc,
  0 <= n -> ascii_string acc -> ascii_string (decimal_digits_aux fuel n acc).
Proof.
  induction fuel as [|fuel IH]; intros n acc Hn Hacc; cbn [decimal_digits_aux];
    [exact Hacc|].
  destruct (Z.ltb_spec n 10).
  - apply Forall_cons; split; [lia|exact Hacc].
  - apply IH; [apply Z.div_pos; lia|].
    apply Forall_cons; split; [|exact Hacc].
    pose proof (Z.mod_pos_bound n 10 ltac:(lia)). lia.
Qed.

Lemma literal_ascii (s : string) :
  forallb (fun c => (0 <=? c) && (c <? 128)) (js s) = true -> ascii_string (js s).
Proof.
  generalize (js s). intros l. induction l as [|c l IH]; [constructor|]. cbn [forallb].
  intros [Hc Hl]%andb_prop. apply Forall_cons; split; [lia|apply IH, Hl].
Qed.

Lemma serialize_authority_ascii u h :
  url_ascii u -> ascii_string h -> ascii_string (serialize_authority u h).
Proof.
  intros Hu Hh. unfold serialize_authority. apply ascii_app; [exact Hh|].
  destruct (url_port u) as [p|] eqn:Hp; [|constructor].
  apply Forall_cons; split; [lia|].
  apply decimal_digits_aux_ascii; [apply (port_nonneg u Hu), Hp|constructor].
Qed.

Lemma serialize_path_ascii u : url_ascii u -> ascii_string (serialize_path u).
Proof.
  intros Hu. pose proof (path_ascii u Hu) as Hp. unfold serialize_path.
  destruct (url_path_of u) as [p|segs]; [exact Hp|].
  apply Forall_concat, Forall_map. eapply Forall_impl; [exact Hp|].
  intros seg Hseg. apply Forall_cons; split; [lia|exact Hseg].
Qed.

Lemma pathname_ascii u : url_ascii u -> ascii_string (pathname u).
Proof. apply serialize_path_ascii. Qed.

Lemma href_ascii u : url_ascii u -> ascii_string (href u).
Proof.
  intros Hu. unfold href.
  apply ascii_app; [apply (scheme_ascii u Hu)|].
  apply ascii_app; [apply Forall_cons; split; [lia|constructor]|].
  apply ascii_app.
  { destruct (url_host u) as [h|] eqn:Hh.
    - apply ascii_app; [apply literal_ascii; reflexivity|].
      apply ascii_app;
        [|apply serialize_authority_ascii; [exact Hu|apply (host_ascii u Hu), Hh]].
      destruct (includes_credentials u); [|constructor].
      apply ascii_app; [apply (username_ascii u Hu)|].
      apply ascii_app; [|apply Forall_cons; split; [lia|constructor]].
      pose proof (password_ascii u Hu) as Hpass.
      destruct (url_password u); [constructor|].
      apply Forall_cons; split; [lia|exact Hpass].
    - destruct (url_path_of u) as [|[|[|] [|]]];
        first [apply literal_ascii; reflexivity|constructor]. }
  apply ascii_app; [apply serialize_path_ascii, Hu|].
  apply ascii_app.
  - destruct (url_query u) as [q|] eqn:Hq; [|constructor].
    apply Forall_cons; split; [lia|apply (query_ascii u Hu), Hq].
  - destruct (url_fragment u) as [f|] eqn:Hf; [|constructor].
    apply Forall_cons; split; [lia|apply (fragment_ascii u Hu), Hf].
Qed.

Lemma tuple_origin_ascii u : url_ascii u -> ascii_string (tuple_origin u).
Proof.
  intros Hu. unfold tuple_origin.
  apply ascii_app; [apply (scheme_ascii u Hu)|].
  apply ascii_app; [apply literal_ascii; reflexivity|].
  apply serialize_authority_ascii; [exact Hu|].
  destruct (url_host u) as [h|] eqn:Hh; [apply (host_ascii u Hu), Hh|constructor].
Qed.

Section SerializerStrings.
Context `{HostParser} `{!HostParserLaws}.

Lemma origin_ascii u : url_ascii u -> ascii_string (origin u).
Proof.
  intros Hu. unfold origin.
  destruct (has_tuple_origin (url_scheme u)); [apply tuple_origin_ascii, Hu|].
  destruct (str_eqb (url_scheme u) (js "blob")); [|apply literal_ascii; reflexivity].
  destruct (basic_URL_parse (serialize_path u) None) as [p|] eqn:Hp;
    [|apply literal_ascii; reflexivity].
  destruct (_ || _); [|apply literal_ascii; reflexivity].
  apply tuple_origin_ascii.
  eapply basic_URL_parse_ascii; [apply ascii_code_units, serialize_path_ascii, Hu| |exact Hp].
  discriminate.
Qed.
End SerializerStrings.

(** *** The helpers of the proxy *)

Lemma split_units sep s : code_units s -> Forall code_units (split sep s).
Proof.
  induction 1 as [|c s Hc Hs IH]; cbn [split]; [repeat constructor|].
  destruct (c =? sep); [apply Forall_cons; split; [constructor|exact IH]|].
  destruct (split sep s) as [|cur more].
  { apply Forall_cons; split; [|constructor]. apply Forall_cons; split; [exact Hc|constructor]. }
  apply Forall_cons in IH as [Hcur Hmore].
  apply Forall_cons; split; [|exact Hmore]. apply Forall_cons; split; assumption.
Qed.

Lemma join_units sep parts :
  code_units sep -> Forall code_units parts -> code_units (join sep parts).
Proof.
  intros Hsep. induction 1 as [|p parts Hp Hparts IH]; [constructor|].
  cbn [join]. destruct parts as [|q more]; [exact Hp|].
  apply code_units_app; [exact Hp|]. apply code_units_app; [exact Hsep|exact IH].
Qed.

Lemma trimStart_Forall (P : Z -> Prop) s : Forall P s -> Forall P (trimStart s).
Proof.
  induction 1 as [|c s Hc Hs IH]; [constructor|]. cbn [trimStart].
  destruct (is_js_whitespace c); [exact IH|]. apply Forall_cons; split; assumption.
Qed.

Lemma trim_Forall (P : Z -> Prop) s : Forall P s -> Forall P (trim s).
Proof.
  intros Hs. unfold trim.
  apply Forall_rev, trimStart_Forall, Forall_rev, trimStart_Forall, Hs.
Qed.

Section ProxyStrings.
Context `{HostParser} `{!HostParserLaws}.

Lemma getBaseUrl_units url : code_units url -> code_units (getBaseUrl url).
Proof.
  intros Hurl. unfold getBaseUrl. destruct url as [|c url]; [constructor|].
  assert (Hslash : code_units (js "/")) by (apply ascii_code_units, literal_ascii; reflexivity).
  destruct (new_URL (c :: url) None) as [parsedUrl|e] eqn:Hp.
  - apply new_URL_ascii in Hp; [|exact Hurl].
    destruct (_ || _).
    + apply code_units_app; [apply ascii_code_units, origin_ascii, Hp|exact Hslash].
    + cbv zeta. apply code_units_app; [apply ascii_code_units, origin_ascii, Hp|].
      apply code_units_app; [|exact Hslash].
      apply join_units; [exact Hslash|].
      apply removelast_Forall, split_units, ascii_code_units, pathname_ascii, Hp.
  - cbv zeta. destruct (_ <? _).
    + apply Forall_take, Hurl.
    + apply code_units_app; [exact Hurl|exact Hslash].
Qed.

Lemma resolveUrl_units baseUrl relativeUrl :
  code_units baseUrl -> code_units relativeUrl ->
  code_units (resolveUrl baseUrl relativeUrl).
Proof.
  intros Hb Hr. unfold resolveUrl.
  destruct (_ || _); [exact Hr|].
  destruct (matches_http relativeUrl); [exact Hr|].
  destruct (new_URL relativeUrl (Some baseUrl)) as [u|e] eqn:Hu.
  { apply ascii_code_units, href_ascii.
    eapply new_URL_relative_ascii; [exact Hr|exact Hb|exact Hu]. }
  destruct (startsWith relativeUrl (js "/")).
  { destruct (new_URL baseUrl None) as [urlObj|e'] eqn:Ho; [|exact Hr].
    apply code_units_app; [|exact Hr]. apply ascii_code_units, origin_ascii.
    eapply new_URL_ascii; [exact Hb|exact Ho]. }
  cbv zeta. destruct (_ && _).
  { apply code_units_app; [exact Hb|apply Forall_drop, Hr]. }
  destruct (_ && _).
  - apply code_units_app; [apply Forall_take, Hb|exact Hr].
  - apply code_units_app; assumption.
Qed.
End ProxyStrings.

(** ** A second pass over a rewritten line *)

Lemma is_http_scheme_cases scheme :
  is_http_scheme scheme = true -> scheme = js "http" \/ scheme = js "https".
Proof.
  unfold is_http_scheme, str_eqb. intros Hs. apply orb_prop in Hs as [Hs|Hs];
    apply bool_decide_eq_true in Hs; tauto.
Qed.

Lemma path_state_slash u path buffer rest :
  path_state u path buffer (47 :: rest)
  = path_state u (close_segment (url_scheme u) path buffer true) [] rest.
Proof. reflexivity. Qed.

Lemma close_segment_ordinary scheme path buffer slash :
  is_double_dot buffer = false -> is_single_dot buffer = false ->
  is_windows_drive_letter buffer = false ->
  close_segment scheme path buffer slash = path ++ [buffer].
Proof.
  intros Hdd Hsd Hw. unfold close_segment. rewrite Hdd, Hsd, Hw.
  rewrite andb_false_r. destruct buffer as [|a [|b rest]]; reflexivity.
Qed.

(** A segment that starts with [h] or [H] and is made of escaped characters
    is an ordinary path segment. *)
Lemma escaped_segment_ordinary c rest :
  ascii_lower c = 104 -> Forall (fun c => is_escaped_char c = true) (c :: rest) ->
  is_double_dot (c :: rest) = false /\ is_single_dot (c :: rest) = false /\
  is_windows_drive_letter (c :: rest) = false.
Proof.
  intros Hc Hseg. unfold is_double_dot, is_single_dot, str_eqb. cbn [map]. rewrite Hc.
  rewrite !bool_decide_eq_false_2 by discriminate. repeat split.
  destruct rest as [|d [|e rest]]; try reflexivity. cbn [is_windows_drive_letter].
  apply Forall_cons in Hseg as [_ Hseg]. apply Forall_cons in Hseg as [Hd _].
  destruct (Z.eqb_spec d 58) as [->|]; [discriminate Hd|].
  destruct (Z.eqb_spec d 124) as [->|]; [discriminate Hd|].
  apply andb_false_r.
Qed.

Section SecondPass.
Context `{HostParser}.

Lemma relative_slash_state_plain u base c rest :
  is_slash c = false ->
  relative_slash_state u base (c :: rest)
  = Some (path_state (copy_authority u base) (path_segments (copy_authority u base)) []
            (c :: rest)).
Proof.
  unfold is_slash, relative_slash_state. intros Hc. rewrite Hc.
  apply orb_false_elim in Hc as [-> _]. rewrite andb_false_r. reflexivity.
Qed.

(** Against an http(s) base, a line produced by [rewriteUrlToProxy] is an
    absolute path of three segments on the base's host. *)
Lemma relative_state_proxied base c rest :
  ascii_lower c = 104 -> Forall (fun c => is_escaped_char c = true) (c :: rest) ->
  relative_state base (proxy_prefix ++ c :: rest)
  = Some (set_path (copy_authority (url_with_scheme (url_scheme base)) base)
                   (ListPath [js "api"; js "proxy"; c :: rest])).
Proof.
  intros Hc Hseg.
  change (proxy_prefix ++ c :: rest)
    with (47 :: 97 :: (js "pi" ++ 47 :: js "proxy" ++ 47 :: (c :: rest))).
  change (relative_state base (47 :: 97 :: ?x))
    with (relative_slash_state (url_with_scheme (url_scheme base)) base (97 :: x)).
  rewrite relative_slash_state_plain by reflexivity.
  set (u := copy_authority (url_with_scheme (url_scheme base)) base).
  change (path_segments u) with (@nil jsstring).
  change (97 :: (js "pi" ++ ?x)) with (js "api" ++ x).
  destruct (escaped_segment_ordinary c rest Hc Hseg) as (Hdd & Hsd & Hw).
  rewrite path_state_plain by (vm_compute; repeat constructor).
  rewrite path_state_slash, close_segment_ordinary by reflexivity.
  rewrite path_state_plain by (vm_compute; repeat constructor).
  rewrite path_state_slash, close_segment_ordinary by reflexivity.
  rewrite <- (app_nil_r (c :: rest)) at 1.
  rewrite path_state_plain.
  2:{ eapply Forall_impl; [exact Hseg|]. intros d Hd. apply escaped_char_facts, Hd. }
  cbn [path_state]. rewrite close_segment_ordinary by assumption. reflexivity.
Qed.
End SecondPass.

Section SecondPassResolve.
Context `{HostParser}.

Lemma href_proxied base c rest :
  is_Some (url_host base) -> includes_credentials base = false ->
  href (set_path (copy_authority (url_with_scheme (url_scheme base)) base)
                 (ListPath [js "api"; js "proxy"; c :: rest]))
  = tuple_origin base ++ proxy_prefix ++ c :: rest.
Proof.
  intros [h Hh] Hcred.
  set (u := set_path _ _).
  assert (Hsame : same_authority u base) by (repeat split).
  destruct (href_tuple_origin u) as [tail Htail].
  { destruct Hsame as (_ & _ & _ & -> & _). rewrite Hh. eexists; reflexivity. }
  { rewrite (includes_credentials_same_authority _ _ Hsame). exact Hcred. }
  rewrite Htail, (tuple_origin_same_authority _ _ Hsame). f_equal.
  apply (app_inv_head (tuple_origin u)). rewrite <- Htail.
  unfold href, tuple_origin, serialize_authority.
  replace (includes_credentials u) with false
    by (symmetry; rewrite (includes_credentials_same_authority _ _ Hsame); exact Hcred).
  change (url_host u) with (url_host base). rewrite Hh.
  change (url_port u) with (url_port base). change (url_scheme u) with (url_scheme base).
  change (serialize_path u) with (js "/api/proxy/" ++ (c :: rest) ++ []).
  change (url_query u) with (@None jsstring). change (url_fragment u) with (@None jsstring).
  cbn [default]. change (js "://") with ([58] ++ js "//").
  rewrite !app_nil_r, <- !app_assoc. reflexivity.
Qed.

(** What [resolveUrl] makes of an already rewritten line: the base's origin
    followed by the line. *)
Lemma resolveUrl_proxied b base c rest :
  basic_URL_parse b None = Some base ->
  is_http_scheme (url_scheme base) = true ->
  includes_credentials base = false ->
  ascii_lower c = 104 -> Forall (fun c => is_escaped_char c = true) (c :: rest) ->
  resolveUrl b (proxy_prefix ++ c :: rest) = origin base ++ proxy_prefix ++ c :: rest.
Proof.
  intros Hb Hhttp Hcred Hc Hseg.
  destruct (parse_http_shape _ _ Hb Hhttp) as [Hhost Hlist].
  destruct (is_http_scheme_special _ Hhttp) as (_ & Hfile & _).
  unfold resolveUrl.
  assert (Hbne : bool_decide (b = []) = false).
  { apply bool_decide_eq_false. intros ->. discriminate Hb. }
  rewrite Hbne. cbn [orb].
  change (bool_decide (proxy_prefix ++ c :: rest = [])) with false.
  change (matches_http (proxy_prefix ++ c :: rest)) with false. cbv iota.
  unfold new_URL. rewrite Hb. unfold basic_URL_parse.
  rewrite url_input_visible.
  2:{ apply Forall_app. split.
      { unfold proxy_prefix. vm_compute (js _).
        repeat (apply Forall_cons; split; [lia|]). apply Forall_nil_2. }
      eapply Forall_impl; [exact Hseg|]. intros d Hd.
      apply escaped_char_facts in Hd. lia. }
  change (scheme_start_state (proxy_prefix ++ c :: rest)) with (@None (jsstring * list Z)).
  unfold no_scheme_state. rewrite Hlist, Hfile.
  rewrite relative_state_proxied by assumption.
  rewrite href_proxied by assumption. rewrite (origin_http _ Hhttp). reflexivity.
Qed.
End SecondPassResolve.

Lemma getTargetUrlFromPath_encoded u e :
  decodeURIComponent e = Ok u -> matches_http u = true ->
  getTargetUrlFromPath e = Some u.
Proof.
  intros Hd Hm. unfold getTargetUrlFromPath. destruct e as [|c e'].
  - cbv in Hd. injection Hd as <-. discriminate Hm.
  - rewrite Hd, Hm. reflexivity.
Qed.

Lemma length_percent_octets_utf8 cp : (3 <= length (percent_octets (utf8_octets cp)))%nat.
Proof.
  unfold utf8_octets.
  destruct (cp <? 128); [|destruct (cp <? 2048); [|destruct (cp <? 65536)]];
    cbn; lia.
Qed.

(** Encoding never shortens a string. *)
Lemma encodeURIComponent_length s : forall e,
  encodeURIComponent s = Ok e -> (length s <= length e)%nat.
Proof.
  induction s as [s IH] using (induction_ltof1 _ (@length Z)). unfold ltof in IH.
  intros e. destruct s as [|c rest]; cbn [encodeURIComponent]; [intros _; cbn; lia|].
  assert (Hstep : forall (pre : jsstring) r,
            (length r < length (c :: rest))%nat ->
            (length (c :: rest) <= length pre + length r)%nat ->
            rmap (app pre) (encodeURIComponent r) = Ok e ->
            (length (c :: rest) <= length e)%nat).
  { intros pre r Hlt Hpre He. destruct (encodeURIComponent r) as [e'|] eqn:Hr;
      [|discriminate]. injection He as <-. apply IH in Hr; [|exact Hlt].
    rewrite length_app. lia. }
  destruct (uriUnescaped c).
  { apply (Hstep [c]); cbn; lia. }
  destruct (is_lead_surrogate c).
  - destruct rest as [|d rest']; [discriminate|].
    destruct (is_trail_surrogate d); [|discriminate].
    pose proof (length_percent_octets_utf8 (UTF16SurrogatePairToCodePoint c d)).
    apply Hstep; cbn [length] in *; lia.
  - destruct (is_trail_surrogate c); [discriminate|].
    pose proof (length_percent_octets_utf8 c).
    apply Hstep; cbn [length] in *; lia.
Qed.

(** The encoding of a string that matches the pattern starts with its
    [h] or [H]. *)
Lemma encodeURIComponent_http_head u e :
  matches_http u = true -> encodeURIComponent u = Ok e ->
  exists c rest, e = c :: rest /\ ascii_lower c = 104.
Proof.
  destruct u as [|h rest]; [discriminate|]. intros Hm.
  assert (Hh : ci h 72 = true).
  { destruct rest as [|t1 [|t2 [|p rest']]]; try discriminate.
    cbn [matches_http] in Hm. repeat (apply andb_prop in Hm as [Hm _]). exact Hm. }
  assert (Hcases : h = 72 \/ h = 104).
  { unfold ci in Hh. apply orb_prop in Hh as [Hh|Hh]; apply Z.eqb_eq in Hh; lia. }
  cbn [encodeURIComponent].
  replace (uriUnescaped h) with true by (destruct Hcases as [-> | ->]; reflexivity).
  destruct (encodeURIComponent rest) as [e'|]; [|discriminate]. intros [= <-].
  exists h, e'. split; [reflexivity|]. destruct Hcases as [-> | ->]; reflexivity.
Qed.

Lemma well_formed_utf16_app a : forall b,
  well_formed_utf16 a = true -> well_formed_utf16 b = true ->
  well_formed_utf16 (a ++ b) = true.
Proof.
  induction a as [a IH] using (induction_ltof1 _ (@length Z)). unfold ltof in IH.
  intros b Ha Hb. destruct a as [|c rest]; [exact Hb|].
  cbn [app well_formed_utf16] in *. destruct (is_lead_surrogate c).
  - destruct rest as [|d rest']; [discriminate|]. cbn [app].
    apply andb_prop in Ha as [-> Ha]. cbn [andb]. apply IH; [cbn; lia|assumption..].
  - destruct (is_trail_surrogate c); [discriminate|].
    apply andb_prop in Ha as [-> Ha]. cbn [andb]. apply IH; [cbn; lia|assumption..].
Qed.

Lemma well_formed_utf16_plain s :
  Forall (fun c => 0 <= c < 55296) s -> well_formed_utf16 s = true.
Proof.
  induction 1 as [|c s Hc _ IH]; [reflexivity|]. cbn [well_formed_utf16].
  unfold is_lead_surrogate, is_trail_surrogate, is_code_unit.
  destruct (Z.leb_spec 55296 c); [lia|]. destruct (Z.leb_spec 56320 c); [lia|].
  destruct (Z.leb_spec 0 c); [|lia]. destruct (Z.ltb_spec c 65536); [|lia].
  cbn [andb]. exact IH.
Qed.

(** [s.split(sep)] undoes [join] on parts that do not contain the separator. *)
Lemma split_no_separator sep s :
  Forall (fun c => c <> sep) s -> split sep s = [s].
Proof.
  induction 1 as [|c s Hc _ IH]; [reflexivity|]. cbn [split].
  destruct (Z.eqb_spec c sep); [contradiction|]. rewrite IH. reflexivity.
Qed.

Lemma split_app_separator sep s rest :
  Forall (fun c => c <> sep) s -> split sep (s ++ sep :: rest) = s :: split sep rest.
Proof.
  induction 1 as [|c s Hc _ IH]; cbn [app split].
  - rewrite Z.eqb_refl. reflexivity.
  - destruct (Z.eqb_spec c sep); [contradiction|]. rewrite IH. reflexivity.
Qed.

Lemma split_join sep parts :
  parts <> [] -> Forall (Forall (fun c => c <> sep)) parts ->
  split sep (join [sep] parts) = parts.
Proof.
  intros Hne Hparts. induction Hparts as [|p parts Hp Hps IH]; [congruence|].
  destruct parts as [|q more].
  - cbn [join]. apply split_no_separator, Hp.
  - change (join [sep] (p :: q :: more)) with (p ++ sep :: join [sep] (q :: more)).
    rewrite split_app_separator by exact Hp. rewrite IH by discriminate. reflexivity.
Qed.

Section OriginPattern.
Context `{HostParser}.

Lemma matches_http_origin base tail :
  is_http_scheme (url_scheme base) = true -> matches_http (origin base ++ tail) = true.
Proof.
  intros Hhttp. rewrite (origin_http _ Hhttp). unfold tuple_origin.
  destruct (is_http_scheme_cases _ Hhttp) as [-> | ->]; reflexivity.
Qed.

Lemma startsWith_hash_false l p :
  startsWith l (js "#") = false -> startsWith l (35 :: p) = false.
Proof.
  change (js "#") with [35]. destruct l as [|c l]; [reflexivity|]. cbn [startsWith].
  destruct (35 =? c); [discriminate|reflexivity].
Qed.
End OriginPattern.

(** ** The rewritten media playlist *)

Lemma encodeURIComponent_well_formed s : forall e,
  code_units s -> encodeURIComponent s = Ok e -> well_formed_utf16 s = true.
Proof.
  induction s as [s IH] using (induction_ltof1 _ (@length Z)). unfold ltof in IH.
  intros e Hs. destruct s as [|c rest]; [reflexivity|].
  apply Forall_cons in Hs as [Hc Hrest].
  cbn [encodeURIComponent well_formed_utf16].
  assert (Hstep : forall (pre : jsstring) r e,
            (length r < length (c :: rest))%nat -> code_units r ->
            rmap (app pre) (encodeURIComponent r) = Ok e -> well_formed_utf16 r = true).
  { intros pre r e0 Hlt Hr He. destruct (encodeURIComponent r) as [e'|] eqn:Hr';
      [|discriminate]. eapply IH; eassumption. }
  assert (Hunit : is_code_unit c = true).
  { unfold is_code_unit. destruct (Z.leb_spec 0 c); [|lia].
    destruct (Z.ltb_spec c 65536); [reflexivity|lia]. }
  destruct (uriUnescaped c) eqn:Hun.
  - intros He. assert (Hwf := Hstep [c] rest e ltac:(cbn; lia) Hrest He).
    unfold uriUnescaped, is_ascii_alpha, is_ascii_digit in Hun.
    unfold is_lead_surrogate, is_trail_surrogate.
    assert (c < 127) by (revert Hun; zbool; discriminate).
    destruct (Z.leb_spec 55296 c); [lia|]. destruct (Z.leb_spec 56320 c); [lia|].
    cbn [andb]. rewrite Hunit, Hwf. reflexivity.
  - destruct (is_lead_surrogate c).
    + destruct rest as [|d rest']; [discriminate|].
      destruct (is_trail_surrogate d); [|discriminate]. intros He. cbn [andb].
      apply Forall_cons in Hrest as [_ Hrest'].
      eapply Hstep; [|exact Hrest'|exact He]. cbn; lia.
    + destruct (is_trail_surrogate c); [discriminate|]. intros He.
      rewrite Hunit. cbn [andb]. eapply Hstep; [|exact Hrest|exact He]. cbn; lia.
Qed.

(** Decoding undoes a successful encoding of a JavaScript string. *)
Lemma encodeURIComponent_decode s e :
  code_units s -> encodeURIComponent s = Ok e -> decodeURIComponent e = Ok s.
Proof.
  intros Hs He. pose proof (encodeURIComponent_well_formed _ _ Hs He) as Hwf.
  destruct (encode_decode s Hwf) as (e' & He' & _ & Hd). congruence.
Qed.

Lemma span_until_quote_spec s : forall a b,
  span_until_quote s = (a, b) ->
  s = a ++ b /\ Forall (fun c => c <> 34) a.
Proof.
  induction s as [|c s IH]; intros a b; cbn [span_until_quote].
  - intros [= <- <-]. split; [reflexivity|constructor].
  - destruct (Z.eqb_spec c 34).
    + intros [= <- <-]. split; [reflexivity|constructor].
    + destruct (span_until_quote s) as [a' b'] eqn:Hs. intros [= <- <-].
      destruct (IH _ _ eq_refl) as [-> Ha]. split; [reflexivity|].
      apply Forall_cons. split; assumption.
Qed.

(** What [first_quoted_URI] finds is a URI attribute of the line. *)
Lemma first_quoted_URI_sound line : forall pre uri post,
  first_quoted_URI line = Some (pre, uri, post) ->
  line = pre ++ js "URI=" ++ [34] ++ uri ++ [34] ++ post /\
  uri <> [] /\ Forall (fun c => c <> 34) uri.
Proof.
  induction line as [|c rest IH]; intros pre uri post; cbn [first_quoted_URI];
    [discriminate|].
  assert (Hlater :
    match first_quoted_URI rest with
    | Some (pre', uri', post') => Some (c :: pre', uri', post')
    | None => None
    end = Some (pre, uri, post) ->
    c :: rest = pre ++ js "URI=" ++ [34] ++ uri ++ [34] ++ post /\
    uri <> [] /\ Forall (fun c => c <> 34) uri).
  { destruct (first_quoted_URI rest) as [[[pre' uri'] post']|]; [|discriminate].
    intros [= <- <- <-]. destruct (IH _ _ _ eq_refl) as (-> & Hne & Hq).
    split; [reflexivity|]. split; assumption. }
  cbv zeta.
  destruct (startsWith (c :: rest) (js "URI=" ++ [34])) eqn:Hstart; [|exact Hlater].
  apply startsWith_app in Hstart as [tail Htail]. rewrite Htail.
  change (drop 5 ((js "URI=" ++ [34]) ++ tail)) with tail.
  destruct (span_until_quote tail) as [uri' after] eqn:Hspan.
  destruct (span_until_quote_spec _ _ _ Hspan) as [-> Hquote].
  destruct (negb (bool_decide (uri' = []))) eqn:Hne; cbn [andb];
    [|rewrite <- Htail; exact Hlater].
  destruct (startsWith after [34]) eqn:Hq; [|rewrite <- Htail; exact Hlater].
  apply startsWith_app in Hq as [post' ->].
  intros [= <- <- <-]. apply negb_true_iff, bool_decide_eq_false in Hne.
  split; [|split; assumption]. cbn [app]. rewrite <- !app_assoc. reflexivity.
Qed.

(** A line that has a URI attribute has a first one. *)
Lemma first_quoted_URI_complete pre uri post :
  uri <> [] -> Forall (fun c => c <> 34) uri ->
  is_Some (first_quoted_URI (pre ++ js "URI=" ++ [34] ++ uri ++ [34] ++ post)).
Proof.
  intros Hne Hq. induction pre as [|c pre IH].
  - replace ([] ++ js "URI=" ++ [34] ++ uri ++ [34] ++ post)
      with (85 :: 82 :: 73 :: 61 :: 34 :: uri ++ 34 :: post) by reflexivity.
    cbn [first_quoted_URI]. cbv zeta.
    change (startsWith (85 :: 82 :: 73 :: 61 :: 34 :: uri ++ 34 :: post) (js "URI=" ++ [34]))
      with true.
    change (drop 5 (85 :: 82 :: 73 :: 61 :: 34 :: uri ++ 34 :: post)) with (uri ++ 34 :: post).
    assert (Hspan : span_until_quote (uri ++ 34 :: post) = (uri, 34 :: post)).
    { clear Hne. induction Hq as [|d uri Hd _ IHq]; [reflexivity|].
      cbn [app span_until_quote]. destruct (Z.eqb_spec d 34); [contradiction|].
      rewrite IHq. reflexivity. }
    rewrite Hspan. rewrite bool_decide_false by exact Hne. cbn [negb andb startsWith].
    rewrite Z.eqb_refl. cbn [andb]. eexists. reflexivity.
  - rewrite <- app_comm_cons. cbn [first_quoted_URI]. cbv zeta.
    destruct IH as [[[pre' uri'] post'] ->].
    destruct (startsWith _ _); [|eexists; reflexivity].
    destruct (span_until_quote _) as [uri0 tail0].
    destruct (_ && _); eexists; reflexivity.
Qed.

(** [line.replace] rewrites the value of the first URI attribute, and
    nothing else. *)
Lemma replace_URI_first replacer line :
  replace_URI replacer line =
  match first_quoted_URI line with
  | Some (pre, uri, post) =>
      rmap (fun value => pre ++ js "URI=" ++ [34] ++ value ++ [34] ++ post) (replacer uri)
  | None => Ok line
  end.
Proof.
  induction line as [|c rest IH]; [reflexivity|].
  cbn [replace_URI first_quoted_URI]. cbv zeta.
  assert (Hlater :
    rmap (cons c) (replace_URI replacer rest) =
    match match first_quoted_URI rest with
          | Some (pre, uri, post) => Some (c :: pre, uri, post)
          | None => None
          end with
    | Some (pre, uri, post) =>
        rmap (fun value => pre ++ js "URI=" ++ [34] ++ value ++ [34] ++ post) (replacer uri)
    | None => Ok (c :: rest)
    end).
  { rewrite IH. destruct (first_quoted_URI rest) as [[[pre uri] post]|]; [|reflexivity].
    destruct (replacer uri); reflexivity. }
  destruct (startsWith (c :: rest) (js "URI=" ++ [34])); [|exact Hlater].
  destruct (span_until_quote (drop 5 (c :: rest))) as [uri tail].
  destruct (negb (bool_decide (uri = [])) && startsWith tail [34]); [|exact Hlater].
  destruct (replacer uri); reflexivity.
Qed.

Lemma code_points_app_plain p t :
  Forall (fun c => c < 55296) p -> code_points (p ++ t) = p ++ code_points t.
Proof.
  induction 1 as [|c p Hc _ IH]; [reflexivity|]. cbn [app code_points].
  unfold is_lead_surrogate, is_trail_surrogate.
  destruct (Z.leb_spec 55296 c); [lia|]. destruct (Z.leb_spec 56320 c); [lia|].
  cbn [andb]. rewrite IH. reflexivity.
Qed.

Lemma strip_leading_before_visible a c b :
  32 < c -> exists a', strip_leading (a ++ c :: b) = a' ++ c :: b.
Proof.
  intros Hc. induction a as [|d a IH]; cbn [app strip_leading].
  - exists []. unfold is_c0_control_or_space. destruct (Z.leb_spec c 32); [lia|].
    rewrite andb_false_r. reflexivity.
  - destruct (is_c0_control_or_space d); [exact IH|]. exists (d :: a). reflexivity.
Qed.

(** The URL parser keeps a prefix of visible characters as it is. *)
Lemma url_input_visible_prefix p t :
  p <> [] -> Forall (fun c => 32 < c < 55296) p ->
  exists t', url_input (p ++ t) = p ++ t'.
Proof.
  intros Hne Hp. unfold url_input.
  assert (Hlow : Forall (fun c => c < 55296) p)
    by (eapply Forall_impl; [exact Hp|]; intros c [? ?]; lia).
  assert (Hvis : Forall (fun c => 32 < c) p)
    by (eapply Forall_impl; [exact Hp|]; intros c [? ?]; lia).
  rewrite (code_points_app_plain _ _ Hlow).
  destruct p as [|c p]; [congruence|].
  apply Forall_cons in Hvis as Hc. destruct Hc as [Hc Hvis'].
  cbn [app strip_leading]. unfold is_c0_control_or_space at 1.
  destruct (Z.leb_spec c 32); [lia|]. rewrite andb_false_r.
  change (c :: (p ++ code_points t)) with ((c :: p) ++ code_points t).
  rewrite rev_app_distr.
  destruct (rev (c :: p)) as [|d q] eqn:Hrev.
  { apply (f_equal (@length Z)) in Hrev. rewrite length_rev in Hrev. discriminate. }
  assert (Hd : 32 < d).
  { assert (Hin : Forall (fun c => 32 < c) (rev (c :: p))).
    { apply Forall_rev. apply Forall_cons. split; assumption. }
    rewrite Hrev in Hin. apply Forall_cons in Hin as [? _]. assumption. }
  destruct (strip_leading_before_visible (rev (code_points t)) d q Hd) as [a' ->].
  rewrite rev_app_distr, <- Hrev, rev_involutive.
  rewrite filter_app, filter_tab_newline_visible.
  - eexists. reflexivity.
  - apply Forall_cons. split; assumption.
Qed.

Section Base.
Context `{HostParser}.

(** The base of a url that parses is its origin, a path and a slash. *)
Lemma getBaseUrl_parsed url source :
  basic_URL_parse url None = Some source ->
  exists path, getBaseUrl url = origin source ++ path ++ js "/".
Proof.
  intros Hu. unfold getBaseUrl. destruct url as [|c url'] eqn:Hurl; [discriminate Hu|].
  unfold new_URL. rewrite Hu.
  destruct (_ || _).
  - exists []. reflexivity.
  - eexists. reflexivity.
Qed.

Lemma matches_http_getBaseUrl url source tail :
  basic_URL_parse url None = Some source ->
  is_http_scheme (url_scheme source) = true ->
  matches_http (getBaseUrl url ++ tail) = true.
Proof.
  intros Hu Hhttp. destruct (getBaseUrl_parsed _ _ Hu) as [path ->].
  rewrite <- !app_assoc. apply matches_http_origin, Hhttp.
Qed.

Lemma endsWith_getBaseUrl url source :
  basic_URL_parse url None = Some source -> endsWith (getBaseUrl url) (js "/") = true.
Proof.
  intros Hu. destruct (getBaseUrl_parsed _ _ Hu) as [path ->].
  unfold endsWith. rewrite !rev_app_distr, <- !app_assoc. apply startsWith_prefix.
Qed.

Lemma parse_http_prefix t base :
  basic_URL_parse (js "http:" ++ t) None = Some base -> url_scheme base = js "http".
Proof.
  unfold basic_URL_parse.
  destruct (url_input_visible_prefix (js "http:") t) as [t' ->].
  - discriminate.
  - vm_compute (js _). repeat (apply Forall_cons; split; [lia|]). apply Forall_nil_2.
  - change (scheme_start_state (js "http:" ++ t')) with (Some (js "http", t')).
    cbv iota beta.
    change (str_eqb (js "http") (js "file")) with false.
    change (is_special (url_with_scheme (js "http"))) with true. cbv iota.
    intros (Hs & _)%special_authority_slashes_state_gains. exact Hs.
Qed.

Lemma parse_https_prefix t base :
  basic_URL_parse (js "https:" ++ t) None = Some base -> url_scheme base = js "https".
Proof.
  unfold basic_URL_parse.
  destruct (url_input_visible_prefix (js "https:") t) as [t' ->].
  - discriminate.
  - vm_compute (js _). repeat (apply Forall_cons; split; [lia|]). apply Forall_nil_2.
  - change (scheme_start_state (js "https:" ++ t')) with (Some (js "https", t')).
    cbv iota beta.
    change (str_eqb (js "https") (js "file")) with false.
    change (is_special (url_with_scheme (js "https"))) with true. cbv iota.
    intros (Hs & _)%special_authority_slashes_state_gains. exact Hs.
Qed.

(** When the base of an http(s) url parses, it is an http(s) url. *)
Lemma getBaseUrl_scheme url source base :
  basic_URL_parse url None = Some source ->
  is_http_scheme (url_scheme source) = true ->
  basic_URL_parse (getBaseUrl url) None = Some base ->
  is_http_scheme (url_scheme base) = true.
Proof.
  intros Hu Hhttp Hb. destruct (getBaseUrl_parsed _ _ Hu) as [path Hbase].
  rewrite Hbase, (origin_http _ Hhttp) in Hb. unfold tuple_origin in Hb.
  destruct (is_http_scheme_cases _ Hhttp) as [Hs|Hs]; rewrite Hs in Hb.
  - change ((js "http" ++ js "://" ++ ?a) ++ ?b)
      with (js "http:" ++ js "//" ++ (a ++ b)) in Hb.
    apply parse_http_prefix in Hb. rewrite Hb. reflexivity.
  - change ((js "https" ++ js "://" ++ ?a) ++ ?b)
      with (js "https:" ++ js "//" ++ (a ++ b)) in Hb.
    apply parse_https_prefix in Hb. rewrite Hb. reflexivity.
Qed.
End Base.

(** ** The base of an http(s) url parses

    [getBaseUrl] serializes the origin of the parsed url and appends a
    path.  Parsed again, that string gives a record with the same scheme,
    host and port, and without credentials. *)

Section ParsedAuthority.
Context `{HostParser}.

Lemma close_port_port u buffer input u' :
  url_port u = None -> Forall (fun d => 48 <= d) buffer ->
  close_port u buffer input = Some u' ->
  forall p, url_port u' = Some p ->
            0 <= p <= 65535 /\ default_port (url_scheme u') <> Some p.
Proof.
  intros Hnone Hb. unfold close_port. destruct buffer as [|d ds].
  - some_eq. destruct (path_start_state_keeps u input) as [(_&_&_&_&Hport) _].
    intros p. rewrite Hport, Hnone. discriminate.
  - destruct (Z.ltb_spec 65535 (decimal_value (d :: ds))); [discriminate|]. some_eq.
    match goal with |- context [path_start_state ?v input] =>
      destruct (path_start_state_keeps v input) as [(Hs&_&_&_&Hport) _] end.
    intros p. rewrite Hport, Hs. cbn [url_port set_port url_scheme].
    destruct (bool_decide (default_port (url_scheme u) = Some (decimal_value (d :: ds))))
      eqn:Hdefault; [discriminate|].
    intros [= <-]. split.
    + split; [|assumption]. unfold decimal_value.
      apply decimal_value_nonneg_aux; [lia|exact Hb].
    + apply bool_decide_eq_false in Hdefault. exact Hdefault.
Qed.

Lemma port_state_port u : forall input buffer u',
  url_port u = None -> Forall (fun d => 48 <= d) buffer ->
  port_state u buffer input = Some u' ->
  forall p, url_port u' = Some p ->
            0 <= p <= 65535 /\ default_port (url_scheme u') <> Some p.
Proof.
  induction input as [|c rest IH]; intros buffer u' Hnone Hb; cbn [port_state].
  - apply close_port_port; assumption.
  - destruct (is_ascii_digit c) eqn:Hd.
    + apply IH; [exact Hnone|]. apply Forall_app_2; [exact Hb|].
      apply Forall_cons; split; [|constructor]. unfold is_ascii_digit in Hd. lia.
    + destruct (is_authority_end u c); [|discriminate].
      apply close_port_port; assumption.
Qed.

Lemma host_state_parsed u : forall input buffer insideBrackets u',
  is_special u = true -> url_port u = None ->
  code_point_list buffer -> code_point_list input ->
  host_state u buffer insideBrackets input = Some u' -> parsed_authority u'.
Proof.
  assert (Hpath : forall buffer h input,
    url_port u = None -> code_point_list buffer -> host_parse false buffer = Some h ->
    parsed_authority (path_start_state (set_host u (Some h)) input)).
  { intros buffer h input Hnone Hb Hh.
    destruct (path_start_state_keeps (set_host u (Some h)) input)
      as [(_&_&_&Hhost&Hport) _].
    split.
    - exists buffer, h. split; [exact Hb|]. split; [exact Hh|exact Hhost].
    - intros p. rewrite Hport. cbn [url_port set_host]. rewrite Hnone. discriminate. }
  induction input as [|c rest IH]; intros buffer inside u' Hsp Hnone Hb Hin;
    cbn [host_state]; rewrite Hsp; cbn [negb andb].
  - destruct (bool_decide (buffer = [])); [discriminate|].
    destruct (host_parse false buffer) as [h|] eqn:Hh; [|discriminate]. some_eq.
    apply (Hpath buffer h _ Hnone Hb Hh).
  - pose proof Hin as Hin'. apply Forall_cons in Hin' as [Hc Hrest].
    destruct ((c =? 58) && negb inside).
    { destruct buffer as [|b bs]; [discriminate|].
      destruct (host_parse false (b :: bs)) as [h|] eqn:Hh; [|discriminate].
      intros Hport. pose proof (port_state_keeps _ _ _ _ Hport) as (Hs&_&_&Hhost&_).
      split.
      - exists (b :: bs), h. split; [exact Hb|]. split; [exact Hh|exact Hhost].
      - eapply port_state_port; [|constructor|exact Hport]. exact Hnone. }
    destruct (is_authority_end u c).
    { destruct (bool_decide (buffer = [])); [discriminate|].
      destruct (host_parse false buffer) as [h|] eqn:Hh; [|discriminate]. some_eq.
      apply (Hpath buffer h _ Hnone Hb Hh). }
    apply IH; [exact Hsp|exact Hnone| |exact Hrest].
    apply Forall_app_2; [exact Hb|]. apply Forall_cons; split; [exact Hc|constructor].
Qed.

Lemma authority_state_parsed : forall input u buffer atSignSeen passwordTokenSeen u',
  is_special u = true -> url_port u = None ->
  code_point_list buffer -> code_point_list input ->
  authority_state u buffer atSignSeen passwordTokenSeen input = Some u' ->
  parsed_authority u'.
Proof.
  induction input as [|c rest IH]; intros u buffer atSign seen u' Hsp Hnone Hb Hin;
    cbn [authority_state].
  - destruct (atSign && bool_decide (buffer = [])); [discriminate|].
    apply host_state_parsed; [exact Hsp|exact Hnone|constructor|exact Hb].
  - pose proof Hin as Hin'. apply Forall_cons in Hin' as [Hc Hrest].
    destruct (c =? 64).
    { destruct (add_credentials _ _ _ _) as [[seen' user] pass].
      apply IH; [exact Hsp|exact Hnone|constructor|exact Hrest]. }
    destruct (is_authority_end u c).
    { destruct (atSign && bool_decide (buffer = [])); [discriminate|].
      apply host_state_parsed; [exact Hsp|exact Hnone|constructor|].
      apply Forall_app_2; assumption. }
    apply IH; [exact Hsp|exact Hnone| |exact Hrest].
    apply Forall_app_2; [exact Hb|]. apply Forall_cons; split; [exact Hc|constructor].
Qed.

Lemma special_authority_ignore_slashes_state_parsed u : forall input u',
  is_special u = true -> url_port u = None -> code_point_list input ->
  special_authority_ignore_slashes_state u input = Some u' -> parsed_authority u'.
Proof.
  induction input as [|c rest IH]; intros u' Hsp Hnone Hin;
    cbn [special_authority_ignore_slashes_state].
  - apply authority_state_parsed; [exact Hsp|exact Hnone|constructor|constructor].
  - pose proof Hin as Hin'. apply Forall_cons in Hin' as [Hc Hrest].
    destruct ((c =? 47) || (c =? 92)); [apply IH; assumption|].
    apply authority_state_parsed; [exact Hsp|exact Hnone|constructor|exact Hin].
Qed.

(** An http(s) record that the parser produces without a base has a host
    from the host parser, and a port other than the default one. *)
Lemma parse_http_parsed input source :
  code_units input ->
  basic_URL_parse input None = Some source ->
  is_http_scheme (url_scheme source) = true ->
  parsed_authority source.
Proof.
  intros Hinput. unfold basic_URL_parse. intros Hp Hhttp.
  pose proof (url_input_range input Hinput) as Hin.
  destruct (is_http_scheme_special _ Hhttp) as (Hspecial & Hfile & _).
  destruct (scheme_start_state (url_input input)) as [[scheme rest]|] eqn:Hscheme;
    [|discriminate].
  apply scheme_start_state_ascii in Hscheme as [_ Hrest]; [|exact Hin].
  destruct (str_eqb scheme (js "file")) eqn:Hf.
  { apply file_state_scheme in Hp. rewrite Hp in Hfile. discriminate. }
  destruct (is_special (url_with_scheme scheme)) eqn:Hsp.
  - unfold special_authority_slashes_state in Hp.
    destruct (startsWith rest (js "//"));
      (eapply special_authority_ignore_slashes_state_parsed; [exact Hsp|reflexivity| |exact Hp]);
      [apply Forall_drop, Hrest|exact Hrest].
  - exfalso. assert (url_scheme source = scheme) as Hs.
    { destruct (startsWith rest (js "/")).
      - unfold path_or_authority_state in Hp. destruct (startsWith _ (js "/")).
        + apply authority_state_gains in Hp as (Hs & _). exact Hs.
        + apply (inj Some) in Hp. subst source. apply path_state_scheme.
      - apply (inj Some) in Hp. subst source. apply opaque_path_state_scheme. }
    unfold is_special in Hsp. cbn in Hsp. congruence.
Qed.
End ParsedAuthority.

(** *** Reading a serialized authority *)

Lemma decimal_digits_aux_spec fuel : forall n acc,
  0 <= n < 10 ^ Z.of_nat (S fuel) ->
  exists ds, decimal_digits_aux (S fuel) n acc = ds ++ acc /\ ds <> [] /\
             Forall (fun d => is_ascii_digit d = true) ds /\ decimal_value ds = n.
Proof.
  assert (Hone : forall k n acc, 0 <= n < 10 ->
    exists ds, decimal_digits_aux (S k) n acc = ds ++ acc /\ ds <> [] /\
               Forall (fun d => is_ascii_digit d = true) ds /\ decimal_value ds = n).
  { intros k n acc Hn. exists [48 + n]. cbn [decimal_digits_aux].
    destruct (Z.ltb_spec n 10); [|lia]. split; [reflexivity|]. split; [discriminate|].
    split; [|unfold decimal_value; cbn [fold_left]; lia].
    apply Forall_cons; split; [|constructor]. unfold is_ascii_digit. lia. }
  induction fuel as [|fuel IH]; intros n acc Hn.
  - apply Hone. change (10 ^ Z.of_nat 1) with 10 in Hn. exact Hn.
  - destruct (Z.ltb_spec n 10) as [Hlt|Hge]; [apply Hone; lia|].
    rewrite Nat2Z.inj_succ, Z.pow_succ_r in Hn by lia.
    assert (Hdigit : 0 <= n mod 10 < 10) by (apply Z.mod_pos_bound; lia).
    destruct (IH (n / 10) ((48 + n mod 10) :: acc)) as (ds & Hds & Hne & Hdigits & Hvalue).
    { split; [apply Z.div_pos; lia|]. apply Z.div_lt_upper_bound; lia. }
    exists (ds ++ [48 + n mod 10]).
    split; [|split; [|split]].
    + change (decimal_digits_aux (S (S fuel)) n acc)
        with (if n <? 10 then (48 + n) :: acc
              else decimal_digits_aux (S fuel) (n / 10) ((48 + n mod 10) :: acc)).
      destruct (Z.ltb_spec n 10); [lia|]. rewrite Hds, <- app_assoc. reflexivity.
    + intros Hnil. apply app_eq_nil in Hnil as [_ Hnil]. discriminate.
    + apply Forall_app_2; [exact Hdigits|].
      apply Forall_cons; split; [|constructor]. unfold is_ascii_digit. lia.
    + unfold decimal_value in *. rewrite fold_left_app, Hvalue. cbn [fold_left].
      pose proof (Z.div_mod n 10 ltac:(lia)). lia.
Qed.

(** The decimal form of a port reads back as the port. *)
Lemma decimal_digits_spec p :
  0 <= p <= 65535 ->
  decimal_digits p <> [] /\ Forall (fun d => is_ascii_digit d = true) (decimal_digits p) /\
  decimal_value (decimal_digits p) = p.
Proof.
  intros Hp. unfold decimal_digits.
  destruct (decimal_digits_aux_spec 5 p []) as (ds & -> & Hne & Hdigits & Hvalue).
  { change (10 ^ Z.of_nat 6) with 1000000. lia. }
  rewrite app_nil_r. split; [exact Hne|]. split; assumption.
Qed.

Lemma port_state_digits u : forall ds buffer c rest,
  Forall (fun d => is_ascii_digit d = true) ds ->
  is_ascii_digit c = false -> is_authority_end u c = true ->
  port_state u buffer (ds ++ c :: rest) = close_port u (buffer ++ ds) (c :: rest).
Proof.
  induction ds as [|d ds IH]; intros buffer c rest Hds Hc Hend; cbn [app port_state].
  - rewrite Hc, Hend, app_nil_r. reflexivity.
  - apply Forall_cons in Hds as [Hd Hds]. rewrite Hd.
    rewrite IH by assumption. rewrite <- app_assoc. reflexivity.
Qed.

Section Reparse.
Context `{HostParser} `{!HostParserLaws}.

Lemma host_state_plain u : forall h buffer input,
  Forall (fun d => d <> 58 /\ d <> 91 /\ is_authority_end u d = false) h ->
  host_state u buffer false (h ++ input) = host_state u (buffer ++ h) false input.
Proof.
  induction h as [|d h IH]; intros buffer input Hh; cbn [app].
  { rewrite app_nil_r. reflexivity. }
  apply Forall_cons in Hh as [(H58 & H91 & Hend) Hh]. cbn [host_state].
  destruct (Z.eqb_spec d 58); [contradiction|]. cbn [andb]. rewrite Hend.
  destruct (Z.eqb_spec d 91); [contradiction|].
  replace (if d =? 93 then false else false) with false by (destruct (d =? 93); reflexivity).
  rewrite IH by exact Hh. rewrite <- app_assoc. reflexivity.
Qed.

Lemma host_state_bracketed u : forall body buffer input,
  Forall (fun d => d <> 93 /\ is_authority_end u d = false) body ->
  host_state u buffer true (body ++ 93 :: input)
  = host_state u (buffer ++ body ++ [93]) false input.
Proof.
  induction body as [|d body IH]; intros buffer input Hbody; cbn [app].
  { cbn [host_state]. change (93 =? 58) with false. cbn [andb].
    replace (is_authority_end u 93) with false
      by (unfold is_authority_end; cbn; rewrite andb_false_r; reflexivity).
    reflexivity. }
  apply Forall_cons in Hbody as [(H93 & Hend) Hbody]. cbn [host_state].
  rewrite andb_false_r, Hend.
  replace (if d =? 91 then true else if d =? 93 then false else true) with true
    by (destruct (d =? 91); [reflexivity|]; destruct (Z.eqb_spec d 93); [contradiction|reflexivity]).
  rewrite IH by exact Hbody. rewrite <- app_assoc. reflexivity.
Qed.

Lemma not_authority_end u d :
  d <> 47 -> d <> 92 -> d <> 63 -> d <> 35 -> is_authority_end u d = false.
Proof.
  intros H47 H92 H63 H35. unfold is_authority_end.
  destruct (Z.eqb_spec d 47); [contradiction|]. destruct (Z.eqb_spec d 63); [contradiction|].
  destruct (Z.eqb_spec d 35); [contradiction|]. destruct (Z.eqb_spec d 92); [contradiction|].
  rewrite andb_false_r. reflexivity.
Qed.

(** The host state reads a delimited host up to its end. *)
Lemma host_state_delimited u h input :
  host_delimited h ->
  host_state u [] false (h ++ input) = host_state u h false input.
Proof.
  intros (Hne & Hdelims & [Hplain | (body & -> & Hbody)]).
  - apply (host_state_plain u h [] input).
    apply Forall_forall. intros d Hd.
    pose proof (proj1 (Forall_forall _ _) Hdelims d Hd) as (? & ? & ? & ? & _).
    pose proof (proj1 (Forall_forall _ _) Hplain d Hd) as (? & ?).
    split; [assumption|]. split; [assumption|]. apply not_authority_end; assumption.
  - cbn [app host_state]. change (91 =? 58) with false. cbn [andb].
    replace (is_authority_end u 91) with false
      by (unfold is_authority_end; cbn; rewrite andb_false_r; reflexivity).
    change (if 91 =? 91 then true else if 91 =? 93 then false else false) with true.
    rewrite <- app_assoc. cbn [app].
    rewrite host_state_bracketed; [reflexivity|].
    apply Forall_cons in Hdelims as [_ Hdelims]. apply Forall_app in Hdelims as [Hdelims _].
    apply Forall_forall. intros d Hd.
    pose proof (proj1 (Forall_forall _ _) Hdelims d Hd) as (? & ? & ? & ? & _).
    pose proof (proj1 (Forall_forall _ _) Hbody d Hd).
    split; [assumption|]. apply not_authority_end; assumption.
Qed.

Lemma authority_state_plain u : forall a buffer seen c rest,
  Forall (fun d => d <> 64 /\ is_authority_end u d = false) a ->
  c <> 64 -> is_authority_end u c = true ->
  authority_state u buffer false seen (a ++ c :: rest)
  = host_state u [] false ((buffer ++ a) ++ c :: rest).
Proof.
  induction a as [|d a IH]; intros buffer seen c rest Ha Hc Hend; cbn [app authority_state].
  - destruct (Z.eqb_spec c 64); [contradiction|]. rewrite Hend. cbn [andb].
    rewrite app_nil_r. reflexivity.
  - apply Forall_cons in Ha as [(H64 & Hd) Ha].
    destruct (Z.eqb_spec d 64); [contradiction|]. rewrite Hd.
    rewrite IH by assumption. rewrite <- !app_assoc. reflexivity.
Qed.
(** An authority without credentials, read from its serialized form. *)
Lemma authority_reparse u source h rest :
  is_special u = true -> url_port u = None ->
  host_delimited h -> host_parse false h = Some h ->
  (forall p, url_port source = Some p ->
             0 <= p <= 65535 /\ default_port (url_scheme u) <> Some p) ->
  exists base,
    special_authority_ignore_slashes_state u (serialize_authority source h ++ 47 :: rest)
    = Some base /\
    url_scheme base = url_scheme u /\ url_username base = url_username u /\
    url_password base = url_password u /\ url_host base = Some h /\
    url_port base = url_port source.
Proof.
  intros Hsp Hnone Hdel Hidem Hport.
  pose proof Hdel as (Hne & Hdelims & _).
  set (portpart := match url_port source with
                   | Some p => 58 :: decimal_digits p
                   | None => []
                   end).
  assert (Hportpart : Forall (fun d => d <> 64 /\ is_authority_end u d = false) portpart).
  { subst portpart. destruct (url_port source) as [p|]; [|constructor].
    destruct (Hport p eq_refl) as [Hrange _].
    apply Forall_cons; split; [split; [lia|apply not_authority_end; lia]|].
    eapply Forall_impl; [apply (decimal_digits_spec p Hrange)|].
    intros d Hd. cbn beta in Hd. unfold is_ascii_digit in Hd.
    split; [lia|apply not_authority_end; lia]. }
  assert (Hhost : Forall (fun d => d <> 64 /\ is_authority_end u d = false) h).
  { eapply Forall_impl; [exact Hdelims|]. intros d (? & ? & ? & ? & ?).
    split; [assumption|apply not_authority_end; assumption]. }
  assert (Hstart : special_authority_ignore_slashes_state u
                     (serialize_authority source h ++ 47 :: rest)
                   = host_state u h false (portpart ++ 47 :: rest)).
  { unfold serialize_authority. fold portpart.
    destruct h as [|d h'] eqn:Hh; [congruence|]. rewrite <- Hh in *.
    assert (Hd : (d =? 47) || (d =? 92) = false).
    { rewrite Hh in Hdelims. apply Forall_cons in Hdelims as [(? & ? & _) _].
      destruct (Z.eqb_spec d 47); [contradiction|].
      destruct (Z.eqb_spec d 92); [contradiction|reflexivity]. }
    transitivity (authority_state u [] false false ((h ++ portpart) ++ 47 :: rest)).
    { rewrite Hh. cbn [app special_authority_ignore_slashes_state]. rewrite Hd.
      reflexivity. }
    rewrite authority_state_plain;
      [|apply Forall_app_2; assumption|lia
       |unfold is_authority_end; reflexivity].
    cbn [app]. rewrite <- app_assoc. apply host_state_delimited, Hdel. }
  rewrite Hstart. subst portpart.
  assert (Hbuf : bool_decide (h = []) = false) by (apply bool_decide_eq_false_2, Hne).
  destruct (url_port source) as [p|] eqn:Hp.
  - destruct (Hport p eq_refl) as [Hrange Hdefault].
    destruct (decimal_digits_spec p Hrange) as (Hdne & Hdigits & Hvalue).
    cbn [app host_state]. change ((58 =? 58) && negb false) with true. cbv iota.
    destruct h as [|d h'] eqn:Hh; [congruence|]. rewrite <- Hh in *.
    rewrite Hsp. cbn [negb]. rewrite Hidem.
    rewrite port_state_digits;
      [|exact Hdigits|reflexivity|unfold is_authority_end; reflexivity].
    cbn [app]. unfold close_port.
    destruct (decimal_digits p) as [|d0 ds] eqn:Hds; [congruence|]. rewrite <- Hds in *.
    rewrite Hvalue. destruct (Z.ltb_spec 65535 p); [lia|].
    cbn [url_scheme set_host].
    rewrite (bool_decide_eq_false_2 _ Hdefault).
    eexists. split; [reflexivity|].
    match goal with |- context [path_start_state ?v ?i] =>
      destruct (path_start_state_keeps v i) as [(Hs&Hu&Hpw&Hho&Hpo) _] end.
    rewrite Hs, Hu, Hpw, Hho, Hpo. repeat split.
  - cbn [app host_state]. change ((47 =? 58) && negb false) with false. cbv iota.
    replace (is_authority_end u 47) with true by (unfold is_authority_end; reflexivity).
    rewrite Hsp, Hbuf. cbn [andb negb]. rewrite Hidem.
    eexists. split; [reflexivity|].
    match goal with |- context [path_start_state ?v ?i] =>
      destruct (path_start_state_keeps v i) as [(Hs&Hu&Hpw&Hho&Hpo) _] end.
    rewrite Hs, Hu, Hpw, Hho, Hpo. cbn. rewrite Hnone. repeat split.
Qed.
End Reparse.

Section BaseParses.
Context `{HostParser} `{!HostParserLaws}.

Lemma split_nonempty sep s : split sep s <> [].
Proof.
  destruct s as [|c s]; cbn [split]; [discriminate|].
  destruct (c =? sep); [discriminate|]. destruct (split sep s); discriminate.
Qed.

(** The base of a url with a list path is its origin, a slash and the rest. *)
Lemma getBaseUrl_slash url source :
  basic_URL_parse url None = Some source -> has_opaque_path source = false ->
  exists t, getBaseUrl url = origin source ++ 47 :: t.
Proof.
  intros Hu Hlist. unfold getBaseUrl. destruct url as [|c url'] eqn:Hurl; [discriminate Hu|].
  unfold new_URL. rewrite Hu.
  destruct (_ || _) eqn:Hroot; [exists []; reflexivity|]. cbv zeta.
  apply orb_false_elim in Hroot as [Hempty _]. apply bool_decide_eq_false in Hempty.
  unfold pathname, serialize_path, has_opaque_path in *.
  destruct (url_path_of source) as [|segs]; [discriminate|].
  destruct segs as [|seg more]; [contradiction Hempty; reflexivity|].
  cbn [map concat app split]. change (47 =? 47) with true. cbv iota.
  destruct (split 47 (seg ++ concat (map (fun seg => 47 :: seg) more))) as [|l ls] eqn:Hsplit.
  { exfalso. exact (split_nonempty _ _ Hsplit). }
  change (removelast ([] :: l :: ls)) with ([] :: removelast (l :: ls)).
  destruct (removelast (l :: ls)) as [|r rs].
  - exists []. reflexivity.
  - eexists. change (join (js "/") ([] :: r :: rs)) with (47 :: join (js "/") (r :: rs)).
    cbn [app]. reflexivity.
Qed.

(** The origin of an http(s) url, followed by a path, parses to a record
    with the same scheme, host and port, and without credentials. *)
Lemma parse_origin_prefix source t :
  is_http_scheme (url_scheme source) = true -> parsed_authority source ->
  exists base,
    basic_URL_parse (origin source ++ 47 :: t) None = Some base /\
    url_scheme base = url_scheme source /\ url_host base = url_host source /\
    url_port base = url_port source /\
    url_username base = [] /\ url_password base = [].
Proof.
  intros Hhttp ((input & h & Hin & Hparse & Hhost) & Hport).
  pose proof (host_parse_visible _ _ _ Hin Hparse) as Hvisible.
  pose proof (host_parse_delimited _ _ Hin Hparse) as Hdel.
  pose proof (host_parse_idempotent _ _ Hin Hparse) as Hidem.
  rewrite (origin_http _ Hhttp). unfold tuple_origin. rewrite Hhost.
  change (default [] (Some h)) with h.
  assert (Hauth : Forall (fun c => 32 < c < 55296) (serialize_authority source h ++ [47])).
  { apply Forall_app_2; [|apply Forall_cons; split; [lia|constructor]].
    unfold serialize_authority. apply Forall_app_2.
    - eapply Forall_impl; [exact Hvisible|]. intros c Hc. cbn beta in Hc. lia.
    - destruct (url_port source) as [p|] eqn:Hp; [|constructor].
      destruct (Hport p eq_refl) as [Hrange _].
      apply Forall_cons; split; [lia|].
      eapply Forall_impl; [apply (decimal_digits_spec p Hrange)|].
      intros d Hd. cbn beta in Hd. unfold is_ascii_digit in Hd. lia. }
  unfold basic_URL_parse. cbv zeta.
  destruct (is_http_scheme_cases _ Hhttp) as [Hs|Hs]; rewrite Hs in *.
  - replace ((js "http" ++ js "://" ++ serialize_authority source h) ++ 47 :: t)
      with ((js "http://" ++ serialize_authority source h ++ [47]) ++ t)
      by (rewrite <- !app_assoc; reflexivity).
    destruct (url_input_visible_prefix (js "http://" ++ serialize_authority source h ++ [47]) t)
      as [t' ->].
    { discriminate. }
    { apply Forall_app_2; [|exact Hauth].
      vm_compute (js _). repeat (apply Forall_cons; split; [lia|]). apply Forall_nil_2. }
    rewrite <- !app_assoc.
    change (scheme_start_state (js "http://" ++ ?x)) with (Some (js "http", js "//" ++ x)).
    cbv iota beta.
    change (str_eqb (js "http") (js "file")) with false.
    change (is_special (url_with_scheme (js "http"))) with true. cbv iota.
    unfold special_authority_slashes_state.
    change (startsWith (js "//" ++ ?x) (js "//")) with true. cbv iota.
    change (drop 2 (js "//" ++ ?x)) with x. cbn [app].
    destruct (authority_reparse (url_with_scheme (js "http")) source h t'
                eq_refl eq_refl Hdel Hidem Hport)
      as (base & Hbase & Hscheme & Huser & Hpass & Hh & Hp).
    exists base. split; [exact Hbase|]. rewrite Hscheme, Huser, Hpass, Hh, Hp.
    repeat split.
  - replace ((js "https" ++ js "://" ++ serialize_authority source h) ++ 47 :: t)
      with ((js "https://" ++ serialize_authority source h ++ [47]) ++ t)
      by (rewrite <- !app_assoc; reflexivity).
    destruct (url_input_visible_prefix (js "https://" ++ serialize_authority source h ++ [47]) t)
      as [t' ->].
    { discriminate. }
    { apply Forall_app_2; [|exact Hauth].
      vm_compute (js _). repeat (apply Forall_cons; split; [lia|]). apply Forall_nil_2. }
    rewrite <- !app_assoc.
    change (scheme_start_state (js "https://" ++ ?x)) with (Some (js "https", js "//" ++ x)).
    cbv iota beta.
    change (str_eqb (js "https") (js "file")) with false.
    change (is_special (url_with_scheme (js "https"))) with true. cbv iota.
    unfold special_authority_slashes_state.
    change (startsWith (js "//" ++ ?x) (js "//")) with true. cbv iota.
    change (drop 2 (js "//" ++ ?x)) with x. cbn [app].
    destruct (authority_reparse (url_with_scheme (js "https")) source h t'
                eq_refl eq_refl Hdel Hidem Hport)
      as (base & Hbase & Hscheme & Huser & Hpass & Hh & Hp).
    exists base. split; [exact Hbase|]. rewrite Hscheme, Huser, Hpass, Hh, Hp.
    repeat split.
Qed.

(** The base of an http(s) url parses, to an http(s) record without
    credentials and with the origin of the url. *)
Lemma getBaseUrl_reparses url source :
  code_units url ->
  basic_URL_parse url None = Some source ->
  is_http_scheme (url_scheme source) = true ->
  exists base,
    basic_URL_parse (getBaseUrl url) None = Some base /\
    is_http_scheme (url_scheme base) = true /\
    includes_credentials base = false /\
    origin base = origin source.
Proof.
  intros Hunits Hu Hhttp.
  destruct (parse_http_shape _ _ Hu Hhttp) as [_ Hlist].
  destruct (getBaseUrl_slash _ _ Hu Hlist) as [t ->].
  pose proof (parse_http_parsed _ _ Hunits Hu Hhttp) as Hparsed.
  destruct (parse_origin_prefix source t Hhttp Hparsed)
    as (base & Hbase & Hscheme & Hhost & Hport & Huser & Hpass).
  exists base. split; [exact Hbase|]. split; [rewrite Hscheme; exact Hhttp|]. split.
  - unfold includes_credentials. rewrite Huser, Hpass. reflexivity.
  - assert (Hbhttp : is_http_scheme (url_scheme base) = true)
      by (rewrite Hscheme; exact Hhttp).
    rewrite (origin_http _ Hhttp), (origin_http _ Hbhttp).
    unfold tuple_origin, serialize_authority. rewrite Hscheme, Hhost, Hport. reflexivity.
Qed.
End BaseParses.

(** *** The host parser of the examples satisfies the laws *)

Lemma plain_char_lower c :
  is_plain_host_char c = true ->
  is_plain_host_char (ascii_lower c) = true /\
  ascii_lower (ascii_lower c) = ascii_lower c /\
  32 < ascii_lower c < 127 /\
  ascii_lower c <> 47 /\ ascii_lower c <> 92 /\ ascii_lower c <> 63 /\
  ascii_lower c <> 35 /\ ascii_lower c <> 64 /\ ascii_lower c <> 58 /\
  ascii_lower c <> 91.
Proof.
  unfold is_plain_host_char, is_ascii_alpha, is_ascii_digit, ascii_lower. intros Hc.
  destruct ((65 <=? c) && (c <=? 90)) eqn:Hupper.
  - destruct ((65 <=? c + 32) && (c + 32 <=? 90)) eqn:Hagain; repeat split; lia.
  - rewrite Hupper. repeat split; lia.
Qed.

Lemma plain_host_parse_some isOpaque input h :
  plain_host_parse isOpaque input = Some h ->
  h = map ascii_lower input /\ forallb is_plain_host_char input = true /\
  includes h (js "xn--") = false /\
  (if isOpaque then bool_decide (h = input)
   else match last (split 46 h) with
        | Some (c :: _) => is_ascii_alpha c
        | _ => false
        end) = true.
Proof.
  unfold plain_host_parse. cbv zeta.
  destruct (forallb is_plain_host_char input) eqn:Hplain; [|discriminate].
  destruct (includes (map ascii_lower input) (js "xn--")) eqn:Hxn; [discriminate|].
  cbn [andb negb].
  destruct (if isOpaque then _ else _) eqn:Hlast; [|discriminate].
  intros [= <-]. repeat split; assumption.
Qed.

Lemma plain_hosts_laws : @HostParserLaws plain_hosts.
Proof.
  assert (Hchars : forall input, forallb is_plain_host_char input = true ->
    Forall (fun c => is_plain_host_char c = true) input).
  { induction input as [|c input IH]; [constructor|]. cbn [forallb].
    intros [Hc Hin]%andb_prop. apply Forall_cons; split; [exact Hc|apply IH, Hin]. }
  split.
  - intros isOpaque input h _ (-> & Hplain & _)%plain_host_parse_some.
    apply Forall_map. eapply Forall_impl; [apply Hchars, Hplain|].
    intros c Hc. apply plain_char_lower in Hc. tauto.
  - intros input h _ (-> & Hplain & _ & Hlast)%plain_host_parse_some.
    split; [|split].
    + destruct input; [discriminate Hlast|discriminate].
    + apply Forall_map. eapply Forall_impl; [apply Hchars, Hplain|].
      intros c Hc. apply plain_char_lower in Hc. tauto.
    + left. apply Forall_map. eapply Forall_impl; [apply Hchars, Hplain|].
      intros c Hc. apply plain_char_lower in Hc. tauto.
  - intros input h _ (-> & Hplain & Hxn & Hlast)%plain_host_parse_some.
    assert (Hidem : map ascii_lower (map ascii_lower input) = map ascii_lower input).
    { rewrite map_map. apply map_ext_Forall.
      eapply Forall_impl; [apply Hchars, Hplain|].
      intros c Hc. apply plain_char_lower in Hc. tauto. }
    unfold host_parse, plain_hosts, plain_host_parse. cbv zeta.
    rewrite Hidem, Hxn, Hlast.
    replace (forallb is_plain_host_char (map ascii_lower input)) with true; [reflexivity|].
    symmetry. apply Hchars in Hplain. clear -Hplain.
    induction Hplain as [|c l Hc _ IH]; [reflexivity|].
    cbn [map forallb]. rewrite IH, andb_true_r. apply plain_char_lower in Hc. tauto.
Qed.

(** ** A second pass over a rewritten playlist *)

Section SecondPassLines.
Context `{HostParser} `{!HostParserLaws}.

(** One line of a first pass, read by a second pass. *)
Lemma second_pass_line b base u l1 :
  basic_URL_parse b None = Some base ->
  is_http_scheme (url_scheme base) = true ->
  includes_credentials base = false ->
  well_formed_utf16 (origin base) = true ->
  matches_http u = true -> well_formed_utf16 u = true ->
  rewriteUrlToProxy u = Ok l1 ->
  trim l1 = l1 /\ l1 <> [] /\ Forall (fun c => c <> 10) l1 /\
  startsWith l1 (js "#") = false /\
  exists seg,
    rewriteUrlToProxy (resolveUrl b l1) = Ok (proxy_prefix ++ seg) /\
    getTargetUrlFromPath seg = Some (origin base ++ l1) /\
    origin base ++ l1 <> u.
Proof.
  intros Hb Hhttp Hcred Hwfo Hm Hwf Hl1.
  destruct (encode_decode u Hwf) as (e & He & Hch & _).
  destruct (encodeURIComponent_http_head _ _ Hm He) as (c & rest & -> & Hc).
  unfold rewriteUrlToProxy in Hl1. destruct u as [|h u']; [discriminate|].
  rewrite He in Hl1. cbn [rbind] in Hl1.
  assert (l1 = proxy_prefix ++ c :: rest) as -> by congruence. clear Hl1.
  assert (Hline : Forall (fun c => is_escaped_char c = true \/ c = 47)
                         (proxy_prefix ++ c :: rest)).
  { apply Forall_app. split.
    - unfold proxy_prefix. vm_compute (js _).
      repeat (apply Forall_cons; split; [first [left; reflexivity | right; reflexivity]|]).
      apply Forall_nil_2.
    - eapply Forall_impl; [exact Hch|]. intros d Hd. left. exact Hd. }
  assert (Hfacts : Forall (fun c => 32 < c < 127 /\ is_js_whitespace c = false /\ c <> 10)
                          (proxy_prefix ++ c :: rest)).
  { eapply Forall_impl; [exact Hline|]. intros d [Hd| ->].
    - apply escaped_char_facts in Hd as (? & ? & _ & ?). repeat split; assumption || lia.
    - repeat split; try lia; reflexivity. }
  split; [apply trim_visible; eapply Forall_impl; [exact Hfacts|];
          intros d (_ & ? & _); assumption|].
  split; [discriminate|].
  split; [eapply Forall_impl; [exact Hfacts|]; intros d (_ & _ & ?); assumption|].
  split; [reflexivity|].
  rewrite (resolveUrl_proxied b base c rest Hb Hhttp Hcred Hc Hch).
  destruct (encode_decode (origin base ++ proxy_prefix ++ c :: rest))
    as (seg & Hseg & _ & Hdec).
  { apply well_formed_utf16_app; [exact Hwfo|]. apply well_formed_utf16_plain.
    eapply Forall_impl; [exact Hfacts|]. intros d (? & _). lia. }
  exists seg. split; [|split].
  - unfold rewriteUrlToProxy.
    destruct (origin base ++ proxy_prefix ++ c :: rest) eqn:Ho.
    + apply app_eq_nil in Ho as [_ Ho]. discriminate Ho.
    + rewrite Hseg. reflexivity.
  - apply getTargetUrlFromPath_encoded; [exact Hdec|].
    apply matches_http_origin, Hhttp.
  - intros Heq. apply (f_equal (@length Z)) in Heq.
    apply encodeURIComponent_length in He. rewrite !length_app in Heq.
    change (length proxy_prefix) with 11%nat in Heq. cbn [length] in *. lia.
Qed.

(** C8 (as the code has it). A second pass does not recognise lines that a
    first pass has rewritten: for a source url that parses as an http(s)
    url, it resolves each of them as an absolute path on the source's
    origin and encodes it again.  The target decoded from a second-pass line
    is that origin followed by the whole first-pass line, not the target the
    first pass embedded. *)
Theorem C8_second_pass_encodes_again (url : jsstring) (source : URLRecord)
    (targets firstPass : list jsstring) :
  code_units url ->
  basic_URL_parse url None = Some source ->
  is_http_scheme (url_scheme source) = true ->
  Forall (fun u => matches_http u = true /\ well_formed_utf16 u = true) targets ->
  Forall2 (fun u l1 => rewriteUrlToProxy u = Ok l1) targets firstPass ->
  exists secondPass,
    processMediaPlaylist url (join [10] firstPass) = Ok (join [10] secondPass) /\
    Forall2 (fun l1 l2 =>
               exists seg, l2 = proxy_prefix ++ seg /\
                           getTargetUrlFromPath seg = Some (origin source ++ l1))
            firstPass secondPass /\
    Forall2 (fun u l2 =>
               forall seg, l2 = proxy_prefix ++ seg -> getTargetUrlFromPath seg <> Some u)
            targets secondPass.
Proof.
  intros Hunits Hu Hsource Htargets Hfirst.
  destruct (getBaseUrl_reparses url source Hunits Hu Hsource)
    as (base & Hb & Hhttp & Hcred & Horigin).
  assert (Hwfo : well_formed_utf16 (origin base) = true).
  { apply well_formed_utf16_plain.
    eapply Forall_impl; [apply origin_ascii|intros c Hc; cbn beta in Hc; lia].
    eapply basic_URL_parse_ascii; [apply getBaseUrl_units, Hunits| |exact Hb].
    discriminate. }
  rewrite <- Horigin.
  assert (Hlines : exists secondPass,
    media_lines (getBaseUrl url) firstPass = Ok secondPass /\
    Forall (Forall (fun c => c <> 10)) firstPass /\
    Forall2 (fun l1 l2 =>
               exists seg, l2 = proxy_prefix ++ seg /\
                           getTargetUrlFromPath seg = Some (origin base ++ l1))
            firstPass secondPass /\
    Forall2 (fun u l2 =>
               forall seg, l2 = proxy_prefix ++ seg -> getTargetUrlFromPath seg <> Some u)
            targets secondPass).
  { induction Hfirst as [|u l1 targets firstPass Hl1 Hfirst IH].
    - exists []. repeat split; constructor.
    - apply Forall_cons in Htargets as [[Hm Hwf] Htargets].
      destruct (IH Htargets) as (second & Hsecond & Hnl & Hpairs & Hneq).
      destruct (second_pass_line _ _ _ _ Hb Hhttp Hcred Hwfo Hm Hwf Hl1)
        as (Htrim & Hne & Hnl1 & Hhash & seg & Hseg & Hget & Hdiff).
      exists ((proxy_prefix ++ seg) :: second). split; [|split; [|split]].
      + cbn [media_lines]. rewrite Htrim.
        rewrite (bool_decide_eq_false_2 _ Hne). cbn [andb].
        change (js "#EXT-X-KEY") with (35 :: js "EXT-X-KEY").
        change (js "#EXT-X-MAP") with (35 :: js "EXT-X-MAP").
        change (js "#EXTINF") with (35 :: js "EXTINF").
        rewrite !startsWith_hash_false by exact Hhash. rewrite Hhash. cbn [negb].
        rewrite Hseg, Hsecond. reflexivity.
      + apply Forall_cons. split; assumption.
      + constructor; [|exact Hpairs]. exists seg. split; [reflexivity|exact Hget].
      + constructor; [|exact Hneq]. intros seg' Heq. apply app_inv_head in Heq.
        subst seg'. rewrite Hget. intros [= Heq]. contradiction. }
  destruct Hlines as (second & Hsecond & Hnl & Hpairs & Hneq).
  exists second. split; [|split; assumption].
  unfold processMediaPlaylist. destruct firstPass as [|l1 firstPass].
  - cbn in Hsecond. injection Hsecond as <-. reflexivity.
  - rewrite split_join by (discriminate || exact Hnl). rewrite Hsecond. reflexivity.
Qed.
End SecondPassLines.

Lemma C8_second_pass_encodes_again_witness :
  exists source firstPass secondPass,
    @basic_URL_parse plain_hosts (js "https://host/path/live.m3u8") None = Some source /\
    Forall2 (fun u l1 => rewriteUrlToProxy u = Ok l1)
      [js "https://host/path/seg0.ts"; js "http://cdn.example/a b.ts"] firstPass /\
    @processMediaPlaylist plain_hosts (js "https://host/path/live.m3u8")
      (join [10] firstPass) = Ok (join [10] secondPass) /\
    Forall2 (fun l1 l2 =>
               exists seg, l2 = proxy_prefix ++ seg /\
                           getTargetUrlFromPath seg = Some (@origin plain_hosts source ++ l1))
            firstPass secondPass /\
    Forall2 (fun u l2 =>
               forall seg, l2 = proxy_prefix ++ seg -> getTargetUrlFromPath seg <> Some u)
            [js "https://host/path/seg0.ts"; js "http://cdn.example/a b.ts"] secondPass.
Proof.
  pose (source := mkURL (js "https") [] [] (Some (js "host")) None
                        (ListPath [js "path"; js "live.m3u8"]) None None).
  pose (firstPass := [js "/api/proxy/https%3A%2F%2Fhost%2Fpath%2Fseg0.ts";
                      js "/api/proxy/http%3A%2F%2Fcdn.example%2Fa%20b.ts"]).
  assert (Hfirst : Forall2 (fun u l1 => rewriteUrlToProxy u = Ok l1)
            [js "https://host/path/seg0.ts"; js "http://cdn.example/a b.ts"] firstPass).
  { constructor; [vm_compute; reflexivity|]. constructor; [vm_compute; reflexivity|].
    constructor. }
  destruct (@C8_second_pass_encodes_again plain_hosts plain_hosts_laws
              (js "https://host/path/live.m3u8")
              source [js "https://host/path/seg0.ts"; js "http://cdn.example/a b.ts"]
              firstPass)
    as (secondPass & Hsecond & Hpairs & Hneq).
  - apply code_units_forallb. vm_compute. reflexivity.
  - vm_compute. reflexivity.
  - vm_compute. reflexivity.
  - apply Forall_cons. split; [split; vm_compute; reflexivity|].
    apply Forall_cons. split; [split; vm_compute; reflexivity|]. apply Forall_nil_2.
  - exact Hfirst.
  - exists source, firstPass, secondPass. split; [vm_compute; reflexivity|].
    split; [exact Hfirst|]. split; [exact Hsecond|]. split; assumption.
Defined.

(** C8, counterexample: the segment [seg0.ts] of a playlist fetched from
    [https://host/path/live.m3u8] is rewritten to a line that embeds
    [https://host/path/seg0.ts]; a second pass over that output emits a line
    that embeds another url, in which the first line is percent-encoded
    again. *)
Lemma C8_double_encoding_counterexample :
  @processMediaPlaylist plain_hosts (js "https://host/path/live.m3u8") (js "seg0.ts")
    = Ok (js "/api/proxy/https%3A%2F%2Fhost%2Fpath%2Fseg0.ts") /\
  getTargetUrlFromPath (js "https%3A%2F%2Fhost%2Fpath%2Fseg0.ts")
    = Some (js "https://host/path/seg0.ts") /\
  @processMediaPlaylist plain_hosts (js "https://host/path/live.m3u8")
      (js "/api/proxy/https%3A%2F%2Fhost%2Fpath%2Fseg0.ts")
    = Ok (js "/api/proxy/https%3A%2F%2Fhost%2Fapi%2Fproxy%2Fhttps%253A%252F%252Fhost%252Fpath%252Fseg0.ts") /\
  getTargetUrlFromPath
      (js "https%3A%2F%2Fhost%2Fapi%2Fproxy%2Fhttps%253A%252F%252Fhost%252Fpath%252Fseg0.ts")
    = Some (js "https://host/api/proxy/https%3A%2F%2Fhost%2Fpath%2Fseg0.ts").
Proof. repeat split; vm_compute; reflexivity. Qed.

Section References.
Context `{HostParser} `{!HostParserLaws}.

Lemma href_http_matches u :
  is_http_scheme (url_scheme u) = true -> is_Some (url_host u) ->
  matches_http (href u) = true.
Proof.
  intros Hhttp [h Hh]. unfold href. rewrite Hh.
  destruct (is_http_scheme_cases _ Hhttp) as [-> | ->]; reflexivity.
Qed.

(** Against an http(s) base, a reference that has no scheme other than http
    or https parses, if it parses, to an http(s) url with a host. *)
Lemma parse_reference_http ref base u :
  is_http_scheme (url_scheme base) = true ->
  is_Some (url_host base) -> has_opaque_path base = false ->
  reference_stays_http ref = true ->
  basic_URL_parse ref (Some base) = Some u ->
  is_http_scheme (url_scheme u) = true /\ is_Some (url_host u).
Proof.
  intros Hhttp Hhost Hlist Hstays. unfold basic_URL_parse.
  unfold reference_stays_http in Hstays.
  destruct (is_http_scheme_special _ Hhttp) as (_ & Hfile & _).
  destruct (scheme_start_state (url_input ref)) as [[scheme rest]|].
  - destruct (is_http_scheme_special _ Hstays) as (Hspecial & Hnofile & _).
    rewrite Hnofile. unfold is_special. cbn [url_scheme url_with_scheme].
    rewrite Hspecial.
    assert (Hgain : forall v, gains_host (url_with_scheme scheme) v ->
              is_http_scheme (url_scheme v) = true /\ is_Some (url_host v)).
    { intros v (Hs & Hh & _). rewrite Hs. split; assumption. }
    destruct (str_eqb (url_scheme base) scheme).
    + unfold special_relative_or_authority_state.
      destruct (startsWith rest (js "//")).
      * intros Hu%special_authority_ignore_slashes_state_gains. apply Hgain, Hu.
      * intros Hu. apply relative_state_gains in Hu as (Hs & Hh & _); try assumption.
        rewrite Hs. split; assumption.
    + intros Hu%special_authority_slashes_state_gains. apply Hgain, Hu.
  - unfold no_scheme_state. rewrite Hlist, Hfile.
    intros Hu. apply relative_state_gains in Hu as (Hs & Hh & _); try assumption.
    rewrite Hs. split; assumption.
Qed.

(** The resolved form of such a reference matches the pattern. *)
Lemma resolveUrl_matches_http url source ref :
  code_units url ->
  basic_URL_parse url None = Some source ->
  is_http_scheme (url_scheme source) = true ->
  ref <> [] -> reference_stays_http ref = true ->
  matches_http (resolveUrl (getBaseUrl url) ref) = true.
Proof.
  intros Hunits Hu Hhttp Hne Hstays.
  destruct (getBaseUrl_reparses url source Hunits Hu Hhttp) as (base & Hb & Hbhttp & _).
  destruct (parse_http_shape _ _ Hb Hbhttp) as [Hhost Hlist].
  unfold resolveUrl.
  destruct (bool_decide (getBaseUrl url = [])) eqn:Hbne.
  { apply bool_decide_eq_true in Hbne. rewrite Hbne in Hb. discriminate Hb. }
  rewrite (bool_decide_eq_false_2 _ Hne). cbn [orb].
  destruct (matches_http ref) eqn:Hm; [exact Hm|].
  unfold new_URL at 1. rewrite Hb.
  destruct (basic_URL_parse ref (Some base)) as [u|] eqn:Hparse.
  - destruct (parse_reference_http _ _ _ Hbhttp Hhost Hlist Hstays Hparse) as [Hs Hh].
    apply href_http_matches; assumption.
  - destruct (startsWith ref (js "/")).
    + unfold new_URL. rewrite Hb. apply matches_http_origin, Hbhttp.
    + rewrite (endsWith_getBaseUrl _ _ Hu). cbn [andb negb].
      apply (matches_http_getBaseUrl _ _ _ Hu Hhttp).
Qed.

(** A rewritten reference, for a source url that parses as an http(s) url. *)
Lemma rewriteUrlToProxy_reference url source ref out :
  code_units url -> code_units ref ->
  basic_URL_parse url None = Some source ->
  is_http_scheme (url_scheme source) = true ->
  ref <> [] ->
  rewriteUrlToProxy (resolveUrl (getBaseUrl url) ref) = Ok out ->
  rewritten_reference (getBaseUrl url) ref out /\ Forall (fun c => c <> 10) out.
Proof.
  intros Hunits Href Hu Hhttp Hne Hout. unfold rewriteUrlToProxy in Hout.
  unfold rewritten_reference.
  pose proof (resolveUrl_nonempty (getBaseUrl url) ref Hne) as Hres.
  pose proof (resolveUrl_units _ _ (getBaseUrl_units url Hunits) Href) as Hresolved.
  destruct (resolveUrl (getBaseUrl url) ref) as [|c resolved] eqn:Hr; [congruence|].
  destruct (encodeURIComponent (c :: resolved)) as [seg|] eqn:Hseg; [|discriminate].
  cbn [rbind] in Hout. assert (out = proxy_prefix ++ seg) as -> by congruence.
  pose proof (encodeURIComponent_well_formed _ _ Hresolved Hseg) as Hwf.
  destruct (encode_decode _ Hwf) as (seg' & Hseg' & Hchars & Hdecode).
  assert (seg' = seg) as -> by congruence.
  split.
  - exists seg. split; [reflexivity|]. split; [reflexivity|]. split; [exact Hdecode|].
    intros Hstays. rewrite <- Hr. eapply resolveUrl_matches_http; eassumption.
  - apply Forall_app_2.
    + unfold proxy_prefix. vm_compute (js _).
      repeat (apply Forall_cons; split; [lia|]). apply Forall_nil_2.
    + eapply Forall_impl; [exact Hchars|]. intros d Hd.
      apply escaped_char_facts in Hd. tauto.
Qed.
End References.

Section MediaLines.
Context `{HostParser} `{!HostParserLaws}.

Lemma startsWith_hash l p :
  startsWith l (35 :: p) = true -> startsWith l (js "#") = true.
Proof.
  change (js "#") with [35]. destruct l as [|c l]; [discriminate|]. cbn [startsWith].
  destruct (35 =? c); [reflexivity|discriminate].
Qed.

(** A key or map line after rewriting. *)
Lemma processKeyLine_directive url source line out :
  code_units url -> code_units line -> Forall (fun c => c <> 10) line ->
  basic_URL_parse url None = Some source ->
  is_http_scheme (url_scheme source) = true ->
  startsWith line (js "#") = true ->
  startsWith line (js "#EXT-X-KEY") = true \/ startsWith line (js "#EXT-X-MAP") = true ->
  processKeyLine line (getBaseUrl url) = Ok out ->
  startsWith out (js "#") = true /\ rewritten_directive (getBaseUrl url) line out /\
  Forall (fun c => c <> 10) out.
Proof.
  intros Hunits Hline Hnl Hu Hhttp Hhash Hkind Hout. unfold processKeyLine in Hout.
  rewrite replace_URI_first in Hout. unfold rewritten_directive.
  replace (startsWith line (js "#EXT-X-KEY") || startsWith line (js "#EXT-X-MAP")) with true
    by (destruct Hkind as [-> | ->]; [reflexivity|rewrite orb_true_r; reflexivity]).
  destruct (first_quoted_URI line) as [[[pre uri] post]|] eqn:Hfirst.
  2:{ assert (out = line) as -> by congruence.
      split; [exact Hhash|]. split; [reflexivity|exact Hnl]. }
  destruct (first_quoted_URI_sound _ _ _ _ Hfirst) as (Heq & Hne & Hquote).
  destruct (rewriteUrlToProxy (resolveUrl (getBaseUrl url) uri)) as [value|] eqn:Hvalue;
    [|discriminate].
  cbn [rmap rbind] in Hout.
  assert (Hout' : out = pre ++ js "URI=" ++ [34] ++ value ++ [34] ++ post) by congruence.
  clear Hout. subst out line.
  apply Forall_app in Hline as [_ Hline]. apply Forall_app in Hline as [_ Hline].
  apply Forall_app in Hline as [_ Hline]. apply Forall_app in Hline as [Huri _].
  destruct (rewriteUrlToProxy_reference _ _ _ _ Hunits Huri Hu Hhttp Hne Hvalue)
    as [Href Hvnl].
  split; [|split].
  - destruct pre as [|c pre]; [discriminate Hhash|]. exact Hhash.
  - exists value. split; [exact Href|reflexivity].
  - apply Forall_app in Hnl as [Hpre Hnl]. apply Forall_app in Hnl as [Hattr Hnl].
    apply Forall_app in Hnl as [Hq1 Hnl]. apply Forall_app in Hnl as [_ Hnl].
    apply Forall_app in Hnl as [_ Hpost].
    repeat (apply Forall_app_2; [assumption|]). exact Hpost.
Qed.


(** The loop emits a line for the last line of its input. *)
Lemma media_lines_nonempty baseUrl lines : forall outs,
  lines <> [] -> media_lines baseUrl lines = Ok outs -> outs <> [].
Proof.
  induction lines as [|raw rest IH]; intros outs Hne; [congruence|]. cbn [media_lines].
  assert (Hcons : forall out, rmap (cons out) (media_lines baseUrl rest) = Ok outs ->
                              outs <> []).
  { intros out. destruct (media_lines baseUrl rest); [|discriminate].
    intros [= <-]. discriminate. }
  assert (Hbind : forall r, (try! l := r in rmap (cons l) (media_lines baseUrl rest)) = Ok outs ->
                            outs <> []).
  { intros [l|e]; [apply Hcons|discriminate]. }
  destruct (bool_decide (trim raw = [])).
  { destruct (bool_decide (rest = [])) eqn:Hrest; cbn [andb].
    - intros [= <-]. discriminate.
    - apply IH. apply bool_decide_eq_false in Hrest. exact Hrest. }
  cbn [andb].
  destruct (startsWith _ (js "#EXT-X-KEY")); [apply Hbind|].
  destruct (startsWith _ (js "#EXT-X-MAP")); [apply Hbind|].
  destruct (startsWith _ (js "#EXTINF")); [apply Hcons|].
  destruct (negb _); [apply Hbind|apply Hcons].
Qed.

Lemma split_lines sep s : Forall (Forall (fun c => c <> sep)) (split sep s).
Proof.
  induction s as [|c s IH]; cbn [split]; [repeat constructor|].
  destruct (Z.eqb_spec c sep); [apply Forall_cons; split; [constructor|exact IH]|].
  destruct (split sep s) as [|cur more].
  { apply Forall_cons; split; [|constructor]. apply Forall_cons; split; [assumption|constructor]. }
  apply Forall_cons in IH as [Hcur Hmore].
  apply Forall_cons; split; [|exact Hmore]. apply Forall_cons; split; assumption.
Qed.

End MediaLines.


(** The example playlist, rewritten. *)
Example processMediaPlaylist_example :
  @processMediaPlaylist plain_hosts (js "https://host/path/live.m3u8") example_media_playlist
  = Ok (join [10]
          [js "#EXTM3U";
           js "#EXT-X-KEY:METHOD=AES-128,URI=" ++ [34]
             ++ js "/api/proxy/https%3A%2F%2Fhost%2Fpath%2Fkey.bin" ++ [34];
           js "#EXTINF:10,";
           js "/api/proxy/https%3A%2F%2Fhost%2Fpath%2Fseg0.ts";
           []]).
Proof. vm_compute. reflexivity. Qed.


(** Directives are emitted trimmed: a line that ends with a carriage return
    loses it. *)
Example processMediaPlaylist_trims_directives :
  @processMediaPlaylist plain_hosts (js "https://host/path/live.m3u8")
    (js "#EXTINF:10," ++ [13; 10] ++ js "seg0.ts" ++ [13; 10])
  = Ok (js "#EXTINF:10," ++ [10] ++ js "/api/proxy/https%3A%2F%2Fhost%2Fpath%2Fseg0.ts"
          ++ [10]).
Proof. vm_compute. reflexivity. Qed.

(** ** The bound of C2 is attained *)

Lemma endless_select url :
  url = js "https://a.com/m.m3u8" \/ url = js "https://a.com/next.m3u8" ->
  (@select_variant plain_hosts url endless_master).2 = js "https://a.com/next.m3u8".
Proof. intros [-> | ->]; vm_compute; reflexivity. Qed.

Lemma endless_world_step fuel url depth max log :
  url = js "https://a.com/m.m3u8" \/ url = js "https://a.com/next.m3u8" ->
  depth <= max ->
  exists request,
    @processM3u8Content_fuel plain_hosts (S fuel) endless_world
      url endless_master depth max (mkEnv []) log
    = @processM3u8Content_fuel plain_hosts fuel endless_world
        (js "https://a.com/next.m3u8") endless_master (depth + 1) max (mkEnv [])
        (log ++ [request]).
Proof.
  intros Hurl Hle. eexists.
  cbn [processM3u8Content_fuel].
  change (includes endless_master (js "#EXT-X-STREAM-INF") ||
          includes endless_master (js "#EXT-X-MEDIA:")) with true. cbv iota.
  unfold processMasterPlaylist_with.
  destruct (Z.ltb_spec max depth); [lia|].
  rewrite (endless_select url Hurl).
  change (js "https://a.com/next.m3u8") with (104 :: js "ttps://a.com/next.m3u8") at 1.
  cbv iota. unfold mbind', fetchContentWithType.
  rewrite lookup_empty.
  replace (@new_URL plain_hosts (104 :: js "ttps://a.com/next.m3u8") None)
    with (Ok (mkURL (js "https") [] [] (Some (js "a.com")) None
                    (ListPath [js "next.m3u8"]) None None))
    by (vm_compute; reflexivity).
  cbn [rmap rbind upstream endless_world resp_ok resp_text negb resp_content_type
       default].
  change (isM3u8Content endless_master []) with true. cbn [negb]. reflexivity.
Qed.

Lemma endless_world_fetches k : forall fuel url depth max log,
  url = js "https://a.com/m.m3u8" \/ url = js "https://a.com/next.m3u8" ->
  Z.to_nat (max + 1 - depth) = k -> depth <= max + 1 -> (k < fuel)%nat ->
  exists new,
    @processM3u8Content_fuel plain_hosts fuel endless_world
      url endless_master depth max (mkEnv []) log
    = (Throw RecursionLimitError, log ++ new) /\ length new = k.
Proof.
  induction k as [|k IH]; intros fuel url depth max log Hurl Hk Hdepth Hfuel.
  - destruct fuel as [|fuel]; [lia|]. exists []. split; [|reflexivity].
    rewrite app_nil_r. cbn [processM3u8Content_fuel].
    change (includes endless_master (js "#EXT-X-STREAM-INF") ||
            includes endless_master (js "#EXT-X-MEDIA:")) with true. cbv iota.
    unfold processMasterPlaylist_with.
    destruct (Z.ltb_spec max depth); [reflexivity|lia].
  - destruct fuel as [|fuel]; [lia|].
    destruct (endless_world_step fuel url depth max log Hurl ltac:(lia)) as [request ->].
    destruct (IH fuel (js "https://a.com/next.m3u8") (depth + 1) max (log ++ [request]))
      as (new & -> & Hlen); [right; reflexivity|lia|lia|lia|].
    exists (request :: new). split.
    + rewrite <- app_assoc. reflexivity.
    + cbn [length]. rewrite Hlen. reflexivity.
Qed.

(** X1. In a network that always answers with a master playlist, one
    inbound request issues exactly [MAX_RECURSION + 2] fetches, whatever the
    (non-negative) bound: the bound on the number of fetches is attained. *)
Theorem outbound_fetch_bound_attained (max : Z) :
  0 <= max ->
  Z.of_nat (length (@handler plain_hosts endless_world (mkConfig 86400 max [])
                             example_request).2)
  = max + 2.
Proof.
  intros Hmax. unfold handler.
  change (str_eqb (req_method example_request) (js "OPTIONS")) with false.
  cbv iota zeta.
  replace (getTargetUrlFromPath (join (js "/") (req_query_path example_request)))
    with (Some (js "https://a.com/m.m3u8")) by (vm_compute; reflexivity).
  cbv iota. unfold mbind' at 1.
  destruct (fetchContentWithType endless_world (js "https://a.com/m.m3u8")
              (req_headers example_request) (CONFIG_USER_AGENTS (mkConfig 86400 max [])) [])
    as [r log1] eqn:Hfetch.
  assert (r = Ok (endless_master, [], []) /\ length log1 = 1%nat) as [-> Hlog1].
  { revert Hfetch. unfold fetchContentWithType.
    replace (@new_URL plain_hosts (js "https://a.com/m.m3u8") None)
      with (Ok (mkURL (js "https") [] [] (Some (js "a.com")) None
                      (ListPath [js "m.m3u8"]) None None))
      by (vm_compute; reflexivity).
    cbn [rmap rbind upstream endless_world resp_ok resp_text negb resp_content_type
         default resp_headers].
    intros [= <- <-]. split; reflexivity. }
  cbv iota beta.
  change (isM3u8Content endless_master []) with true. cbv iota.
  unfold mbind'. cbn [MAX_RECURSION CONFIG_USER_AGENTS].
  unfold processM3u8Content.
  destruct (endless_world_fetches (Z.to_nat (max + 1 - 0)) (enough_fuel 0 max)
              (js "https://a.com/m.m3u8") 0 max log1)
    as (new & -> & Hlen); [left; reflexivity|reflexivity|lia|unfold enough_fuel; lia|].
  cbn [snd]. rewrite length_app, Hlog1, Hlen. lia.
Qed.

Lemma outbound_fetch_bound_attained_witness :
  Z.of_nat (length (@handler plain_hosts endless_world (mkConfig 86400 5 [])
                             example_request).2)
  = 7.
Proof. apply (outbound_fetch_bound_attained 5). lia. Defined.

(** ** How the handler and the resolver use the selection and the dispatch *)

Section Dispatch.
Context `{HostParser}.

(** X2. The variant that [processMasterPlaylist] fetches is the one that
    [select_variant] returns: below the depth bound, either the selected
    url does not parse (no request is issued, and the [TypeError] of
    [new URL] propagates), or the first request added to the log is for the
    selected url. *)
Theorem processMasterPlaylist_fetches_selected w url content depth max env log :
  depth <= max ->
  (select_variant url content).2 <> [] ->
  match new_URL (select_variant url content).2 None with
  | Throw e => processMasterPlaylist w url content depth max env log = (Throw e, log)
  | Ok _ =>
      exists request rest,
        (processMasterPlaylist w url content depth max env log).2 = log ++ request :: rest /\
        req_url request = (select_variant url content).2
  end.
Proof.
  intros Hdepth Hbest. unfold processMasterPlaylist, processMasterPlaylist_with.
  destruct (Z.ltb_spec max depth); [lia|].
  destruct (select_variant url content).2 as [|c best]; [congruence|].
  unfold mbind'.
  destruct (fetchContentWithType w (c :: best) ∅ (USER_AGENTS env) log)
    as [r log1] eqn:Hfetch.
  revert Hfetch. unfold fetchContentWithType. rewrite lookup_empty.
  destruct (new_URL (c :: best) None) as [u|e]; cbn [rmap rbind];
    [|intros [= <- <-]; reflexivity].
  set (request := mkRequest _ _ _ _ _).
  intros Hfetch.
  assert (log1 = log ++ [request]) as ->.
  { revert Hfetch. destruct (upstream w _ _) as [resp|]; [|congruence].
    destruct (negb (resp_ok resp)); [congruence|].
    destruct (resp_text resp); congruence. }
  exists request.
  destruct r as [[[vc vct] vh]|e]; [|exists []; split; reflexivity].
  destruct (negb (isM3u8Content vc vct)).
  - exists []. split; [unfold mlift|]; reflexivity.
  - destruct (processM3u8Content w (c :: best) vc (depth + 1) max env (log ++ [request]))
      as [r2 log2] eqn:Hrec.
    unfold processM3u8Content in Hrec.
    apply processM3u8Content_fuel_log in Hrec.
    destruct Hrec as (new & -> & _).
    exists new. rewrite <- app_assoc. split; reflexivity.
Qed.

(** With no variant selected, a master playlist is rewritten as a media
    playlist, without any fetch. *)
Lemma processMasterPlaylist_no_variant w url content depth max env log :
  depth <= max ->
  (select_variant url content).2 = [] ->
  processMasterPlaylist w url content depth max env log
  = (processMediaPlaylist url content, log).
Proof.
  intros Hdepth Hbest. unfold processMasterPlaylist, processMasterPlaylist_with.
  destruct (Z.ltb_spec max depth); [lia|]. rewrite Hbest. reflexivity.
Qed.

(** [processM3u8Content] is its source text: a body with one of the two
    markers goes to [processMasterPlaylist], any other to
    [processMediaPlaylist]. *)
Lemma processM3u8Content_unfold w targetUrl content depth max env log :
  processM3u8Content w targetUrl content depth max env log
  = if includes content (js "#EXT-X-STREAM-INF") || includes content (js "#EXT-X-MEDIA:")
    then processMasterPlaylist w targetUrl content depth max env log
    else (processMediaPlaylist targetUrl content, log).
Proof.
  unfold processM3u8Content, enough_fuel. cbn [processM3u8Content_fuel].
  destruct (includes content (js "#EXT-X-STREAM-INF") ||
            includes content (js "#EXT-X-MEDIA:")); [|reflexivity].
  unfold processMasterPlaylist.
  destruct (Z.ltb_spec max depth) as [Hlt|Hge].
  - unfold processMasterPlaylist_with.
    destruct (Z.ltb_spec max depth); [reflexivity|lia].
  - apply processMasterPlaylist_with_ext.
    intros u c log1. apply processM3u8Content_fuel_enough.
    unfold enough_fuel. lia.
Qed.

(** X3. The handler follows [classify]: once the first fetch has answered, the
    reply is the upstream body passed through, the media rewriting, or the
    master resolution, by the kind of the body. *)
Theorem handler_follows_classify w cfg req targetUrl content contentType responseHeaders log1 :
  str_eqb (req_method req) (js "OPTIONS") = false ->
  getTargetUrlFromPath (join (js "/") (req_query_path req)) = Some targetUrl ->
  fetchContentWithType w targetUrl (req_headers req) (CONFIG_USER_AGENTS cfg) []
  = (Ok (content, contentType, responseHeaders), log1) ->
  handler w cfg req =
  match classify content contentType with
  | NotPlaylist => (PassThrough content (filter forwarded_header responseHeaders), log1)
  | MediaPlaylist =>
      (match processMediaPlaylist targetUrl content with
       | Ok body => PlaylistReply body
       | Throw e => ServerError e
       end, log1)
  | MasterPlaylist =>
      let '(r, log2) :=
        processMasterPlaylist w targetUrl content 0 (MAX_RECURSION cfg)
          (mkEnv (CONFIG_USER_AGENTS cfg)) log1 in
      (match r with
       | Ok body => PlaylistReply body
       | Throw e => ServerError e
       end, log2)
  end.
Proof.
  intros Hmethod Htarget Hfetch. unfold handler, classify.
  rewrite Hmethod, Htarget. cbv zeta. unfold mbind' at 1. rewrite Hfetch.
  destruct (isM3u8Content content contentType); [|reflexivity].
  unfold mbind'. rewrite processM3u8Content_unfold.
  destruct (includes content (js "#EXT-X-STREAM-INF") ||
            includes content (js "#EXT-X-MEDIA:")).
  - destruct (processMasterPlaylist _ _ _ _ _ _ _) as [[body|e] log2]; reflexivity.
  - unfold mlift. destruct (processMediaPlaylist targetUrl content); reflexivity.
Qed.
End Dispatch.

Lemma processMasterPlaylist_fetches_selected_witness :
  match @new_URL plain_hosts
          (@select_variant plain_hosts (js "https://a.com/m.m3u8") endless_master).2 None with
  | Throw e =>
      @processMasterPlaylist plain_hosts endless_world (js "https://a.com/m.m3u8")
        endless_master 0 1 (mkEnv []) [] = (Throw e, [])
  | Ok _ =>
      exists request rest,
        (@processMasterPlaylist plain_hosts endless_world (js "https://a.com/m.m3u8")
           endless_master 0 1 (mkEnv []) []).2 = [] ++ request :: rest /\
        req_url request
        = (@select_variant plain_hosts (js "https://a.com/m.m3u8") endless_master).2
  end.
Proof.
  apply (@processMasterPlaylist_fetches_selected plain_hosts endless_world
           (js "https://a.com/m.m3u8") endless_master 0 1 (mkEnv []) []).
  - lia.
  - vm_compute. discriminate.
Defined.

Lemma handler_follows_classify_witness :
  @handler plain_hosts endless_world (mkConfig 86400 1 []) example_request
  = match classify endless_master [] with
    | NotPlaylist =>
        (PassThrough endless_master (filter forwarded_header []),
         (@fetchContentWithType plain_hosts endless_world (js "https://a.com/m.m3u8")
            (req_headers example_request) [] []).2)
    | MediaPlaylist =>
        (match @processMediaPlaylist plain_hosts (js "https://a.com/m.m3u8") endless_master with
         | Ok body => PlaylistReply body
         | Throw e => ServerError e
         end,
         (@fetchContentWithType plain_hosts endless_world (js "https://a.com/m.m3u8")
            (req_headers example_request) [] []).2)
    | MasterPlaylist =>
        let '(r, log2) :=
          @processMasterPlaylist plain_hosts endless_world (js "https://a.com/m.m3u8")
            endless_master 0 1 (mkEnv [])
            (@fetchContentWithType plain_hosts endless_world (js "https://a.com/m.m3u8")
               (req_headers example_request) [] []).2 in
        (match r with
         | Ok body => PlaylistReply body
         | Throw e => ServerError e
         end, log2)
    end.
Proof.
  apply (@handler_follows_classify plain_hosts endless_world (mkConfig 86400 1 [])
           example_request (js "https://a.com/m.m3u8") endless_master [] []).
  - vm_compute. reflexivity.
  - vm_compute. reflexivity.
  - vm_compute. reflexivity.
Defined.

(** ** Further properties of the helpers *)

(** X5. The base that [getBaseUrl] computes for an http(s) url parses, to an
    http(s) url without credentials and with the same origin. *)
Theorem base_of_http_url_parses `{HostParser} `{!HostParserLaws}
    (url : jsstring) (source : URLRecord) :
  code_units url ->
  basic_URL_parse url None = Some source ->
  is_http_scheme (url_scheme source) = true ->
  exists base,
    new_URL (getBaseUrl url) None = Ok base /\
    is_http_scheme (url_scheme base) = true /\
    includes_credentials base = false /\
    origin base = origin source /\
    startsWith (getBaseUrl url) (origin source) = true /\
    endsWith (getBaseUrl url) (js "/") = true.
Proof.
  intros Hunits Hu Hhttp.
  destruct (getBaseUrl_reparses url source Hunits Hu Hhttp)
    as (base & Hb & Hbhttp & Hcred & Horigin).
  exists base. unfold new_URL. rewrite Hb.
  split; [reflexivity|]. split; [exact Hbhttp|]. split; [exact Hcred|].
  split; [exact Horigin|]. split.
  - destruct (getBaseUrl_parsed _ _ Hu) as [path ->]. apply startsWith_prefix.
  - apply (endsWith_getBaseUrl _ _ Hu).
Qed.

Lemma base_of_http_url_parses_witness :
  exists base,
    @new_URL plain_hosts (@getBaseUrl plain_hosts (js "https://host:8443/a/b/live.m3u8?x=1"))
      None = Ok base /\
    is_http_scheme (url_scheme base) = true /\
    includes_credentials base = false /\
    @origin plain_hosts base
    = @origin plain_hosts
        (mkURL (js "https") [] [] (Some (js "host")) (Some 8443)
               (ListPath [js "a"; js "b"; js "live.m3u8"]) (Some (js "x=1")) None) /\
    startsWith (@getBaseUrl plain_hosts (js "https://host:8443/a/b/live.m3u8?x=1"))
      (@origin plain_hosts
         (mkURL (js "https") [] [] (Some (js "host")) (Some 8443)
                (ListPath [js "a"; js "b"; js "live.m3u8"]) (Some (js "x=1")) None)) = true /\
    endsWith (@getBaseUrl plain_hosts (js "https://host:8443/a/b/live.m3u8?x=1")) (js "/")
    = true.
Proof.
  apply (@base_of_http_url_parses plain_hosts plain_hosts_laws
           (js "https://host:8443/a/b/live.m3u8?x=1")).
  - apply code_units_forallb. vm_compute. reflexivity.
  - vm_compute. reflexivity.
  - vm_compute. reflexivity.
Defined.

(** X6. [decodeURIComponent] undoes [encodeURIComponent] on every string
    without an unpaired surrogate; on a string of code units with one,
    [encodeURIComponent] throws. *)
Theorem decodeURIComponent_encodeURIComponent (s : jsstring) :
  code_units s ->
  if well_formed_utf16 s
  then exists e, encodeURIComponent s = Ok e /\ decodeURIComponent e = Ok s
  else encodeURIComponent s = Throw URIError.
Proof.
  intros Hs. destruct (well_formed_utf16 s) eqn:Hwf.
  - destruct (encode_decode s Hwf) as (e & He & _ & Hd). exists e. split; assumption.
  - destruct (encodeURIComponent s) as [e|err] eqn:He.
    + rewrite (encodeURIComponent_well_formed s e Hs He) in Hwf. discriminate.
    + apply encodeURIComponent_throws in He. rewrite He. reflexivity.
Qed.

Lemma decodeURIComponent_encodeURIComponent_witness :
  exists e, encodeURIComponent [97; 32; 233; 47; 55357; 56832] = Ok e /\
            decodeURIComponent e = Ok [97; 32; 233; 47; 55357; 56832].
Proof.
  apply (decodeURIComponent_encodeURIComponent [97; 32; 233; 47; 55357; 56832]).
  apply code_units_forallb. vm_compute. reflexivity.
Defined.

(** X7. The test of the raw segment in [getTargetUrlFromPath] never
    succeeds where it stands: when the decoded segment does not match the
    pattern, the raw segment does not match it either. *)
Theorem raw_segment_test_is_dead (encodedPath decodedUrl : jsstring) :
  decodeURIComponent encodedPath = Ok decodedUrl ->
  matches_http decodedUrl = false ->
  matches_http encodedPath = false.
Proof.
  intros Hd Hm. destruct (matches_http encodedPath) eqn:Hraw; [|reflexivity].
  rewrite (decoded_matches_when_raw_matches _ _ Hd Hraw) in Hm. discriminate.
Qed.

Lemma raw_segment_test_is_dead_witness :
  matches_http (js "ftp%3A%2F%2Fx.org") = false.
Proof.
  apply (raw_segment_test_is_dead (js "ftp%3A%2F%2Fx.org") (js "ftp://x.org")).
  - vm_compute. reflexivity.
  - vm_compute. reflexivity.
Defined.

(** X8. What [new URL] serializes is ASCII: [href], [origin] and [pathname]
    of a parsed url hold no character above U+007F, whatever the input. *)
Theorem new_URL_serializes_ascii `{HostParser} `{!HostParserLaws}
    (url : jsstring) (base : option jsstring) (u : URLRecord) :
  code_units url -> (forall b, base = Some b -> code_units b) ->
  new_URL url base = Ok u ->
  ascii_string (href u) /\ ascii_string (origin u) /\ ascii_string (pathname u).
Proof.
  intros Hurl Hbase Hu.
  assert (Hascii : url_ascii u).
  { destruct base as [b|].
    - eapply new_URL_relative_ascii; [exact Hurl| |exact Hu]. apply Hbase. reflexivity.
    - eapply new_URL_ascii; [exact Hurl|exact Hu]. }
  split; [apply href_ascii, Hascii|]. split; [apply origin_ascii, Hascii|].
  apply pathname_ascii, Hascii.
Qed.

Lemma new_URL_serializes_ascii_witness :
  ascii_string (href (mkURL (js "https") [] [] (Some (js "host")) None
                            (ListPath [js "a%20b"; js "%E2%82%AC"]) None None)) /\
  ascii_string (@origin plain_hosts
                  (mkURL (js "https") [] [] (Some (js "host")) None
                         (ListPath [js "a%20b"; js "%E2%82%AC"]) None None)) /\
  ascii_string (pathname (mkURL (js "https") [] [] (Some (js "host")) None
                                (ListPath [js "a%20b"; js "%E2%82%AC"]) None None)).
Proof.
  apply (@new_URL_serializes_ascii plain_hosts plain_hosts_laws
           (js "a b/" ++ [8364]) (Some (js "https://host/x"))).
  - apply code_units_forallb. vm_compute. reflexivity.
  - intros b [= <-]. apply code_units_forallb. vm_compute. reflexivity.
  - vm_compute. reflexivity.
Defined.

(** ** The media rewriter does not throw on a decoded body

    [response.text()] decodes UTF-8, so a playlist body has no unpaired
    surrogate.  On such a body every reference is encoded without a
    [URIError]. *)

Lemma whitespace_plain c :
  is_js_whitespace c = true ->
  is_lead_surrogate c = false /\ is_trail_surrogate c = false /\ is_code_unit c = true.
Proof.
  unfold is_js_whitespace, is_lead_surrogate, is_trail_surrogate, is_code_unit.
  intros Hc. repeat split; lia.
Qed.

Lemma well_formed_utf16_split a : forall c b,
  is_lead_surrogate c = false -> is_trail_surrogate c = false ->
  well_formed_utf16 (a ++ c :: b) = true ->
  well_formed_utf16 a = true /\ well_formed_utf16 b = true.
Proof.
  induction a as [a IH] using (induction_ltof1 _ (@length Z)). unfold ltof in IH.
  intros c b Hlead Htrail. destruct a as [|x a'].
  - cbn [app well_formed_utf16]. rewrite Hlead, Htrail.
    intros [_ Hb]%andb_prop. split; [reflexivity|exact Hb].
  - cbn [app well_formed_utf16]. destruct (is_lead_surrogate x).
    + destruct a' as [|d a'']; cbn [app].
      * rewrite Htrail. discriminate.
      * intros [Hd Hrest]%andb_prop. rewrite Hd. cbn [andb].
        apply (IH a'' ltac:(cbn; lia) c b Hlead Htrail Hrest).
    + destruct (is_trail_surrogate x); [discriminate|].
      intros [Hx Hrest]%andb_prop. rewrite Hx. cbn [andb].
      apply (IH a' ltac:(cbn; lia) c b Hlead Htrail Hrest).
Qed.

Lemma trimStart_decompose s :
  exists ws, s = ws ++ trimStart s /\ Forall (fun c => is_js_whitespace c = true) ws.
Proof.
  induction s as [|c s IH]; [exists []; split; [reflexivity|constructor]|].
  cbn [trimStart]. destruct (is_js_whitespace c) eqn:Hc.
  - destruct IH as (ws & Hs & Hws). exists (c :: ws). split.
    + cbn [app]. rewrite <- Hs. reflexivity.
    + apply Forall_cons; split; assumption.
  - exists []. split; [reflexivity|constructor].
Qed.

Lemma well_formed_after_whitespace ws s :
  Forall (fun c => is_js_whitespace c = true) ws ->
  well_formed_utf16 (ws ++ s) = true -> well_formed_utf16 s = true.
Proof.
  induction 1 as [|c ws Hc _ IH]; [tauto|].
  destruct (whitespace_plain c Hc) as (Hlead & Htrail & _).
  cbn [app well_formed_utf16]. rewrite Hlead, Htrail.
  intros [_ Hrest]%andb_prop. apply IH, Hrest.
Qed.

Lemma well_formed_before_whitespace p ws :
  Forall (fun c => is_js_whitespace c = true) ws ->
  well_formed_utf16 (p ++ ws) = true -> well_formed_utf16 p = true.
Proof.
  intros Hws. destruct Hws as [|c ws Hc _]; [rewrite app_nil_r; tauto|].
  destruct (whitespace_plain c Hc) as (Hlead & Htrail & _).
  intros Hwf. apply (well_formed_utf16_split p c ws Hlead Htrail Hwf).
Qed.

Lemma trim_well_formed s : well_formed_utf16 s = true -> well_formed_utf16 (trim s) = true.
Proof.
  intros Hwf. unfold trim.
  destruct (trimStart_decompose s) as (ws1 & Hs & Hws1).
  rewrite Hs in Hwf. apply well_formed_after_whitespace in Hwf; [|exact Hws1].
  destruct (trimStart_decompose (rev (trimStart s))) as (ws2 & Hr & Hws2).
  apply (f_equal (@rev Z)) in Hr. rewrite rev_involutive, rev_app_distr in Hr.
  rewrite Hr in Hwf.
  apply well_formed_before_whitespace in Hwf; [exact Hwf|apply Forall_rev, Hws2].
Qed.

Lemma split_cases sep s :
  (Forall (fun c => c <> sep) s /\ split sep s = [s]) \/
  (exists p rest, s = p ++ sep :: rest /\ Forall (fun c => c <> sep) p /\
                  split sep s = p :: split sep rest).
Proof.
  induction s as [|c s IH]; [left; split; [constructor|reflexivity]|].
  cbn [split]. destruct (Z.eqb_spec c sep) as [->|Hc].
  - right. exists [], s. split; [reflexivity|]. split; [constructor|reflexivity].
  - destruct IH as [[Hs ->]|(p & rest & -> & Hp & ->)].
    + left. split; [apply Forall_cons; split; assumption|reflexivity].
    + right. exists (c :: p), rest. split; [reflexivity|].
      split; [apply Forall_cons; split; assumption|reflexivity].
Qed.

Lemma split_well_formed s :
  well_formed_utf16 s = true -> Forall (fun l => well_formed_utf16 l = true) (split 10 s).
Proof.
  induction s as [s IH] using (induction_ltof1 _ (@length Z)). unfold ltof in IH.
  intros Hwf. destruct (split_cases 10 s) as [[_ ->]|(p & rest & -> & _ & ->)].
  - apply Forall_cons; split; [exact Hwf|constructor].
  - apply well_formed_utf16_split in Hwf as [Hp Hrest]; [|reflexivity..].
    apply Forall_cons; split; [exact Hp|]. apply IH; [|exact Hrest].
    rewrite length_app. cbn [length]. lia.
Qed.

(** Where the replacement of the URI attribute throws, the replacer has
    thrown on the attribute's value. *)
Lemma replace_URI_failure replacer line : forall e,
  replace_URI replacer line = Throw e ->
  exists pre uri post,
    line = pre ++ js "URI=" ++ [34] ++ uri ++ [34] ++ post /\ replacer uri = Throw e.
Proof.
  induction line as [|c rest IH]; intros e; cbn [replace_URI]; [discriminate|].
  assert (Hnext : rmap (cons c) (replace_URI replacer rest) = Throw e ->
    exists pre uri post,
      c :: rest = pre ++ js "URI=" ++ [34] ++ uri ++ [34] ++ post /\ replacer uri = Throw e).
  { intros He%rmap_throws. destruct (IH _ He) as (pre & uri & post & -> & Hr).
    exists (c :: pre), uri, post. split; [reflexivity|exact Hr]. }
  destruct (startsWith (c :: rest) (js "URI=" ++ [34])) eqn:Hstart; [|exact Hnext].
  apply startsWith_app in Hstart as [tail Htail]. rewrite Htail.
  change (drop 5 ((js "URI=" ++ [34]) ++ tail)) with tail.
  destruct (span_until_quote tail) as [uri after] eqn:Hspan.
  destruct (span_until_quote_spec _ _ _ Hspan) as [-> _].
  destruct (negb (bool_decide (uri = []))); cbn [andb]; [|rewrite <- Htail; exact Hnext].
  destruct (startsWith after [34]) eqn:Hq; [|rewrite <- Htail; exact Hnext].
  apply startsWith_app in Hq as [post ->].
  destruct (replacer uri) as [value|e'] eqn:Hrep; [discriminate|]. cbn [rbind].
  intros [= <-]. exists [], uri, post. split; [|exact Hrep].
  cbn [app]. rewrite <- !app_assoc. reflexivity.
Qed.

Lemma rewriteUrlToProxy_total s :
  well_formed_utf16 s = true -> exists out, rewriteUrlToProxy s = Ok out.
Proof.
  intros Hwf. unfold rewriteUrlToProxy. destruct s as [|c s]; [eexists; reflexivity|].
  destruct (encode_decode _ Hwf) as (e & -> & _). eexists. reflexivity.
Qed.

Lemma ascii_well_formed s : ascii_string s -> well_formed_utf16 s = true.
Proof.
  intros Hs. apply well_formed_utf16_plain. eapply Forall_impl; [exact Hs|].
  intros c Hc. cbn beta in Hc. lia.
Qed.

Section Total.
Context `{HostParser} `{!HostParserLaws}.

Lemma getBaseUrl_ascii url source :
  code_units url -> basic_URL_parse url None = Some source ->
  ascii_string (getBaseUrl url).
Proof.
  intros Hunits Hu.
  assert (Hascii : url_ascii source).
  { eapply basic_URL_parse_ascii; [exact Hunits| |exact Hu]. discriminate. }
  assert (Hslash : ascii_string (js "/")) by (apply literal_ascii; reflexivity).
  unfold getBaseUrl. destruct url as [|c url'] eqn:Hurl; [constructor|].
  unfold new_URL. rewrite Hu. destruct (_ || _).
  - apply ascii_app; [apply origin_ascii, Hascii|exact Hslash].
  - cbv zeta. apply ascii_app; [apply origin_ascii, Hascii|].
    apply ascii_app; [|exact Hslash].
    pose proof (pathname_ascii source Hascii) as Hpath.
    assert (Hparts : Forall ascii_string (removelast (split 47 (pathname source)))).
    { apply removelast_Forall. clear -Hpath.
      induction Hpath as [|c s Hc Hs IH]; cbn [split]; [repeat constructor|].
      destruct (c =? 47); [apply Forall_cons; split; [constructor|exact IH]|].
      destruct (split 47 s) as [|cur more].
      { apply Forall_cons; split; [|constructor].
        apply Forall_cons; split; [exact Hc|constructor]. }
      apply Forall_cons in IH as [Hcur Hmore].
      apply Forall_cons; split; [|exact Hmore]. apply Forall_cons; split; assumption. }
    clear -Hparts Hslash. induction Hparts as [|p parts Hp _ IH]; [constructor|].
    cbn [join]. destruct parts as [|q more]; [exact Hp|].
    apply ascii_app; [exact Hp|]. apply ascii_app; [exact Hslash|exact IH].
Qed.

(** A reference without an unpaired surrogate resolves to a string without
    one. *)
Lemma resolveUrl_well_formed url source ref :
  code_units url -> basic_URL_parse url None = Some source ->
  code_units ref -> well_formed_utf16 ref = true ->
  well_formed_utf16 (resolveUrl (getBaseUrl url) ref) = true.
Proof.
  intros Hunits Hu Href Hwf.
  pose proof (getBaseUrl_ascii url source Hunits Hu) as Hbase.
  pose proof (ascii_code_units _ Hbase) as Hbunits.
  unfold resolveUrl. destruct (_ || _); [exact Hwf|].
  destruct (matches_http ref); [exact Hwf|].
  destruct (new_URL ref (Some (getBaseUrl url))) as [u|e] eqn:Hparse.
  { apply ascii_well_formed, href_ascii.
    eapply new_URL_relative_ascii; [exact Href|exact Hbunits|exact Hparse]. }
  destruct (startsWith ref (js "/")) eqn:Hslash.
  { destruct (new_URL (getBaseUrl url) None) as [urlObj|e'] eqn:Ho; [|exact Hwf].
    apply well_formed_utf16_app; [|exact Hwf].
    apply ascii_well_formed, origin_ascii.
    eapply new_URL_ascii; [exact Hbunits|exact Ho]. }
  cbv zeta. rewrite andb_false_r.
  destruct (_ && _).
  - apply well_formed_utf16_app; [|exact Hwf].
    apply ascii_well_formed. apply Forall_take. exact Hbase.
  - apply well_formed_utf16_app; [|exact Hwf]. apply ascii_well_formed, Hbase.
Qed.

Lemma media_lines_total url source lines :
  code_units url -> basic_URL_parse url None = Some source ->
  Forall code_units lines -> Forall (fun l => well_formed_utf16 l = true) lines ->
  exists outs, media_lines (getBaseUrl url) lines = Ok outs.
Proof.
  intros Hunits Hu Hlines Hwf.
  destruct (media_lines (getBaseUrl url) lines) as [outs|e] eqn:Hm; [eexists; reflexivity|].
  exfalso. revert e Hm.
  induction lines as [|raw rest IH]; intros e; cbn [media_lines]; [discriminate|].
  apply Forall_cons in Hlines as [Hraw Hlines]. apply Forall_cons in Hwf as [Hrawwf Hwf].
  specialize (IH Hlines Hwf).
  pose proof (trim_Forall _ _ Hraw) as Htrim. pose proof (trim_well_formed _ Hrawwf) as Htrimwf.
  assert (Hreplacer : forall line e',
    code_units line -> well_formed_utf16 line = true ->
    replace_URI (fun uri => rewriteUrlToProxy (resolveUrl (getBaseUrl url) uri)) line
    = Throw e' -> False).
  { intros line e' Hline Hlinewf Hthrow.
    apply replace_URI_failure in Hthrow as (pre & uri & post & -> & Hthrow).
    assert (Huri : code_units uri).
    { apply Forall_app in Hline as [_ Hline]. apply Forall_app in Hline as [_ Hline].
      apply Forall_app in Hline as [_ Hline]. apply Forall_app in Hline as [Huri _].
      exact Huri. }
    assert (Huriwf : well_formed_utf16 uri = true).
    { replace (pre ++ js "URI=" ++ [34] ++ uri ++ [34] ++ post)
        with ((pre ++ js "URI=") ++ 34 :: (uri ++ 34 :: post)) in Hlinewf
        by (rewrite <- !app_assoc; reflexivity).
      apply well_formed_utf16_split in Hlinewf as [_ Hlinewf]; [|reflexivity..].
      apply well_formed_utf16_split in Hlinewf as [Huriwf _]; [|reflexivity..].
      exact Huriwf. }
    destruct (rewriteUrlToProxy_total _
                (resolveUrl_well_formed url source uri Hunits Hu Huri Huriwf)) as [out Hout].
    congruence. }
  destruct (bool_decide (trim raw = []) && bool_decide (rest = [])); [discriminate|].
  destruct (bool_decide (trim raw = [])); [apply IH|].
  destruct (startsWith (trim raw) (js "#EXT-X-KEY")).
  { destruct (processKeyLine _ _) eqn:Hk; cbn [rbind].
    - intros He%rmap_throws. eapply IH, He.
    - intros _. eapply Hreplacer; [exact Htrim|exact Htrimwf|exact Hk]. }
  destruct (startsWith (trim raw) (js "#EXT-X-MAP")).
  { destruct (processMapLine _ _) eqn:Hk; cbn [rbind].
    - intros He%rmap_throws. eapply IH, He.
    - intros _. eapply Hreplacer; [exact Htrim|exact Htrimwf|exact Hk]. }
  destruct (startsWith (trim raw) (js "#EXTINF")).
  { intros He%rmap_throws. eapply IH, He. }
  destruct (negb (startsWith (trim raw) (js "#"))).
  - destruct (rewriteUrlToProxy_total _
                (resolveUrl_well_formed url source (trim raw) Hunits Hu Htrim Htrimwf))
      as [out ->].
    cbn [rbind]. intros He%rmap_throws. eapply IH, He.
  - intros He%rmap_throws. eapply IH, He.
Qed.

(** X9. For a source url that parses and a body without an unpaired
    surrogate (any body that [response.text()] returns), the media rewriter
    returns a playlist: it does not throw. *)
Theorem processMediaPlaylist_total (url content : jsstring) (source : URLRecord) :
  code_units url -> basic_URL_parse url None = Some source ->
  well_formed_utf16 content = true ->
  exists body, processMediaPlaylist url content = Ok body.
Proof.
  intros Hunits Hu Hwf. unfold processMediaPlaylist.
  assert (Hcontent : code_units content).
  { clear -Hwf. induction content as [content IH] using (induction_ltof1 _ (@length Z)).
    unfold ltof in IH. destruct content as [|c rest]; [constructor|].
    cbn [well_formed_utf16] in Hwf. destruct (is_lead_surrogate c) eqn:Hlead.
    - destruct rest as [|d rest']; [discriminate|].
      apply andb_prop in Hwf as [Hd Hrest].
      unfold is_lead_surrogate in Hlead. unfold is_trail_surrogate in Hd.
      apply Forall_cons; split; [lia|]. apply Forall_cons; split; [lia|].
      apply IH; [cbn; lia|exact Hrest].
    - destruct (is_trail_surrogate c); [discriminate|].
      apply andb_prop in Hwf as [Hc Hrest]. unfold is_code_unit in Hc.
      apply Forall_cons; split; [lia|]. apply IH; [cbn; lia|exact Hrest]. }
  destruct (media_lines_total url source (split 10 content) Hunits Hu
              (split_units 10 content Hcontent) (split_well_formed content Hwf))
    as [outs ->].
  eexists. reflexivity.
Qed.
End Total.

Lemma processMediaPlaylist_total_witness :
  exists body,
    @processMediaPlaylist plain_hosts (js "https://host/path/live.m3u8")
      example_media_playlist = Ok body.
Proof.
  apply (@processMediaPlaylist_total plain_hosts plain_hosts_laws
           (js "https://host/path/live.m3u8") example_media_playlist
           (mkURL (js "https") [] [] (Some (js "host")) None
                  (ListPath [js "path"; js "live.m3u8"]) None None)).
  - apply code_units_forallb. vm_compute. reflexivity.
  - vm_compute. reflexivity.
  - vm_compute. reflexivity.
Defined.

(** ** Further properties of the code *)

Lemma endsWith_app a p : endsWith (a ++ p) p = true.
Proof. unfold endsWith. rewrite rev_app_distr. apply startsWith_prefix. Qed.

Lemma lastIndexOf_from_spec s c : forall i last,
  lastIndexOf_from i last s c = last \/
  exists k, lastIndexOf_from i last s c = i + Z.of_nat k /\ s !! k = Some c.
Proof.
  induction s as [|d s IH]; intros i last; cbn [lastIndexOf_from]; [left; reflexivity|].
  destruct (Z.eqb_spec d c) as [->|Hd].
  - destruct (IH (i + 1) i) as [->|(k & -> & Hk)].
    + right. exists O. split; [lia|reflexivity].
    + right. exists (S k). split; [lia|exact Hk].
  - destruct (IH (i + 1) last) as [->|(k & -> & Hk)]; [left; reflexivity|].
    right. exists (S k). split; [lia|exact Hk].
Qed.

Lemma indexOf_from_lower s p : forall i, -1 <= i -> -1 <= indexOf_from i s p.
Proof.
  induction s as [|d s IH]; intros i Hi; cbn [indexOf_from].
  - destruct (startsWith [] p); lia.
  - destruct (startsWith (d :: s) p); [lia|]. apply IH. lia.
Qed.

Lemma take_through_lookup (s : jsstring) k c :
  s !! k = Some c -> take (S k) s = take k s ++ [c].
Proof. intros Hk. apply take_S_r, Hk. Qed.

Section BaseSlash.
Context `{HostParser}.

(** X10. [getBaseUrl] returns the empty string for the empty string, and
    for every other input, parsable or not, a string that ends with a
    slash. *)
Theorem getBaseUrl_ends_with_slash (urlStr : jsstring) :
  match urlStr with
  | [] => getBaseUrl urlStr = []
  | _ => endsWith (getBaseUrl urlStr) (js "/") = true
  end.
Proof.
  destruct urlStr as [|c urlStr']; [reflexivity|].
  unfold getBaseUrl. set (urlStr := c :: urlStr').
  destruct (new_URL urlStr None) as [parsedUrl|e].
  - destruct (_ || _).
    + apply endsWith_app.
    + cbv zeta. rewrite app_assoc. apply endsWith_app.
  - cbv zeta. destruct (Z.ltb_spec (indexOf urlStr (js "://") + 2) (lastIndexOf urlStr 47))
      as [Hlt|_]; [|apply endsWith_app].
    assert (Hindex := indexOf_from_lower urlStr (js "://") 0 ltac:(lia)).
    fold (indexOf urlStr (js "://")) in Hindex.
    unfold lastIndexOf in *.
    destruct (lastIndexOf_from_spec urlStr 47 0 (-1)) as [Hlast|(k & Hlast & Hk)];
      rewrite Hlast in *; [lia|].
    unfold substring0. replace (Z.to_nat (0 + Z.of_nat k + 1)) with (S k) by lia.
    rewrite (take_through_lookup _ _ _ Hk). apply endsWith_app.
Qed.
End BaseSlash.

Lemma free_of_forallb (k : Z) (s : jsstring) :
  forallb (fun c => negb (c =? k)) s = true -> Forall (fun c => c <> k) s.
Proof.
  induction s as [|c s IH]; [constructor|]. cbn [forallb].
  intros [Hc Hs]%andb_prop. constructor; [|apply IH, Hs].
  destruct (Z.eqb_spec c k); [discriminate|assumption].
Qed.

Lemma Decode_plain s : forall fuel,
  Forall (fun c => c <> 37) s -> (length s <= fuel)%nat -> Decode fuel s = Ok s.
Proof.
  induction s as [|c s IH]; intros fuel Hs Hf; [destruct fuel; reflexivity|].
  apply Forall_cons in Hs as [Hc Hs]. cbn [length] in Hf.
  destruct fuel as [|fuel]; [lia|]. cbn [Decode].
  destruct (Z.eqb_spec c 37); [contradiction|].
  rewrite IH; [reflexivity|exact Hs|lia].
Qed.

(** X11. A path segment that holds no ["%"] is taken as it stands: it is
    the target when it matches the pattern of an http(s) url, and it is
    refused otherwise.  So an unencoded target url is accepted. *)
Theorem unencoded_target_taken_as_is (encodedPath : jsstring) :
  Forall (fun c => c <> 37) encodedPath ->
  getTargetUrlFromPath encodedPath =
    if matches_http encodedPath then Some encodedPath else None.
Proof.
  intros Hp. unfold getTargetUrlFromPath, decodeURIComponent.
  destruct encodedPath as [|c rest]; [reflexivity|].
  rewrite (Decode_plain _ _ Hp (le_n _)).
  destruct (matches_http (c :: rest)); reflexivity.
Qed.

Lemma unencoded_target_taken_as_is_witness :
  getTargetUrlFromPath (js "https://host.example/live/index.m3u8") =
    Some (js "https://host.example/live/index.m3u8").
Proof.
  apply (unencoded_target_taken_as_is (js "https://host.example/live/index.m3u8")).
  apply free_of_forallb. vm_compute. reflexivity.
Defined.

Lemma remove_first_prefix p rest : remove_first p (p ++ rest) = rest.
Proof.
  destruct (p ++ rest) as [|c l] eqn:E; cbn [remove_first]; rewrite <- E;
    rewrite startsWith_prefix, drop_app_length; reflexivity.
Qed.

(** X12. The Netlify function reads back what its rewriter writes: for a
    target url without an unpaired surrogate that matches the pattern of an
    http(s) url, [rewriteUrlToProxy_Netlify] returns a path from which the
    handler's extraction and [getTargetUrlFromPath] recover the target, and
    the same holds for the redirected form of the path under ["/proxy/"]. *)
Theorem netlify_path_round_trip (targetUrl : jsstring) :
  well_formed_utf16 targetUrl = true ->
  matches_http targetUrl = true ->
  exists segment,
    encodeURIComponent targetUrl = Ok segment /\
    rewriteUrlToProxy_Netlify targetUrl = Ok (js "/.netlify/functions/proxy/" ++ segment) /\
    getTargetUrlFromPath
      (netlify_encodedUrlPath (js "/.netlify/functions/proxy/" ++ segment)) = Some targetUrl /\
    getTargetUrlFromPath (netlify_encodedUrlPath (js "/proxy/" ++ segment)) = Some targetUrl.
Proof.
  intros Hwf Hm. destruct (encode_decode _ Hwf) as (segment & Henc & _ & Hdec).
  exists segment. split; [exact Henc|].
  destruct (encodeURIComponent_http_head _ _ Hm Henc) as (c & rest & -> & Hc).
  assert (Hslash : c <> 47).
  { intros ->. vm_compute in Hc. discriminate. }
  assert (Htarget : getTargetUrlFromPath (c :: rest) = Some targetUrl).
  { unfold getTargetUrlFromPath. rewrite Hdec, Hm. reflexivity. }
  split; [|split].
  - unfold rewriteUrlToProxy_Netlify. destruct targetUrl; [discriminate|].
    rewrite Henc. reflexivity.
  - unfold netlify_encodedUrlPath.
    replace (js "/.netlify/functions/proxy/" ++ c :: rest)
      with (js "/.netlify/functions/proxy" ++ 47 :: c :: rest) by reflexivity.
    rewrite remove_first_prefix.
    replace (startsWith (js "/.netlify/functions/proxy" ++ 47 :: c :: rest) (js "/proxy/"))
      with false by reflexivity.
    cbv iota. change (startsWith (47 :: c :: rest) (js "/")) with true. cbv iota.
    exact Htarget.
  - unfold netlify_encodedUrlPath. rewrite startsWith_prefix, remove_first_prefix.
    replace (startsWith (c :: rest) (js "/")) with false; [exact Htarget|].
    change (js "/") with [47]. cbn [startsWith].
    destruct (Z.eqb_spec 47 c) as [E|_]; [symmetry in E; contradiction|reflexivity].
Qed.

Lemma netlify_path_round_trip_witness :
  exists segment,
    encodeURIComponent (js "https://host.example/a b.m3u8?x=1") = Ok segment /\
    rewriteUrlToProxy_Netlify (js "https://host.example/a b.m3u8?x=1") =
      Ok (js "/.netlify/functions/proxy/" ++ segment) /\
    getTargetUrlFromPath
      (netlify_encodedUrlPath (js "/.netlify/functions/proxy/" ++ segment)) =
      Some (js "https://host.example/a b.m3u8?x=1") /\
    getTargetUrlFromPath (netlify_encodedUrlPath (js "/proxy/" ++ segment)) =
      Some (js "https://host.example/a b.m3u8?x=1").
Proof.
  apply (netlify_path_round_trip (js "https://host.example/a b.m3u8?x=1")).
  - vm_compute. reflexivity.
  - vm_compute. reflexivity.
Defined.

Lemma span_until_quote_app uri post :
  Forall (fun c => c <> 34) uri ->
  span_until_quote (uri ++ 34 :: post) = (uri, 34 :: post).
Proof.
  induction uri as [|c uri IH]; intros Hu; [reflexivity|].
  apply Forall_cons in Hu as [Hc Hu]. cbn [app span_until_quote].
  destruct (Z.eqb_spec c 34); [contradiction|]. rewrite (IH Hu). reflexivity.
Qed.

Section KeyLines.
Context `{HostParser}.

(** X13. [processKeyLine] and [processMapLine] rewrite the first URI
    attribute only: in a line whose part before the first [URI=] and
    double quote holds no ["U"], the value between the quotes is replaced
    by the proxied form of its resolution against the base url, and what
    follows the closing quote, further URI attributes included, is kept as
    it is. *)
Theorem key_line_rewrites_first_URI (baseUrl pre uri post : jsstring) :
  Forall (fun c => c <> 85) pre ->
  uri <> [] -> Forall (fun c => c <> 34) uri ->
  let line := pre ++ js "URI=" ++ [34] ++ uri ++ [34] ++ post in
  processKeyLine line baseUrl =
    rmap (fun value => pre ++ js "URI=" ++ [34] ++ value ++ [34] ++ post)
         (rewriteUrlToProxy (resolveUrl baseUrl uri)) /\
  processMapLine line baseUrl = processKeyLine line baseUrl.
Proof.
  intros Hpre Huri Hq line. split; [|reflexivity]. subst line.
  unfold processKeyLine. set (replacer := fun uri => rewriteUrlToProxy (resolveUrl baseUrl uri)).
  induction pre as [|c pre IH].
  - replace ([] ++ js "URI=" ++ [34] ++ uri ++ [34] ++ post)
      with (85 :: 82 :: 73 :: 61 :: 34 :: uri ++ 34 :: post) by reflexivity.
    cbn [replace_URI].
    change (startsWith (85 :: 82 :: 73 :: 61 :: 34 :: uri ++ 34 :: post) (js "URI=" ++ [34]))
      with (startsWith (uri ++ 34 :: post) []).
    change (drop 5 (85 :: 82 :: 73 :: 61 :: 34 :: uri ++ 34 :: post)) with (uri ++ 34 :: post).
    rewrite (span_until_quote_app _ _ Hq).
    destruct uri as [|u0 uri']; [contradiction|].
    rewrite bool_decide_false by discriminate. cbn [negb andb startsWith].
    rewrite Z.eqb_refl. cbn [andb]. unfold replacer.
    destruct (rewriteUrlToProxy _) as [value|e]; reflexivity.
  - apply Forall_cons in Hpre as [Hc Hpre]. rewrite <- app_comm_cons. cbn [replace_URI].
    replace (startsWith (c :: pre ++ js "URI=" ++ [34] ++ uri ++ [34] ++ post)
               (js "URI=" ++ [34])) with false.
    + rewrite (IH Hpre). destruct (rewriteUrlToProxy _); reflexivity.
    + change (js "URI=" ++ [34]) with (85 :: js "RI=" ++ [34]). cbn [startsWith].
      destruct (Z.eqb_spec 85 c) as [E|_]; [symmetry in E; contradiction|reflexivity].
Qed.

(** X14. A key or map line that holds no [URI=] followed by a double
    quote is returned unchanged, whatever the base url: a key whose URI is
    written without double quotes is not proxied. *)
Theorem key_line_without_quoted_URI (line baseUrl : jsstring) :
  includes line (js "URI=" ++ [34]) = false ->
  processKeyLine line baseUrl = Ok line /\ processMapLine line baseUrl = Ok line.
Proof.
  intros Hno. assert (Hkey : processKeyLine line baseUrl = Ok line); [|split; exact Hkey].
  unfold processKeyLine. induction line as [|c rest IH]; [reflexivity|].
  cbn [includes] in Hno. apply orb_false_elim in Hno as [Hstart Hrest].
  cbn [replace_URI]. rewrite Hstart, (IH Hrest). reflexivity.
Qed.

End KeyLines.

Lemma key_line_rewrites_first_URI_witness :
  let line := js "#EXT-X-KEY:METHOD=AES-128," ++ js "URI=" ++ [34] ++ js "key.bin" ++ [34] ++
              js ",IV=0x01" in
  @processKeyLine plain_hosts line (js "https://host.example/live/") =
    rmap (fun value => js "#EXT-X-KEY:METHOD=AES-128," ++ js "URI=" ++ [34] ++ value ++ [34] ++
                       js ",IV=0x01")
         (rewriteUrlToProxy
            (@resolveUrl plain_hosts (js "https://host.example/live/") (js "key.bin"))) /\
  @processMapLine plain_hosts line (js "https://host.example/live/") =
    @processKeyLine plain_hosts line (js "https://host.example/live/").
Proof.
  apply (@key_line_rewrites_first_URI plain_hosts (js "https://host.example/live/")
           (js "#EXT-X-KEY:METHOD=AES-128,") (js "key.bin") (js ",IV=0x01")).
  - apply free_of_forallb. vm_compute. reflexivity.
  - discriminate.
  - apply free_of_forallb. vm_compute. reflexivity.
Defined.

Lemma key_line_without_quoted_URI_witness :
  @processKeyLine plain_hosts (js "#EXT-X-KEY:METHOD=AES-128,URI='key.bin'")
    (js "https://host.example/") = Ok (js "#EXT-X-KEY:METHOD=AES-128,URI='key.bin'") /\
  @processMapLine plain_hosts (js "#EXT-X-KEY:METHOD=AES-128,URI='key.bin'")
    (js "https://host.example/") = Ok (js "#EXT-X-KEY:METHOD=AES-128,URI='key.bin'").
Proof.
  apply (@key_line_without_quoted_URI plain_hosts
           (js "#EXT-X-KEY:METHOD=AES-128,URI='key.bin'")).
  vm_compute. reflexivity.
Defined.


Lemma span_digits_app ds rest :
  forallb is_ascii_digit ds = true ->
  match rest with c :: _ => is_ascii_digit c = false | [] => True end ->
  span_digits (ds ++ rest) = ds.
Proof.
  intros Hds Hrest. induction ds as [|d ds IH].
  - destruct rest as [|c rest]; [reflexivity|]. cbn [app span_digits]. rewrite Hrest. reflexivity.
  - cbn [forallb] in Hds. apply andb_prop in Hds as [Hd Hds].
    cbn [app span_digits]. rewrite Hd, (IH Hds). reflexivity.
Qed.

(** X15. The bandwidth of a variant is read after the first [BANDWIDTH=],
    wherever it stands: when what precedes it holds no ["B"], the digits
    that follow are what [parseInt] reads.  The text before may end in
    [AVERAGE-], so a line that gives AVERAGE-BANDWIDTH first is ranked by
    its average bandwidth. *)
Theorem bandwidth_read_after_first_match (pre digits rest : jsstring) :
  Forall (fun c => c <> 66) pre ->
  digits <> [] -> forallb is_ascii_digit digits = true ->
  match rest with c :: _ => is_ascii_digit c = false | [] => True end ->
  currentBandwidth_of (pre ++ js "BANDWIDTH=" ++ digits ++ rest) = parseInt10 digits.
Proof.
  intros Hpre Hne Hds Hrest. unfold currentBandwidth_of.
  replace (match_BANDWIDTH (pre ++ js "BANDWIDTH=" ++ digits ++ rest)) with (Some digits);
    [reflexivity|].
  symmetry. induction pre as [|c pre IH].
  - replace ([] ++ js "BANDWIDTH=" ++ digits ++ rest)
      with (66 :: 65 :: 78 :: 68 :: 87 :: 73 :: 68 :: 84 :: 72 :: 61 :: digits ++ rest)
      by reflexivity.
    cbn [match_BANDWIDTH].
    change (startsWith (66 :: 65 :: 78 :: 68 :: 87 :: 73 :: 68 :: 84 :: 72 :: 61 :: digits ++ rest)
              (js "BANDWIDTH=")) with (startsWith (digits ++ rest) []).
    change (drop 10 (66 :: 65 :: 78 :: 68 :: 87 :: 73 :: 68 :: 84 :: 72 :: 61 :: digits ++ rest))
      with (digits ++ rest).
    rewrite (span_digits_app _ _ Hds Hrest). destruct digits; [contradiction|reflexivity].
  - apply Forall_cons in Hpre as [Hc Hpre]. rewrite <- app_comm_cons. cbn [match_BANDWIDTH].
    replace (startsWith (c :: pre ++ js "BANDWIDTH=" ++ digits ++ rest) (js "BANDWIDTH="))
      with false; [exact (IH Hpre)|].
    change (js "BANDWIDTH=") with (66 :: js "ANDWIDTH="). cbn [startsWith].
    destruct (Z.eqb_spec 66 c) as [E|_]; [symmetry in E; contradiction|reflexivity].
Qed.

Lemma bandwidth_read_after_first_match_witness :
  currentBandwidth_of
    (js "#EXT-X-STREAM-INF:AVERAGE-" ++ js "BANDWIDTH=" ++ js "800000" ++
     js ",BANDWIDTH=1200000") = parseInt10 (js "800000").
Proof.
  apply (bandwidth_read_after_first_match (js "#EXT-X-STREAM-INF:AVERAGE-") (js "800000")
           (js ",BANDWIDTH=1200000")).
  - apply free_of_forallb. vm_compute. reflexivity.
  - discriminate.
  - vm_compute. reflexivity.
  - vm_compute. reflexivity.
Defined.

Section LineOrder.
Context `{HostParser} `{!HostParserLaws}.

Lemma media_lines_in_order url source lines : forall outs,
  code_units url ->
  basic_URL_parse url None = Some source ->
  is_http_scheme (url_scheme source) = true ->
  Forall code_units lines -> Forall (Forall (fun c => c <> 10)) lines ->
  media_lines (getBaseUrl url) lines = Ok outs ->
  Forall2 (rewritten_kept_line (getBaseUrl url)) (kept_lines lines) outs /\
  Forall (Forall (fun c => c <> 10)) outs.
Proof.
  intros outs Hunits Hu Hhttp. revert outs.
  induction lines as [|raw rest IH]; intros outs Hlines Hnls; cbn [media_lines kept_lines].
  { intros [= <-]. split; constructor. }
  apply Forall_cons in Hlines as [Hline Hlines]. apply Forall_cons in Hnls as [Hnl Hnls].
  pose proof (trim_Forall _ _ Hline) as Htrimmed.
  pose proof (trim_Forall _ _ Hnl) as Htrimnl.
  assert (Hcons : forall out,
    rewritten_kept_line (getBaseUrl url) (trim raw) out -> Forall (fun c => c <> 10) out ->
    rmap (cons out) (media_lines (getBaseUrl url) rest) = Ok outs ->
    Forall2 (rewritten_kept_line (getBaseUrl url)) (trim raw :: kept_lines rest) outs /\
    Forall (Forall (fun c => c <> 10)) outs).
  { intros out Hout Hoki. destruct (media_lines (getBaseUrl url) rest) as [outs'|];
      [|discriminate]. intros [= <-].
    destruct (IH outs' Hlines Hnls eq_refl) as [Hall Hnone].
    split; [apply Forall2_cons; split; assumption|apply Forall_cons; split; assumption]. }
  assert (Hsame : startsWith (trim raw) (js "#EXT-X-KEY") = false ->
    startsWith (trim raw) (js "#EXT-X-MAP") = false ->
    startsWith (trim raw) (js "#") = true ->
    rewritten_kept_line (getBaseUrl url) (trim raw) (trim raw)).
  { intros Hnokey Hnomap Hhash. unfold rewritten_kept_line. rewrite Hhash.
    unfold rewritten_directive. rewrite Hnokey, Hnomap. reflexivity. }
  destruct (bool_decide (trim raw = [])) eqn:Hempty.
  { destruct (bool_decide (rest = [])); cbn [andb]; [|apply IH; assumption].
    intros [= <-]. apply bool_decide_eq_true in Hempty. rewrite Hempty.
    split; [|repeat constructor]. apply Forall2_cons. split; [|constructor].
    unfold rewritten_kept_line. change (startsWith [] (js "#")) with false.
    left. split; reflexivity. }
  cbn [andb]. apply bool_decide_eq_false in Hempty.
  change (js "#EXT-X-KEY") with (35 :: js "EXT-X-KEY").
  change (js "#EXT-X-MAP") with (35 :: js "EXT-X-MAP").
  change (js "#EXTINF") with (35 :: js "EXTINF").
  destruct (startsWith (trim raw) (35 :: js "EXT-X-KEY")) eqn:Hkey.
  { destruct (processKeyLine (trim raw) (getBaseUrl url)) as [out|] eqn:Hout;
      [|discriminate]. cbn [rbind].
    destruct (processKeyLine_directive _ _ _ _ Hunits Htrimmed Htrimnl Hu Hhttp
                (startsWith_hash _ _ Hkey) (or_introl Hkey) Hout) as (Hhash & Hdir & Honl).
    apply Hcons; [|exact Honl].
    unfold rewritten_kept_line. rewrite (startsWith_hash _ _ Hkey). exact Hdir. }
  destruct (startsWith (trim raw) (35 :: js "EXT-X-MAP")) eqn:Hmap.
  { destruct (processMapLine (trim raw) (getBaseUrl url)) as [out|] eqn:Hout;
      [|discriminate]. cbn [rbind].
    destruct (processKeyLine_directive _ _ _ _ Hunits Htrimmed Htrimnl Hu Hhttp
                (startsWith_hash _ _ Hmap) (or_intror Hmap) Hout) as (Hhash & Hdir & Honl).
    apply Hcons; [|exact Honl].
    unfold rewritten_kept_line. rewrite (startsWith_hash _ _ Hmap). exact Hdir. }
  destruct (startsWith (trim raw) (35 :: js "EXTINF")) eqn:Hinf.
  { apply Hcons; [apply Hsame; [exact Hkey|exact Hmap|exact (startsWith_hash _ _ Hinf)]
                 |exact Htrimnl]. }
  destruct (startsWith (trim raw) (js "#")) eqn:Hhash; cbn [negb].
  { apply Hcons; [apply Hsame; [exact Hkey|exact Hmap|reflexivity]|exact Htrimnl]. }
  destruct (rewriteUrlToProxy (resolveUrl (getBaseUrl url) (trim raw))) as [out|] eqn:Hout;
    [|discriminate]. cbn [rbind].
  destruct (rewriteUrlToProxy_reference _ _ _ _ Hunits Htrimmed Hu Hhttp Hempty Hout)
    as [Href Honl].
  apply Hcons; [|exact Honl].
  unfold rewritten_kept_line. rewrite Hhash. right. split; assumption.
Qed.

(** X16. The media rewriter keeps the lines in order: for a source url that
    parses as an http(s) url, the lines of the rewritten playlist are, one
    for one and in the same order, the rewritten forms of the trimmed lines
    of the input that are not empty (an empty last line is kept): a key or
    map line with the value of its first URI attribute rewritten, any other
    directive as it is, any other line proxied.  No line is added, dropped
    among the non-empty ones, or moved. *)
Theorem media_playlist_lines_in_order (url content body : jsstring) (source : URLRecord) :
  code_units url -> code_units content ->
  basic_URL_parse url None = Some source ->
  is_http_scheme (url_scheme source) = true ->
  processMediaPlaylist url content = Ok body ->
  Forall2 (rewritten_kept_line (getBaseUrl url)) (kept_lines (split 10 content))
          (split 10 body).
Proof.
  intros Hunits Hcontent Hu Hhttp. unfold processMediaPlaylist.
  destruct (media_lines (getBaseUrl url) (split 10 content)) as [outs|] eqn:Hlines;
    [|discriminate].
  intros [= <-].
  pose proof (media_lines_nonempty _ _ _ (split_nonempty 10 content) Hlines) as Hne.
  destruct (media_lines_in_order url source (split 10 content) outs
              Hunits Hu Hhttp (split_units 10 content Hcontent) (split_lines 10 content)
              Hlines) as [Houts Hnls].
  rewrite split_join; assumption.
Qed.
End LineOrder.

Lemma media_playlist_lines_in_order_witness :
  exists body,
    @processMediaPlaylist plain_hosts (js "https://host/path/live.m3u8")
      example_media_playlist = Ok body /\
    Forall2 (@rewritten_kept_line plain_hosts
               (@getBaseUrl plain_hosts (js "https://host/path/live.m3u8")))
            (kept_lines (split 10 example_media_playlist)) (split 10 body).
Proof.
  destruct (@processMediaPlaylist plain_hosts (js "https://host/path/live.m3u8")
              example_media_playlist) as [body|] eqn:Hbody;
    [|vm_compute in Hbody; discriminate Hbody].
  exists body. split; [reflexivity|].
  apply (@media_playlist_lines_in_order plain_hosts plain_hosts_laws
           (js "https://host/path/live.m3u8") example_media_playlist body
           (mkURL (js "https") [] [] (Some (js "host")) None
                  (ListPath [js "path"; js "live.m3u8"]) None None)).
  - apply code_units_forallb. vm_compute. reflexivity.
  - apply code_units_forallb. vm_compute. reflexivity.
  - vm_compute. reflexivity.
  - vm_compute. reflexivity.
  - exact Hbody.
Defined.

(** ** The request log, request by request *)

Section IssuedRequests.
Context `{HostParser}.

Lemma issues_none {A} w agents log (r : result A) : issues_well w agents log (r, log).
Proof.
  exists []. split; [cbn [snd]; rewrite app_nil_r; reflexivity|].
  intros i request Hi. rewrite lookup_nil in Hi. discriminate.
Qed.

Lemma fetchContentWithType_issues_well w targetUrl requestHeaders userAgents log :
  issues_well w userAgents log
    (fetchContentWithType w targetUrl requestHeaders userAgents log).
Proof.
  unfold fetchContentWithType. cbv zeta.
  destruct (match requestHeaders !! js "referer" with
            | Some (c :: v) => Ok (c :: v)
            | _ => rmap origin (new_URL targetUrl None)
            end) as [referer|e]; [|apply issues_none].
  set (request := mkRequest targetUrl _ _ _ referer).
  assert (Hone : forall r : result (jsstring * jsstring * list (jsstring * jsstring)),
    (fetch_failed (upstream w (length log) request) = true ->
     r = Throw (FetchError targetUrl)) ->
    issues_well w userAgents log (r, log ++ [request])).
  { intros r Hr. exists [request]. split; [reflexivity|].
    intros [|i] request' Hi; [|rewrite lookup_cons, lookup_nil in Hi; discriminate].
    cbn in Hi. apply (inj Some) in Hi. subst request'.
    rewrite Nat.add_0_r. split; [reflexivity|]. split; [reflexivity|].
    intros Hfail. split; [exact (Hr Hfail)|reflexivity]. }
  destruct (upstream w (length log) request) as [response|] eqn:Hup.
  - destruct (resp_ok response) eqn:Hok; cbn [negb].
    + destruct (resp_text response) as [content|] eqn:Htext.
      * apply Hone. cbn [fetch_failed]. rewrite Hok, Htext. cbn [negb orb].
        rewrite bool_decide_true by (eexists; reflexivity). discriminate.
      * apply Hone. reflexivity.
    + apply Hone. reflexivity.
  - apply Hone. reflexivity.
Qed.

Lemma issues_well_bind {A B} w agents (m : M A) (k : A -> M B) log :
  issues_well w agents log (m log) ->
  (forall a log1, issues_well w agents log1 (k a log1)) ->
  issues_well w agents log (mbind' m k log).
Proof.
  intros Hm Hk. unfold mbind'. destruct (m log) as [[a|e] log1] eqn:Hrun.
  - destruct Hm as (new1 & Hlog1 & Hnew1). cbn [fst snd] in Hlog1, Hnew1. subst log1.
    destruct (Hk a (log ++ new1)) as (new2 & Hlog2 & Hnew2).
    exists (new1 ++ new2). split; [rewrite Hlog2, app_assoc; reflexivity|].
    intros i request Hi. apply lookup_app_Some in Hi as [Hi|[Hge Hi]].
    + destruct (Hnew1 i request Hi) as (Haccept & Hagent & Hfail).
      split; [exact Haccept|]. split; [exact Hagent|].
      intros Hf. destruct (Hfail Hf) as [Habs _]. discriminate Habs.
    + destruct (Hnew2 _ request Hi) as (Haccept & Hagent & Hfail).
      rewrite length_app in Hagent, Hfail.
      replace (length log + length new1 + (i - length new1))%nat
        with (length log + i)%nat in Hagent, Hfail by lia.
      split; [exact Haccept|]. split; [exact Hagent|].
      intros Hf. destruct (Hfail Hf) as [Hres Hlen]. split; [exact Hres|].
      rewrite length_app. lia.
  - destruct Hm as (new1 & Hlog1 & Hnew1). cbn [fst snd] in Hlog1, Hnew1.
    exists new1. split; [exact Hlog1|]. intros i request Hi.
    destruct (Hnew1 i request Hi) as (Haccept & Hagent & Hfail).
    split; [exact Haccept|]. split; [exact Hagent|].
    intros Hf. destruct (Hfail Hf) as [Hres Hlen]. split; [|exact Hlen].
    cbn [fst]. injection Hres as ->. reflexivity.
Qed.

Lemma processM3u8Content_fuel_issues_well fuel :
  forall w url content depth max env log,
  issues_well w (USER_AGENTS env) log
    (processM3u8Content_fuel fuel w url content depth max env log).
Proof.
  induction fuel as [|fuel IH]; intros w url content depth max env log.
  - apply issues_none.
  - cbn [processM3u8Content_fuel].
    destruct (includes content (js "#EXT-X-STREAM-INF") ||
              includes content (js "#EXT-X-MEDIA:")); [|apply issues_none].
    unfold processMasterPlaylist_with.
    destruct (max <? depth); [apply issues_none|].
    destruct (select_variant url content).2 as [|c best]; [apply issues_none|].
    apply issues_well_bind; [apply fetchContentWithType_issues_well|].
    intros [[variantContent variantContentType] variantHeaders] log1.
    destruct (negb (isM3u8Content variantContent variantContentType));
      [apply issues_none|apply IH].
Qed.

Lemma handler_issues_well w cfg req :
  exists r : result Reply,
    issues_well w (CONFIG_USER_AGENTS cfg) [] (r, (handler w cfg req).2) /\
    (handler w cfg req).1 =
      match r with Ok reply => reply | Throw e => ServerError e end /\
    (r = Ok Preflight \/ r = Ok BadRequest \/
     exists targetUrl,
       str_eqb (req_method req) (js "OPTIONS") = false /\
       getTargetUrlFromPath (join (js "/") (req_query_path req)) = Some targetUrl).
Proof.
  unfold handler.
  destruct (str_eqb (req_method req) (js "OPTIONS")).
  { exists (Ok Preflight). split; [apply issues_none|]. split; [reflexivity|]. left. reflexivity. }
  destruct (getTargetUrlFromPath _) as [targetUrl|].
  2:{ exists (Ok BadRequest). split; [apply issues_none|]. split; [reflexivity|].
      right. left. reflexivity. }
  cbv zeta.
  match goal with |- context [mbind' ?m ?k []] =>
    pose proof (issues_well_bind w (CONFIG_USER_AGENTS cfg) m k []
                  (fetchContentWithType_issues_well _ _ _ _ _)) as Hrun;
    destruct (mbind' m k []) as [r log] eqn:Hout
  end.
  exists r. split; [|split].
  - destruct r; cbn [snd]; apply Hrun;
      intros [[content contentType] responseHeaders] log1;
      (destruct (isM3u8Content content contentType); [|apply issues_none]);
      (apply issues_well_bind; [apply (processM3u8Content_fuel_issues_well _ w _ _ _ _
                                         (mkEnv (CONFIG_USER_AGENTS cfg)))|]);
      intros body log2; apply issues_none.
  - destruct r; reflexivity.
  - right. right. exists targetUrl. split; reflexivity.
Qed.
End IssuedRequests.

Lemma getRandomUserAgent_drawn r agents :
  match agents with
  | [] => getRandomUserAgent r agents = default_user_agent
  | _ => getRandomUserAgent r agents ∈ agents
  end.
Proof.
  destruct agents as [|a agents]; [reflexivity|]. unfold getRandomUserAgent.
  set (l := a :: agents).
  assert (Hlt : (r `mod` length l < length l)%nat)
    by (apply Nat.mod_upper_bound; discriminate).
  destruct (lookup_lt_is_Some_2 l _ Hlt) as [agent Hagent]. rewrite Hagent.
  cbn [default]. apply (list_elem_of_lookup_2 _ _ _ Hagent).
Qed.

Section HandlerRequests.
Context `{HostParser}.

(** X17. Every request that the handler sends upstream, the first and each
    variant request, asks for any content type ([Accept: */*]) and names a
    user agent of the configured list (the built-in one when the list is
    empty), whatever the client sent. *)
Theorem outbound_requests_accept_and_agent (w : World) (cfg : Config) (req : Request) :
  Forall (fun request =>
            req_accept request = js "*/*" /\
            match CONFIG_USER_AGENTS cfg with
            | [] => req_user_agent request = default_user_agent
            | _ => req_user_agent request ∈ CONFIG_USER_AGENTS cfg
            end) (handler w cfg req).2.
Proof.
  destruct (handler_issues_well w cfg req) as (r & (new & Hlog & Hnew) & _).
  cbn [fst snd app] in Hlog, Hnew. rewrite Hlog.
  apply Forall_lookup. intros i request Hi.
  destruct (Hnew i request Hi) as (Haccept & Hagent & _).
  split; [exact Haccept|]. rewrite Hagent. apply getRandomUserAgent_drawn.
Qed.

(** X18. A failed fetch ends the handling: when the answer to the request
    sent as number [i] is a transport failure, a status outside 2xx or a
    body that cannot be read, the reply is the 500 that names this request's
    url, and no request is sent after it.  Nothing is retried, and no other
    variant is tried. *)
Theorem failed_fetch_ends_handling (w : World) (cfg : Config) (req : Request)
    (i : nat) (request : OutboundRequest) :
  (handler w cfg req).2 !! i = Some request ->
  fetch_failed (upstream w i request) = true ->
  (handler w cfg req).1 = ServerError (FetchError (req_url request)) /\
  length (handler w cfg req).2 = S i.
Proof.
  intros Hi Hfail.
  destruct (handler_issues_well w cfg req) as (r & (new & Hlog & Hnew) & Hreply & _).
  cbn [fst snd app] in Hlog, Hnew. rewrite Hlog in Hi |- *.
  destruct (Hnew i request Hi) as (_ & _ & Hends).
  destruct (Hends Hfail) as [-> Hlen]. split; [exact Hreply|exact Hlen].
Qed.

(** X19. The handler fetches nothing for a preflight request or a path it
    refuses: when a request has been sent, the method is not OPTIONS, the
    url of the first request is the target decoded from the path, and it
    matches the pattern of an http(s) url. *)
Theorem first_request_is_decoded_target (w : World) (cfg : Config) (req : Request) :
  match (handler w cfg req).2 with
  | [] => True
  | first :: _ =>
      str_eqb (req_method req) (js "OPTIONS") = false /\
      getTargetUrlFromPath (join (js "/") (req_query_path req)) = Some (req_url first) /\
      matches_http (req_url first) = true
  end.
Proof.
  unfold handler.
  destruct (str_eqb (req_method req) (js "OPTIONS")); [exact I|].
  destruct (getTargetUrlFromPath _) as [targetUrl|] eqn:Htarget; [|exact I].
  cbv zeta. unfold mbind' at 1.
  assert (Hmatch : matches_http targetUrl = true).
  { revert Htarget. unfold getTargetUrlFromPath.
    destruct (join (js "/") (req_query_path req)) as [|c path]; [discriminate|].
    destruct (decodeURIComponent (c :: path)) as [d|]; [|discriminate].
    destruct (matches_http d) eqn:Hd; cbn [negb].
    - intros E. apply (inj Some) in E. subst d. exact Hd.
    - destruct (matches_http (c :: path)) eqn:Hraw; [|discriminate].
      intros E. apply (inj Some) in E. subst targetUrl. exact Hraw. }
  destruct (fetchContentWithType w targetUrl (req_headers req) (CONFIG_USER_AGENTS cfg) [])
    as [[[[content contentType] headers]|e] log1] eqn:Hf.
  - apply fetchContentWithType_ok in Hf as (request & -> & Hurl & _).
    cbn [app]. destruct (isM3u8Content content contentType).
    + unfold mbind', processM3u8Content.
      destruct (processM3u8Content_fuel _ _ _ _ _ _ _ _) as [[body|e] log2] eqn:Hp;
        apply processM3u8Content_fuel_log in Hp as (new & -> & _);
        cbn [snd app mret]; rewrite Hurl; repeat split; assumption.
    + cbn [snd mret]. rewrite Hurl. repeat split; assumption.
  - apply fetchContentWithType_log in Hf as [[-> _]|(request & -> & Hurl & _)].
    + exact I.
    + cbn [snd app]. rewrite Hurl. repeat split; assumption.
Qed.

(** X20. A reply that passes the upstream body through comes from exactly
    one request: its answer had a 2xx status and this body, the body was not
    recognised as M3U8, and the headers passed on are those of the answer
    except the [access-control-*] and [cache-control] ones. *)
Theorem pass_through_is_first_answer (w : World) (cfg : Config) (req : Request)
    (content : jsstring) (headers : list (jsstring * jsstring)) :
  (handler w cfg req).1 = PassThrough content headers ->
  exists request response,
    (handler w cfg req).2 = [request] /\
    upstream w 0 request = Responded response /\
    resp_ok response = true /\ resp_text response = Some content /\
    isM3u8Content content (default [] (resp_content_type response)) = false /\
    headers = filter forwarded_header (resp_headers response) /\
    Forall (fun h => forwarded_header h = true) headers.
Proof.
  intros Hreply. destruct (handler w cfg req) as [reply log] eqn:Hrun.
  cbn [fst snd] in *. subst reply. revert Hrun. unfold handler.
  destruct (str_eqb (req_method req) (js "OPTIONS")); [discriminate|].
  destruct (getTargetUrlFromPath _) as [targetUrl|]; [|discriminate].
  cbv zeta. unfold mbind' at 1. unfold fetchContentWithType. cbv zeta.
  destruct (match req_headers req !! js "referer" with
            | Some (c :: v) => Ok (c :: v)
            | _ => rmap origin (new_URL targetUrl None)
            end) as [referer|e]; [|discriminate].
  cbn [length app].
  set (request := mkRequest targetUrl _ _ _ referer).
  destruct (upstream w 0 request) as [response|] eqn:Hup; [|discriminate].
  destruct (resp_ok response) eqn:Hok; cbn [negb]; [|discriminate].
  destruct (resp_text response) as [body|] eqn:Htext; [|discriminate].
  destruct (isM3u8Content body (default [] (resp_content_type response))) eqn:Hkind.
  - unfold mbind'.
    destruct (processM3u8Content w targetUrl body 0 (MAX_RECURSION cfg) _ [request])
      as [[processed|e] log2]; discriminate.
  - cbn [mret]. intros [= <- <- <-]. exists request, response.
    repeat split; try assumption; try reflexivity.
    induction (resp_headers response) as [|h hs IH]; [constructor|].
    rewrite filter_cons. destruct (decide (forwarded_header h)) as [Hh|Hh]; [|exact IH].
    constructor; [|exact IH]. destruct (forwarded_header h); [reflexivity|contradiction].
Qed.
End HandlerRequests.

Lemma failed_fetch_ends_handling_witness :
  (@handler plain_hosts variant_fails_world (mkConfig 86400 5 []) example_request).1 =
    ServerError (FetchError (js "https://a.com/high.m3u8")) /\
  length (@handler plain_hosts variant_fails_world (mkConfig 86400 5 []) example_request).2 =
    2%nat.
Proof.
  apply (@failed_fetch_ends_handling plain_hosts variant_fails_world (mkConfig 86400 5 [])
           example_request 1
           (mkRequest (js "https://a.com/high.m3u8") default_user_agent (js "*/*")
                      default_accept_language (js "https://a.com"))).
  - vm_compute. reflexivity.
  - vm_compute. reflexivity.
Defined.

Lemma pass_through_is_first_answer_witness :
  exists request response,
    (@handler plain_hosts segment_world (mkConfig 86400 5 []) example_request).2 = [request] /\
    upstream segment_world 0 request = Responded response /\
    resp_ok response = true /\ resp_text response = Some (js "segment") /\
    isM3u8Content (js "segment") (default [] (resp_content_type response)) = false /\
    [(js "Content-Type", js "video/mp2t")] = filter forwarded_header (resp_headers response) /\
    Forall (fun h => forwarded_header h = true) [(js "Content-Type", js "video/mp2t")].
Proof.
  apply (@pass_through_is_first_answer plain_hosts segment_world (mkConfig 86400 5 [])
           example_request (js "segment") [(js "Content-Type", js "video/mp2t")]).
  vm_compute. reflexivity.
Defined.

Section Flattening.
Context `{HostParser}.

Lemma fetchContentWithType_answered w url headers agents log u response content :
  new_URL url None = Ok u ->
  (forall request, req_url request = url ->
     upstream w (length log) request = Responded response) ->
  resp_ok response = true -> resp_text response = Some content ->
  exists request,
    req_url request = url /\
    fetchContentWithType w url headers agents log =
      (Ok (content, default [] (resp_content_type response), resp_headers response),
       log ++ [request]).
Proof.
  intros Hu Hup Hok Htext. unfold fetchContentWithType. cbv zeta. rewrite Hu.
  cbn [rmap rbind].
  assert (Hreferer : exists referer,
    match headers !! js "referer" with
    | Some (c :: v) => Ok (c :: v)
    | _ => Ok (origin u)
    end = Ok referer).
  { destruct (headers !! js "referer") as [[|c v]|]; eexists; reflexivity. }
  destruct Hreferer as [referer ->].
  set (request := mkRequest url _ _ _ referer).
  exists request. split; [reflexivity|].
  rewrite (Hup request eq_refl), Hok, Htext. reflexivity.
Qed.

(** X21. A master playlist is answered by its best variant, rewritten
    against the variant's own url: when the first answer is a master
    playlist, the depth bound is not negative, and the answer for the
    selected variant is not itself a master playlist, the handler sends
    exactly two requests, for the target and for the selected variant, and
    replies with [processMediaPlaylist] of the variant's url and body (a
    variant body that is not recognised as M3U8 included). *)
Theorem master_reply_is_rewritten_variant (w : World) (cfg : Config) (req : Request)
    (targetUrl bestVariantUrl content variantContent : jsstring)
    (target variant : URLRecord) (answer variantAnswer : UpstreamResponse) :
  str_eqb (req_method req) (js "OPTIONS") = false ->
  getTargetUrlFromPath (join (js "/") (req_query_path req)) = Some targetUrl ->
  new_URL targetUrl None = Ok target ->
  (forall request, req_url request = targetUrl -> upstream w 0 request = Responded answer) ->
  resp_ok answer = true -> resp_text answer = Some content ->
  classify content (default [] (resp_content_type answer)) = MasterPlaylist ->
  0 <= MAX_RECURSION cfg ->
  (select_variant targetUrl content).2 = bestVariantUrl ->
  bestVariantUrl <> [] ->
  new_URL bestVariantUrl None = Ok variant ->
  (forall request, req_url request = bestVariantUrl ->
     upstream w 1 request = Responded variantAnswer) ->
  resp_ok variantAnswer = true -> resp_text variantAnswer = Some variantContent ->
  classify variantContent (default [] (resp_content_type variantAnswer)) <> MasterPlaylist ->
  (handler w cfg req).1 =
    match processMediaPlaylist bestVariantUrl variantContent with
    | Ok body => PlaylistReply body
    | Throw e => ServerError e
    end /\
  map req_url (handler w cfg req).2 = [targetUrl; bestVariantUrl].
Proof.
  intros Hmethod Htarget Hparse Hup Hok Htext Hkind Hmax Hbest Hne Hvparse Hvup Hvok Hvtext
    Hvkind.
  destruct (fetchContentWithType_answered w targetUrl (req_headers req)
              (CONFIG_USER_AGENTS cfg) [] target answer content Hparse Hup Hok Htext)
    as (request & Hurl & Hfetch).
  destruct (fetchContentWithType_answered w bestVariantUrl ∅ (CONFIG_USER_AGENTS cfg)
              ([] ++ [request]) variant variantAnswer variantContent Hvparse Hvup Hvok Hvtext)
    as (request' & Hurl' & Hfetch').
  unfold classify in Hkind, Hvkind.
  destruct (isM3u8Content content (default [] (resp_content_type answer))) eqn:Hm3u8;
    [|discriminate].
  destruct (includes content (js "#EXT-X-STREAM-INF") || includes content (js "#EXT-X-MEDIA:"))
    eqn:Hmaster; [|discriminate].
  assert (Hrun : handler w cfg req =
    (match processMediaPlaylist bestVariantUrl variantContent with
     | Ok body => PlaylistReply body
     | Throw e => ServerError e
     end, [request; request'])).
  2:{ rewrite Hrun. cbn [fst snd map]. rewrite Hurl, Hurl'. split; reflexivity. }
  unfold handler. rewrite Hmethod, Htarget. cbv zeta. unfold mbind' at 1.
  rewrite Hfetch, Hm3u8. unfold mbind' at 1.
  rewrite processM3u8Content_unfold, Hmaster.
  unfold processMasterPlaylist, processMasterPlaylist_with.
  destruct (Z.ltb_spec (MAX_RECURSION cfg) 0) as [Hlt|_]; [lia|].
  rewrite Hbest. destruct bestVariantUrl as [|c best]; [contradiction|].
  unfold mbind'. cbn [USER_AGENTS]. rewrite Hfetch'.
  assert (Hvariant :
    (if negb (isM3u8Content variantContent (default [] (resp_content_type variantAnswer)))
     then mlift (processMediaPlaylist (c :: best) variantContent)
     else processM3u8Content w (c :: best) variantContent (0 + 1) (MAX_RECURSION cfg)
            (mkEnv (CONFIG_USER_AGENTS cfg)))
      (([] ++ [request]) ++ [request'])
    = (processMediaPlaylist (c :: best) variantContent, ([] ++ [request]) ++ [request'])).
  { destruct (isM3u8Content variantContent (default [] (resp_content_type variantAnswer)));
      cbn [negb]; [|reflexivity].
    rewrite processM3u8Content_unfold.
    destruct (includes variantContent (js "#EXT-X-STREAM-INF") ||
              includes variantContent (js "#EXT-X-MEDIA:")); [contradiction|reflexivity]. }
  rewrite Hvariant.
  destruct (processMediaPlaylist (c :: best) variantContent) as [body|e]; reflexivity.
Qed.
End Flattening.

Lemma master_reply_is_rewritten_variant_witness :
  (@handler plain_hosts two_level_world (mkConfig 86400 5 []) example_request).1 =
    match @processMediaPlaylist plain_hosts (js "https://a.com/high.m3u8")
            example_media_playlist with
    | Ok body => PlaylistReply body
    | Throw e => ServerError e
    end /\
  map req_url (@handler plain_hosts two_level_world (mkConfig 86400 5 []) example_request).2 =
    [js "https://a.com/m.m3u8"; js "https://a.com/high.m3u8"].
Proof.
  apply (@master_reply_is_rewritten_variant plain_hosts two_level_world (mkConfig 86400 5 [])
           example_request (js "https://a.com/m.m3u8") (js "https://a.com/high.m3u8")
           three_variants example_media_playlist
           (mkURL (js "https") [] [] (Some (js "a.com")) None (ListPath [js "m.m3u8"]) None None)
           (mkURL (js "https") [] [] (Some (js "a.com")) None (ListPath [js "high.m3u8"])
                  None None)
           (mkResponse true (Some three_variants) (Some (js "application/vnd.apple.mpegurl")) [])
           (mkResponse true (Some example_media_playlist)
                       (Some (js "application/vnd.apple.mpegurl")) [])).
  - vm_compute. reflexivity.
  - vm_compute. reflexivity.
  - vm_compute. reflexivity.
  - intros request _. reflexivity.
  - reflexivity.
  - reflexivity.
  - vm_compute. reflexivity.
  - vm_compute. discriminate.
  - vm_compute. reflexivity.
  - discriminate.
  - vm_compute. reflexivity.
  - intros request _. reflexivity.
  - reflexivity.
  - reflexivity.
  - vm_compute. discriminate.
Defined.

Section ResolveTwice.
Context `{HostParser} `{!HostParserLaws}.

Lemma resolveUrl_absolute baseUrl relativeUrl :
  matches_http relativeUrl = true -> resolveUrl baseUrl relativeUrl = relativeUrl.
Proof.
  intros Hm. unfold resolveUrl. rewrite Hm.
  destruct (bool_decide (baseUrl = []) || bool_decide (relativeUrl = [])); reflexivity.
Qed.

(** X22. Resolving is idempotent on what the rewriter resolves: for a
    source url that parses as an http(s) url and a reference with no scheme
    other than http or https, resolving the resolved reference against the
    same base gives it back unchanged. *)
Theorem resolveUrl_idempotent (url ref : jsstring) (source : URLRecord) :
  code_units url ->
  basic_URL_parse url None = Some source ->
  is_http_scheme (url_scheme source) = true ->
  ref <> [] -> reference_stays_http ref = true ->
  resolveUrl (getBaseUrl url) (resolveUrl (getBaseUrl url) ref) =
    resolveUrl (getBaseUrl url) ref.
Proof.
  intros Hunits Hu Hhttp Hne Hstays.
  apply resolveUrl_absolute, (resolveUrl_matches_http url source ref); assumption.
Qed.
End ResolveTwice.

Lemma resolveUrl_idempotent_witness :
  @resolveUrl plain_hosts (@getBaseUrl plain_hosts (js "https://host/path/live.m3u8"))
    (@resolveUrl plain_hosts (@getBaseUrl plain_hosts (js "https://host/path/live.m3u8"))
       (js "../seg/0.ts?t=1")) =
  @resolveUrl plain_hosts (@getBaseUrl plain_hosts (js "https://host/path/live.m3u8"))
    (js "../seg/0.ts?t=1").
Proof.
  apply (@resolveUrl_idempotent plain_hosts plain_hosts_laws
           (js "https://host/path/live.m3u8") (js "../seg/0.ts?t=1")
           (mkURL (js "https") [] [] (Some (js "host")) None
                  (ListPath [js "path"; js "live.m3u8"]) None None)).
  - apply code_units_forallb. vm_compute. reflexivity.
  - vm_compute. reflexivity.
  - vm_compute. reflexivity.
  - discriminate.
  - vm_compute. reflexivity.
Defined.

Section Fallback.
Context `{HostParser}.

Lemma first_m3u8_uri_empty baseUrl lines :
  first_m3u8_uri baseUrl lines = [] <->
  Forall (fun raw => names_sub_playlist raw = false) lines.
Proof.
  induction lines as [|raw rest IH]; cbn [first_m3u8_uri].
  - split; [constructor|reflexivity].
  - fold (names_sub_playlist raw). destruct (names_sub_playlist raw) eqn:Hraw.
    + split.
      * intros Hres. exfalso. revert Hres. apply resolveUrl_nonempty.
        unfold names_sub_playlist in Hraw. cbv zeta in Hraw.
        destruct (bool_decide (trim raw = [])) eqn:He; [discriminate|].
        apply bool_decide_eq_false in He. exact He.
      * intros Hall. apply Forall_cons in Hall as [Habs _]. rewrite Hraw in Habs.
        discriminate.
    + rewrite IH. split.
      * intros Hall. constructor; [exact Hraw|exact Hall].
      * intros Hall. apply Forall_cons in Hall as [_ Hall]. exact Hall.
Qed.

(** X23. [processMasterPlaylist] selects no url exactly when the playlist
    has no [#EXT-X-STREAM-INF] line followed by a URI line and no line that
    passes the test of the fallback loop; in every other case a url is
    selected, so the fallback loop decides only when the first loop found
    nothing. *)
Theorem nothing_selected_iff (url content : jsstring) :
  (select_variant url content).2 = [] <->
  stream_inf_blocks content = [] /\
  Forall (fun raw => names_sub_playlist raw = false) (split 10 content).
Proof.
  destruct (stream_inf_blocks content) as [|block blocks] eqn:Hblocks.
  - unfold select_variant. cbv zeta. rewrite scan_stream_inf_fold by lia.
    unfold stream_inf_blocks in Hblocks. rewrite Hblocks. cbn [fold_left snd].
    rewrite <- first_m3u8_uri_empty. split; [intros Hsel; split; [reflexivity|exact Hsel]|].
    intros [_ Hsel]. exact Hsel.
  - split; [|intros [Habs _]; discriminate].
    intros Hsel. exfalso.
    destruct (select_variant_last_maximal_block url content) as (i & bandwidth & uri & Hi & Hs & _).
    { rewrite Hblocks. discriminate. }
    rewrite Hs in Hsel. cbn [snd] in Hsel. revert Hsel. apply resolveUrl_nonempty.
    pose proof (stream_inf_blocks_from_sound (split 10 content) None ltac:(discriminate))
      as Hsound.
    rewrite Hblocks in Hi. unfold stream_inf_blocks in Hblocks. rewrite Hblocks in Hsound.
    rewrite Forall_lookup in Hsound. destruct (Hsound i _ Hi) as [_ Hne]. exact Hne.
Qed.
End Fallback.

(** ** What a 500 reply tells *)

Section ErrorCauses.
Context `{HostParser}.

(** One call of [fetchContentWithType], with what the network answered. *)
Lemma fetchContentWithType_outcome w url headers agents log r log' :
  fetchContentWithType w url headers agents log = (r, log') ->
  (r = Throw TypeError /\ log' = log /\ new_URL url None = Throw TypeError) \/
  exists request,
    log' = log ++ [request] /\ req_url request = url /\
    match r with
    | Ok (content, _, _) => last_answer w log' url content
    | Throw e =>
        e = FetchError url /\ fetch_failed (upstream w (length log) request) = true
    end.
Proof.
  unfold fetchContentWithType. cbv zeta.
  destruct (match headers !! js "referer" with
            | Some (c :: v) => Ok (c :: v)
            | _ => rmap origin (new_URL url None)
            end) as [referer|e] eqn:Hreferer.
  - set (request := mkRequest url _ _ _ referer). intros Hrun. right. exists request.
    assert (Hlast : last (log ++ [request]) = Some request) by apply last_snoc.
    assert (Hlength : (length (log ++ [request]) - 1 = length log)%nat)
      by (rewrite length_app; cbn [length]; lia).
    destruct (upstream w (length log) request) as [response|] eqn:Hup.
    + destruct (resp_ok response) eqn:Hok; cbn [negb] in Hrun.
      * destruct (resp_text response) as [content|] eqn:Htext.
        -- injection Hrun as <- <-. split; [reflexivity|]. split; [reflexivity|].
           exists request, response. rewrite Hlength. repeat split; assumption.
        -- injection Hrun as <- <-. split; [reflexivity|]. split; [reflexivity|].
           split; [reflexivity|]. cbn [fetch_failed]. rewrite Hok, Htext. reflexivity.
      * injection Hrun as <- <-. split; [reflexivity|]. split; [reflexivity|].
        split; [reflexivity|]. cbn [fetch_failed]. rewrite Hok. reflexivity.
    + injection Hrun as <- <-. split; [reflexivity|]. split; [reflexivity|].
      split; reflexivity.
  - intros Hrun. injection Hrun as <- <-. left.
    assert (Hparse : new_URL url None = Throw TypeError).
    { unfold new_URL in *. destruct (basic_URL_parse url None); [|reflexivity].
      destruct (headers !! js "referer") as [[|c v]|]; discriminate Hreferer. }
    split; [|split; [reflexivity|exact Hparse]].
    destruct (headers !! js "referer") as [[|c v]|]; [|discriminate Hreferer|];
      rewrite Hparse in Hreferer; cbn [rmap rbind] in Hreferer; congruence.
Qed.

(** What has made a resolution end with an error. *)
Lemma processM3u8Content_fuel_cause fuel :
  forall w url content depth max env log e log',
  last_answer w log url content ->
  processM3u8Content_fuel fuel w url content depth max env log = (Throw e, log') ->
  match e with
  | URIError =>
      exists url' content',
        last_answer w log' url' content' /\
        processMediaPlaylist url' content' = Throw URIError
  | TypeError =>
      exists url' content',
        last_answer w log' url' content' /\
        new_URL (select_variant url' content').2 None = Throw TypeError
  | RecursionLimitError => length log' = (length log + Z.to_nat (max + 1 - depth))%nat
  | FetchError target =>
      exists request,
        last log' = Some request /\ req_url request = target /\
        fetch_failed (upstream w (length log' - 1)%nat request) = true
  | OutOfFuel => True
  end.
Proof.
  induction fuel as [|fuel IH]; intros w url content depth max env log e log' Hlast.
  { cbn [processM3u8Content_fuel]. unfold mthrow. intros [= <- <-]. exact I. }
  assert (Hmedia : forall url' content' log1,
    last_answer w log1 url' content' ->
    mlift (processMediaPlaylist url' content') log1 = (Throw e, log') ->
    match e with
    | URIError =>
        exists url'' content'',
          last_answer w log' url'' content'' /\
          processMediaPlaylist url'' content'' = Throw URIError
    | TypeError =>
        exists url'' content'',
          last_answer w log' url'' content'' /\
          new_URL (select_variant url'' content'').2 None = Throw TypeError
    | RecursionLimitError => length log' = (length log + Z.to_nat (max + 1 - depth))%nat
    | FetchError target =>
        exists request,
          last log' = Some request /\ req_url request = target /\
          fetch_failed (upstream w (length log' - 1)%nat request) = true
    | OutOfFuel => True
    end).
  { intros url' content' log1 Hlast1. unfold mlift. intros [= Hthrow <-].
    pose proof (processMediaPlaylist_throws _ _ _ Hthrow) as ->.
    exists url', content'. split; assumption. }
  cbn [processM3u8Content_fuel].
  destruct (includes content (js "#EXT-X-STREAM-INF") || includes content (js "#EXT-X-MEDIA:"));
    [|apply Hmedia, Hlast].
  unfold processMasterPlaylist_with.
  destruct (Z.ltb_spec max depth) as [Hover|Hunder].
  { unfold mthrow. intros [= <- <-]. lia. }
  destruct (select_variant url content).2 as [|c best] eqn:Hbest; [apply Hmedia, Hlast|].
  unfold mbind'.
  destruct (fetchContentWithType w (c :: best) ∅ (USER_AGENTS env) log)
    as [[[[variantContent variantContentType] variantHeaders]|e0] log1] eqn:Hfetch;
    apply fetchContentWithType_outcome in Hfetch
      as [(Habs & Hlog & Hparse)|(request & Hlog & Hurl & Hanswer)]; try discriminate Habs.
  - destruct (negb (isM3u8Content variantContent variantContentType));
      [apply Hmedia, Hanswer|].
    intros Hrun. specialize (IH _ _ _ _ _ _ _ _ _ Hanswer Hrun).
    destruct e; try exact IH. rewrite IH, Hlog, length_app. cbn [length]. lia.
  - injection Habs as ->. intros [= <- <-]. subst log1.
    exists url, content. split; [exact Hlast|]. rewrite Hbest. exact Hparse.
  - destruct Hanswer as [-> Hfailed]. intros [= <- <-]. exists request.
    rewrite Hlog. split; [apply last_snoc|]. split; [exact Hurl|].
    rewrite length_app. cbn [length].
    replace (length log + 1 - 1)%nat with (length log) by lia. exact Hfailed.
Qed.

(** X4. What a 500 reply tells, for a configuration whose depth bound is
    an integer (a bound that [parseInt] reads as NaN is not a
    configuration of this model).  The reply carries one of four errors,
    and each has its cause in the requests sent: a URIError, rewriting the
    body of the last answer has thrown; a TypeError, the target does not
    parse and nothing was sent, or the variant selected from the last
    answer does not parse; the recursion limit, exactly
    [1 + max 0 (MAX_RECURSION + 1)] requests were sent; a fetch error, it
    names the url of the last request, whose answer has failed.  The
    resolution does not end in any other way. *)
Theorem handler_errors (w : World) (cfg : Config) (req : Request) :
  match (handler w cfg req).1 with
  | ServerError e =>
      exists targetUrl,
        getTargetUrlFromPath (join (js "/") (req_query_path req)) = Some targetUrl /\
        error_cause w targetUrl (MAX_RECURSION cfg) (handler w cfg req).2 e
  | _ => True
  end.
Proof.
  destruct (handler w cfg req) as [reply log] eqn:Hrun. cbn [fst snd].
  destruct reply as [| | | |e]; try exact I.
  revert Hrun. unfold handler.
  destruct (str_eqb (req_method req) (js "OPTIONS")); [discriminate|].
  destruct (getTargetUrlFromPath _) as [targetUrl|]; [|discriminate].
  cbv zeta. intros Hrun. exists targetUrl. split; [reflexivity|]. revert Hrun.
  unfold mbind' at 1.
  destruct (fetchContentWithType w targetUrl (req_headers req) (CONFIG_USER_AGENTS cfg) [])
    as [[[[content contentType] headers]|e0] log1] eqn:Hfetch;
    apply fetchContentWithType_outcome in Hfetch
      as [(Habs & Hlog & Hparse)|(request & Hlog & Hurl & Hanswer)]; try discriminate Habs.
  - destruct (isM3u8Content content contentType); [|discriminate].
    unfold mbind'.
    destruct (processM3u8Content w targetUrl content 0 (MAX_RECURSION cfg)
                (mkEnv (CONFIG_USER_AGENTS cfg)) log1) as [[body|e1] log2] eqn:Hresolve;
      [discriminate|].
    intros [= <- <-].
    pose proof (processM3u8Content_terminates _ _ _ _ _ _ _ _ _ Hresolve) as Hfuel.
    unfold processM3u8Content in Hresolve.
    apply (processM3u8Content_fuel_cause _ _ _ _ _ _ _ _ _ _ Hanswer) in Hresolve.
    destruct e1; cbn [error_cause]; try exact Hresolve.
    + right. exact Hresolve.
    + rewrite Hresolve, Hlog. cbn [app length].
      replace (MAX_RECURSION cfg + 1 - 0) with (MAX_RECURSION cfg + 1) by lia. reflexivity.
    + contradiction.
  - injection Habs as ->. intros [= <- <-]. subst log1. left. split; [reflexivity|exact Hparse].
  - destruct Hanswer as [-> Hfailed]. intros [= <- <-]. subst log1. exists request.
    split; [reflexivity|]. split; [exact Hurl|exact Hfailed].
Qed.
End ErrorCauses.

(** Three replies of the kind: a variant whose answer is a 404, a target
    that does not parse, and a chain of master playlists that reaches the
    depth bound after [MAX_RECURSION + 2] requests. *)
Example handler_errors_examples :
  (@handler plain_hosts variant_fails_world (mkConfig 86400 5 []) example_request).1
  = ServerError (FetchError (js "https://a.com/high.m3u8")) /\
  @handler plain_hosts endless_world (mkConfig 86400 5 []) (mkReq (js "GET") [js "http://"] ∅)
  = (ServerError TypeError, []) /\
  (@handler plain_hosts endless_world (mkConfig 86400 1 []) example_request).1
  = ServerError RecursionLimitError /\
  length (@handler plain_hosts endless_world (mkConfig 86400 1 []) example_request).2 = 3%nat.
Proof. repeat split; vm_compute; reflexivity. Qed.

(** ** Two checks of the specification side *)

(** A key line emitted with its URI as it was is not what the rewriter
    emits for it. *)
Example unrewritten_key_line_is_no_output :
  ~ @rewritten_directive plain_hosts (js "https://host/path/")
      (js "#EXT-X-KEY:METHOD=AES-128,URI=" ++ [34] ++ js "key.bin" ++ [34])
      (js "#EXT-X-KEY:METHOD=AES-128,URI=" ++ [34] ++ js "key.bin" ++ [34]).
Proof.
  unfold rewritten_directive.
  replace (if startsWith (js "#EXT-X-KEY:METHOD=AES-128,URI=" ++ [34] ++ js "key.bin" ++ [34])
                (js "#EXT-X-KEY") ||
              startsWith (js "#EXT-X-KEY:METHOD=AES-128,URI=" ++ [34] ++ js "key.bin" ++ [34])
                (js "#EXT-X-MAP")
           then first_quoted_URI
                  (js "#EXT-X-KEY:METHOD=AES-128,URI=" ++ [34] ++ js "key.bin" ++ [34])
           else None)
    with (Some (js "#EXT-X-KEY:METHOD=AES-128,", js "key.bin", @nil Z))
    by (vm_compute; reflexivity).
  intros (value & (seg & -> & _) & Heq). vm_compute in Heq. discriminate Heq.
Qed.

(** The attribute list is read as HLS writes it: a comma inside a quoted
    value does not separate, and the BANDWIDTH attribute may stand after
    other attributes. *)
Example declared_bandwidth_example :
  tag_attributes (js "#EXT-X-STREAM-INF:PROGRAM-ID=1,CODECS=" ++ [34] ++ js "avc1,mp4a" ++ [34] ++
                  js ",BANDWIDTH=1280000,RESOLUTION=640x360")
  = [js "PROGRAM-ID=1"; js "CODECS=" ++ [34] ++ js "avc1,mp4a" ++ [34];
     js "BANDWIDTH=1280000"; js "RESOLUTION=640x360"] /\
  declared_bandwidth (js "#EXT-X-STREAM-INF:PROGRAM-ID=1,CODECS=" ++ [34] ++ js "avc1,mp4a" ++
                      [34] ++ js ",BANDWIDTH=1280000,RESOLUTION=640x360") = Finite 1280000 /\
  plain_bandwidth_line (js "#EXT-X-STREAM-INF:PROGRAM-ID=1,CODECS=" ++ [34] ++ js "avc1,mp4a" ++
                        [34] ++ js ",BANDWIDTH=1280000,RESOLUTION=640x360") = true /\
  declared_bandwidth (js "#EXT-X-STREAM-INF:AVERAGE-BANDWIDTH=100") = Finite 0 /\
  currentBandwidth_of (js "#EXT-X-STREAM-INF:AVERAGE-BANDWIDTH=100") = Finite 100.
Proof. repeat split; vm_compute; reflexivity. Qed.
